(* ===== verification/_CoqProject ===== *)
-Q . S2P
Prelude.v
GoStrings.v
GoNet.v
GoTime.v
Dns.v
Samples.v
Trie.v
BlockList.v
Cache.v
CircularBuffer.v
Resolver.v
ResolverPool.v
Stats.v
Logger.v
Config.v
Util.v
Proxy.v
ProxySpec.v
ProxyConc.v
LogStream.v
ConfigLoad.v
Api.v
Server.v
Doh.v
Options.v
Acl.v
Json.v
JsonData.v
Persist.v
JsonRpc.v
DohServer.v
ApiHttp.v
LogEvents.v
AddrText.v
Startup.v
PoolCmd.v
TestUtil.v
