(* ===== verification/Prelude.v ===== *)
(** * Dinosaur DNS: verification development

    Dinosaur DNS is a caching DNS proxy: it answers the queries of a local network
    from local records, a cache or upstream resolvers, refuses names on a block
    list, and can be inspected and changed through a JSON-RPC service.  This
    library models the program's Go packages as Rocq functions, one file per
    package or part of one, and proves the properties that make them correct.

    ** How the program fits together, and where it is modelled

    - blocklist/ (Trie.v, BlockList.v).  A trie of labels holds block rules,
      pairs of a domain and a query type.  [Trie.level] is the node type, with one
      function per method; [BlockList] adds name splitting, the entry and hosts
      syntax and the line functions of the list readers.  [Rules] is the abstract
      content, a finite set of (labels, type) pairs.
    - cache/ (Cache.v).  [DNSCache] maps (name, type) to a stored message with its
      expiry.  [Get] takes both clock readings of the code, [AddRR] the random
      identifier and the readings ([Stamp]).
    - statshandler/ and api/log.go (CircularBuffer.v, Stats.v, LogStream.v).  The
      ring buffer of the query log with 64-bit indices, the log handler with its
      hooks, and the interleaving semantics of the log streams: goroutines that
      receive on channels, an insertion that calls the hooks under the lock.
    - logger/ (Logger.v).  The log handlers and where each level goes.
    - resolver/ (Resolver.v, ResolverPool.v).  The interface [Resolver] as a class,
      with the UDP, DoT and DoH resolvers as instances over an abstract network
      [Net].  ResolverPool.v gives the interleaving semantics of concurrent DoT
      queries that share one connection pool.
    - config/ (Config.v, ConfigLoad.v).  The records [UserConfig] and
      [ProxyConfig]; [GetProxyConfig] and [UpdateBlockList] in an error monad.
    - proxy/ (Proxy.v, ProxySpec.v, ProxyConc.v).  The query handler [MakeHandler]
      in a state and panic monad: access list, pause and block list, cache,
      failover over the upstreams with demotion, DNS64, log entry, close.
      ProxyConc.v is the interleaving semantics of [resolve]: the queries in
      flight share the cache, the upstream order and the error count, one step
      per locked region.
    - api/ (Api.v, Persist.v, ApiHttp.v, LogEvents.v).  The JSON-RPC methods, the
      change log and the merged configuration; its text as a file of the next
      start; the messages of the methods, the routes and the listener; the text of
      the log stream.
    - server/ (Server.v, Startup.v, AddrText.v, Acl.v).  The start sequence, the
      listeners, the flush and refresh loops, and a run of the server as a list of
      events on the shared state ([serve]); the printed access list, and what an
      access list admits.
    - doh/ (Doh.v, DohServer.v).  The DNS-over-HTTPS request handler on top of
      [MakeHandler]; certificates and the start of the servers; a proxy whose
      upstream is another instance.
    - util/ (Util.v, JsonRpc.v, TestUtil.v) and cmd/ (Options.v, JsonRpc.v,
      PoolCmd.v).  Line and URL readers, listen addresses, user ids; the merge of
      configuration file and flags, and [main]; the JSON-RPC clients; the checks of
      the test suite; the pool experiment.

    Prelude.v, GoStrings.v, GoNet.v, GoTime.v and Dns.v hold what the files share:
    Go's outcomes, integers, strings, addresses and times, and DNS messages.
    Json.v is encoding/json: values, UTF-8 and escapes, compact and indented
    printing, the parser; JsonData.v adds structs with json tags as tables of
    fields, and the configuration as one.
    Samples.v holds concrete instances of the external interfaces for witnesses.

    ** Modelling decisions

    - A Go call returns or panics: [res].  A panic of a handler ends the run: the
      deferred calls that a panicking goroutine still makes are not modelled.  An [error] is a value ([option string]).
      Go [int] and [uint32] arithmetic is written with its wrap-around ([int64],
      [u32]) where a value can leave the range; durations become seconds through
      the 64-bit float conversion of the library (GoTime.v).
    - Maps are [gmap], sets [gset]; where the code walks a map the order is left
      open (a relation such as [Dumps]) or shown not to matter.
    - Shared state is threaded explicitly.  A method that holds a lock for its
      whole body is one step.  Where the interleaving matters, in the DoT pool, the
      resolution of a query and the log streams, there is a step relation whose
      steps are the locked regions or channel operations; for the first two the
      sequential code is shown to be one of its runs.  The hook map of the log
      streams is accessed without a lock: there an access has a begin and an end,
      and the theorems are about the runs in which no write overlaps another
      access ([LogStream.apart]).
    - Time is an argument: each clock reading is a parameter or the next value of
      an arbitrary sequence, so no theorem assumes more of the clock than it says.
    - Code outside the repository is a class with the operations the program
      calls: [DnsLib] and [DnsWire] (github.com/miekg/dns), [Net] (sockets, TLS,
      HTTP), [Os] (files, interfaces, users), [GoUnicode] (case tables for
      non-ASCII text), [Crypto] (keys and certificates), [RpcServer] (gorilla/rpc
      with its json2 codec), [Mux] (gorilla/mux).  What is relied on is stated as
      [DnsLaws], [NetLaws], [RpcLaws] and [MuxLaws], each with a concrete instance.
      Of the replies of an upstream only the Go type is assumed ([ReplyTypes], TTLs
      are uint32 values): they may have another identifier and no question.  The
      decimal text of floats and of time stamps is a
      parameter where it is printed.
    - Recursion is structural: over labels, record lists, the idle connections of
      a pool (each turn of its loop takes one), the attempts left, the lines of a
      reader.  Fuel is used in three places: the eight groups of an IPv6 address,
      which is the loop bound of the parser itself; the JSON parser, whose fuel
      [Json.fuel], twice the length of the text and two, is enough
      ([Json.parse_fuel]: more changes nothing); and the retry loop of the pool
      experiment, which in fact does not end while dialling fails.

    ** What the theorems show

    - Handler (ProxySpec.v): a query panics exactly when an upstream reply without a
      question reaches the cache or DNS64 ([crashes]); every other one is answered
      at most once and logged exactly once; when it is dropped, when it is blocked
      and what it then gets; the result of resolution against a reference
      definition of failover; demotion as a closed form in the number of
      failures; reuse of cached replies; the DNS64 embedding; preservation of the
      state invariant [shared_ok] over any interleaving of resolutions
      (ProxyConc.v).
    - Server: the invariant over any run of queries, flushes, refreshes and API
      calls up to the first event that panics, with one log entry per query.
    - Block list: matching, additions and deletions against the set of rules,
      round trips of entries and dumps, subtree deletion, hosts lines.
    - Cache: the invariant of reachable caches, what is stored and for how long,
      ageing of TTLs, eviction, permanent records and their pointer records.
    - Query log: the buffer refines the list of inserted items, with its queries and
      the wrap of an index sum; log streams receive the items in order and without
      gaps while their hook is their own; an insertion ends, by a bound on the
      steps left ([work]), unless a client does not read what is written to it.
    - DoT pool: bounded attempts, no connection leaked or used twice, under every
      interleaving, and the sequential code is one of the runs.
    - Configuration: the block list is what the options ask for; a refresh is
      atomic; a configuration that loads satisfies the handler's invariant, from
      the command line on; how every option is merged from file and flags, which
      files are accepted and what each of their members sets (JsonData.v).
    - Access list (Acl.v, AddrText.v): a client is admitted exactly when its
      address has the leading bits of an entry; printed addresses and networks
      read back.
    - API: after calls with plain entries the change log and the merged
      configuration lose no rule in force, and have no other one if nothing was
      added twice; the text is what the next start reads; the excluded entries are
      shown as examples; the length of a pause.  Over the wire (ApiHttp.v): a call
      of the client runs the operation it names, once, and returns its result; of
      the other requests only /log changes something, the hooks.
    - JSON (Json.v): printed values parse to themselves, in both layouts, for
      well-formed numbers and UTF-8 strings; a printed value has no line break, so
      the events of a log stream are its entries (LogEvents.v).
    - Clients: when a call succeeds and what is an error; exit status and output.
    - DoH: GET and POST get the reply the DNS handler gives, also through the DoH
      resolver of another instance; which certificate the servers use.
    - Start (Startup.v): the parts that run are the configured ones, each started
      once, and the handler is there before the listeners.

    ** What is not modelled

    Sockets, TLS, the contents of certificates, the files of the dashboard, HTTP
    headers other than the content type, and the writing of log lines are library
    calls or output; so is [PrintTree].  util/user.go, the stub for other
    platforms, returns errors only.  Locks are modelled only as far as said above:
    a theorem about one handler call speaks of a call that is not interleaved with
    others, except for resolution, log streams and the DoT pool. *)

From stdpp Require Export prelude gmap strings list fin_maps.
From Stdlib Require Export ZArith Lia.

Set Default Goal Selector "!".

(** ** Go run-time outcomes

    A Go call either returns or panics (index out of range, nil dereference,
    integer division by zero).  [res] is that choice as a value; [error]
    values are ordinary results in Go, so they are carried inside [Ok]. *)
Inductive res (A : Type) : Type :=
  | Ok (a : A)
  | Panic.
Arguments Ok {A} a.
Arguments Panic {A}.

#[export] Instance res_ret : MRet res := @Ok.
#[export] Instance res_bind : MBind res := λ A B f m,
  match m with Ok a => f a | Panic => Panic end.
#[export] Instance res_fmap : FMap res := λ A B f m,
  match m with Ok a => Ok (f a) | Panic => Panic end.

#[export] Instance res_eq_dec {A} `{EqDecision A} : EqDecision (res A).
Proof. solve_decision. Defined.

(** A Go [error]: [None] is [nil], [Some msg] an error with that text. *)
Notation error := (option string) (only parsing).

(** ** Machine integers

    Go's [int] is 64 bit on the supported platforms; arithmetic wraps. *)
Declare Scope go_scope.
Delimit Scope go_scope with go.

Definition u32 (z : Z) : Z := z mod 2 ^ 32.
Definition int64 (z : Z) : Z := (z + 2 ^ 63) mod 2 ^ 64 - 2 ^ 63.

Notation "a +ᵢ b" := (int64 (a + b)) (at level 50, left associativity) : go_scope.
Notation "a -ᵢ b" := (int64 (a - b)) (at level 50, left associativity) : go_scope.
Notation "a *ᵢ b" := (int64 (a * b)) (at level 40, left associativity) : go_scope.

(** [n] fits in a Go [int]. *)
Definition is_int (n : Z) : Prop := (- 2 ^ 63 ≤ n < 2 ^ 63)%Z.

Lemma int64_id n : is_int n → int64 n = n.
Proof. unfold is_int, int64. intros. rewrite Z.mod_small; lia. Qed.

Lemma u32_id n : (0 ≤ n < 2 ^ 32)%Z → u32 n = n.
Proof. intros. unfold u32. by apply Z.mod_small. Qed.

(** ** Slices

    [s[i]] panics out of range; [idx] is the bounds-checked read. *)
Definition idx {A} (s : list A) (i : Z) : res A :=
  if (i <? 0)%Z then Panic
  else match s !! Z.to_nat i with Some a => Ok a | None => Panic end.

(** [s[i] = a] panics out of range. *)
Definition set_idx {A} (s : list A) (i : Z) (a : A) : res (list A) :=
  if ((i <? 0) || (Z.of_nat (length s) <=? i))%Z then Panic
  else Ok (<[Z.to_nat i := a]> s).

Lemma idx_Ok {A} (s : list A) (n : nat) a :
  s !! n = Some a → idx s (Z.of_nat n) = Ok a.
Proof.
  intros Hs. unfold idx. destruct (Z.ltb_spec (Z.of_nat n) 0); [lia|].
  by rewrite Nat2Z.id, Hs.
Qed.

Lemma set_idx_Ok {A} (s : list A) (n : nat) a :
  n < length s → set_idx s (Z.of_nat n) a = Ok (<[n := a]> s).
Proof.
  intros Hn. unfold set_idx.
  destruct (Z.ltb_spec (Z.of_nat n) 0); [lia|].
  destruct (Z.leb_spec (Z.of_nat (length s)) (Z.of_nat n)); [lia|].
  simpl. by rewrite Nat2Z.id.
Qed.

(** ** Proof automation *)
Create HintDb dino discriminated.

(** Case analysis on every [match] and [if] of the goal, keeping equations. *)
Ltac go_cases :=
  repeat (case_match; simplify_eq/=; try done).

(** Destruct the integer comparisons of the goal and the context. *)
Ltac zcmp :=
  repeat match goal with
  | |- context [(?a <? ?b)%Z] => destruct (Z.ltb_spec a b)
  | |- context [(?a <=? ?b)%Z] => destruct (Z.leb_spec a b)
  | |- context [(?a >? ?b)%Z] => rewrite (Z.gtb_ltb a b)
  | |- context [(?a >=? ?b)%Z] => rewrite (Z.geb_leb a b)
  | |- context [(?a =? ?b)%Z] => destruct (Z.eqb_spec a b)
  end.

(** ** Lists *)
Lemma list_elem_of_filter_bool {A} (f : A → bool) (l : list A) x :
  x ∈ List.filter f l ↔ f x = true ∧ x ∈ l.
Proof. rewrite !list_elem_of_In, filter_In. tauto. Qed.

(** Folding a commutative update over a finite map sees every entry; the
    pointwise characterisation of [map_fold] for unions of sets. *)
Lemma elem_of_map_fold_union {A B} `{Countable B}
    (f : string → A → gset B) (m : gmap string A) (x : B) :
  x ∈ map_fold (λ k v acc, f k v ∪ acc) ∅ m ↔ ∃ k v, m !! k = Some v ∧ x ∈ f k v.
Proof.
  revert m. apply (map_fold_weak_ind (λ r m, x ∈ r ↔ ∃ k v, m !! k = Some v ∧ x ∈ f k v)).
  - split; [set_solver|]. intros (k & v & Hk & _). by rewrite lookup_empty in Hk.
  - intros k v m r Hk IH. rewrite elem_of_union, IH. split.
    + intros [Hx | (k' & v' & Hk' & Hx)].
      * exists k, v. by rewrite lookup_insert_eq.
      * exists k', v'. rewrite lookup_insert_ne; [done|]. congruence.
    + intros (k' & v' & Hk' & Hx). rewrite lookup_insert in Hk'. case_decide; [naive_solver|].
      right. eauto.
Qed.

(** An injective image has the size of its source. *)
Lemma size_set_map_inj {A B} `{Countable A, Countable B} (f : A → B) `{!Inj (=) (=) f}
    (X : gset A) : size (set_map f X : gset B) = size X.
Proof.
  induction X as [|x X Hx IH] using set_ind_L; [done|].
  rewrite set_map_union_L, set_map_singleton_L, !size_union, !size_singleton, IH; set_solver.
Qed.

(** Lists seen from their end. *)
Lemma list_snoc_case {A} (l : list A) : l = [] ∨ ∃ l' x, l = l' ++ [x].
Proof. induction l as [|x l' _] using rev_ind; eauto. Qed.

Lemma Forall2_impl_elem {A B} (P Q : A → B → Prop) (l : list A) (k : list B) :
  Forall2 P l k → (∀ x y, x ∈ l → P x y → Q x y) → Forall2 Q l k.
Proof. induction 1; intros H'; constructor; set_solver. Qed.

(** Prefix and suffix of a list up to the first element that satisfies [f]. *)
Fixpoint take_until {A} (f : A → bool) (l : list A) : list A :=
  match l with
  | [] => []
  | x :: l => if f x then [] else x :: take_until f l
  end.
Fixpoint drop_until {A} (f : A → bool) (l : list A) : list A :=
  match l with
  | [] => []
  | x :: l' => if f x then l else drop_until f l'
  end.

(** [mapM] in the panic monad succeeds when every call does. *)
Lemma mapM_res_Ok {A B} (f : A → res B) (l : list A) (k : list B) :
  Forall2 (λ x y, f x = Ok y) l k → mapM f l = Ok k.
Proof. induction 1 as [|x y l k Hx _ IH]; [done|]. simpl. rewrite Hx. simpl. by rewrite IH. Qed.

(** ** Cardinalities *)
Lemma length_omap_bound {A B} (f : A → option B) (l : list A) : length (omap f l) ≤ length l.
Proof.
  induction l as [|x l IH]; [done|]. cbn. fold (omap f l). destruct (f x); simpl; lia.
Qed.

Lemma size_union_bound `{Countable A} (X Y : gset A) : size (X ∪ Y) ≤ size X + size Y.
Proof. rewrite size_union_alt. apply Nat.add_le_mono_l, subseteq_size. set_solver. Qed.

Lemma size_list_to_set_bound `{Countable A} (l : list A) :
  size (list_to_set l : gset A) ≤ length l.
Proof.
  induction l as [|x l IH]; [done|]. rewrite list_to_set_cons.
  pose proof (size_union_bound {[ x ]} (list_to_set l : gset A)) as Hu.
  rewrite size_singleton in Hu. simpl. lia.
Qed.
