(* ===== verification/GoStrings.v ===== *)
(** * The parts of Go's [strings], [regexp] and [fmt] the program uses

    A Go string is a byte sequence, here [string] (a list of 8-bit [ascii]).
    Case mapping and space trimming follow the library's own structure: a byte
    loop for ASCII input and the Unicode tables otherwise; the tables are the
    class [GoUnicode], so nothing is said about them. *)

From S2P Require Import Prelude.
From Stdlib Require Export Ascii.
From stdpp Require Export pretty.
Set Default Goal Selector "!".
Local Open Scope string_scope.
#[global] Arguments String.append : simpl nomatch.

(** The slow paths of [strings.ToLower], [ToUpper] and [TrimSpace], taken when
    a byte at or above [utf8.RuneSelf] is met. *)
Class GoUnicode := {
  Map_unicode_ToLower : string → string;
  Map_unicode_ToUpper : string → string;
  TrimFunc_IsSpace : string → string;
  TrimRightFunc_IsSpace : string → string;
}.

Section bytes.
Local Open Scope N_scope.

Definition byte_of (c : ascii) : N := Ascii.N_of_ascii c.
Definition isASCIIbyte (c : ascii) : bool := byte_of c <? 128.
Definition isUpperByte (c : ascii) : bool := (65 <=? byte_of c) && (byte_of c <=? 90).
Definition isLowerByte (c : ascii) : bool := (97 <=? byte_of c) && (byte_of c <=? 122).
Definition isDigitByte (c : ascii) : bool := (48 <=? byte_of c) && (byte_of c <=? 57).
Definition lowerByte (c : ascii) : ascii :=
  if isUpperByte c then Ascii.ascii_of_N (byte_of c + 32) else c.
Definition upperByte (c : ascii) : ascii :=
  if isLowerByte c then Ascii.ascii_of_N (byte_of c - 32) else c.
(** [asciiSpace]: tab, newline, vertical tab, form feed, return, space. *)
Definition isSpaceByte (c : ascii) : bool :=
  ((9 <=? byte_of c) && (byte_of c <=? 13)) || (byte_of c =? 32).
(** The class of regexp [\s]: no vertical tab. *)
Definition isReSpace (c : ascii) : bool := isSpaceByte c && negb (byte_of c =? 11).
End bytes.

Fixpoint str_map (f : ascii → ascii) (s : string) : string :=
  match s with "" => "" | String c s => String (f c) (str_map f s) end.

Fixpoint str_forallb (p : ascii → bool) (s : string) : bool :=
  match s with "" => true | String c s => p c && str_forallb p s end.

Definition isASCII (s : string) : bool := str_forallb isASCIIbyte s.

(** Does the byte [c] occur in [s]? *)
Fixpoint str_mem (c : ascii) (s : string) : bool :=
  match s with "" => false | String a s => bool_decide (a = c) || str_mem c s end.

Section strings.
Context {U : GoUnicode}.

Definition ToLower (s : string) : string :=
  if isASCII s then str_map lowerByte s else Map_unicode_ToLower s.

Definition ToUpper (s : string) : string :=
  if isASCII s then str_map upperByte s else Map_unicode_ToUpper s.

(** Second loop of [TrimSpace]: drop ASCII spaces from the end of the
    reversed string [r]; a non-ASCII byte defers to [TrimRightFunc]. *)
Fixpoint trim_end (r : list ascii) : string :=
  match r with
  | [] => ""
  | c :: r' =>
      if negb (isASCIIbyte c)
      then TrimRightFunc_IsSpace (String.string_of_list_ascii (rev r))
      else if isSpaceByte c then trim_end r'
      else String.string_of_list_ascii (rev r)
  end.

Fixpoint TrimSpace (s : string) : string :=
  match s with
  | "" => ""
  | String c s' =>
      if negb (isASCIIbyte c) then TrimFunc_IsSpace s
      else if isSpaceByte c then TrimSpace s'
      else trim_end (rev (String.list_ascii_of_string s))
  end.
End strings.

(** [strings.HasPrefix], [TrimPrefix], [TrimSuffix] (one-byte suffix). *)
Definition HasPrefix (s p : string) : bool := String.prefix p s.

Fixpoint str_drop (n : nat) (s : string) : string :=
  match n, s with S n, String _ s => str_drop n s | _, _ => s end.

Definition TrimPrefix (s p : string) : string :=
  if HasPrefix s p then str_drop (String.length p) s else s.

Fixpoint TrimSuffix1 (s : string) (c : ascii) : string :=
  match s with
  | "" => ""
  | String a "" => if bool_decide (a = c) then "" else s
  | String a s' => String a (TrimSuffix1 s' c)
  end.

(** [strings.Split(s, sep)] and [strings.SplitN(s, sep, 2)] for a one-byte [sep]. *)
Fixpoint Split (s : string) (c : ascii) : list string :=
  match s with
  | "" => [""]
  | String a s' =>
      if bool_decide (a = c) then "" :: Split s' c
      else match Split s' c with
           | h :: t => String a h :: t
           | [] => [String a ""]
           end
  end.

Fixpoint cut (s : string) (c : ascii) : option (string * string) :=
  match s with
  | "" => None
  | String a s' =>
      if bool_decide (a = c) then Some ("", s')
      else match cut s' c with Some (h, t) => Some (String a h, t) | None => None end
  end.

Definition SplitN2 (s : string) (c : ascii) : list string :=
  match cut s c with Some (a, b) => [a; b] | None => [s] end.

(** [strings.Join(l, sep)]. *)
Fixpoint Join (l : list string) (sep : string) : string :=
  match l with
  | [] => ""
  | [s] => s
  | s :: l' => s +:+ sep +:+ Join l' sep
  end.

(** [strings.Count(s, c)] for a one-byte [c]. *)
Fixpoint str_Count (s : string) (c : ascii) : nat :=
  match s with
  | "" => 0
  | String a s' => (if bool_decide (a = c) then 1 else 0) + str_Count s' c
  end.

(** ** Regular expressions used by the program *)

(** Drop a run of [\s]. *)
Fixpoint skip_ws (s : string) : string :=
  match s with
  | "" => ""
  | String c s' => if isReSpace c then skip_ws s' else s
  end.

(** The text before the first match of [\s+] and the text after that match. *)
Fixpoint cut_ws (s : string) : option (string * string) :=
  match s with
  | "" => None
  | String c s' =>
      if isReSpace c then Some ("", skip_ws s')
      else match cut_ws s' with Some (h, t) => Some (String c h, t) | None => None end
  end.

(** [regexp.MustCompile(`\s+`).Split(s, 3)]: at most two cuts, the last piece
    is the rest of the string. *)
Definition re_ws_Split3 (s : string) : list string :=
  match cut_ws s with
  | None => [s]
  | Some (a, r) =>
      match cut_ws r with
      | None => [a; r]
      | Some (b, r') => [a; b; r']
      end
  end.

(** [regexp.MustCompile(`:\d+$`).MatchString(s)]. *)
Fixpoint re_port (s : string) : bool :=
  match s with
  | "" => false
  | String c s' =>
      (bool_decide (c = ":"%char) && negb (bool_decide (s' = ""))
         && str_forallb isDigitByte s') || re_port s'
  end.

(** [fmt]'s [%d] of a byte and [%x] of a nibble. *)
Definition fmt_d (n : Z) : string := pretty (Z.to_N n).

Definition fmt_x (n : Z) : string :=
  match n with
  | 0%Z => "0" | 1%Z => "1" | 2%Z => "2" | 3%Z => "3"
  | 4%Z => "4" | 5%Z => "5" | 6%Z => "6" | 7%Z => "7"
  | 8%Z => "8" | 9%Z => "9" | 10%Z => "a" | 11%Z => "b"
  | 12%Z => "c" | 13%Z => "d" | 14%Z => "e" | _ => "f"
  end.

(** ** Lemmas *)

Lemma str_app_nil_r s : s +:+ "" = s.
Proof. induction s as [|c s IH]; [done|]. simpl. by rewrite IH. Qed.

Lemma str_app_assoc (a b c : string) : (a +:+ b) +:+ c = a +:+ (b +:+ c).
Proof. induction a as [|x a IH]; simpl; [done|]. by rewrite IH. Qed.

Lemma str_mem_app c s t : str_mem c (s +:+ t) = str_mem c s || str_mem c t.
Proof. induction s as [|a s IH]; [done|]. simpl. by rewrite IH, orb_assoc. Qed.

Lemma str_forallb_app p s t : str_forallb p (s +:+ t) = str_forallb p s && str_forallb p t.
Proof. induction s as [|c s IH]; [done|]. simpl. by rewrite IH, andb_assoc. Qed.

Lemma Split_nonempty s c : Split s c ≠ [].
Proof. destruct s; simpl; [done|]. case_bool_decide; [done|]. by destruct (Split s c). Qed.

(** A string without the separator is a single piece. *)
Lemma Split_nosep s c : str_mem c s = false → Split s c = [s].
Proof.
  induction s as [|a s IH]; [done|]. simpl. intros [Ha Hs]%orb_false_iff.
  rewrite Ha. by rewrite IH.
Qed.

(** No piece contains the separator. *)
Lemma Split_pieces s c : Forall (λ p, str_mem c p = false) (Split s c).
Proof.
  induction s as [|a s IH]; simpl; [by constructor|].
  destruct (bool_decide (a = c)) eqn:Ha; [by constructor|].
  destruct (Split s c) as [|h t] eqn:E; [by destruct (Split_nonempty s c)|].
  inversion IH; subst. constructor; [|done]. simpl. by rewrite Ha.
Qed.

Lemma Split_app s t c :
  str_mem c s = false → Split (s +:+ String c t) c = s :: Split t c.
Proof.
  induction s as [|a s IH]; simpl.
  - intros _. by rewrite bool_decide_eq_true_2.
  - intros [Ha Hs]%orb_false_iff. rewrite Ha. by rewrite IH.
Qed.

(** [Split] undoes [Join]. *)
Lemma Split_Join (l : list string) c :
  l ≠ [] → Forall (λ p, str_mem c p = false) l → Split (Join l (String c "")) c = l.
Proof.
  induction l as [|s l IH]; [done|]. intros _ Hl. inversion Hl as [|?? Hs Hl']; subst.
  destruct l as [|s' l]; simpl; [by apply Split_nosep|].
  rewrite Split_app by done. f_equal. by apply IH.
Qed.

(** [Join] undoes [Split]. *)
Lemma Join_Split s c : Join (Split s c) (String c "") = s.
Proof.
  induction s as [|a s IH]; simpl; [done|].
  case_bool_decide as Ha.
  - subst. destruct (Split s c) eqn:E; [by destruct (Split_nonempty s c)|].
    rewrite <-IH. done.
  - destruct (Split s c) as [|h t] eqn:E; [by destruct (Split_nonempty s c)|].
    rewrite <-IH. by destruct t.
Qed.

Lemma TrimSuffix1_snoc s c : TrimSuffix1 (s +:+ String c "") c = s.
Proof.
  induction s as [|a s IH]; simpl.
  - by rewrite bool_decide_eq_true_2.
  - destruct s as [|b s]; simpl in *.
    + by rewrite bool_decide_eq_true_2.
    + by rewrite IH.
Qed.

(** [TrimSuffix] removes one separator or nothing. *)
Lemma TrimSuffix1_cases s c :
  s = TrimSuffix1 s c +:+ String c "" ∨ TrimSuffix1 s c = s.
Proof.
  induction s as [|a s IH]; [by right|]. destruct s as [|b s].
  - simpl. case_bool_decide; subst; [by left|by right].
  - destruct IH as [IH|IH]; [left|right]; simpl in *; congruence.
Qed.

(** *** Case mapping *)

Lemma isASCII_lower_byte c : isASCIIbyte c = true → isASCIIbyte (lowerByte c) = true.
Proof. by destruct c as [[] [] [] [] [] [] [] []]. Qed.

Lemma lowerByte_idem c : lowerByte (lowerByte c) = lowerByte c.
Proof. by destruct c as [[] [] [] [] [] [] [] []]. Qed.

Lemma lowerByte_fixed c x :
  isUpperByte c = false → isLowerByte c = false →
  bool_decide (lowerByte x = c) = bool_decide (x = c).
Proof.
  intros HU HL. apply bool_decide_ext. unfold lowerByte.
  destruct (isUpperByte x) eqn:Hx; [|done]. split; [|congruence].
  intros <-. exfalso. clear HU. revert HL. revert Hx.
  by destruct x as [[] [] [] [] [] [] [] []].
Qed.

Lemma isASCII_str_lower s : isASCII s = true → isASCII (str_map lowerByte s) = true.
Proof.
  unfold isASCII. induction s as [|c s IH]; [done|]. simpl. intros [Hc Hs]%andb_true_iff.
  rewrite isASCII_lower_byte by done. by apply IH.
Qed.

Lemma str_map_lower_idem s : str_map lowerByte (str_map lowerByte s) = str_map lowerByte s.
Proof. induction s as [|c s IH]; [done|]. simpl. by rewrite lowerByte_idem, IH. Qed.

Lemma ToLower_ASCII `{GoUnicode} s : isASCII s = true → ToLower s = str_map lowerByte s.
Proof. intros Hs. unfold ToLower. by rewrite Hs. Qed.

Lemma ToLower_idem_ASCII `{GoUnicode} s : isASCII s = true → ToLower (ToLower s) = ToLower s.
Proof.
  intros Hs. rewrite (ToLower_ASCII s) by done.
  rewrite ToLower_ASCII by (by apply isASCII_str_lower). apply str_map_lower_idem.
Qed.

Lemma isASCII_app s t : isASCII (s +:+ t) = isASCII s && isASCII t.
Proof.
  unfold isASCII. induction s as [|c s IH]; [done|]. simpl. by rewrite IH, andb_assoc.
Qed.

(** Lower-casing and trimming a caseless separator commute. *)
Lemma TrimSuffix1_str_lower s c :
  isUpperByte c = false → isLowerByte c = false →
  TrimSuffix1 (str_map lowerByte s) c = str_map lowerByte (TrimSuffix1 s c).
Proof.
  intros HU HL. induction s as [|a s IH]; [done|]. destruct s as [|b s]; simpl in *.
  - rewrite lowerByte_fixed by done. by case_bool_decide.
  - by rewrite IH.
Qed.

Lemma isASCII_TrimSuffix1 s c : isASCII s = true → isASCII (TrimSuffix1 s c) = true.
Proof.
  intros Hs. destruct (TrimSuffix1_cases s c) as [E|E]; [|by rewrite E].
  rewrite E in Hs. rewrite isASCII_app in Hs. by apply andb_true_iff in Hs as [? _].
Qed.

(** *** White space *)

Definition no_ws (s : string) : Prop := str_forallb (λ c, negb (isReSpace c)) s = true.
Definition all_ws (s : string) : Prop := str_forallb isReSpace s = true.

Lemma skip_ws_app w r :
  all_ws w → (∀ c s, r = String c s → isReSpace c = false) → skip_ws (w +:+ r) = r.
Proof.
  unfold all_ws. induction w as [|c w IH]; simpl.
  - intros _ Hr. destruct r as [|c s]; [done|]. simpl. by rewrite (Hr c s).
  - intros [Hc Hw]%andb_true_iff Hr. rewrite Hc. by apply IH.
Qed.

(** A token, a run of white space, and the rest. *)
Lemma cut_ws_token a c w r :
  no_ws a → isReSpace c = true → all_ws w →
  (∀ c' s, r = String c' s → isReSpace c' = false) →
  cut_ws (a +:+ String c (w +:+ r)) = Some (a, r).
Proof.
  unfold no_ws. intros Ha Hc Hw Hr. induction a as [|x a IH]; simpl in *.
  - rewrite Hc. by rewrite skip_ws_app.
  - apply andb_true_iff in Ha as [Hx%negb_true_iff Ha]. by rewrite Hx, IH.
Qed.

Lemma cut_ws_none a : no_ws a → cut_ws a = None.
Proof.
  unfold no_ws. induction a as [|x a IH]; simpl; [done|].
  intros [Hx%negb_true_iff Ha]%andb_true_iff. by rewrite Hx, IH.
Qed.

Lemma str_forallb_mem p c s : str_forallb p s = true → p c = false → str_mem c s = false.
Proof.
  intros Hs Hc. induction s as [|a s IH]; [done|]. simpl in *. apply andb_true_iff in Hs as [Ha Hs].
  rewrite IH by done. rewrite bool_decide_eq_false_2; [done|]. intros ->. congruence.
Qed.

Lemma str_forallb_Join p l sep :
  str_forallb p sep = true → Forall (λ s, str_forallb p s = true) l → str_forallb p (Join l sep) = true.
Proof.
  intros Hs. induction 1 as [|s l Hx Hl IH]; [done|]. simpl. destruct l; [done|]. by rewrite !str_forallb_app, Hx, Hs.
Qed.
