(* ===== verification/GoNet.v ===== *)
(** * The parts of Go's [net] and [net/netip] the program uses

    [net.IP] is a byte slice (length 4, 16, or 0 for [nil]); bytes are [Z] in
    [0, 256).  The parsers follow [net/netip]'s loops; where Go reports one of
    several parse errors the result here is [None]. *)

From S2P Require Import Prelude GoStrings.
Set Default Goal Selector "!".
Local Open Scope string_scope.

Notation IP := (list Z) (only parsing).

Record IPNet := mkIPNet { IPNet_IP : IP; IPNet_Mask : list Z }.

#[export] Instance IPNet_eq_dec : EqDecision IPNet.
Proof. solve_decision. Defined.

Definition v4InV6Prefix : list Z := [0; 0; 0; 0; 0; 0; 0; 0; 0; 0; 255; 255]%Z.

(** [nil] is the empty list. *)
Definition To4 (ip : IP) : IP :=
  if bool_decide (length ip = 4) then ip
  else if bool_decide (length ip = 16) && bool_decide (take 12 ip = v4InV6Prefix)
       then drop 12 ip else [].

Definition To16 (ip : IP) : IP :=
  if bool_decide (length ip = 4) then (v4InV6Prefix ++ ip)%list
  else if bool_decide (length ip = 16) then ip else [].

Definition is_nil (ip : IP) : bool := bool_decide (ip = []).

Definition networkNumberAndMask (n : IPNet) : IP * list Z :=
  let ip := if is_nil (To4 (IPNet_IP n)) then IPNet_IP n else To4 (IPNet_IP n) in
  if is_nil (To4 (IPNet_IP n)) && negb (bool_decide (length ip = 16)) then ([], [])
  else
    let m := IPNet_Mask n in
    if bool_decide (length m = 4) then
      (if bool_decide (length ip = 4) then (ip, m) else ([], []))
    else if bool_decide (length m = 16) then
      (if bool_decide (length ip = 4) then (ip, drop 12 m) else (ip, m))
    else ([], []).

(** The byte loop of [Contains]. *)
Fixpoint masked_eq (nn ip m : list Z) : bool :=
  match nn, ip, m with
  | [], [], _ => true
  | a :: nn, b :: ip, k :: m => (Z.land a k =? Z.land b k)%Z && masked_eq nn ip m
  | _, _, _ => false
  end.

Definition Contains (n : IPNet) (ip : IP) : bool :=
  let '(nn, m) := networkNumberAndMask n in
  let ip := if is_nil (To4 ip) then ip else To4 ip in
  if bool_decide (length ip = length nn) then masked_eq nn ip m else false.

(** [net.CIDRMask]; [bits] is 32 or 128 at the callers. *)
Fixpoint mask_bytes (k : nat) (n : Z) : list Z :=
  match k with
  | O => []
  | S k =>
      if (8 <=? n)%Z then 255%Z :: mask_bytes k (n - 8)
      else (255 - Z.shiftr 255 n)%Z :: mask_bytes k 0
  end.

Definition CIDRMask (ones bits : Z) : list Z :=
  mask_bytes (Z.to_nat (bits / 8)) ones.

(** [IPMask.Size]: leading ones and total bits, [(0, 0)] when not canonical. *)
Definition Mask_Size (m : list Z) : Z * Z :=
  let bits := (8 * Z.of_nat (length m))%Z in
  match List.find (λ k, bool_decide (mask_bytes (length m) k = m)) (seqZ 0 (bits + 1)) with
  | Some k => (k, bits)
  | None => (0, 0)%Z
  end.

(** [IP.Mask]. *)
Definition IP_Mask (ip : IP) (mask : list Z) : IP :=
  let mask := if bool_decide (length mask = 16) && bool_decide (length ip = 4)
                   && forallb (Z.eqb 255) (take 12 mask) then drop 12 mask else mask in
  let ip := if bool_decide (length mask = 4) && bool_decide (length ip = 16)
                 && bool_decide (take 12 ip = v4InV6Prefix) then drop 12 ip else ip in
  if bool_decide (length ip = length mask) then zip_with Z.land ip mask else [].

(** ** Parsing *)

(** One decimal field of a dotted quad: no leading zero, at most 255. *)
Fixpoint dec_go (s : string) (acc : Z) : Z :=
  match s with
  | "" => acc
  | String c s => dec_go s (acc * 10 + (Z.of_N (byte_of c) - 48))%Z
  end.

Definition ipv4_field (s : string) : option Z :=
  if bool_decide (s = "") || negb (str_forallb isDigitByte s)
     || (Nat.ltb 3 (String.length s))
     || (HasPrefix s "0" && negb (bool_decide (s = "0"))) then None
  else if (dec_go s 0 <=? 255)%Z then Some (dec_go s 0) else None.

Definition parseIPv4 (s : string) : option (list Z) :=
  match Split s "." with
  | [a; b; c; d] =>
      a ← ipv4_field a; b ← ipv4_field b; c ← ipv4_field c; d ← ipv4_field d;
      Some [a; b; c; d]
  | _ => None
  end.

Definition hex_digit (c : ascii) : option Z :=
  let n := Z.of_N (byte_of c) in
  if isDigitByte c then Some (n - 48)%Z
  else if ((97 <=? n) && (n <=? 102))%Z then Some (n - 87)%Z
  else if ((65 <=? n) && (n <=? 70))%Z then Some (n - 55)%Z
  else None.

(** The hex digits at the front of [s]: value, count, rest. *)
Fixpoint hex_run (s : string) (acc : Z) (n : nat) : Z * nat * string :=
  match s with
  | "" => (acc, n, "")
  | String c s' =>
      match hex_digit c with
      | Some d => hex_run s' (acc * 16 + d)%Z (S n)
      | None => (acc, n, s)
      end
  end.

(** The group loop of [parseIPv6]: [ip] are the bytes read so far, [ell] the
    position of "::"; at most eight groups, which is the fuel. *)
Fixpoint ipv6_groups (fuel : nat) (s : string) (ip : list Z) (ell : option nat)
    : option (list Z * option nat * string) :=
  match fuel with
  | O => Some (ip, ell, s)
  | S fuel =>
      let '(acc, n, r) := hex_run s 0 0 in
      if (Nat.ltb 4 n) || (Nat.eqb n 0) then None
      else if HasPrefix r "." then
        if (negb (bool_decide (is_Some ell)) && negb (Nat.eqb (length ip) 12)) || Nat.ltb 12 (length ip)
        then None
        else q ← parseIPv4 s; Some ((ip ++ q)%list, ell, "")
      else
        let ip := (ip ++ [Z.shiftr acc 8; Z.land acc 255])%list in
        match r with
        | "" => Some (ip, ell, "")
        | String c r' =>
            if negb (bool_decide (c = ":"%char)) || bool_decide (r' = "") then None
            else if HasPrefix r' ":" then
              if bool_decide (is_Some ell) then None
              else
                let r'' := str_drop 1 r' in
                if bool_decide (r'' = "") then Some (ip, Some (length ip), "")
                else ipv6_groups fuel r'' ip (Some (length ip))
            else ipv6_groups fuel r' ip ell
        end
  end.

(** Address part and zone; the zone separator must be followed by a zone. *)
Definition parseIPv6 (s : string) : option (list Z * string) :=
  let '(a, zone) := match cut s "%" with
                    | Some (a, z) => (a, Some z) | None => (s, None) end in
  if bool_decide (zone = Some "") then None
  else
    let z := default "" zone in
    let '(ell, a) := if HasPrefix a "::" then (Some 0, str_drop 2 a) else (None, a) in
    if bool_decide (ell = Some 0) && bool_decide (a = "") then Some (replicate 16 0%Z, z)
    else
      '(ip, ell, r) ← ipv6_groups 8 a [] ell;
      if negb (bool_decide (r = "")) then None
      else if Nat.ltb (length ip) 16 then
        match ell with
        | None => None
        | Some e => Some ((take e ip ++ replicate (16 - length ip) 0%Z ++ drop e ip)%list, z)
        end
      else if bool_decide (is_Some ell) then None else Some (ip, z).

(** [netip.ParseAddr]: 4 or 16 bytes and the zone; the first of ['.'], [':'],
    ['%'] decides. *)
Fixpoint ParseAddr_kind (s : string) : option ascii :=
  match s with
  | "" => None
  | String c s =>
      if bool_decide (c = "."%char) || bool_decide (c = ":"%char) || bool_decide (c = "%"%char)
      then Some c else ParseAddr_kind s
  end.

Definition netip_ParseAddr (s : string) : option (list Z * string) :=
  match ParseAddr_kind s with
  | Some "."%char => q ← parseIPv4 s; Some (q, "")
  | Some ":"%char => parseIPv6 s
  | _ => None
  end.

(** [net.ParseIP]: 16 bytes, or [nil] on error or a zone. *)
Definition ParseIP (s : string) : IP :=
  match netip_ParseAddr s with
  | Some (ip, "") => To16 ip
  | _ => []
  end.

(** [net.ParseCIDR]: the network only, which is all the callers keep. *)
Definition ParseCIDR (s : string) : option (IP * IPNet) :=
  '(addr, mask) ← cut s "/";
  match netip_ParseAddr addr with
  | Some (ip, "") =>
      let n := dec_go mask 0 in
      let bits := (8 * Z.of_nat (length ip))%Z in
      if bool_decide (mask = "") || negb (str_forallb isDigitByte mask) || (bits <? n)%Z
      then None
      else Some (To16 ip, mkIPNet (IP_Mask (To16 ip) (CIDRMask n bits)) (CIDRMask n bits))
  | _ => None
  end.

(** ** Host and port *)

(** Split at the last [':']. *)
Fixpoint cut_last (s : string) (c : ascii) : option (string * string) :=
  match s with
  | "" => None
  | String a s' =>
      match cut_last s' c with
      | Some (h, t) => Some (String a h, t)
      | None => if bool_decide (a = c) then Some ("", s') else None
      end
  end.

(** [net.SplitHostPort]: [None] is one of its address errors. *)
Definition SplitHostPort (hp : string) : option (string * string) :=
  '(h, port) ← cut_last hp ":";
  if HasPrefix hp "[" then
    '(host, rest) ← cut (str_drop 1 hp) "]";
    if bool_decide (rest = String ":" port) && negb (str_mem "[" host)
       && negb (str_mem "[" rest) && negb (str_mem "]" rest)
    then Some (host, port) else None
  else if str_mem ":" h || str_mem "[" hp || str_mem "]" hp then None
  else Some (h, port).

(** ** Printing *)

(** A 16-bit group in lower-case hexadecimal without leading zeros. *)
Definition fmt_hex16 (n : Z) : string :=
  let d k := fmt_x (Z.land (Z.shiftr n (4 * k)) 15) in
  if (n <? 16)%Z then d 0%Z
  else if (n <? 256)%Z then d 1%Z +:+ d 0%Z
  else if (n <? 4096)%Z then d 2%Z +:+ d 1%Z +:+ d 0%Z
  else d 3%Z +:+ d 2%Z +:+ d 1%Z +:+ d 0%Z.

Fixpoint groups16 (ip : IP) : list Z :=
  match ip with a :: b :: ip => (256 * a + b)%Z :: groups16 ip | _ => [] end.

Fixpoint zero_run (gs : list Z) : nat :=
  match gs with 0%Z :: gs => S (zero_run gs) | _ => 0 end.

(** The first longest run of at least two zero groups: start and length. *)
Definition longest_zero_run (gs : list Z) : option (nat * nat) :=
  foldl (λ best i, let l := zero_run (drop i gs) in
                   if Nat.leb 2 l && Nat.ltb (match best with Some (_, b) => b | None => 0 end) l
                   then Some (i, l) else best) None (seq 0 (length gs)).

(** [IP.String]: dotted for IPv4 (also mapped), else the groups with the longest
    zero run written "::"; [nil] prints as "<nil>". *)
Definition IP_String (ip : IP) : string :=
  if negb (is_nil (To4 ip)) then Join (fmt_d <$> To4 ip) "."
  else if bool_decide (length ip = 16) then
    let gs := groups16 ip in
    match longest_zero_run gs with
    | Some (i, l) => Join (fmt_hex16 <$> take i gs) ":" +:+ "::" +:+ Join (fmt_hex16 <$> drop (i + l) gs) ":"
    | None => Join (fmt_hex16 <$> gs) ":"
    end
  else if is_nil ip then "<nil>" else "?" +:+ Join ((λ b, fmt_x (b / 16) +:+ fmt_x (b mod 16)) <$> ip) "".

(** ** Lemmas *)
Lemma length_mask_bytes k n : length (mask_bytes k n) = k.
Proof. revert n. induction k as [|k IH]; intros n; [done|]. simpl. by case_match; simpl; rewrite IH. Qed.

(** A network whose mask has 128 bits has a 16-byte address. *)
Lemma ParseCIDR_128 s ip n ones :
  ParseCIDR s = Some (ip, n) → Mask_Size (IPNet_Mask n) = (ones, 128%Z) → length (IPNet_IP n) = 16.
Proof.
  unfold ParseCIDR. destruct (cut s "/") as [[a m]|]; simpl; [|done].
  destruct (netip_ParseAddr a) as [[ip' z]|]; [|done]. destruct z; [|done]. case_match; [done|].
  intros [= <- <-]. simpl. set (mask := CIDRMask _ _).
  assert (Hm : length mask = length ip').
  { unfold mask, CIDRMask. rewrite length_mask_bytes. rewrite Z.mul_comm, Z.div_mul by lia. lia. }
  intros Hs. assert (H16 : length ip' = 16).
  { unfold Mask_Size in Hs. destruct (List.find _ _); [|done]. injection Hs as _ Hs. lia. }
  assert (Ht : To16 ip' = ip').
  { unfold To16. rewrite (bool_decide_eq_false_2 (length ip' = 4)) by lia.
    by rewrite bool_decide_eq_true_2 by lia. }
  rewrite Ht. unfold IP_Mask. rewrite (bool_decide_eq_false_2 (length ip' = 4)) by lia.
  rewrite andb_false_r. simpl. rewrite (bool_decide_eq_false_2 (length mask = 4)) by lia. simpl.
  rewrite bool_decide_eq_true_2 by lia. rewrite length_zip_with. lia.
Qed.
