(* ===== verification/GoTime.v ===== *)
(** * The parts of Go's [time] the program uses

    A [time.Time] is the number of nanoseconds since the zero time (1 January
    of year 1), a [time.Duration] a 64-bit number of nanoseconds.  Readings of
    the clock are inputs of the model.  [Duration.Seconds] is a float64: its two
    roundings are modelled, because the cache truncates the result to uint32. *)

From S2P Require Import Prelude.
Set Default Goal Selector "!".
Local Open Scope Z_scope.

Notation Time := Z (only parsing).
Notation Duration := Z (only parsing).

Definition Second : Duration := 1000000000.
Definition zero_time : Time := 0.
Definition IsZero (t : Time) : bool := t =? 0.
Definition After (t u : Time) : bool := u <? t.
Definition Before (t u : Time) : bool := t <? u.
Definition Time_Add (t : Time) (d : Duration) : Time := t + d.

(** [t.Sub(u)] saturates at the ends of the 64-bit range. *)
Definition Sub (t u : Time) : Duration := Z.max (- 2 ^ 63) (Z.min (2 ^ 63 - 1) (t - u)).

(** ** float64 rounding of non-negative rationals below 2^53 *)

(** Round [a / b] to the nearest integer, ties to even. *)
Definition rne (a b : Z) : Z :=
  let q := a / b in
  let r := a mod b in
  if 2 * r <? b then q else if b <? 2 * r then q + 1 else q + q mod 2.

(** The number of fraction bits of the float64 nearest to [a / b]: 52 minus the
    binary exponent.  The quotients met here are 0 or at least 2^-30. *)
Definition frac_bits (a b : Z) : Z := Z.max 0 (52 - (Z.log2 (a * 2 ^ 60 / b) - 60)).

(** [float64(nsec) / 1e9], as a numerator over [2 ^ frac_bits]. *)
Definition float_frac (nsec : Z) : Z * Z :=
  let k := frac_bits nsec Second in (rne (nsec * 2 ^ k) Second, k).

(** The integer part of [d.Seconds()] for [d >= 0]:
    [float64(d / Second) + float64(d % Second) / 1e9], truncated. *)
Definition seconds_trunc (d : Duration) : Z :=
  let sec := d / Second in
  let '(m, k) := float_frac (d mod Second) in
  let a := sec * 2 ^ k + m in
  let k' := frac_bits a (2 ^ k) in
  rne (a * 2 ^ k') (2 ^ k) / 2 ^ k'.

(** [uint32(d.Seconds())].  For a negative duration Go leaves the conversion to
    the implementation; this is the amd64 result. *)
Definition uint32_Seconds (d : Duration) : Z :=
  if d <? 0 then u32 (- seconds_trunc (- d)) else u32 (seconds_trunc d).

(** ** Rounding lemmas *)

Lemma rne_ge a b : 0 < b → a / b <= rne a b.
Proof. intros. unfold rne. pose proof (Z.mod_pos_bound (a / b) 2). zcmp; lia. Qed.

(** A half-unit below [c + 1] rounds to at most [c]. *)
Lemma rne_lt a b c : 0 < b → 2 * a < (2 * c + 1) * b → rne a b <= c.
Proof.
  intros Hb Ha. unfold rne.
  pose proof (Z.div_mod a b ltac:(lia)) as E. pose proof (Z.mod_pos_bound a b Hb).
  pose proof (Z.mod_pos_bound (a / b) 2). zcmp; nia.
Qed.

Lemma rne_le a b c : 0 < b → a <= c * b → rne a b <= c.
Proof. intros Hb Ha. apply rne_lt; [done|]. nia. Qed.

Lemma frac_bits_nonneg a b : 0 <= frac_bits a b.
Proof. unfold frac_bits. lia. Qed.

(** A quotient below [2 ^ n] keeps at least [53 - n] fraction bits. *)
Lemma frac_bits_ge a b n :
  0 < b → 0 <= a → 0 <= n <= 53 → a < 2 ^ n * b → 53 - n <= frac_bits a b.
Proof.
  intros Hb Ha Hn Hlt. unfold frac_bits.
  assert (a * 2 ^ 60 / b < 2 ^ (n + 60)) as Hq.
  { apply Z.div_lt_upper_bound; [done|]. rewrite Z.pow_add_r by lia. nia. }
  assert (0 <= a * 2 ^ 60 / b) as Hq0 by (apply Z.div_pos; nia).
  destruct (Z.eq_dec (a * 2 ^ 60 / b) 0) as [->|Hne].
  - change (Z.log2 0) with 0. lia.
  - apply Z.log2_lt_pow2 in Hq; lia.
Qed.

Lemma pow2_pos k : 0 <= k → 0 < 2 ^ k.
Proof. intros. by apply Z.pow_pos_nonneg. Qed.

(** The rounded fraction stays within [0, 1], and strictly below 1 by nearly a
    nanosecond. *)
Lemma float_frac_bounds nsec :
  0 <= nsec < Second →
  let '(m, k) := float_frac nsec in
  53 <= k ∧ 0 <= m ∧ (nsec = 0 → m = 0) ∧ Second * m <= (Second - 1) * 2 ^ k + Second.
Proof.
  unfold float_frac, Second. intros Hn.
  pose proof (frac_bits_nonneg nsec 1000000000) as Hk0.
  assert (53 <= frac_bits nsec 1000000000) as Hk by (apply (frac_bits_ge _ _ 0); lia).
  set (k := frac_bits nsec 1000000000) in *. pose proof (pow2_pos k Hk0) as HP.
  split_and!; [done| | |].
  - etrans; [|apply rne_ge; lia]. apply Z.div_pos; nia.
  - intros ->. done.
  - pose proof (rne_le (nsec * 2 ^ k) 1000000000 (nsec * 2 ^ k / 1000000000 + 1)) as H.
    pose proof (Z.div_mod (nsec * 2 ^ k) 1000000000 ltac:(lia)) as E.
    pose proof (Z.mod_pos_bound (nsec * 2 ^ k) 1000000000 ltac:(lia)). nia.
Qed.

(** Truncation never exceeds a whole number of seconds that bounds the duration. *)
Lemma seconds_trunc_le d n : 0 <= d → d <= n * Second → seconds_trunc d <= n.
Proof.
  intros Hd Hn. unfold seconds_trunc.
  pose proof (Z.mod_pos_bound d Second ltac:(done)) as Hm.
  pose proof (Z.div_mod d Second ltac:(done)) as E.
  pose proof (float_frac_bounds (d mod Second) Hm) as H.
  destruct (float_frac (d mod Second)) as [m k]. destruct H as (Hk & Hm0 & Hz & Hle).
  set (sec := d / Second) in *.
  pose proof (pow2_pos k ltac:(lia)) as HP.
  set (a := sec * 2 ^ k + m). pose proof (frac_bits_nonneg a (2 ^ k)) as Hk'.
  pose proof (pow2_pos _ Hk') as HP'.
  assert (a <= n * 2 ^ k) as Ha.
  { subst a. destruct (Z.eq_dec (d mod Second) 0) as [E0|E0].
    - rewrite (Hz E0). unfold Second in *. nia.
    - assert (sec + 1 <= n) by (unfold Second in *; nia).
      assert (2 ^ 53 <= 2 ^ k) by (apply Z.pow_le_mono_r; lia).
      unfold Second in *. nia. }
  apply Z.div_le_upper_bound; [done|]. apply rne_le; [done|]. nia.
Qed.

(** Truncation never falls below the whole seconds of the duration. *)
Lemma seconds_trunc_ge d : 0 <= d → d / Second <= seconds_trunc d.
Proof.
  intros Hd. unfold seconds_trunc.
  pose proof (Z.mod_pos_bound d Second ltac:(done)) as Hm.
  pose proof (float_frac_bounds (d mod Second) Hm) as H.
  destruct (float_frac (d mod Second)) as [m k]. destruct H as (Hk & Hm0 & _ & _).
  set (sec := d / Second). pose proof (pow2_pos k ltac:(lia)) as HP.
  set (a := sec * 2 ^ k + m). pose proof (frac_bits_nonneg a (2 ^ k)) as Hk'.
  pose proof (pow2_pos _ Hk') as HP'.
  apply Z.div_le_lower_bound; [done|]. etrans; [|by apply rne_ge].
  apply Z.div_le_lower_bound; [done|]. subst a. nia.
Qed.

(** Below 2^23 seconds (97 days) the truncated float is the integer quotient. *)
Lemma seconds_trunc_exact d : 0 <= d < 2 ^ 23 * Second → seconds_trunc d = d / Second.
Proof.
  intros Hd. pose proof (seconds_trunc_ge d ltac:(lia)) as Hge.
  enough (seconds_trunc d <= d / Second) by lia. clear Hge. unfold seconds_trunc.
  pose proof (Z.mod_pos_bound d Second ltac:(done)) as Hm.
  pose proof (Z.div_mod d Second ltac:(done)) as E.
  pose proof (float_frac_bounds (d mod Second) Hm) as H.
  destruct (float_frac (d mod Second)) as [m k]. destruct H as (Hk & Hm0 & _ & Hle).
  assert (0 <= d / Second < 2 ^ 23) as Hsec
    by (split; [apply Z.div_pos; unfold Second; lia|apply Z.div_lt_upper_bound; unfold Second in *; lia]).
  set (sec := d / Second) in *. pose proof (pow2_pos k ltac:(lia)) as HP.
  assert (2 ^ 53 <= 2 ^ k) as HP53 by (apply Z.pow_le_mono_r; lia).
  set (B := 2 ^ k) in *. set (a := sec * B + m).
  assert (m < B) as HmB by (unfold Second in *; lia).
  assert (30 <= frac_bits a B) as Hk'.
  { apply (frac_bits_ge _ _ 23); subst a; nia. }
  set (k' := frac_bits a B) in *.
  assert (2 ^ 30 <= 2 ^ k') as HP' by (apply Z.pow_le_mono_r; lia).
  set (P := 2 ^ k') in *.
  assert (rne (a * P) B <= (sec + 1) * P - 1) as Hr.
  { apply rne_lt; [lia|]. subst a. unfold Second in *.
    assert (B < 2 * P * (B - m)); [|nia].
    assert (B - 1000000000 <= 1000000000 * (B - m)) by lia. nia. }
  enough (rne (a * P) B / P < sec + 1) by lia. apply Z.div_lt_upper_bound; lia.
Qed.
