(* ===== verification/Dns.v ===== *)
(** * DNS messages and the [github.com/miekg/dns] interface

    The data types are the fields of [dns.Msg], [dns.Question], [dns.RR_Header]
    and the resource records the program distinguishes by a type switch.  The
    functions of the package are not part of this repository: they are the
    operations of the class [DnsLib], and the documented behaviour that the
    program relies on is the class [DnsLaws]. *)

From S2P Require Import Prelude GoStrings GoNet.
Set Default Goal Selector "!".
Local Open Scope string_scope.

(** ** Protocol constants (IANA numbers) *)
Definition TypeA : Z := 1.
Definition TypeNS : Z := 2.
Definition TypePTR : Z := 12.
Definition TypeAAAA : Z := 28.
Definition TypeOPT : Z := 41.
Definition TypeANY : Z := 255.
Definition ClassINET : Z := 1.
Definition RcodeSuccess : Z := 0.
Definition RcodeServerFailure : Z := 2.
Definition RcodeNameError : Z := 3.

(** ** Messages *)
Record RR_Header := mkHdr {
  hdr_Name : string;
  Rrtype : Z;
  hdr_Class : Z;
  Ttl : Z;                       (* uint32 *)
}.

(** The concrete types of the interface [dns.RR] that the program inspects;
    every other type keeps its header and an opaque payload. *)
Inductive RR :=
  | RR_A (Hdr : RR_Header) (A : IP)
  | RR_AAAA (Hdr : RR_Header) (AAAA : IP)
  | RR_PTR (Hdr : RR_Header) (Ptr : string)
  | RR_other (Hdr : RR_Header) (rdata : string).

Definition Header (rr : RR) : RR_Header :=
  match rr with RR_A h _ | RR_AAAA h _ | RR_PTR h _ | RR_other h _ => h end.

(** [rr.Header().Ttl = t]. *)
Definition set_Ttl (rr : RR) (t : Z) : RR :=
  let h := Header rr in
  let h := mkHdr (hdr_Name h) (Rrtype h) (hdr_Class h) t in
  match rr with
  | RR_A _ a => RR_A h a
  | RR_AAAA _ a => RR_AAAA h a
  | RR_PTR _ p => RR_PTR h p
  | RR_other _ d => RR_other h d
  end.

Record Question := mkQuestion { q_Name : string; Qtype : Z; Qclass : Z }.

Record Msg := mkMsg {
  Id : Z;
  Response : bool;
  Opcode : Z;
  Authoritative : bool;
  Truncated : bool;
  RecursionDesired : bool;
  RecursionAvailable : bool;
  Zero : bool;
  AuthenticatedData : bool;
  CheckingDisabled : bool;
  Rcode : Z;
  Compress : bool;
  Questions : list Question;
  Answer : list RR;
  Ns : list RR;
  Extra : list RR;
}.

#[export] Instance RR_Header_eq_dec : EqDecision RR_Header.
Proof. solve_decision. Defined.
#[export] Instance RR_eq_dec : EqDecision RR.
Proof. solve_decision. Defined.
#[export] Instance Question_eq_dec : EqDecision Question.
Proof. solve_decision. Defined.
#[export] Instance Msg_eq_dec : EqDecision Msg.
Proof. solve_decision. Defined.

(** [new(dns.Msg)]. *)
Definition new_Msg : Msg :=
  mkMsg 0 false 0 false false false false false false false 0 false [] [] [] [].

(** Field assignments on a message. *)
Definition set_Id (m : Msg) (v : Z) : Msg :=
  mkMsg v (Response m) (Opcode m) (Authoritative m) (Truncated m) (RecursionDesired m)
    (RecursionAvailable m) (Zero m) (AuthenticatedData m) (CheckingDisabled m) (Rcode m)
    (Compress m) (Questions m) (Answer m) (Ns m) (Extra m).
Definition set_flags (m : Msg) (resp auth ra : bool) (rc : Z) : Msg :=
  mkMsg (Id m) resp (Opcode m) auth (Truncated m) (RecursionDesired m)
    ra (Zero m) (AuthenticatedData m) (CheckingDisabled m) rc
    (Compress m) (Questions m) (Answer m) (Ns m) (Extra m).
Definition set_Questions (m : Msg) (q : list Question) : Msg :=
  mkMsg (Id m) (Response m) (Opcode m) (Authoritative m) (Truncated m) (RecursionDesired m)
    (RecursionAvailable m) (Zero m) (AuthenticatedData m) (CheckingDisabled m) (Rcode m)
    (Compress m) q (Answer m) (Ns m) (Extra m).
Definition set_sections (m : Msg) (an ns ex : list RR) : Msg :=
  mkMsg (Id m) (Response m) (Opcode m) (Authoritative m) (Truncated m) (RecursionDesired m)
    (RecursionAvailable m) (Zero m) (AuthenticatedData m) (CheckingDisabled m) (Rcode m)
    (Compress m) (Questions m) an ns ex.

(** The three sections in the order the program walks them. *)
Definition all_rrs (m : Msg) : list RR := (Answer m ++ Ns m ++ Extra m)%list.

(** ** The package's functions *)
Class DnsLib := {
  CanonicalName : string → string;
  Fqdn : string → string;
  IsSubDomain : string → string → bool;
  (** [dns.NewRR]: [inl msg] an error, [inr None] the [nil] record returned
      with a [nil] error for an input without a record. *)
  NewRR : string → string + option RR;
  (** The tables [dns.TypeToString] and [dns.StringToType]; a missing key of
      the first yields the empty string. *)
  TypeToString : Z → string;
  StringToType : string → option Z;
  (** [m.SetQuestion(z, t)], with the identifier it draws. *)
  SetQuestion : Z → Msg → string → Z → Msg;
  (** [m.SetRcode(request, rcode)]. *)
  SetRcode : Msg → Msg → Z → Msg;
  (** [m.Copy()]. *)
  Msg_Copy : Msg → Msg;
}.

(** A value of [dns.StringToType[s]] without the presence test. *)
Definition StringToType0 `{DnsLib} (s : string) : Z := default 0%Z (StringToType s).

(** Presentation names made of lower-case letters, digits, hyphens and dots. *)
Definition plainByte (c : ascii) : bool :=
  isLowerByte c || isDigitByte c || bool_decide (c = "-"%char) || bool_decide (c = "."%char).

(** What the package documents and the program relies on. *)
Class DnsLaws (L : DnsLib) : Prop := {
  (** "A name in canonical form is lowercase and fully qualified." *)
  CanonicalName_idem s : CanonicalName (CanonicalName s) = CanonicalName s;
  CanonicalName_plain s :
    str_forallb plainByte s = true → CanonicalName (s +:+ ".") = s +:+ ".";
  (** "SetQuestion creates a question message, it sets the Question section,
      generates an Id and sets the RecursionDesired bit to true." *)
  SetQuestion_Questions i m z t :
    Questions (SetQuestion i m z t) = [mkQuestion z t ClassINET];
  SetQuestion_sections i m z t :
    all_rrs (SetQuestion i m z t) = all_rrs m
    ∧ Answer (SetQuestion i m z t) = Answer m;
  (** "SetRcode creates an error message suitable for the request." *)
  SetRcode_reply m r rc :
    Id (SetRcode m r rc) = Id r ∧ Rcode (SetRcode m r rc) = rc
    ∧ Response (SetRcode m r rc) = true
    ∧ Questions (SetRcode m r rc) = take 1 (Questions r)
    ∧ Answer (SetRcode m r rc) = Answer m;
  (** "Copy returns a new *Msg which is a deep-copy of dns." *)
  Copy_value m : Msg_Copy m = m;
  (** The two tables are inverse to each other on the known types. *)
  StringToType_TypeToString s t : StringToType s = Some t → TypeToString t = s;
  TypeToString_StringToType t : TypeToString t ≠ "" → StringToType (TypeToString t) = Some t;
  (** The type mnemonics the program names. *)
  StringToType_ANY : StringToType "ANY" = Some TypeANY;
  (** Mnemonics are words: not empty, no separator of the entry syntax.  They are
      not all upper-case: the tables have "None" and "Reserved". *)
  StringToType_empty : StringToType "" = None;
  StringToType_word s t : StringToType s = Some t → str_mem ":" s = false;
}.

(** ** The wire format: [msg.Pack()] and [msg.Unpack(bytes)]; [inl] is an error. *)
Class DnsWire := {
  Pack : Msg → string + list Z;
  Unpack : list Z → string + Msg;
}.
