(* ===== verification/Samples.v ===== *)
(** * Concrete instances of the external interfaces

    A small implementation of [DnsLib] that satisfies [DnsLaws], and slow-path
    case mappings that leave non-ASCII text alone.  They show that the laws are
    consistent and let the witnesses evaluate the model on concrete inputs. *)

From S2P Require Import Prelude GoStrings GoNet Dns.
Set Default Goal Selector "!".
Local Open Scope string_scope.

#[export] Instance sample_unicode : GoUnicode :=
  {| Map_unicode_ToLower := id; Map_unicode_ToUpper := id;
     TrimFunc_IsSpace := id; TrimRightFunc_IsSpace := id |}.

Definition sample_types : list (Z * string) :=
  [(0, "None"); (1, "A"); (2, "NS"); (5, "CNAME"); (12, "PTR"); (15, "MX"); (16, "TXT");
   (28, "AAAA"); (41, "OPT"); (255, "ANY")]%Z.

Definition sample_TypeToString (t : Z) : string :=
  match List.find (λ p, (p.1 =? t)%Z) sample_types with Some p => p.2 | None => "" end.
Definition sample_StringToType (s : string) : option Z :=
  match List.find (λ p, bool_decide (p.2 = s)) sample_types with
  | Some p => Some p.1 | None => None end.

(** Fully qualified: append a dot unless one is there. *)
Definition sample_Fqdn (s : string) : string := TrimSuffix1 s "." +:+ ".".
Definition sample_CanonicalName (s : string) : string := str_map lowerByte (sample_Fqdn s).

(** Reads "name ttl IN TYPE data" for the address and pointer types. *)
Definition sample_NewRR (s : string) : string + option RR :=
  match Split s " " with
  | [""] => inr None
  | [n; ttl; "IN"; t; d] =>
      let h ty := mkHdr (sample_Fqdn n) ty ClassINET (u32 (dec_go ttl 0)) in
      if bool_decide (t = "A") then inr (Some (RR_A (h TypeA) (ParseIP d)))
      else if bool_decide (t = "AAAA") then inr (Some (RR_AAAA (h TypeAAAA) (ParseIP d)))
      else if bool_decide (t = "PTR") then inr (Some (RR_PTR (h TypePTR) d))
      else inr (Some (RR_other (h (default 0%Z (sample_StringToType t))) d))
  | _ => inl "dns: bad RR"
  end.

Definition sample_SetQuestion (i : Z) (m : Msg) (z : string) (t : Z) : Msg :=
  mkMsg i (Response m) (Opcode m) (Authoritative m) (Truncated m) true
    (RecursionAvailable m) (Zero m) (AuthenticatedData m) (CheckingDisabled m) (Rcode m)
    (Compress m) [mkQuestion z t ClassINET] (Answer m) (Ns m) (Extra m).

Definition sample_SetRcode (m r : Msg) (rc : Z) : Msg :=
  mkMsg (Id r) true (Opcode r) (Authoritative m) (Truncated m) (RecursionDesired r)
    (RecursionAvailable m) (Zero m) (AuthenticatedData m) (CheckingDisabled r) rc
    (Compress m) (take 1 (Questions r)) (Answer m) (Ns m) (Extra m).

#[export] Instance sample_dns : DnsLib :=
  {| CanonicalName := sample_CanonicalName;
     Fqdn := sample_Fqdn;
     IsSubDomain p c := bool_decide (p = c);
     NewRR := sample_NewRR;
     TypeToString := sample_TypeToString;
     StringToType := sample_StringToType;
     SetQuestion := sample_SetQuestion;
     SetRcode := sample_SetRcode;
     Msg_Copy := id |}.

Lemma lowerByte_plain c : plainByte c = true → lowerByte c = c.
Proof. by destruct c as [[] [] [] [] [] [] [] []]. Qed.

Lemma str_map_lower_app s t :
  str_map lowerByte (s +:+ t) = str_map lowerByte s +:+ str_map lowerByte t.
Proof. induction s as [|c s IH]; [done|]. simpl. by rewrite IH. Qed.

Lemma str_map_lower_plain s : str_forallb plainByte s = true → str_map lowerByte s = s.
Proof.
  induction s as [|c s IH]; [done|]. simpl. intros [Hc Hs]%andb_true_iff.
  by rewrite lowerByte_plain, IH.
Qed.

Lemma sample_CanonicalName_idem s :
  sample_CanonicalName (sample_CanonicalName s) = sample_CanonicalName s.
Proof.
  unfold sample_CanonicalName, sample_Fqdn.
  rewrite !str_map_lower_app. change (str_map lowerByte ".") with ".".
  by rewrite TrimSuffix1_snoc, str_map_lower_idem.
Qed.

(** The table functions, by inspection of the rows. *)
Lemma sample_StringToType_spec s t :
  sample_StringToType s = Some t →
  sample_TypeToString t = s ∧ str_mem ":" s = false.
Proof.
  unfold sample_StringToType. simpl. intros H.
  repeat (case_bool_decide; simplify_eq/=; try by split).
Qed.

Lemma sample_TypeToString_spec t :
  sample_TypeToString t ≠ "" → sample_StringToType (sample_TypeToString t) = Some t.
Proof.
  unfold sample_TypeToString. cbn -[Z.eqb sample_StringToType]. intros H.
  repeat match goal with
  | H : context [(?a =? t)%Z] |- _ => destruct (Z.eqb_spec a t); [by subst|]
  end. done.
Qed.

#[export] Instance sample_laws : DnsLaws sample_dns.
Proof.
  split; try done.
  - apply sample_CanonicalName_idem.
  - intros s Hs. simpl. unfold sample_CanonicalName, sample_Fqdn.
    rewrite TrimSuffix1_snoc, str_map_lower_app, str_map_lower_plain by done. done.
  - intros s t H. by apply sample_StringToType_spec.
  - apply sample_TypeToString_spec.
  - intros s t H. by apply sample_StringToType_spec in H as [_ ?].
Qed.

Lemma sample_NewRR_Ttl s r : NewRR s = inr (Some r) → (0 ≤ Ttl (Header r) < 2 ^ 32)%Z.
Proof.
  simpl. unfold sample_NewRR. intros H.
  assert (Hu : ∀ z, (0 ≤ u32 z < 2 ^ 32)%Z) by (intros z; apply Z.mod_pos_bound; lia).
  destruct (Split s " ") as [|w0 l]; [done|]. repeat case_match; simplify_eq/=; apply Hu.
Qed.
