(* ===== verification/Trie.v ===== *)
(** * The blocklist trie (blocklist/trie.go)

    A [level] is one node; its children are keyed by domain label.  The Go code
    pops labels from the end of the slice, so the recursive functions below
    walk the reversed slice; the equations [Add_snoc], [Match_snoc], ... restate
    them in the code's own form, on [parts = rest ++ [next]].

    The abstract view of a trie is its finite set of rules (labels, qtype);
    every operation is proved to be the corresponding set operation. *)

From S2P Require Import Prelude GoStrings GoNet Dns.
Set Default Goal Selector "!".

(** [contains(slice, value)]. *)
Fixpoint contains (slice : list Z) (value : Z) : bool :=
  match slice with
  | [] => false
  | v :: slice => if (value =? v)%Z then true else contains slice value
  end.

Inductive level := Level {
  BlockAny : bool;
  BlockQtype : list Z;
  Children : gmap string level;
}.

Definition NewLevel : level := Level false [] ∅.

(** The assignments [l.BlockAny = b], [l.BlockQtype = q], [l.Children[k] = v]. *)
Definition set_BlockAny (l : level) (b : bool) : level := Level b (BlockQtype l) (Children l).
Definition set_BlockQtype (l : level) (q : list Z) : level := Level (BlockAny l) q (Children l).
Definition set_Children (l : level) (c : gmap string level) : level :=
  Level (BlockAny l) (BlockQtype l) c.
Definition set_Child (l : level) (k : string) (v : level) : level :=
  set_Children l (<[k := v]> (Children l)).

(** [Add] at the last label of the path. *)
Definition Add_here (l : level) (qtype : Z) : level :=
  if (qtype =? TypeANY)%Z then set_BlockAny l true
  else if negb (contains (BlockQtype l) qtype)
       then set_BlockQtype l (BlockQtype l ++ [qtype])
       else l.

(** Walks the reversed labels: the head is the label the code pops. *)
Fixpoint Add_rev (l : level) (rparts : list string) (qtype : Z) : level :=
  match rparts with
  | [] => Add_here l qtype
  | next :: rest =>
      let child := default NewLevel (Children l !! next) in
      set_Child l next (Add_rev child rest qtype)
  end.
Definition Add (l : level) (parts : list string) (qtype : Z) : level :=
  Add_rev l (reverse parts) qtype.

Fixpoint Match_rev (l : level) (rparts : list string) (qtype : Z) : bool :=
  if BlockAny l then true
  else if contains (BlockQtype l) qtype then true
  else match rparts with
       | [] => false
       | next :: rest =>
           match Children l !! next with
           | Some child => Match_rev child rest qtype
           | None => false
           end
       end.
Definition Match (l : level) (parts : list string) (qtype : Z) : bool :=
  Match_rev l (reverse parts) qtype.

(** [append(s[:i], s[i+1:]...)] at the first [i] with [s[i] == v]. *)
Fixpoint remove_first (v : Z) (s : list Z) : option (list Z) :=
  match s with
  | [] => None
  | x :: s => if (v =? x)%Z then Some s
              else match remove_first v s with Some s' => Some (x :: s') | None => None end
  end.

Definition Delete_here (l : level) (qtype : Z) : bool * level :=
  if (qtype =? TypeANY)%Z && BlockAny l then (true, set_BlockAny l false)
  else match remove_first qtype (BlockQtype l) with
       | Some q => (true, set_BlockQtype l q)
       | None => (false, l)
       end.

Fixpoint Delete_rev (l : level) (rparts : list string) (qtype : Z) : bool * level :=
  match rparts with
  | [] => Delete_here l qtype
  | next :: rest =>
      match Children l !! next with
      | Some child =>
          let '(found, child') := Delete_rev child rest qtype in
          (found, set_Child l next child')
      | None => (false, l)
      end
  end.
Definition Delete (l : level) (parts : list string) (qtype : Z) : bool * level :=
  Delete_rev l (reverse parts) qtype.

(** [DeleteTree] indexes [parts[len(parts)-1]] without a length test: the empty
    path panics. *)
Fixpoint DeleteTree_rev (l : level) (rparts : list string) : res (bool * level) :=
  match rparts with
  | [] => Panic
  | [p] => Ok (bool_decide (is_Some (Children l !! p)), set_Children l (delete p (Children l)))
  | next :: rest =>
      match Children l !! next with
      | Some child =>
          '(found, child') ← DeleteTree_rev child rest;
          Ok (found, set_Child l next child')
      | None => Ok (false, l)
      end
  end.
Definition DeleteTree (l : level) (parts : list string) : res (bool * level) :=
  DeleteTree_rev l (reverse parts).

Fixpoint Count (l : level) : nat :=
  let '(Level any qtypes children) := l in
  (if any then 1 else 0) + length qtypes
  + map_fold (λ _ v total, Count v + total) 0 children.

Record BlockEntry := mkBlockEntry { be_Name : string; be_Block : list string }.

Section dump.
Context {L : DnsLib}.

(** The entry [Dump] emits for one node, if any. *)
Definition Dump_entry (prefix : list string) (any : bool) (qtypes : list Z) : list BlockEntry :=
  let block := ((if any then ["ANY"%string] else []) ++ (TypeToString <$> qtypes))%list in
  if bool_decide (block = []) then []
  else [mkBlockEntry (Join prefix "." +:+ ".") block].

(** Children in the map's own order; Go's order is unspecified, see [Dumps]. *)
Fixpoint Dump (l : level) (prefix : list string) : list BlockEntry :=
  let '(Level any qtypes children) := l in
  (Dump_entry prefix any qtypes
   ++ map_fold (λ k v out, Dump v (k :: prefix) ++ out) [] children)%list.

(** Every outcome of [Dump]: each node may range over its children in any order. *)
Inductive Dumps : level → list string → list BlockEntry → Prop :=
  | Dumps_level any qtypes children prefix order outs :
      order ≡ₚ map_to_list children →
      Forall2 (λ kv out, Dumps kv.2 (kv.1 :: prefix) out) order outs →
      Dumps (Level any qtypes children) prefix
            (Dump_entry prefix any qtypes ++ concat outs).
End dump.

(** ** Abstraction: the set of rules *)

(** Rules below a label: the paths grow at their end. *)
Definition under (k : string) (s : gset (list string * Z)) : gset (list string * Z) :=
  set_map (λ r, (r.1 ++ [k], r.2)) s.

(** All (labels, qtype) pairs of a trie, [TypeANY] standing for [BlockAny]. *)
Fixpoint rules (l : level) : gset (list string * Z) :=
  let '(Level any qtypes children) := l in
  (if any then {[ ([], TypeANY) ]} else ∅)
  ∪ list_to_set ((λ q, ([], q)) <$> qtypes)
  ∪ map_fold (λ k v acc, under k (rules v) ∪ acc) ∅ children.

(** Representation invariant: no duplicates and no [ANY] in [BlockQtype]. *)
Inductive wf : level → Prop :=
  | wf_Level any qtypes children :
      NoDup qtypes → TypeANY ∉ qtypes → map_Forall (λ _ v, wf v) children →
      wf (Level any qtypes children).

(** ** The code's recursion equations *)

Lemma Add_nil l q : Add l [] q = Add_here l q.
Proof. done. Qed.
Lemma Add_snoc l rest next q :
  Add l (rest ++ [next]) q
  = set_Child l next (Add (default NewLevel (Children l !! next)) rest q).
Proof. unfold Add. by rewrite reverse_snoc. Qed.
Lemma Match_snoc l rest next q :
  Match l (rest ++ [next]) q
  = BlockAny l || contains (BlockQtype l) q
    || match Children l !! next with Some c => Match c rest q | None => false end.
Proof.
  unfold Match. rewrite reverse_snoc. simpl.
  destruct (BlockAny l), (contains (BlockQtype l) q); done.
Qed.
Lemma Match_nil l q : Match l [] q = BlockAny l || contains (BlockQtype l) q.
Proof. unfold Match. simpl. by destruct (BlockAny l), (contains (BlockQtype l) q). Qed.
Lemma Delete_nil l q : Delete l [] q = Delete_here l q.
Proof. done. Qed.
Lemma Delete_snoc l rest next q :
  Delete l (rest ++ [next]) q
  = match Children l !! next with
    | Some c => let '(f, c') := Delete c rest q in (f, set_Child l next c')
    | None => (false, l)
    end.
Proof. unfold Delete. by rewrite reverse_snoc. Qed.
Lemma DeleteTree_one l p :
  DeleteTree l [p]
  = Ok (bool_decide (is_Some (Children l !! p)), set_Children l (delete p (Children l))).
Proof. done. Qed.
Lemma DeleteTree_snoc l rest next :
  rest ≠ [] →
  DeleteTree l (rest ++ [next])
  = match Children l !! next with
    | Some c => '(f, c') ← DeleteTree c rest; Ok (f, set_Child l next c')
    | None => Ok (false, l)
    end.
Proof.
  intros Hr. unfold DeleteTree. rewrite reverse_snoc. simpl.
  destruct (reverse rest) eqn:E; [|done].
  by apply (f_equal reverse) in E; rewrite reverse_involutive in E.
Qed.

(** ** Membership in the set of rules *)

Lemma contains_elem q s : contains s q = true ↔ q ∈ s.
Proof.
  induction s as [|x s IH]; simpl; [set_solver|].
  destruct (Z.eqb_spec q x); [set_solver|]. rewrite IH. set_solver.
Qed.
Lemma contains_bool q s : contains s q = bool_decide (q ∈ s).
Proof. apply Bool.eq_iff_eq_true. by rewrite contains_elem, bool_decide_eq_true. Qed.

(** The rules attached to the node itself. *)
Definition here (l : level) (q : Z) : Prop :=
  (q = TypeANY ∧ BlockAny l = true) ∨ q ∈ BlockQtype l.

Lemma elem_of_under k s p q :
  (p, q) ∈ under k s ↔ ∃ p', p = p' ++ [k] ∧ (p', q) ∈ s.
Proof.
  unfold under. rewrite elem_of_map. split.
  - intros ([p' q'] & E & Hs). simplify_eq/=. eauto.
  - intros (p' & -> & Hs). by exists (p', q).
Qed.

Lemma elem_of_rules l r :
  r ∈ rules l ↔ (∃ q, r = ([], q) ∧ here l q)
              ∨ ∃ k c, Children l !! k = Some c ∧ r ∈ under k (rules c).
Proof.
  destruct l as [any qs ch]. simpl. unfold here. simpl.
  rewrite !elem_of_union, elem_of_map_fold_union, elem_of_list_to_set, list_elem_of_fmap.
  destruct any; set_solver.
Qed.

Lemma rules_nil l q : ([], q) ∈ rules l ↔ here l q.
Proof.
  rewrite elem_of_rules. split.
  - intros [(q' & ? & ?) | (k & c & _ & Hu)]; [naive_solver|].
    by apply elem_of_under in Hu as ([|??] & ? & _).
  - eauto.
Qed.

Lemma rules_snoc l p k q :
  (p ++ [k], q) ∈ rules l ↔ ∃ c, Children l !! k = Some c ∧ (p, q) ∈ rules c.
Proof.
  rewrite elem_of_rules. setoid_rewrite elem_of_under. split.
  - intros [(q' & E & _) | (k' & c & Hc & p' & E & Hp)].
    + by destruct p.
    + apply app_inj_tail in E as [-> ->]. eauto.
  - intros (c & Hc & Hp). right. eauto 10.
Qed.

(** Case analysis on a path, from its last label. *)
Ltac path_cases p :=
  let p' := fresh p in let k := fresh "k" in
  destruct (list_snoc_case p) as [->|(p' & k & ->)].

Lemma rules_NewLevel : rules NewLevel = ∅.
Proof.
  apply set_eq. intros [p q]. rewrite elem_of_empty. split; [|done]. path_cases p.
  - rewrite rules_nil. intros [[_ ?]|?]; set_solver.
  - rewrite rules_snoc. intros (c & Hc & _). simpl in Hc. by rewrite lookup_empty in Hc.
Qed.

(** *** Effect of the operations, rule by rule *)

Lemma here_Add_here l q q' : here (Add_here l q) q' ↔ q' = q ∨ here l q'.
Proof.
  unfold Add_here, here. destruct (Z.eqb_spec q TypeANY) as [->|Hq]; simpl; [naive_solver|].
  rewrite contains_bool. case_bool_decide; simpl; set_solver.
Qed.
Lemma Children_Add_here l q : Children (Add_here l q) = Children l.
Proof. unfold Add_here. by repeat case_match. Qed.

Lemma elem_of_rules_Add l p q p' q' :
  (p', q') ∈ rules (Add l p q) ↔ (p' = p ∧ q' = q) ∨ (p', q') ∈ rules l.
Proof.
  revert l p'. induction p as [|k p IH] using rev_ind; intros l p'.
  - rewrite Add_nil. path_cases p'.
    + rewrite !rules_nil, here_Add_here. naive_solver.
    + rewrite !rules_snoc, Children_Add_here. split; [naive_solver|].
      intros [[E _]|?]; [by destruct p'0|done].
  - rewrite Add_snoc. path_cases p'.
    + rewrite !rules_nil. unfold here. simpl. split; [naive_solver|].
      intros [[E _]|?]; [by destruct p|done].
    + rewrite !rules_snoc. simpl. rewrite lookup_insert. case_decide as Hk.
      * subst k0. destruct (Children l !! k) as [c|] eqn:Hc; simpl.
        -- setoid_rewrite (inj_iff Some). split.
           ++ intros (c' & <- & Hr). apply IH in Hr as [[-> ->]|Hr]; eauto.
           ++ intros [[E ->]|(c' & -> & Hr)]; eexists; (split; [done|]); apply IH; [|by right].
              apply app_inj_tail in E as [-> _]. by left.
        -- split.
           ++ intros (c' & [= <-] & Hr). apply IH in Hr as [[-> ->]|Hr]; [by left|].
              by rewrite rules_NewLevel in Hr.
           ++ intros [[E ->]|(c' & ? & _)]; [|done]. eexists. split; [done|]. apply IH.
              apply app_inj_tail in E as [-> _]. by left.
      * split; [naive_solver|]. intros [[E _]|?]; [|done].
        by apply app_inj_tail in E as [_ ->].
Qed.

(** ** The representation invariant *)

Lemma wf_iff l :
  wf l ↔ NoDup (BlockQtype l) ∧ TypeANY ∉ BlockQtype l
         ∧ ∀ k c, Children l !! k = Some c → wf c.
Proof.
  split.
  - intros []. simpl. eauto.
  - destruct l. simpl. intros (? & ? & ?). by constructor.
Qed.

Lemma wf_NewLevel : wf NewLevel.
Proof. apply wf_iff. simpl. split_and!; [constructor|set_solver|]. intros k c. by rewrite lookup_empty. Qed.

Lemma wf_child l k c : wf l → Children l !! k = Some c → wf c.
Proof. rewrite wf_iff. naive_solver. Qed.

Lemma wf_set_Child l k c : wf l → wf c → wf (set_Child l k c).
Proof.
  rewrite !wf_iff. simpl. intros (? & ? & Hch) Hc. split_and!; [done..|].
  intros k' c'. rewrite lookup_insert. case_decide; [intros [= <-]; by apply wf_iff|apply Hch].
Qed.
#[export] Hint Resolve wf_NewLevel wf_child wf_set_Child : dino.

Lemma wf_Add_here l q : wf l → wf (Add_here l q).
Proof.
  unfold Add_here. rewrite !wf_iff. rewrite contains_bool.
  destruct (Z.eqb_spec q TypeANY); simpl; [done|]. case_bool_decide; simpl; [done|].
  intros (Hnd & HA & Hch). split_and!; [|set_solver|done].
  apply NoDup_app. split_and!; [done|set_solver|]. apply NoDup_singleton.
Qed.

Lemma wf_Add l p q : wf l → wf (Add l p q).
Proof.
  revert l. induction p as [|k p IH] using rev_ind; intros l Hl.
  - by apply wf_Add_here.
  - rewrite Add_snoc. apply wf_set_Child; [done|]. apply IH.
    destruct (Children l !! k) eqn:E; simpl; eauto with dino.
Qed.

Lemma remove_first_spec v s :
  match remove_first v s with
  | Some s' => ∃ a b, s = a ++ v :: b ∧ s' = a ++ b
  | None => v ∉ s
  end.
Proof.
  induction s as [|x s IH]; simpl; [set_solver|]. destruct (Z.eqb_spec v x) as [->|].
  - by exists [], s.
  - destruct (remove_first v s) as [s'|].
    + destruct IH as (a & b & -> & ->). by exists (x :: a), b.
    + set_solver.
Qed.

Lemma remove_first_NoDup v s s' :
  NoDup s → remove_first v s = Some s' → NoDup s' ∧ v ∈ s ∧ ∀ x, x ∈ s' ↔ x ≠ v ∧ x ∈ s.
Proof.
  intros Hnd E. pose proof (remove_first_spec v s) as H. rewrite E in H.
  destruct H as (a & b & -> & ->).
  assert (Hnd' : NoDup (v :: a ++ b)) by by rewrite Permutation_middle.
  apply NoDup_cons in Hnd' as [Hv Hnd']. split_and!; [done|set_solver|]. set_solver.
Qed.

(** At the node: deletion is set subtraction and reports membership. *)
Lemma here_Delete_here l q :
  wf l → let '(found, l') := Delete_here l q in
         (found = true ↔ here l q) ∧ Children l' = Children l ∧ wf l'
         ∧ ∀ q', here l' q' ↔ q' ≠ q ∧ here l q'.
Proof.
  intros Hwf. pose proof (proj1 (wf_iff l) Hwf) as (Hnd & HA & Hch).
  unfold Delete_here, here. destruct ((q =? TypeANY)%Z && BlockAny l) eqn:E.
  - apply andb_true_iff in E as [->%Z.eqb_eq Hb]. simpl. split_and!; [naive_solver|done| |].
    + by apply wf_iff.
    + intros q'. rewrite Hb. destruct (decide (q' = TypeANY)); set_solver.
  - destruct (remove_first q (BlockQtype l)) as [s'|] eqn:R.
    + destruct (remove_first_NoDup _ _ _ Hnd R) as (Hnd' & Hq & Hs'). simpl.
      split_and!; [naive_solver|done| |].
      * apply wf_iff. simpl. split_and!; [done| |done]. rewrite Hs'. naive_solver.
      * intros q'. rewrite Hs'. assert (q ≠ TypeANY) by (by intros ->). naive_solver.
    + pose proof (remove_first_spec q (BlockQtype l)) as Hq. rewrite R in Hq.
      split_and!; [|done|done|].
      * split; [done|]. intros [[-> Hb]|?]; [by rewrite Hb in E|done].
      * intros q'. split; [|naive_solver]. intros Hh. split; [|done]. intros ->.
        destruct Hh as [[-> Hb]|?]; [by rewrite Hb in E|done].
Qed.

Lemma Delete_spec l p q :
  wf l → let '(found, l') := Delete l p q in
         (found = true ↔ (p, q) ∈ rules l) ∧ wf l'
         ∧ ∀ p' q', (p', q') ∈ rules l' ↔ (p', q') ≠ (p, q) ∧ (p', q') ∈ rules l.
Proof.
  revert l. induction p as [|k p IH] using rev_ind; intros l Hwf.
  - rewrite Delete_nil. pose proof (here_Delete_here l q Hwf) as H.
    destruct (Delete_here l q) as [found l']. destruct H as (Hf & Hc & Hwf' & Hh).
    split_and!; [by rewrite rules_nil|done|]. intros p' q'. path_cases p'.
    + rewrite !rules_nil, Hh. naive_solver.
    + rewrite !rules_snoc, Hc. split; [|naive_solver]. intros Hr. split; [|done].
      intros E. by destruct p'0.
  - rewrite Delete_snoc. destruct (Children l !! k) as [c|] eqn:Hc.
    + specialize (IH c (wf_child _ _ _ Hwf Hc)). destruct (Delete c p q) as [found c'].
      destruct IH as (Hf & Hwf' & Hr). split_and!.
      * rewrite Hf, rules_snoc. naive_solver.
      * eauto with dino.
      * intros p' q'. path_cases p'.
        -- rewrite !rules_nil. unfold here. simpl. split; [|naive_solver]. intros ?.
           split; [|done]. intros E. by destruct p.
        -- rewrite !rules_snoc. simpl. rewrite lookup_insert. case_decide as Hk.
           ++ subst k0. split.
              ** intros (c1 & [= <-] & [Hne Hin]%Hr). split; [|naive_solver].
                 intros [= [-> _]%app_inj_tail ->]. done.
              ** intros (Hne & c1 & Hc1 & Hin). simplify_eq. eexists. split; [done|].
                 apply Hr. split; [|done]. intros [= -> ->]. done.
           ++ split; [|naive_solver]. intros Hin. split; [|done].
              intros [= [_ ->]%app_inj_tail _]. done.
    + split_and!; [rewrite rules_snoc; naive_solver|done|]. intros p' q'. split; [|naive_solver].
      intros Hin. split; [|done]. intros [= -> ->]. apply rules_snoc in Hin. naive_solver.
Qed.

(** ** Suffixes: the domains that cover a name *)

Lemma suffix_snoc_iff {A} (s p : list A) k :
  s `suffix_of` p ++ [k] ↔ s = [] ∨ ∃ s', s = s' ++ [k] ∧ s' `suffix_of` p.
Proof.
  split.
  - intros Hs. destruct (list_snoc_case s) as [->|(s' & x & ->)]; [by left|right].
    pose proof (suffix_snoc_inv_1 _ _ _ _ Hs) as ->. exists s'. split; [done|].
    by eapply suffix_snoc_inv_2.
  - intros [->|(s' & -> & Hs)]; [apply suffix_nil|]. by apply suffix_snoc.
Qed.

(** [Match] on the set of rules. *)
Lemma Match_spec l p q :
  wf l → Match l p q = true
         ↔ ∃ s, s `suffix_of` p ∧ ((s, TypeANY) ∈ rules l ∨ (s, q) ∈ rules l).
Proof.
  revert l. induction p as [|k p IH] using rev_ind; intros l Hwf.
  - pose proof (proj1 (wf_iff l) Hwf) as (_ & HA & _).
    rewrite Match_nil, orb_true_iff, contains_elem. split.
    + intros H. exists []. split; [done|]. rewrite !rules_nil. unfold here. tauto.
    + intros (s & ->%suffix_nil_inv & H). rewrite !rules_nil in H. unfold here in H. tauto.
  - rewrite Match_snoc, !orb_true_iff, contains_elem.
    pose proof (proj1 (wf_iff l) Hwf) as (_ & HA & _). split.
    + intros [H|H].
      * exists []. split; [apply suffix_nil|]. rewrite !rules_nil. unfold here. tauto.
      * destruct (Children l !! k) as [c|] eqn:Hc; [|done].
        apply IH in H as (s & Hs & Hr); [|by eapply wf_child]. exists (s ++ [k]).
        split; [by apply suffix_snoc|]. rewrite !rules_snoc. naive_solver.
    + intros (s & [->|(s' & -> & Hs)]%suffix_snoc_iff & Hr).
      * left. rewrite !rules_nil in Hr. unfold here in Hr. tauto.
      * right. rewrite !rules_snoc in Hr. destruct (Children l !! k) as [c|] eqn:Hc.
        -- apply IH; [by eapply wf_child|]. exists s'. naive_solver.
        -- naive_solver.
Qed.

(** The node at the end of a path, if the trie has one. *)
Fixpoint node_rev (l : level) (rparts : list string) : option level :=
  match rparts with
  | [] => Some l
  | k :: rest => c ← Children l !! k; node_rev c rest
  end.
Definition node (l : level) (parts : list string) : option level := node_rev l (reverse parts).

Lemma node_snoc l p k : node l (p ++ [k]) = (c ← Children l !! k; node c p).
Proof. unfold node. by rewrite reverse_snoc. Qed.

Lemma DeleteTree_spec l p :
  p ≠ [] → wf l →
  ∃ found l', DeleteTree l p = Ok (found, l') ∧ wf l'
    ∧ (found = true ↔ is_Some (node l p))
    ∧ ∀ p' q', (p', q') ∈ rules l' ↔ (p', q') ∈ rules l ∧ ¬ p `suffix_of` p'.
Proof.
  revert l. induction p as [|k p IH] using rev_ind; intros l Hne Hwf; [done|].
  destruct (decide (p = [])) as [->|Hp].
  - simpl. rewrite DeleteTree_one. do 2 eexists. split; [done|]. split_and!.
    + apply wf_iff. pose proof (proj1 (wf_iff l) Hwf) as (?&?&Hch). simpl. split_and!; [done..|].
      intros k' c'. rewrite lookup_delete_Some. naive_solver.
    + rewrite bool_decide_eq_true. unfold node. simpl. destruct (Children l !! k); simpl; [|done].
      split; intros; eauto.
    + intros p' q'. path_cases p'.
      * rewrite !rules_nil. unfold here. simpl. split; [|naive_solver]. intros ?.
        split; [done|]. by intros ?%suffix_nil_inv.
      * rewrite !rules_snoc. simpl. setoid_rewrite lookup_delete_Some. split.
        -- intros (c & [Hk Hc] & Hr). split; [naive_solver|].
           intros Hs. by pose proof (suffix_snoc_inv_1 _ _ [] _ Hs).
        -- intros ((c & Hc & Hr) & Hs). exists c. split_and!; [|done..]. intros ->.
           destruct Hs. by exists p'0.
  - rewrite DeleteTree_snoc, node_snoc by done. destruct (Children l !! k) as [c|] eqn:Hc; simpl.
    + destruct (IH c Hp (wf_child _ _ _ Hwf Hc)) as (found & c' & -> & Hwf' & Hf & Hr).
      simpl. do 2 eexists. split; [done|]. split_and!; [eauto with dino|done|].
      intros p' q'. path_cases p'.
      * rewrite !rules_nil. unfold here. simpl. split; [|naive_solver]. intros ?.
        split; [done|]. intros E%suffix_nil_inv. by destruct p.
      * rewrite !rules_snoc. simpl. rewrite lookup_insert. case_decide as Hk.
        -- subst k0. split.
           ++ intros (c1 & [= <-] & [Hin Hns]%Hr). split; [eauto|].
              intros Hs. apply Hns. by eapply suffix_snoc_inv_2.
           ++ intros ((c1 & Hc1 & Hin) & Hns). simplify_eq. eexists. split; [done|].
              apply Hr. split; [done|]. intros Hs. by apply Hns, suffix_snoc.
        -- split; [|naive_solver]. intros Hin. split; [done|].
           intros Hs. by pose proof (suffix_snoc_inv_1 _ _ _ _ Hs).
    + do 2 eexists. split; [done|]. split_and!; [done| |].
      * split; [done|]. by intros [? ?].
      * intros p' q'. split; [|naive_solver]. intros Hin. split; [done|]. intros [x ->].
        rewrite app_assoc in Hin. apply rules_snoc in Hin. naive_solver.
Qed.

(** ** Induction over the nested children *)

Fixpoint height (l : level) : nat :=
  let '(Level _ _ children) := l in
  S (map_fold (λ _ v acc, height v `max` acc) 0 children).

Lemma height_child l k c : Children l !! k = Some c → height c < height l.
Proof.
  destruct l as [any qs ch]. simpl. revert ch.
  apply (map_fold_weak_ind (λ r m, m !! k = Some c → height c < S r)).
  - by rewrite lookup_empty.
  - intros k' v m r Hm IH. rewrite lookup_insert. case_decide; [intros [= ->]; lia|].
    intros Hlt%IH. lia.
Qed.

Lemma level_nested_ind (P : level → Prop) :
  (∀ l, (∀ k c, Children l !! k = Some c → P c) → P l) → ∀ l, P l.
Proof.
  intros HP l. induction (well_founded_ltof _ height l) as [l _ IH].
  apply HP. intros k c Hc. by apply IH, height_child with k.
Qed.

(** ** [Count] is the number of rules *)

Lemma under_disjoint k k' s s' : k ≠ k' → under k s ## under k' s'.
Proof.
  intros Hk [p q] (p1 & -> & _)%elem_of_under (p2 & E & _)%elem_of_under.
  apply app_inj_tail in E as [_ E]. done.
Qed.

#[local] Instance under_inj k : Inj (=) (=) (λ r : list string * Z, (r.1 ++ [k], r.2)).
Proof. intros [p q] [p' q'] [= E ->]. by apply app_inj_tail in E as [-> _]. Qed.

Lemma Count_children (ch : gmap string level) :
  (∀ k c, ch !! k = Some c → Count c = size (rules c)) →
  map_fold (λ _ v total, Count v + total) 0 ch
  = size (map_fold (λ k v acc, under k (rules v) ∪ acc) ∅ ch).
Proof.
  induction ch as [|k c ch Hk Hfst IH] using map_first_key_ind; intros Hch; [done|].
  rewrite !map_fold_insert_first_key by done. rewrite size_union.
  - unfold under at 1. rewrite size_set_map_inj by apply _.
    rewrite (Hch k c) by apply lookup_insert_eq. f_equal. apply IH.
    intros k' c' Hk'. apply (Hch k'). by rewrite lookup_insert_ne by congruence.
  - intros r Hr (k' & c' & Hk' & Hr')%elem_of_map_fold_union.
    assert (k ≠ k') by congruence. by eapply (under_disjoint k k').
Qed.

Lemma Count_rules l : wf l → Count l = size (rules l).
Proof.
  induction l as [l IH] using level_nested_ind. intros Hwf.
  pose proof (proj1 (wf_iff l) Hwf) as (Hnd & HA & Hch).
  destruct l as [any qs ch]. simpl in *.
  rewrite Count_children by eauto. rewrite !size_union.
  - rewrite size_list_to_set, length_fmap by (by apply NoDup_fmap_2; [intros ?? [=]|]).
    f_equal. f_equal. by destruct any.
  - intros r Hr Hr'. apply elem_of_list_to_set, list_elem_of_fmap in Hr' as (q & -> & Hq).
    destruct any; [|set_solver]. apply elem_of_singleton in Hr as [= ->]. done.
  - intros r Hr (k & c & Hk & Hu)%elem_of_map_fold_union. destruct r as [p q].
    apply elem_of_under in Hu as (p' & -> & _).
    apply elem_of_union in Hr as [Hr|Hr].
    + destruct any; [|set_solver]. apply elem_of_singleton in Hr as [= E _]. by destruct p'.
    + apply elem_of_list_to_set, list_elem_of_fmap in Hr as (q' & [= E _] & _). by destruct p'.
Qed.

(** ** [Dump] *)

Lemma concat_Permutation_pointwise {A} (xs ys : list (list A)) :
  Forall2 (≡ₚ) xs ys → concat xs ≡ₚ concat ys.
Proof. induction 1 as [|x y xs ys Hxy _ IH]; simpl; [done|]. by rewrite Hxy, IH. Qed.

Lemma concat_Permutation {A} (xs ys : list (list A)) : xs ≡ₚ ys → concat xs ≡ₚ concat ys.
Proof.
  induction 1 as [|x xs ys _ IH|x y xs|xs ys zs _ IH1 _ IH2]; simpl; [done| | |].
  - by rewrite IH.
  - rewrite !app_assoc. by rewrite (Permutation_app_comm y x).
  - by rewrite IH1.
Qed.

Section dump_lemmas.
Context {L : DnsLib}.

Lemma Dump_children (ch : gmap string level) prefix :
  map_fold (λ k v out, Dump v (k :: prefix) ++ out)%list [] ch
  = concat ((λ kv, Dump kv.2 (kv.1 :: prefix)) <$> map_to_list ch).
Proof.
  rewrite map_fold_foldr. induction (map_to_list ch) as [|[k v] kvs IH]; simpl; [done|].
  by rewrite IH.
Qed.

(** Go's iteration order only permutes the result. *)
Lemma Dumps_Permutation l prefix out : Dumps l prefix out → out ≡ₚ Dump l prefix.
Proof.
  revert prefix out. induction l as [l IH] using level_nested_ind. intros prefix out Hd.
  destruct Hd as [any qs ch prefix order outs Hord Houts]. simpl in *.
  apply Permutation_app_head. rewrite Dump_children.
  transitivity (concat ((λ kv, Dump kv.2 (kv.1 :: prefix)) <$> order)).
  - apply concat_Permutation_pointwise. rewrite Forall2_fmap_r.
    apply Forall2_flip. apply (Forall2_impl_elem _ _ _ _ Houts). intros [k v] o Hkv Ho. simpl in *.
    apply (IH k); [|done]. apply elem_of_map_to_list. by rewrite <-Hord.
  - apply concat_Permutation. by rewrite Hord.
Qed.

Lemma Dumps_Dump l prefix : Dumps l prefix (Dump l prefix).
Proof.
  revert prefix. induction l as [l IH] using level_nested_ind. intros prefix.
  destruct l as [any qs ch]. simpl in *. rewrite Dump_children.
  econstructor; [done|]. rewrite Forall2_fmap_r. apply Forall_Forall2_diag, Forall_forall.
  intros [k v] Hkv%elem_of_map_to_list. simpl. eauto.
Qed.

(** One entry per node that blocks something, named by its path. *)
Lemma elem_of_Dump l prefix e :
  e ∈ Dump l prefix ↔ ∃ p n, node l p = Some n
                             ∧ e ∈ Dump_entry (p ++ prefix) (BlockAny n) (BlockQtype n).
Proof.
  revert prefix. induction l as [l IH] using level_nested_ind. intros prefix.
  destruct l as [any qs ch]. simpl in IH. simpl Dump. rewrite elem_of_app, Dump_children.
  rewrite !list_elem_of_In, in_concat. split.
  - intros [He|(es & Hes & He)].
    + exists [], (Level any qs ch). split; [done|]. by apply list_elem_of_In.
    + apply list_elem_of_In, list_elem_of_fmap in Hes as ([k c] & -> & Hk).
      apply elem_of_map_to_list in Hk. simpl in He.
      apply list_elem_of_In, (IH k c Hk) in He as (p & n & Hn & He).
      exists (p ++ [k]), n. rewrite node_snoc. simpl. rewrite Hk, <-app_assoc. done.
  - intros (p & n & Hn & He). path_cases p.
    + injection Hn as <-. left. by apply list_elem_of_In.
    + rewrite node_snoc in Hn. simpl in Hn. destruct (ch !! k) as [c|] eqn:Hk; [|done].
      right. exists (Dump c (k :: prefix)). split.
      * apply list_elem_of_In, list_elem_of_fmap. exists (k, c). split; [done|].
        by apply elem_of_map_to_list.
      * apply list_elem_of_In, (IH k c Hk). exists p0, n. rewrite <-app_assoc in He. done.
Qed.

Lemma rules_node l p q : (p, q) ∈ rules l ↔ ∃ n, node l p = Some n ∧ here n q.
Proof.
  revert l. induction p as [|k p IH] using rev_ind; intros l.
  - rewrite rules_nil. unfold node. simpl. naive_solver.
  - rewrite rules_snoc, node_snoc. destruct (Children l !! k) as [c|]; simpl.
    + rewrite <-IH. naive_solver.
    + naive_solver.
Qed.

Lemma wf_node l p n : wf l → node l p = Some n → wf n.
Proof.
  revert l. induction p as [|k p IH] using rev_ind; intros l Hwf Hn.
  - by injection Hn as <-.
  - rewrite node_snoc in Hn. destruct (Children l !! k) eqn:Hk; [|done]. simpl in Hn.
    eauto with dino.
Qed.

(** The mnemonic [Dump] prints for a rule. *)
Definition rule_name (q : Z) : string :=
  if (q =? TypeANY)%Z then "ANY"%string else TypeToString q.

Lemma rule_name_other q : q ≠ TypeANY → rule_name q = TypeToString q.
Proof. intros. unfold rule_name. by destruct (Z.eqb_spec q TypeANY). Qed.

(** The mnemonics listed for a node are those of its rules. *)
Lemma Dump_entry_block n p e t :
  wf n → e ∈ Dump_entry p (BlockAny n) (BlockQtype n) →
  t ∈ be_Block e ↔ ∃ q, here n q ∧ t = rule_name q.
Proof.
  intros (_ & HA & _)%wf_iff He. unfold Dump_entry in He. case_bool_decide; [set_solver|].
  apply list_elem_of_singleton in He as ->. simpl.
  rewrite elem_of_app, list_elem_of_fmap. unfold here. split.
  - intros [Ht|(q & -> & Hq)].
    + destruct (BlockAny n); [|set_solver]. apply list_elem_of_singleton in Ht as ->.
      exists TypeANY. naive_solver.
    + exists q. rewrite rule_name_other by (by intros ->). naive_solver.
  - intros (q & [[-> Hb]|Hq] & ->).
    + left. rewrite Hb. set_solver.
    + right. exists q. by rewrite rule_name_other by (by intros ->).
Qed.

Lemma Dump_entry_Name p e any qs :
  e ∈ Dump_entry p any qs → be_Name e = Join p "." +:+ ".".
Proof. unfold Dump_entry. case_bool_decide; set_solver. Qed.

Lemma Dump_entry_nonempty n p q :
  here n q → ∃ e, e ∈ Dump_entry p (BlockAny n) (BlockQtype n).
Proof.
  intros Hq. unfold Dump_entry. case_bool_decide as Hb; [|eexists; by apply list_elem_of_singleton].
  apply app_eq_nil in Hb as [Hb1 Hb2%fmap_nil_inv]. exfalso.
  destruct Hq as [[_ Hq]|Hq]; [by rewrite Hq in Hb1|]. rewrite Hb2 in Hq. set_solver.
Qed.

(** The printed (name, mnemonic) pairs are exactly the rules. *)
Lemma Dump_rules l name t :
  wf l →
  (∃ e, e ∈ Dump l [] ∧ be_Name e = name ∧ t ∈ be_Block e)
  ↔ ∃ p q, (p, q) ∈ rules l ∧ name = Join p "." +:+ "." ∧ t = rule_name q.
Proof.
  intros Hwf. setoid_rewrite elem_of_Dump. setoid_rewrite app_nil_r. split.
  - intros (e & (p & n & Hn & He) & <- & Ht).
    apply (Dump_entry_block n p) in Ht as (q & Hq & ->); [|by eapply wf_node|done].
    exists p, q. rewrite rules_node. split_and!; [eauto|by eapply Dump_entry_Name|done].
  - intros (p & q & (n & Hn & Hq)%rules_node & -> & ->).
    destruct (Dump_entry_nonempty n p q Hq) as [e He]. exists e.
    split_and!; [eauto|by eapply Dump_entry_Name|].
    apply (Dump_entry_block n p); [by eapply wf_node|done|eauto].
Qed.
End dump_lemmas.
