(* ===== verification/BlockList.v ===== *)
(** * The blocklist (blocklist/blocklist.go)

    The mutex-protected wrapper around the trie: names are split into labels,
    entries "domain[:qtype]" and hosts-file lines are parsed, and every change
    goes through [Add], [Delete] or [DeleteTree] on the root level. *)

From S2P Require Import Prelude GoStrings GoNet Dns Samples Trie.
Set Default Goal Selector "!".
Local Open Scope string_scope.

Record BlockList := mkBlockList { Root : level }.

Definition New : BlockList := mkBlockList NewLevel.

Section blocklist.
Context {U : GoUnicode} {L : DnsLib}.

Definition splitName (name : string) : list string :=
  if bool_decide (name = "") || bool_decide (name = ".") then []
  else Split (ToLower (TrimSuffix1 name ".")) ".".

Definition Add (b : BlockList) (name : string) (qtype : Z) : BlockList :=
  mkBlockList (Trie.Add (Root b) (splitName name) qtype).

Definition AddEntry (b : BlockList) (entry : string) (default_qtype : Z) : error * BlockList :=
  match Split entry ":" with
  | [d] => (None, Add b d default_qtype)
  | [d; t] =>
      match StringToType t with
      | None => (Some ("Invalid qtype: " +:+ d +:+ ":" +:+ t), b)
      | Some qtype => (None, Add b d qtype)
      end
  | split => (Some ("Invalid blocklist entry: " +:+ Join split ":"), b)
  end.

Definition AddHostsEntry (b : BlockList) (entry : string) : error * BlockList :=
  match re_ws_Split3 entry with
  | ip :: domain :: _ =>
      if negb (bool_decide (ip = "0.0.0.0")) || bool_decide (domain = "0.0.0.0")
      then (None, b)
      else AddEntry b domain TypeANY
  | _ => (Some ("Invalid hosts entry: " +:+ entry), b)
  end.

Definition Match (b : BlockList) (qname : string) (qtype : Z) : bool :=
  Trie.Match (Root b) (splitName qname) qtype.

Definition Delete (b : BlockList) (qname : string) (qtype : Z) : bool * BlockList :=
  let '(found, root) := Trie.Delete (Root b) (splitName qname) qtype in
  (found, mkBlockList root).

Definition DeleteEntry (b : BlockList) (entry : string) (default_qtype : Z)
    : bool * error * BlockList :=
  match Split entry ":" with
  | [d] => let '(found, b') := Delete b d default_qtype in (found, None, b')
  | [d; t] =>
      match StringToType t with
      | None => (false, Some ("Invalid qtype: " +:+ d +:+ ":" +:+ t), b)
      | Some qtype => let '(found, b') := Delete b d qtype in (found, None, b')
      end
  | split => (false, Some ("Invalid blocklist entry: " +:+ Join split ":"), b)
  end.

Definition DeleteTree (b : BlockList) (qname : string) : res (bool * BlockList) :=
  '(found, root) ← Trie.DeleteTree (Root b) (splitName qname);
  Ok (found, mkBlockList root).

(** Every possible result of [Dump]. *)
Definition Dump (b : BlockList) (out : list BlockEntry) : Prop := Dumps (Root b) [] out.

Definition Count (b : BlockList) : nat := Trie.Count (Root b).

(** The line functions handed to [util.URLReader]. *)
Definition skip_line (line : string) : bool :=
  bool_decide (line = "") || HasPrefix line "#".

Definition MakeBlockListReaderf (default_qtype : Z) (b : BlockList) (line : string)
    : error * BlockList :=
  let line := TrimSpace line in
  if skip_line line then (None, b) else AddEntry b line default_qtype.

Definition MakeBlockListHostsReaderf (b : BlockList) (line : string) : error * BlockList :=
  let line := TrimSpace line in
  if skip_line line then (None, b) else AddHostsEntry b line.

(** The abstract contents of a blocklist. *)
Definition Rules (b : BlockList) : gset (list string * Z) := rules (Root b).

(** States reachable through the exported mutators. *)
Inductive reachable : BlockList → Prop :=
  | reach_New : reachable New
  | reach_Add b name q : reachable b → reachable (Add b name q)
  | reach_Delete b name q : reachable b → reachable (Delete b name q).2
  | reach_DeleteTree b name r :
      reachable b → DeleteTree b name = Ok r → reachable r.2.

(** ** Labels of a name *)

Lemma splitName_labels name : Forall (λ k, str_mem "." k = false) (splitName name).
Proof. unfold splitName. case_match; [constructor|apply Split_pieces]. Qed.

Lemma splitName_root name : splitName name = [] ↔ name = "" ∨ name = ".".
Proof.
  unfold splitName. do 2 case_bool_decide; simpl; split; try naive_solver.
  intros E. by apply Split_nonempty in E.
Qed.

Lemma splitName_other name :
  name ≠ "" → name ≠ "." → splitName name = Split (ToLower (TrimSuffix1 name ".")) ".".
Proof. intros. unfold splitName. by rewrite !bool_decide_eq_false_2. Qed.

Lemma TrimSuffix1_dot_nonempty name : name ≠ "" → name ≠ "." → TrimSuffix1 name "." ≠ "".
Proof.
  intros H1 H2 E. destruct (TrimSuffix1_cases name ".") as [E'|E']; rewrite E in E'; simpl in E'; congruence.
Qed.

Lemma str_lower_empty s : str_map lowerByte s = "" → s = "".
Proof. by destruct s. Qed.

(** ** Reachable states *)

Lemma reachable_wf b : reachable b → wf (Root b).
Proof.
  induction 1 as [|b name q _ IH|b name q _ IH|b name r _ IH Hr].
  - apply wf_NewLevel.
  - by apply wf_Add.
  - unfold Delete. pose proof (Delete_spec (Root b) (splitName name) q IH) as H.
    destruct (Trie.Delete _ _ _). by destruct H as (_ & ? & _).
  - unfold DeleteTree in Hr. destruct (decide (splitName name = [])) as [E|E].
    + by rewrite E in Hr.
    + destruct (DeleteTree_spec _ _ E IH) as (f & l' & Hd & Hwf & _).
      rewrite Hd in Hr. by injection Hr as <-.
Qed.

Lemma reachable_AddEntry b e q : reachable b → reachable (AddEntry b e q).2.
Proof. intros Hb. unfold AddEntry. repeat case_match; simpl; eauto using reachable. Qed.

Lemma reachable_AddHostsEntry b e : reachable b → reachable (AddHostsEntry b e).2.
Proof.
  intros Hb. unfold AddHostsEntry. repeat case_match; simpl; eauto using reachable_AddEntry.
Qed.

Lemma reachable_DeleteEntry b e q : reachable b → reachable (DeleteEntry b e q).2.
Proof.
  intros Hb. unfold DeleteEntry. destruct (Split e ":") as [|d [|t [|]]]; simpl; auto.
  - pose proof (reach_Delete b d q Hb). by destruct (Delete b d q).
  - destruct (StringToType t) as [q'|]; simpl; auto.
    pose proof (reach_Delete b d q' Hb). by destruct (Delete b d q').
Qed.

(** ** Set-level view of the mutators *)

Lemma Rules_Add b name q : Rules (Add b name q) = {[ (splitName name, q) ]} ∪ Rules b.
Proof.
  apply set_eq. intros [p q']. unfold Rules, Add. simpl.
  rewrite elem_of_rules_Add, elem_of_union, elem_of_singleton. naive_solver.
Qed.

Lemma Rules_Delete b name q :
  wf (Root b) →
  (Delete b name q).1 = bool_decide ((splitName name, q) ∈ Rules b)
  ∧ Rules (Delete b name q).2 = Rules b ∖ {[ (splitName name, q) ]}.
Proof.
  intros Hwf. unfold Delete, Rules.
  pose proof (Delete_spec (Root b) (splitName name) q Hwf) as H.
  destruct (Trie.Delete _ _ _) as [f l']. destruct H as (Hf & _ & Hr). simpl. split.
  - apply Bool.eq_iff_eq_true. by rewrite Hf, bool_decide_eq_true.
  - apply set_eq. intros [p q']. rewrite Hr, elem_of_difference, elem_of_singleton. tauto.
Qed.

(** What an entry denotes: the labels and the type it names. *)
Definition entry_rule (entry : string) (default_qtype : Z) : option (list string * Z) :=
  match Split entry ":" with
  | [d] => Some (splitName d, default_qtype)
  | [d; t] => qtype ← StringToType t; Some (splitName d, qtype)
  | _ => None
  end.

Lemma AddEntry_rule b e q :
  match entry_rule e q with
  | Some r => ∃ b', AddEntry b e q = (None, b') ∧ Rules b' = {[ r ]} ∪ Rules b
  | None => ∃ msg, AddEntry b e q = (Some msg, b)
  end.
Proof.
  unfold entry_rule, AddEntry. destruct (Split e ":") as [|d [|t [|]]]; simpl; eauto using Rules_Add.
  destruct (StringToType t); simpl; eauto using Rules_Add.
Qed.

Lemma DeleteEntry_rule b e q :
  wf (Root b) →
  match entry_rule e q with
  | Some r => ∃ b', DeleteEntry b e q = (bool_decide (r ∈ Rules b), None, b')
                    ∧ Rules b' = Rules b ∖ {[ r ]}
  | None => ∃ msg, DeleteEntry b e q = (false, Some msg, b)
                   ∧ AddEntry b e q = (Some msg, b)
  end.
Proof.
  intros Hwf. unfold entry_rule, DeleteEntry, AddEntry.
  destruct (Split e ":") as [|d [|t [|]]]; simpl; eauto.
  - destruct (Rules_Delete b d q Hwf) as [Hf Hr]. destruct (Delete b d q) as [f b'].
    simpl in *. subst f. eauto.
  - destruct (StringToType t) as [q'|]; simpl; eauto.
    destruct (Rules_Delete b d q' Hwf) as [Hf Hr]. destruct (Delete b d q') as [f b'].
    simpl in *. subst f. eauto.
Qed.

(** ** Names built from labels *)

(** A path whose printed name reads back as the same path. *)
Definition good_path (p : list string) : Prop :=
  splitName (Join p "." +:+ ".") = p ∧ str_mem ":" (Join p ".") = false.

Lemma str_mem_lower c s :
  isUpperByte c = false → isLowerByte c = false →
  str_mem c (str_map lowerByte s) = str_mem c s.
Proof.
  intros HU HL. induction s as [|a s IH]; [done|]. simpl. by rewrite lowerByte_fixed, IH.
Qed.

Lemma str_mem_TrimSuffix1 c s d : str_mem c s = false → str_mem c (TrimSuffix1 s d) = false.
Proof.
  intros Hs. destruct (TrimSuffix1_cases s d) as [E|E]; [|by rewrite E].
  rewrite E, str_mem_app in Hs. by apply orb_false_iff in Hs as [? _].
Qed.

Lemma good_path_splitName name :
  isASCII name = true → str_mem ":" name = false → good_path (splitName name).
Proof.
  intros HA HC. destruct (decide (name = "" ∨ name = ".")) as [E|E].
  - by rewrite (proj2 (splitName_root name) E).
  - apply Decidable.not_or in E as [E1 E2].
    pose proof (TrimSuffix1_dot_nonempty name E1 E2) as Hne.
    pose proof (isASCII_TrimSuffix1 name "." HA) as HA'.
    rewrite splitName_other by done. unfold good_path. rewrite Join_Split.
    rewrite ToLower_ASCII by done. split.
    + rewrite splitName_other.
      * rewrite TrimSuffix1_snoc, ToLower_ASCII, str_map_lower_idem by by apply isASCII_str_lower.
        done.
      * by destruct (str_map lowerByte _).
      * intros E. apply Hne, str_lower_empty.
        apply (f_equal (λ s, TrimSuffix1 s ".")) in E. by rewrite TrimSuffix1_snoc in E.
    + rewrite str_mem_lower by done. by apply str_mem_TrimSuffix1.
Qed.

Lemma isASCII_Split s c : isASCII s = true → Forall (λ p, isASCII p = true) (Split s c).
Proof.
  unfold isASCII. induction s as [|a s IH]; simpl; [by constructor|].
  intros [Ha Hs]%andb_true_iff. specialize (IH Hs).
  case_bool_decide; [by constructor|]. destruct (Split s c) eqn:E; [by destruct (Split_nonempty s c)|].
  inversion IH; subst. constructor; [|done]. simpl. by rewrite Ha.
Qed.
End blocklist.

#[export] Hint Constructors reachable : dino.
#[export] Hint Resolve reachable_wf reachable_AddEntry reachable_AddHostsEntry reachable_DeleteEntry : dino.

(** ** Blocklists fed from entries, as the configuration and the API do *)
Section entries.
Context {U : GoUnicode} {L : DnsLib}.

Inductive entry_built : BlockList → Prop :=
  | eb_New : entry_built New
  | eb_AddEntry b e q :
      isASCII e = true → TypeToString q ≠ "" → entry_built b →
      entry_built (AddEntry b e q).2
  | eb_AddHostsEntry b e :
      isASCII e = true → entry_built b → entry_built (AddHostsEntry b e).2
  | eb_DeleteEntry b e q : entry_built b → entry_built (DeleteEntry b e q).2
  | eb_DeleteTree b name r :
      entry_built b → DeleteTree b name = Ok r → entry_built r.2.

Lemma entry_built_reachable b : entry_built b → reachable b.
Proof.
  induction 1; eauto with dino.
Qed.

Context {HL : DnsLaws L}.

Definition good_rules (b : BlockList) : Prop :=
  ∀ p q, (p, q) ∈ Rules b → good_path p ∧ TypeToString q ≠ "".

Lemma TypeToString_ANY : TypeToString TypeANY = "ANY".
Proof. apply StringToType_TypeToString, StringToType_ANY. Qed.

Lemma known_type s q : StringToType s = Some q → TypeToString q ≠ "".
Proof.
  intros Hs. rewrite (StringToType_TypeToString _ _ Hs). intros ->.
  by rewrite StringToType_empty in Hs.
Qed.

Lemma entry_rule_good e q p q' :
  isASCII e = true → entry_rule e q = Some (p, q') → good_path p.
Proof.
  intros He. pose proof (isASCII_Split e ":" He) as HA. pose proof (Split_pieces e ":") as HC.
  unfold entry_rule. destruct (Split e ":") as [|d [|t [|]]]; [done| | |done];
    rewrite Forall_cons in HA, HC; destruct HA as [HA _], HC as [HC _].
  - intros [= <- _]. by apply good_path_splitName.
  - destruct (StringToType t); simpl; [|done]. intros [= <- _]. by apply good_path_splitName.
Qed.

Lemma cut_ws_ASCII s a r :
  isASCII s = true → cut_ws s = Some (a, r) → isASCII a = true ∧ isASCII r = true.
Proof.
  assert (Hskip : ∀ t, isASCII t = true → isASCII (skip_ws t) = true).
  { unfold isASCII. induction t as [|c t IH]; [done|]. simpl. intros [Hc Ht]%andb_true_iff.
    case_match; [by apply IH|]. simpl. by rewrite Hc. }
  revert a r. induction s as [|c s IH]; [done|]. intros a r Hs. simpl.
  unfold isASCII in Hs. simpl in Hs. apply andb_true_iff in Hs as [Hc Hs].
  case_match; [intros [= <- <-]; split; [done|by apply Hskip]|].
  destruct (cut_ws s) as [[h t]|] eqn:E; [|done]. intros [= <- <-].
  destruct (IH h t Hs eq_refl) as [Hh Ht]. split; [|done]. unfold isASCII. simpl. by rewrite Hc.
Qed.

(** A hosts line changes nothing or adds its domain as an [ANY] entry. *)
Lemma AddHostsEntry_cases b e :
  isASCII e = true →
  (AddHostsEntry b e).2 = b
  ∨ ∃ d, isASCII d = true ∧ AddHostsEntry b e = AddEntry b d TypeANY.
Proof.
  intros He. unfold AddHostsEntry, re_ws_Split3.
  destruct (cut_ws e) as [[a r]|] eqn:E1; [|by left].
  destruct (cut_ws_ASCII _ _ _ He E1) as [_ Hr].
  destruct (cut_ws r) as [[d r']|] eqn:E2; case_match; [by left| |by left|]; right.
  - exists d. destruct (cut_ws_ASCII _ _ _ Hr E2). done.
  - by exists r.
Qed.

Lemma good_rules_AddEntry b e q :
  isASCII e = true → TypeToString q ≠ "" → good_rules b → good_rules (AddEntry b e q).2.
Proof.
  intros He Hq Hb. pose proof (AddEntry_rule b e q) as H.
  destruct (entry_rule e q) as [[p0 q0]|] eqn:E.
  - destruct H as (b' & -> & Hr). intros p q'. simpl. rewrite Hr, elem_of_union, elem_of_singleton.
    intros [[= -> ->]|?]; [|by apply Hb]. split; [by eapply entry_rule_good|].
    unfold entry_rule in E. destruct (Split e ":") as [|d [|t [|]]]; [done| | |done].
    + by simplify_eq.
    + destruct (StringToType t) as [q1|] eqn:Et; simplify_eq/=.
      by eapply known_type.
  - by destruct H as [msg ->].
Qed.
Lemma good_rules_subset b b' : Rules b' ⊆ Rules b → good_rules b → good_rules b'.
Proof. intros Hs Hb p q Hpq. apply Hb. set_solver. Qed.

Lemma Rules_DeleteTree b name r :
  wf (Root b) → DeleteTree b name = Ok r →
  ∀ p q, (p, q) ∈ Rules r.2 ↔ (p, q) ∈ Rules b ∧ ¬ splitName name `suffix_of` p.
Proof.
  intros Hwf. unfold DeleteTree. destruct (decide (splitName name = [])) as [E|E].
  - by rewrite E.
  - destruct (DeleteTree_spec _ _ E Hwf) as (f & l' & -> & _ & _ & Hr). simpl.
    by intros [= <-].
Qed.

Lemma DeleteTree_Ok b name :
  wf (Root b) → name ≠ "" → name ≠ "." → ∃ r, DeleteTree b name = Ok r.
Proof.
  intros Hwf H1 H2. assert (E : splitName name ≠ []) by (rewrite splitName_root; naive_solver).
  unfold DeleteTree. destruct (DeleteTree_spec _ _ E Hwf) as (f & l' & -> & _). simpl. eauto.
Qed.

Lemma entry_built_good b : entry_built b → good_rules b.
Proof.
  induction 1 as [|b e q He Hq _ IH|b e He _ IH|b e q Hb IH|b name r Hb IH Hr].
  - intros p q. change (Rules New) with (rules NewLevel). rewrite rules_NewLevel. set_solver.
  - by apply good_rules_AddEntry.
  - destruct (AddHostsEntry_cases b e He) as [->|(d & Hd & ->)]; [done|].
    apply good_rules_AddEntry; [done| |done]. by rewrite TypeToString_ANY.
  - apply entry_built_reachable, reachable_wf in Hb.
    pose proof (DeleteEntry_rule b e q Hb) as Hd. destruct (entry_rule e q) as [r|].
    + destruct Hd as (b' & -> & Hr). eapply good_rules_subset, IH. simpl. rewrite Hr. set_solver.
    + by destruct Hd as (msg & -> & _).
  - apply entry_built_reachable, reachable_wf in Hb. eapply good_rules_subset, IH.
    intros [p q] [? _]%(Rules_DeleteTree _ _ _ Hb Hr). done.
Qed.

(** ** Rebuilding a list from a dump *)

Definition dump_lines (out : list BlockEntry) : list string :=
  out ≫= λ e, (λ t, be_Name e +:+ ":" +:+ t) <$> be_Block e.

Definition reload (out : list BlockEntry) : BlockList :=
  foldl (λ b s, (AddEntry b s TypeANY).2) New (dump_lines out).

Lemma Rules_AddEntries lines b r :
  r ∈ Rules (foldl (λ b s, (AddEntry b s TypeANY).2) b lines)
  ↔ r ∈ Rules b ∨ ∃ s, s ∈ lines ∧ entry_rule s TypeANY = Some r.
Proof.
  revert b. induction lines as [|s lines IH]; intros b; simpl; [set_solver|].
  rewrite IH. pose proof (AddEntry_rule b s TypeANY) as H.
  destruct (entry_rule s TypeANY) as [r'|] eqn:E.
  - destruct H as (b' & -> & Hr). simpl. rewrite Hr. set_solver.
  - destruct H as [msg ->]. simpl. set_solver.
Qed.

Lemma StringToType_rule_name q :
  TypeToString q ≠ "" → StringToType (rule_name q) = Some q.
Proof.
  intros Hq. unfold rule_name. destruct (Z.eqb_spec q TypeANY) as [->|_].
  - apply StringToType_ANY.
  - by apply TypeToString_StringToType.
Qed.

(** The printed line of a rule denotes that rule. *)
Lemma entry_rule_line p q :
  good_path p → TypeToString q ≠ "" →
  entry_rule ((Join p "." +:+ ".") +:+ ":" +:+ rule_name q) TypeANY = Some (p, q).
Proof.
  intros [Hp Hc] Hq. unfold entry_rule.
  pose proof (StringToType_rule_name q Hq) as Ht.
  change (":" +:+ rule_name q) with (String ":" (rule_name q)).
  rewrite Split_app by (rewrite str_mem_app, Hc; done).
  rewrite Split_nosep by (by eapply StringToType_word).
  simpl. by rewrite Ht, Hp.
Qed.

Lemma str_mem_Join c d l :
  c ≠ d → str_mem c (Join l (String d "")) = existsb (str_mem c) l.
Proof.
  intros Hcd. induction l as [|s [|s' l] IH]; [done|by simpl; rewrite orb_false_r|].
  change (Join (s :: s' :: l) (String d ""))
    with (s +:+ String d "" +:+ Join (s' :: l) (String d "")).
  rewrite !str_mem_app, IH. simpl. by rewrite bool_decide_eq_false_2 by done.
Qed.
End entries.

(** ** Properties *)
Section properties.
Context {U : GoUnicode} {L : DnsLib}.

(** C4: a query is matched exactly when some domain that covers it (a label
    suffix of its name, the root included) carries an [ANY] rule or a rule
    for the query's type. *)
Theorem Match_iff_covering_rule (b : BlockList) (name : string) (q : Z) :
  reachable b →
  Match b name q = true
  ↔ ∃ s, s `suffix_of` splitName name ∧ ((s, TypeANY) ∈ Rules b ∨ (s, q) ∈ Rules b).
Proof. intros Hb. by apply Match_spec, reachable_wf. Qed.

(** C28: the set of rules refines every mutator: [Add] inserts one rule,
    [Delete] removes one rule and reports whether it was there. *)
Theorem Add_Delete_refine_set (b : BlockList) (name : string) (q : Z) :
  reachable b →
  Rules (Add b name q) = {[ (splitName name, q) ]} ∪ Rules b
  ∧ (Delete b name q).1 = bool_decide ((splitName name, q) ∈ Rules b)
  ∧ Rules (Delete b name q).2 = Rules b ∖ {[ (splitName name, q) ]}.
Proof. intros Hb. split; [apply Rules_Add|]. by apply Rules_Delete, reachable_wf. Qed.

(** An entry accepted by [AddEntry] is found and removed again by
    [DeleteEntry], leaving the other rules alone; an entry rejected by one is
    rejected by the other with the same message and no change. *)
Theorem AddEntry_DeleteEntry_roundtrip (b : BlockList) (e : string) (q : Z) :
  reachable b →
  (∃ r b1 b2, AddEntry b e q = (None, b1) ∧ DeleteEntry b1 e q = (true, None, b2)
              ∧ Rules b1 = {[ r ]} ∪ Rules b ∧ Rules b2 = Rules b ∖ {[ r ]})
  ∨ (∃ msg, AddEntry b e q = (Some msg, b) ∧ DeleteEntry b e q = (false, Some msg, b)).
Proof.
  intros Hb. pose proof (AddEntry_rule b e q) as Ha.
  pose proof (reachable_AddEntry b e q Hb) as Hb1.
  destruct (entry_rule e q) as [r|] eqn:E.
  - left. destruct Ha as (b1 & Ha & Hr1). rewrite Ha in Hb1.
    pose proof (DeleteEntry_rule b1 e q (reachable_wf _ Hb1)) as Hd. rewrite E in Hd.
    destruct Hd as (b2 & Hd & Hr2). exists r, b1, b2. split_and!; [done| |done|].
    + rewrite Hd. by rewrite bool_decide_eq_true_2 by set_solver.
    + rewrite Hr2, Hr1. set_solver.
  - right. pose proof (DeleteEntry_rule b e q (reachable_wf _ Hb)) as Hd. rewrite E in Hd.
    destruct Hd as (msg & ? & ?). eauto.
Qed.

(** C9: [DeleteTree] removes exactly the rules at or below the named domain
    and reports whether the trie has a node there; it panics exactly for the
    root name. *)
Theorem DeleteTree_removes_subtree (b : BlockList) (name : string) :
  reachable b →
  (DeleteTree b name = Panic ↔ name = "" ∨ name = ".")
  ∧ ∀ found b', DeleteTree b name = Ok (found, b') →
      (found = true ↔ is_Some (node (Root b) (splitName name)))
      ∧ ∀ p q, (p, q) ∈ Rules b' ↔ (p, q) ∈ Rules b ∧ ¬ splitName name `suffix_of` p.
Proof.
  intros Hb%reachable_wf. rewrite <-splitName_root. split.
  - unfold DeleteTree. split; [|by intros ->]. intros H.
    destruct (decide (splitName name = [])) as [|E]; [done|].
    by destruct (DeleteTree_spec _ _ E Hb) as (? & ? & E' & _); rewrite E' in H.
  - intros found b' Hd. split; [|apply (Rules_DeleteTree _ _ _ Hb Hd)].
    unfold DeleteTree in Hd. destruct (decide (splitName name = [])) as [E|E].
    + by rewrite E in Hd.
    + destruct (DeleteTree_spec _ _ E Hb) as (f & l' & E' & _ & Hf & _).
      rewrite E' in Hd. by injection Hd as <- _.
Qed.

(** [Count] is the number of rules. *)
Theorem Count_is_number_of_rules (b : BlockList) :
  reachable b → Count b = size (Rules b).
Proof. intros Hb. by apply Count_rules, reachable_wf. Qed.

(** Whatever order the maps are walked in, [Dump] prints exactly the
    rules: a (name, mnemonic) pair is listed iff it is the printed form of a
    rule; and at least one outcome exists. *)
Theorem Dump_lists_exactly_the_rules (b : BlockList) :
  reachable b →
  (∃ out, Dump b out)
  ∧ ∀ out, Dump b out → ∀ name t,
      (∃ e, e ∈ out ∧ be_Name e = name ∧ t ∈ be_Block e)
      ↔ ∃ p q, (p, q) ∈ Rules b ∧ name = Join p "." +:+ "." ∧ t = rule_name q.
Proof.
  intros Hb%reachable_wf. split; [eexists; apply Dumps_Dump|].
  intros out Hout name t. rewrite <-(Dump_rules _ _ _ Hb).
  by setoid_rewrite (Dumps_Permutation _ _ _ Hout).
Qed.

(** C27: feeding every printed line "name:TYPE" of any dump back through
    [AddEntry] rebuilds the same rules. *)
Theorem Dump_reload_roundtrip (HL : DnsLaws L) (b : BlockList) (out : list BlockEntry) :
  entry_built b → Dump b out → Rules (reload out) = Rules b.
Proof.
  intros Hb Hout. pose proof (entry_built_good b Hb) as Hg.
  pose proof (reachable_wf _ (entry_built_reachable b Hb)) as Hwf.
  pose proof (Dump_rules (Root b)) as Hd. setoid_rewrite <-(Dumps_Permutation _ _ _ Hout) in Hd.
  apply set_eq. intros [p q]. unfold reload. rewrite Rules_AddEntries.
  change (Rules New) with (rules NewLevel). rewrite rules_NewLevel.
  unfold dump_lines. setoid_rewrite list_elem_of_bind. setoid_rewrite list_elem_of_fmap. split.
  - intros [?|(s & (e & (t & -> & Ht) & He) & Hr)]; [set_solver|].
    destruct (proj1 (Hd (be_Name e) t Hwf)) as (p' & q' & Hpq & Hn & ->); [eauto|].
    destruct (Hg _ _ Hpq) as [Hp Hq]. rewrite Hn, entry_rule_line in Hr by done.
    by injection Hr as <- <-.
  - intros Hpq. right. destruct (Hg _ _ Hpq) as [Hp Hq].
    destruct (proj2 (Hd (Join p "." +:+ ".") (rule_name q) Hwf)) as (e & He & Hn & Ht); [eauto|].
    exists (be_Name e +:+ ":" +:+ rule_name q). split; [eauto|].
    rewrite Hn. by apply entry_rule_line.
Qed.

(** Matching ignores the case of an ASCII name and a trailing dot. *)
Theorem Match_ignores_case_and_trailing_dot (b : BlockList) (name : string) (q : Z) :
  isASCII name = true →
  Match b (ToLower name) q = Match b name q
  ∧ (name ≠ "" → TrimSuffix1 name "." = name → Match b (name +:+ ".") q = Match b name q).
Proof.
  intros HA. unfold Match. split.
  - f_equal. rewrite (ToLower_ASCII name HA).
    destruct (decide (name = "")) as [->|H1]; [done|].
    destruct (decide (name = ".")) as [->|H2]; [done|].
    rewrite !splitName_other; [|done|done| |].
    + rewrite TrimSuffix1_str_lower by done.
      rewrite !ToLower_ASCII, str_map_lower_idem; [done|by apply isASCII_TrimSuffix1|].
      by apply isASCII_str_lower, isASCII_TrimSuffix1.
    + by intros ?%str_lower_empty.
    + intros E. destruct name as [|c s]; [done|]. injection E as Ec Es.
      apply str_lower_empty in Es as ->. apply H2. f_equal.
      apply (bool_decide_eq_true (c = "."%char)). rewrite <-(lowerByte_fixed "." c) by done.
      by apply bool_decide_eq_true.
  - intros H1 H2. f_equal. rewrite !splitName_other; [|done| | |].
    + by rewrite TrimSuffix1_snoc, H2.
    + intros ->. done.
    + by destruct name.
    + intros E. apply (f_equal (λ s, TrimSuffix1 s ".")) in E. by rewrite TrimSuffix1_snoc in E.
Qed.

(** A hosts line with the address and the domain separated by white space
    (and anything after more white space) blocks the domain for every type
    when the address is 0.0.0.0, and is skipped for any other address and for
    the domain 0.0.0.0; a line of one word is an error. *)
Theorem AddHostsEntry_line (b : BlockList) (ip domain w1 w2 rest : string) (c1 c2 : ascii) :
  no_ws ip → no_ws domain → domain ≠ "" →
  isReSpace c1 = true → all_ws w1 → isReSpace c2 = true → all_ws w2 →
  (∀ c s, rest = String c s → isReSpace c = false) →
  let r := if bool_decide (ip = "0.0.0.0") && negb (bool_decide (domain = "0.0.0.0"))
           then AddEntry b domain TypeANY else (None, b) in
  AddHostsEntry b (ip +:+ String c1 (w1 +:+ domain)) = r
  ∧ AddHostsEntry b (ip +:+ String c1 (w1 +:+ domain +:+ String c2 (w2 +:+ rest))) = r
  ∧ AddHostsEntry b ip = (Some ("Invalid hosts entry: " +:+ ip), b).
Proof.
  intros Hip Hd Hne Hc1 Hw1 Hc2 Hw2 Hrest.
  assert (Hhd : ∀ t c s, domain +:+ t = String c s → isReSpace c = false).
  { destruct domain as [|x d]; [done|]. unfold no_ws in Hd. simpl in Hd.
    apply andb_true_iff in Hd as [Hx%negb_true_iff _]. by intros t c s [= -> _]. }
  pose proof (Hhd "") as Hhd0. rewrite str_app_nil_r in Hhd0.
  assert (Hneg : ∀ x y : bool, negb x || y = negb (x && negb y)) by by intros [] [].
  unfold AddHostsEntry, re_ws_Split3. split_and!.
  - rewrite cut_ws_token by done. rewrite (cut_ws_none domain) by done. rewrite Hneg.
    by destruct (_ && _).
  - rewrite cut_ws_token by eauto. rewrite cut_ws_token by done. rewrite Hneg.
    by destruct (_ && _).
  - by rewrite cut_ws_none.
Qed.

(** A block-delete directive that carries a type suffix removes nothing:
    the whole text is taken as a domain name, and no rule has a label with a
    colon. *)
Theorem DeleteTree_with_qtype_is_noop (HL : DnsLaws L) (b : BlockList) (name : string) :
  entry_built b → isASCII name = true → str_mem ":" name = true →
  ∃ found b', DeleteTree b name = Ok (found, b') ∧ Rules b' = Rules b.
Proof.
  intros Hb HA Hc. pose proof (reachable_wf _ (entry_built_reachable b Hb)) as Hwf.
  assert (H1 : name ≠ "") by (by intros ->). assert (H2 : name ≠ ".") by (by intros ->).
  destruct (DeleteTree b name) as [[found b']|] eqn:Hd.
  - exists found, b'. split; [done|]. apply set_eq. intros [p q].
    rewrite (Rules_DeleteTree b name _ Hwf Hd). split; [naive_solver|]. intros Hpq.
    split; [done|]. intros [k ->]. destruct (entry_built_good b Hb _ _ Hpq) as [[_ Hg] _].
    rewrite str_mem_Join, existsb_app in Hg by done. apply orb_false_iff in Hg as [_ Hg].
    rewrite <-(str_mem_Join ":" ".") in Hg by done. rewrite splitName_other, Join_Split in Hg by done.
    rewrite ToLower_ASCII, str_mem_lower in Hg by (done || by apply isASCII_TrimSuffix1).
    destruct (TrimSuffix1_cases name ".") as [E|E]; [|congruence].
    rewrite E, str_mem_app in Hc. by rewrite Hg in Hc.
  - unfold DeleteTree in Hd. destruct (decide (splitName name = [])) as [E|E].
    + by apply splitName_root in E as [->| ->].
    + by destruct (DeleteTree_spec _ _ E Hwf) as (f & l' & E' & _); rewrite E' in Hd.
Qed.
End properties.

(** ** Witnesses: the properties at a concrete blocklist *)

Definition sample_list : BlockList :=
  (AddEntry (AddEntry New "Ads.example.com" TypeANY).2 "cdn.example.org:AAAA" TypeANY).2.

Lemma sample_list_built : entry_built sample_list.
Proof.
  apply eb_AddEntry; [done| |apply eb_AddEntry; [done| |apply eb_New]];
    intros H; vm_compute in H; discriminate.
Qed.

Lemma sample_list_reachable : reachable sample_list.
Proof. apply entry_built_reachable, sample_list_built. Qed.

Ltac rule_member := apply (bool_decide_unpack _); vm_compute; exact I.

Lemma Match_iff_covering_rule_witness :
  Match sample_list "www.ADS.example.com." TypeA = true.
Proof.
  apply (Match_iff_covering_rule sample_list); [apply sample_list_reachable|].
  exists ["ads"; "example"; "com"]. split; [by exists ["www"]|left; rule_member].
Defined.

Lemma Add_Delete_refine_set_witness :
  Rules (Delete sample_list "cdn.example.org" TypeAAAA).2
  = Rules sample_list ∖ {[ (["cdn"; "example"; "org"], TypeAAAA) ]}.
Proof.
  apply (Add_Delete_refine_set sample_list "cdn.example.org" TypeAAAA), sample_list_reachable.
Defined.

Lemma AddEntry_DeleteEntry_roundtrip_witness :
  ∃ msg, AddEntry sample_list "x.org:BOGUS" TypeANY = (Some msg, sample_list)
         ∧ DeleteEntry sample_list "x.org:BOGUS" TypeANY = (false, Some msg, sample_list).
Proof.
  destruct (AddEntry_DeleteEntry_roundtrip sample_list "x.org:BOGUS" TypeANY sample_list_reachable)
    as [(r & b1 & b2 & H & _)|H]; [discriminate H|exact H].
Defined.

Lemma DeleteTree_removes_subtree_witness : DeleteTree sample_list "." = Panic.
Proof.
  destruct (DeleteTree_removes_subtree sample_list "." sample_list_reachable) as [H _].
  apply H. by right.
Defined.

Lemma Dump_reload_roundtrip_witness :
  Rules (reload (Trie.Dump (Root sample_list) [])) = Rules sample_list.
Proof.
  apply (Dump_reload_roundtrip sample_laws sample_list); [apply sample_list_built|apply Dumps_Dump].
Defined.

Lemma Match_ignores_case_and_trailing_dot_witness :
  Match sample_list (ToLower "ADS.example.COM") TypeA = Match sample_list "ADS.example.COM" TypeA.
Proof.
  destruct (Match_ignores_case_and_trailing_dot sample_list "ADS.example.COM" TypeA) as [H _];
    [reflexivity|exact H].
Defined.

Lemma AddHostsEntry_line_witness :
  AddHostsEntry New "0.0.0.0  tracker.net # tracker" = AddEntry New "tracker.net" TypeANY.
Proof.
  destruct (AddHostsEntry_line New "0.0.0.0" "tracker.net" " " "" "# tracker" " " " ")
    as (_ & H & _); try done.
  by intros c s [= <- _].
Defined.

Lemma DeleteTree_with_qtype_is_noop_witness :
  ∃ found b', DeleteTree sample_list "cdn.example.org:AAAA" = Ok (found, b')
              ∧ Rules b' = Rules sample_list.
Proof.
  apply (DeleteTree_with_qtype_is_noop sample_laws sample_list); [|done|done].
  apply sample_list_built.
Defined.
