(* ===== verification/Cache.v ===== *)
(** * The DNS cache (cache/cache.go, cache/ptr.go)

    [DNSCache] is a map from (canonical name, qtype) to a message with its
    insertion and expiry times.  Every method holds the mutex for the part that
    touches the map, so a method is one function from the map to the new map.
    Clock readings and drawn message identifiers are arguments, one per call of
    [timeNow] or [SetQuestion] in the method. *)

From S2P Require Import Prelude GoStrings GoNet GoTime Dns Samples.
Set Default Goal Selector "!".
Local Open Scope string_scope.

Record DNSCacheKey := mkKey { key_Name : string; key_Qtype : Z }.

#[export] Instance DNSCacheKey_eq_dec : EqDecision DNSCacheKey.
Proof. solve_decision. Defined.
#[export] Instance DNSCacheKey_countable : Countable DNSCacheKey.
Proof.
  refine (inj_countable' (λ k, (key_Name k, key_Qtype k)) (λ p, mkKey p.1 p.2) _).
  by intros [].
Defined.

Record DNSCacheItem := mkItem {
  Message : Msg;
  Inserted : Time;
  Expires : Time;
  Permanent : bool;
}.

Notation DNSCache := (gmap DNSCacheKey DNSCacheItem) (only parsing).

Definition New : DNSCache := ∅.

(** The readings one [AddRR] call takes: the identifier drawn by [SetQuestion]
    and the two readings of the clock. *)
Record Stamp := mkStamp { st_id : Z; st_now : Time; st_now' : Time }.

(** ** Reverse names (cache/ptr.go) *)

(** The loops run from the last byte to the first. *)
Definition reverseIP4 (ip : IP) : string :=
  foldr (λ b s, fmt_d b +:+ "." +:+ s) "in-addr.arpa." (reverse (To4 ip)).

Definition reverseIP6 (ip6 : IP) : string :=
  foldr (λ b s, fmt_x (Z.land b 15) +:+ "." +:+ fmt_x (Z.shiftr b 4) +:+ "." +:+ s)
        "ip6.arpa." (reverse (To16 ip6)).

Definition createPtrA (hdr : RR_Header) (a : IP) : RR :=
  RR_PTR (mkHdr (reverseIP4 a) TypePTR ClassINET (Ttl hdr)) (hdr_Name hdr).

Definition createPtrAAAA (hdr : RR_Header) (aaaa : IP) : RR :=
  RR_PTR (mkHdr (reverseIP6 aaaa) TypePTR ClassINET (Ttl hdr)) (hdr_Name hdr).

(** ** The cache *)

(** The expiry test shared by [Get] and [Flush]. *)
Definition expired (now : Time) (it : DNSCacheItem) : bool :=
  negb (Permanent it) && After now (Expires it).

(** The TTL rewrite of [Get]: OPT records keep their pseudo-TTL. *)
Definition decrement (delta : Z) (rr : RR) : RR :=
  if (Rrtype (Header rr) =? TypeOPT)%Z then rr
  else set_Ttl rr (u32 (Ttl (Header rr) - delta)).

(** The minimum loop of [Add]. *)
Definition min_ttl (rrs : list RR) : Z :=
  foldl (λ m rr, if negb (Rrtype (Header rr) =? TypeOPT)%Z && (Ttl (Header rr) <? m)%Z
                 then Ttl (Header rr) else m) 86400%Z rrs.

Section cache.
Context {L : DnsLib}.

Definition msg_key (q : Question) : DNSCacheKey := mkKey (CanonicalName (q_Name q)) (Qtype q).

(** A [nil] record is [None]. *)
Definition AddRR (st : Stamp) (c : DNSCache) (rr : option RR) (permanent : bool)
    : error * DNSCache :=
  match rr with
  | None => (None, c)
  | Some rr =>
      let h := Header rr in
      let name := CanonicalName (hdr_Name h) in
      let msg := SetQuestion (st_id st) new_Msg name (Rrtype h) in
      let msg := set_flags msg true permanent false RcodeSuccess in
      let msg := set_sections msg (Answer msg ++ [rr])%list (Ns msg) (Extra msg) in
      let expires := Time_Add (st_now st) (Second * Ttl h) in
      let key := mkKey name (Rrtype h) in
      let val := mkItem msg (st_now' st) expires permanent in
      (None, <[key := val]> c)
  end.

Definition AddRRString (st1 st2 : Stamp) (c : DNSCache) (entry : string) (permanent ptr : bool)
    : error * DNSCache :=
  match NewRR entry with
  | inl err => (Some ("Error creating RR: " +:+ err), c)
  | inr rr =>
      let '(err, c) :=
        if ptr then
          match rr with
          | Some (RR_A h a) => AddRR st1 c (Some (createPtrA h a)) permanent
          | Some (RR_AAAA h a) => AddRR st1 c (Some (createPtrAAAA h a)) permanent
          | _ => (None, c)
          end
        else (None, c) in
      match err with
      | Some _ => (err, c)
      | None => AddRR st2 c rr permanent
      end
  end.

Definition Add (now : Time) (c : DNSCache) (msg : Msg) : res DNSCache :=
  if negb (Rcode msg =? RcodeSuccess)%Z || Truncated msg
     || bool_decide (length (Answer msg) + length (Ns msg) + length (Extra msg) = 0)
  then Ok c
  else
    let minTTL := min_ttl (all_rrs msg) in
    if (minTTL =? 0)%Z then Ok c
    else
      let expires := Time_Add now (Second * minTTL) in
      match Questions msg with
      | [] => Panic
      | q :: _ => Ok (<[msg_key q := mkItem (Msg_Copy msg) now expires false]> c)
      end.

(** [t1]: the expiry test; [t2]: the TTL adjustment. *)
Definition Get (t1 t2 : Time) (c : DNSCache) (query : Msg) : res (option Msg * DNSCache) :=
  match Questions query with
  | [] => Panic
  | q :: _ =>
      let key := msg_key q in
      match c !! key with
      | None => Ok (None, c)
      | Some entry =>
          if expired t1 entry then Ok (None, delete key c)
          else
            let reply := set_Id (Msg_Copy (Message entry)) (Id query) in
            if Permanent entry then Ok (Some reply, c)
            else
              let delta := uint32_Seconds (Sub t2 (Inserted entry)) in
              Ok (Some (set_sections reply (decrement delta <$> Answer reply)
                          (decrement delta <$> Ns reply) (decrement delta <$> Extra reply)), c)
      end
  end.

Definition GetName (i : Z) (t1 t2 : Time) (c : DNSCache) (qname qtype : string)
    : res (option Msg * DNSCache) :=
  Get t1 t2 c (SetQuestion i new_Msg qname (StringToType0 qtype)).

Definition Delete (c : DNSCache) (query : Msg) : res DNSCache :=
  match Questions query with
  | [] => Panic
  | q :: _ => Ok (delete (msg_key q) c)
  end.

(** The pointer record of an address record. *)
Definition ptr_key (rr : RR) : option DNSCacheKey :=
  match rr with
  | RR_A _ a => Some (mkKey (reverseIP4 a) TypePTR)
  | RR_AAAA _ a => Some (mkKey (reverseIP6 a) TypePTR)
  | _ => None
  end.

Definition delete_ptrs (rrs : list RR) (c : DNSCache) : DNSCache :=
  foldl (λ c rr, match ptr_key rr with Some k => delete k c | None => c end) c rrs.

Definition DeleteName (i : Z) (t1 t2 : Time) (c : DNSCache) (name qtype : string) (ptr : bool)
    : res DNSCache :=
  c ← (if ptr then
         '(fwd, c) ← GetName i t1 t2 c name qtype;
         match fwd with
         | Some fwd => Ok (delete_ptrs (Answer fwd) c)
         | None => Ok c
         end
       else Ok c);
  Ok (delete (mkKey (CanonicalName name) (StringToType0 qtype)) c).

(** (total, expired) and the remaining entries. *)
Definition Flush (now : Time) (c : DNSCache) : nat * nat * DNSCache :=
  (size c, size (filter (λ kv, expired now kv.2 = true) c),
   filter (λ kv, expired now kv.2 = false) c).
End cache.

(** ** Lemmas on TTLs *)

(** TTLs are uint32 values. *)
Definition rr_ok (rr : RR) : Prop := (0 ≤ Ttl (Header rr) < 2 ^ 32)%Z.
Definition msg_ok (m : Msg) : Prop := Forall rr_ok (all_rrs m).
Definition not_opt (rr : RR) : Prop := Rrtype (Header rr) ≠ TypeOPT.

Lemma min_ttl_spec (rrs : list RR) (m : Z) :
  let f := λ m rr, if negb (Rrtype (Header rr) =? TypeOPT)%Z && (Ttl (Header rr) <? m)%Z
                   then Ttl (Header rr) else m in
  (foldl f m rrs ≤ m)%Z
  ∧ (∀ rr, rr ∈ rrs → not_opt rr → (foldl f m rrs ≤ Ttl (Header rr))%Z)
  ∧ (foldl f m rrs = m ∨ ∃ rr, rr ∈ rrs ∧ not_opt rr ∧ foldl f m rrs = Ttl (Header rr)).
Proof.
  intros f. revert m. induction rrs as [|rr rrs IH]; intros m; simpl.
  - split_and!; [lia|set_solver|by left].
  - destruct (IH (f m rr)) as (H1 & H2 & H3).
    assert (Hf : (f m rr ≤ m)%Z ∧ (not_opt rr → (f m rr ≤ Ttl (Header rr))%Z)
                 ∧ (f m rr = m ∨ (not_opt rr ∧ f m rr = Ttl (Header rr)))).
    { unfold f, not_opt. destruct (Z.eqb_spec (Rrtype (Header rr)) TypeOPT); simpl; [naive_solver|].
      destruct (Z.ltb_spec (Ttl (Header rr)) m); split_and!; auto; lia. }
    destruct Hf as (F1 & F2 & F3). split_and!; [lia| |].
    + intros rr' [->|Hin]%elem_of_cons Hno; [specialize (F2 Hno); lia|auto].
    + destruct H3 as [->|(rr' & Hin & Hno & ->)]; [|right; exists rr'; set_solver].
      destruct F3 as [->|[Hno ->]]; [by left|right; exists rr; set_solver].
Qed.

Lemma min_ttl_le rrs rr : rr ∈ rrs → not_opt rr → (min_ttl rrs ≤ Ttl (Header rr))%Z.
Proof. apply (min_ttl_spec rrs 86400). Qed.
Lemma min_ttl_max rrs : (min_ttl rrs ≤ 86400)%Z.
Proof. apply (min_ttl_spec rrs 86400). Qed.
Lemma min_ttl_nonneg rrs : Forall rr_ok rrs → (0 ≤ min_ttl rrs)%Z.
Proof.
  intros Hok. destruct (min_ttl_spec rrs 86400) as (_ & _ & [E|(rr & Hin & _ & E)]);
    unfold min_ttl; rewrite E; [lia|]. rewrite Forall_forall in Hok. by apply Hok in Hin as [? _].
Qed.

Lemma Header_set_Ttl rr t :
  Header (set_Ttl rr t)
  = mkHdr (hdr_Name (Header rr)) (Rrtype (Header rr)) (hdr_Class (Header rr)) t.
Proof. by destruct rr. Qed.

(** Ageing a record by no more than its TTL is plain subtraction. *)
Lemma decrement_exact delta rr :
  rr_ok rr → (0 ≤ delta)%Z → not_opt rr → (delta ≤ Ttl (Header rr))%Z →
  Ttl (Header (decrement delta rr)) = (Ttl (Header rr) - delta)%Z.
Proof.
  unfold rr_ok, not_opt, decrement. intros Hok Hd Hno Hle.
  destruct (Z.eqb_spec (Rrtype (Header rr)) TypeOPT); [done|].
  rewrite Header_set_Ttl. simpl. rewrite u32_id; lia.
Qed.

Lemma Sub_small t u : (0 ≤ t - u < 2 ^ 63)%Z → Sub t u = (t - u)%Z.
Proof. unfold Sub. lia. Qed.

(** The elapsed whole seconds stay within a TTL that bounds the lifetime. *)
Lemma uint32_Seconds_le d n :
  (0 ≤ d)%Z → (0 ≤ n < 2 ^ 32)%Z → (d ≤ Second * n)%Z → (0 ≤ uint32_Seconds d ≤ n)%Z.
Proof.
  intros Hd Hn Hle. unfold uint32_Seconds. destruct (Z.ltb_spec d 0); [lia|].
  pose proof (seconds_trunc_le d n Hd ltac:(lia)).
  pose proof (seconds_trunc_ge d Hd). pose proof (Z.div_pos d Second Hd ltac:(done)).
  rewrite u32_id; lia.
Qed.

Lemma uint32_Seconds_exact d :
  (0 ≤ d < 2 ^ 23 * Second)%Z → uint32_Seconds d = (d / Second)%Z.
Proof.
  intros Hd. unfold uint32_Seconds. destruct (Z.ltb_spec d 0); [lia|].
  rewrite seconds_trunc_exact by done. apply u32_id. unfold Second in *.
  split; [apply Z.div_pos; lia|]. apply Z.div_lt_upper_bound; lia.
Qed.

(** ** The cache invariant *)
Section invariant.
Context {L : DnsLib}.

(** An entry is stored under the key of its own question, and a
    non-permanent entry lives no longer than each of its records. *)
Record item_ok (k : DNSCacheKey) (it : DNSCacheItem) : Prop := {
  item_msg_ok : msg_ok (Message it);
  item_key : ∃ q qs, Questions (Message it) = q :: qs ∧ msg_key q = k;
  item_life : Permanent it = false → ∀ rr, rr ∈ all_rrs (Message it) → not_opt rr →
              (Expires it - Inserted it ≤ Second * Ttl (Header rr))%Z;
}.
Definition cache_ok (c : DNSCache) : Prop := map_Forall item_ok c.

(** One call of a mutating method; the clock does not go backwards inside a
    call and record TTLs are uint32. *)
Inductive cache_step : DNSCache → DNSCache → Prop :=
  | step_Add now c msg c' : msg_ok msg → Add now c msg = Ok c' → cache_step c c'
  | step_AddRR st c rr permanent :
      (st_now st ≤ st_now' st)%Z → (∀ r, rr = Some r → rr_ok r) →
      cache_step c (AddRR st c rr permanent).2
  | step_AddRRString st1 st2 c entry permanent ptr :
      (st_now st1 ≤ st_now' st1)%Z → (st_now st2 ≤ st_now' st2)%Z →
      (∀ r, NewRR entry = inr (Some r) → rr_ok r) →
      cache_step c (AddRRString st1 st2 c entry permanent ptr).2
  | step_Get t1 t2 c query r : Get t1 t2 c query = Ok r → cache_step c r.2
  | step_Delete c query c' : Delete c query = Ok c' → cache_step c c'
  | step_DeleteName i t1 t2 c name qtype ptr c' :
      DeleteName i t1 t2 c name qtype ptr = Ok c' → cache_step c c'
  | step_Flush now c : cache_step c (Flush now c).2.

Context {HL : DnsLaws L}.

Lemma cache_ok_insert c k it : cache_ok c → item_ok k it → cache_ok (<[k := it]> c).
Proof. intros. by apply map_Forall_insert_2. Qed.
Lemma cache_ok_delete c k : cache_ok c → cache_ok (delete k c).
Proof. intros. by apply map_Forall_delete. Qed.
Lemma cache_ok_subseteq c c' : c' ⊆ c → cache_ok c → cache_ok c'.
Proof. intros Hs Hc k it Hk. apply Hc. by eapply lookup_weaken. Qed.

#[local] Hint Resolve cache_ok_insert cache_ok_delete cache_ok_subseteq : dino.

Lemma Answer_SetQuestion_new i z t :
  all_rrs (SetQuestion i new_Msg z t) = [] ∧ Answer (SetQuestion i new_Msg z t) = [].
Proof. apply (SetQuestion_sections i new_Msg z t). Qed.

(** The message of a local record has that record as its only one. *)
Lemma AddRR_rrs i z t rr resp auth ra rc :
  let msg := set_flags (SetQuestion i new_Msg z t) resp auth ra rc in
  all_rrs (set_sections msg (Answer msg ++ [rr])%list (Ns msg) (Extra msg)) = [rr].
Proof.
  destruct (Answer_SetQuestion_new i z t) as [E1 E2]. unfold all_rrs in *. simpl.
  rewrite E2 in *. simpl in *. by rewrite E1.
Qed.

Lemma cache_ok_AddRR st c rr permanent :
  (st_now st ≤ st_now' st)%Z → (∀ r, rr = Some r → rr_ok r) → cache_ok c →
  cache_ok (AddRR st c rr permanent).2.
Proof.
  intros Ht Hrr Hc. destruct rr as [rr|]; [|done]. specialize (Hrr rr eq_refl).
  apply cache_ok_insert; [done|]. split; simpl.
  - unfold msg_ok. rewrite AddRR_rrs. by apply Forall_singleton.
  - rewrite SetQuestion_Questions. do 2 eexists. split; [done|]. unfold msg_key. simpl.
    by rewrite CanonicalName_idem.
  - intros _ r. rewrite AddRR_rrs. intros ->%list_elem_of_singleton _. unfold Time_Add. lia.
Qed.

Lemma cache_ok_Add now c msg c' :
  msg_ok msg → Add now c msg = Ok c' → cache_ok c → cache_ok c'.
Proof.
  intros Hm Ha Hc. unfold Add in Ha. go_cases.
  apply cache_ok_insert; [done|]. split; simpl; rewrite Copy_value.
  - done.
  - eauto.
  - intros _ rr Hin Hno. pose proof (min_ttl_le _ _ Hin Hno). unfold Time_Add, Second. lia.
Qed.

Lemma Get_cache t1 t2 c query r :
  Get t1 t2 c query = Ok r → r.2 = c ∨ ∃ k, r.2 = delete k c.
Proof. unfold Get. intros H. repeat case_match; simplify_eq/=; eauto. Qed.

Lemma Get_subseteq t1 t2 c query r : Get t1 t2 c query = Ok r → r.2 ⊆ c.
Proof. intros [->|[k ->]]%Get_cache; [done|]. apply delete_subseteq. Qed.

Lemma delete_ptrs_subseteq rrs c : delete_ptrs rrs c ⊆ c.
Proof.
  unfold delete_ptrs. revert c. induction rrs as [|rr rrs IH]; intros c; simpl; [done|].
  etrans; [apply IH|]. case_match; [apply delete_subseteq|done].
Qed.

Lemma DeleteName_subseteq i t1 t2 c name qtype ptr c' :
  DeleteName i t1 t2 c name qtype ptr = Ok c' → c' ⊆ c.
Proof.
  unfold DeleteName. destruct ptr; simpl.
  - destruct (GetName i t1 t2 c name qtype) as [[fwd c1]|] eqn:E; simpl; [|done].
    apply Get_subseteq in E. simpl in E. destruct fwd as [fwd|]; simpl; intros [= <-];
      (etrans; [apply delete_subseteq|]); [|done].
    by etrans; [apply delete_ptrs_subseteq|].
  - intros [= <-]. apply delete_subseteq.
Qed.
End invariant.

(** ** Reverse names *)

Definition bytes_ok (ip : IP) : Prop := Forall (λ b, (0 ≤ b < 256)%Z) ip.

(** A label: plain bytes and no dot. *)
Definition labelb (s : string) : bool := str_forallb plainByte s && negb (str_mem "." s).

Lemma fmt_d_label b : (0 ≤ b < 256)%Z → labelb (fmt_d b) = true.
Proof.
  assert (H : forallb (λ b, labelb (fmt_d b)) (seqZ 0 256) = true) by by vm_compute.
  rewrite forallb_forall in H. intros Hb. apply H, list_elem_of_In, elem_of_seqZ. lia.
Qed.

Lemma fmt_d_inj a b : (0 ≤ a)%Z → (0 ≤ b)%Z → fmt_d a = fmt_d b → a = b.
Proof. unfold fmt_d. intros Ha Hb E%(inj pretty). lia. Qed.

Lemma fmt_x_label n : labelb (fmt_x n) = true.
Proof. unfold fmt_x. repeat (case_match; try done). Qed.

Lemma fmt_x_inj a b : (0 ≤ a < 16)%Z → (0 ≤ b < 16)%Z → fmt_x a = fmt_x b → a = b.
Proof.
  assert (H : forallb (λ a, forallb (λ b, implb (bool_decide (fmt_x a = fmt_x b)) (a =? b)%Z)
                              (seqZ 0 16)) (seqZ 0 16) = true) by by vm_compute.
  rewrite forallb_forall in H. intros Ha Hb E.
  specialize (H a ltac:(apply list_elem_of_In, elem_of_seqZ; lia)).
  rewrite forallb_forall in H.
  specialize (H b ltac:(apply list_elem_of_In, elem_of_seqZ; lia)).
  rewrite bool_decide_eq_true_2 in H by done. by apply Z.eqb_eq.
Qed.

Lemma labelb_no_dot s : labelb s = true → str_mem "." s = false.
Proof. unfold labelb. by intros [_ ?%negb_true_iff]%andb_true_iff. Qed.
Lemma labelb_plain s : labelb s = true → str_forallb plainByte s = true.
Proof. unfold labelb. by intros [? _]%andb_true_iff. Qed.

(** A name written label by label, each followed by a dot. *)
Definition dotted (ls : list string) (tail : string) : string :=
  foldr (λ l s, l +:+ "." +:+ s) tail ls.

Lemma Split_dotted ls tail :
  Forall (λ l, labelb l = true) ls → Split (dotted ls tail) "." = (ls ++ Split tail ".")%list.
Proof.
  induction 1 as [|l ls Hl _ IH]; [done|]. simpl.
  change ("." +:+ dotted ls tail) with (String "." (dotted ls tail)).
  rewrite Split_app by by apply labelb_no_dot. by rewrite IH.
Qed.

Lemma dotted_inj ls ls' tail :
  Forall (λ l, labelb l = true) ls → Forall (λ l, labelb l = true) ls' →
  dotted ls tail = dotted ls' tail → ls = ls'.
Proof.
  intros H H' E. apply (f_equal (λ s, Split s ".")) in E.
  rewrite !Split_dotted in E by done. by apply app_inv_tail in E.
Qed.

(** Already canonical: lower case and ending in a dot. *)
Lemma CanonicalName_dotted {L : DnsLib} {HL : DnsLaws L} ls tail :
  Forall (λ l, labelb l = true) ls → str_forallb plainByte tail = true →
  CanonicalName (dotted ls (tail +:+ ".")) = dotted ls (tail +:+ ".").
Proof.
  intros Hls Ht.
  assert (E : ∃ s, str_forallb plainByte s = true ∧ dotted ls (tail +:+ ".") = s +:+ ".").
  { induction Hls as [|l ls Hl _ (s & Hs & E)]; [eauto|]. simpl. rewrite E.
    exists (l +:+ "." +:+ s). split.
    - rewrite !str_forallb_app, Hs, labelb_plain by done. done.
    - clear. induction l as [|c l IH]; [done|]. simpl. by rewrite IH. }
  destruct E as (s & Hs & ->). by apply CanonicalName_plain.
Qed.

Definition labels4 (ip : IP) : list string := fmt_d <$> reverse (To4 ip).
Definition labels6 (ip : IP) : list string :=
  reverse (To16 ip) ≫= λ b, [fmt_x (Z.land b 15); fmt_x (Z.shiftr b 4)].

Lemma reverseIP4_dotted ip : reverseIP4 ip = dotted (labels4 ip) "in-addr.arpa.".
Proof.
  unfold reverseIP4, labels4, dotted. induction (reverse (To4 ip)) as [|b l IH]; [done|].
  simpl in *. by rewrite IH.
Qed.

Lemma reverseIP6_dotted ip : reverseIP6 ip = dotted (labels6 ip) "ip6.arpa.".
Proof.
  unfold reverseIP6, labels6, dotted. induction (reverse (To16 ip)) as [|b l IH]; [done|].
  simpl in *. by rewrite IH.
Qed.

Lemma bytes_ok_To4 ip : bytes_ok ip → bytes_ok (To4 ip).
Proof.
  unfold bytes_ok, To4. intros H. repeat case_match; [done| |constructor]. by apply Forall_drop.
Qed.
Lemma bytes_ok_To16 ip : bytes_ok ip → bytes_ok (To16 ip).
Proof.
  unfold bytes_ok, To16. intros H. repeat case_match; [|done|constructor].
  apply Forall_app. split; [|done]. repeat constructor; lia.
Qed.

Lemma labels4_label ip : bytes_ok ip → Forall (λ l, labelb l = true) (labels4 ip).
Proof.
  intros Hb%bytes_ok_To4. unfold labels4. apply Forall_fmap. apply Forall_reverse.
  eapply Forall_impl; [exact Hb|]. intros b. apply fmt_d_label.
Qed.
Lemma labels6_label ip : Forall (λ l, labelb l = true) (labels6 ip).
Proof.
  unfold labels6. induction (reverse (To16 ip)); simpl; [constructor|].
  by do 2 (constructor; [apply fmt_x_label|]).
Qed.

(** ** Properties *)
Section properties.
Context {L : DnsLib}.

Lemma cache_ok_step (HL : DnsLaws L) c c' : cache_step c c' → cache_ok c → cache_ok c'.
Proof.
  intros Hs Hc. destruct Hs as [now c msg c' Hm Ha|st c rr perm Ht Hrr
    |st1 st2 c e perm ptr Ht1 Ht2 Hrr|t1 t2 c qy r Hg|c qy c' Hd|i t1 t2 c n qt ptr c' Hd|now c].
  - by eapply cache_ok_Add.
  - by apply cache_ok_AddRR.
  - unfold AddRRString. destruct (NewRR e) as [err|rr] eqn:E; [done|].
    assert (Hok : ∀ r, rr = Some r → rr_ok r) by naive_solver.
    destruct ptr; [|by apply cache_ok_AddRR].
    destruct rr as [[h a|h a|h p|h d]|]; try by apply cache_ok_AddRR.
    all: apply (cache_ok_AddRR st2); [done|done|].
    all: apply (cache_ok_AddRR st1 _ (Some _)); [done| |done].
    all: intros r [= <-]; apply (Hok _ eq_refl).
  - eapply cache_ok_subseteq, Hc. by eapply Get_subseteq.
  - unfold Delete in Hd. case_match; simplify_eq. by apply cache_ok_delete.
  - eapply cache_ok_subseteq, Hc. by eapply DeleteName_subseteq.
  - eapply cache_ok_subseteq, Hc. apply map_filter_subseteq.
Qed.

(** Every reachable cache satisfies the invariant. *)
Lemma cache_reachable_ok (HL : DnsLaws L) c : rtc cache_step New c → cache_ok c.
Proof.
  intros Hr. remember New as c0 eqn:E0.
  assert (Hc0 : cache_ok c0) by (subst; apply map_Forall_empty). clear E0.
  induction Hr as [|c1 c2 c3 H12 _ IH]; [done|]. apply IH. by eapply cache_ok_step.
Qed.

(** C6: in every cache reachable through the methods, each entry is filed
    under the key of its own question, its TTLs are uint32 values, and a
    non-permanent entry expires no later than any of its records. *)
Theorem cache_invariant (HL : DnsLaws L) (c : DNSCache) :
  rtc cache_step New c → map_Forall item_ok c.
Proof. apply (cache_reachable_ok HL). Qed.

(** A hit carries the query's identifier; a permanent entry is returned
    with its records unchanged; a cached entry read before it expires has every
    non-OPT TTL reduced by one common amount, never below zero. *)
Theorem Get_hit_ages_records (HL : DnsLaws L) (c c' : DNSCache) (t1 t2 : Time)
    (query reply : Msg) (q : Question) (qs : list Question) :
  rtc cache_step New c → Questions query = q :: qs →
  Get t1 t2 c query = Ok (Some reply, c') →
  ∃ it, c !! msg_key q = Some it ∧ c' = c ∧ Id reply = Id query
    ∧ Rcode reply = Rcode (Message it) ∧ Questions reply = Questions (Message it)
    ∧ (Permanent it = true → all_rrs reply = all_rrs (Message it))
    ∧ (Permanent it = false → (Inserted it ≤ t2 ≤ Expires it)%Z →
       ∃ delta, all_rrs reply = decrement delta <$> all_rrs (Message it)
         ∧ ∀ rr, rr ∈ all_rrs (Message it) → not_opt rr →
             Ttl (Header (decrement delta rr)) = (Ttl (Header rr) - delta)%Z
             ∧ (0 ≤ Ttl (Header rr) - delta ≤ Ttl (Header rr))%Z).
Proof.
  intros Hc Hq Hg. apply (cache_reachable_ok HL) in Hc. unfold Get in Hg. rewrite Hq in Hg.
  destruct (c !! msg_key q) as [it|] eqn:Hk; [|done]. exists it.
  destruct (expired t1 it); [done|]. destruct (Hc _ _ Hk) as [Hm _ Hlife].
  destruct (Permanent it) eqn:Hp; simplify_eq; simpl; rewrite !Copy_value;
    (split_and!; [done..| |]); try done.
  intros _ Ht. exists (uint32_Seconds (Sub t2 (Inserted it))).
  split; [unfold all_rrs; simpl; by rewrite !fmap_app|].
  intros rr Hin Hno. specialize (Hlife eq_refl rr Hin Hno).
  unfold msg_ok in Hm. rewrite Forall_forall in Hm. specialize (Hm rr Hin).
  assert (Hd : (0 ≤ uint32_Seconds (Sub t2 (Inserted it)) ≤ Ttl (Header rr))%Z).
  { unfold rr_ok in Hm. rewrite Sub_small by (unfold Second in *; lia).
    apply uint32_Seconds_le; lia. }
  rewrite decrement_exact by (done || lia). lia.
Qed.

(** When [Add] stores a message. *)
Definition cacheable (msg : Msg) : Prop :=
  Rcode msg = RcodeSuccess ∧ Truncated msg = false ∧ all_rrs msg ≠ []
  ∧ ∀ rr, rr ∈ all_rrs msg → not_opt rr → Ttl (Header rr) ≠ 0%Z.

Lemma Add_cacheable now c msg q qs :
  msg_ok msg → Questions msg = q :: qs → cacheable msg →
  (0 < min_ttl (all_rrs msg) ≤ 86400)%Z
  ∧ Add now c msg
    = Ok (<[msg_key q := mkItem (Msg_Copy msg) now
                           (now + Second * min_ttl (all_rrs msg)) false]> c).
Proof.
  intros Hm Hq (Hrc & Htc & Hne & Hz).
  assert (Hpos : (0 < min_ttl (all_rrs msg))%Z).
  { pose proof (min_ttl_nonneg _ Hm).
    destruct (min_ttl_spec (all_rrs msg) 86400) as (_ & _ & [E|(rr & Hin & Hno & E)]).
    - unfold min_ttl. rewrite E. lia.
    - specialize (Hz rr Hin Hno). unfold min_ttl in *. lia. }
  split; [split; [done|apply min_ttl_max]|].
  unfold Add. rewrite Hrc, Htc, Hq. simpl. rewrite bool_decide_eq_false_2.
  - destruct (Z.eqb_spec (min_ttl (all_rrs msg)) 0); [lia|done].
  - intros E. apply Hne. unfold all_rrs. apply length_zero_iff_nil. rewrite !length_app. lia.
Qed.

(** The tests of [Add], as a function. *)
Definition storable (msg : Msg) : bool :=
  (Rcode msg =? RcodeSuccess)%Z && negb (Truncated msg) && negb (bool_decide (all_rrs msg = []))
  && negb (min_ttl (all_rrs msg) =? 0)%Z.

Lemma storable_cacheable msg : msg_ok msg → storable msg = true ↔ cacheable msg.
Proof.
  intros Hm. unfold storable. rewrite !andb_true_iff, !negb_true_iff, bool_decide_eq_false, Z.eqb_eq, Z.eqb_neq.
  split.
  - intros [[[Hrc Htc] Hne] Hz]. split_and!; [done..|]. intros rr Hin Hno H0.
    pose proof (min_ttl_le _ _ Hin Hno). pose proof (min_ttl_nonneg _ Hm). lia.
  - intros (Hrc & Htc & Hne & Hz). split_and!; [done..|].
    destruct (min_ttl_spec (all_rrs msg) 86400) as (_ & _ & [E|(rr & Hin & Hno & E)]); unfold min_ttl; rewrite E; [done|].
    by apply Hz.
Qed.

(** [Add] by cases: a storable message without a question is the one that panics. *)
Lemma Add_cases now c msg :
  Add now c msg
  = if storable msg
    then match Questions msg with
         | [] => Panic
         | q :: _ => Ok (<[msg_key q := mkItem (Msg_Copy msg) now (now + Second * min_ttl (all_rrs msg)) false]> c)
         end
    else Ok c.
Proof.
  unfold Add, storable.
  assert (E : bool_decide (length (Answer msg) + length (Ns msg) + length (Extra msg) = 0) = bool_decide (all_rrs msg = [])).
  { apply bool_decide_ext. unfold all_rrs. rewrite <-length_zero_iff_nil, !length_app. lia. }
  rewrite E. destruct (Rcode msg =? RcodeSuccess)%Z, (Truncated msg), (bool_decide (all_rrs msg = [])); try done.
  simpl. by destruct (min_ttl (all_rrs msg) =? 0)%Z.
Qed.

(** C36: [Add] stores exactly the messages that succeeded, are not truncated,
    hold a record and no zero TTL (OPT aside); all others leave the cache as it
    was.  A stored message expires after the least TTL of its records, OPT aside,
    or after a day when that is less.  A message that would be stored but has no
    question panics. *)
Theorem Add_stores_iff_cacheable (now : Time) (c : DNSCache) (msg : Msg) :
  msg_ok msg →
  (¬ cacheable msg → Add now c msg = Ok c)
  ∧ (cacheable msg →
     match Questions msg with
     | [] => Add now c msg = Panic
     | q :: _ => ∃ it life,
         Add now c msg = Ok (<[msg_key q := it]> c) ∧ Permanent it = false
         ∧ Message it = Msg_Copy msg ∧ Inserted it = now ∧ Expires it = (now + Second * life)%Z
         ∧ (0 < life ≤ 86400)%Z
         ∧ (∀ rr, rr ∈ all_rrs msg → not_opt rr → life ≤ Ttl (Header rr))%Z
         ∧ (life = 86400%Z ∨ ∃ rr, rr ∈ all_rrs msg ∧ not_opt rr ∧ life = Ttl (Header rr))
     end).
Proof.
  intros Hm. rewrite Add_cases. split; intros Hc; rewrite <-storable_cacheable in Hc by done.
  - by destruct (storable msg).
  - rewrite Hc. destruct (Questions msg) as [|q qs]; [done|].
    pose proof (min_ttl_nonneg _ Hm) as H0. assert (Hz : min_ttl (all_rrs msg) ≠ 0%Z).
    { unfold storable in Hc. rewrite !andb_true_iff, !negb_true_iff, Z.eqb_neq in Hc. tauto. }
    do 2 eexists. split; [done|]. destruct (min_ttl_spec (all_rrs msg) 86400) as (H1 & H2 & H3).
    split_and!; [done..|lia|done|done|done].
Qed.

(** The live part of a cache at a time: what [Get] can return. *)
Definition live (t : Time) (c : DNSCache) : DNSCache :=
  filter (λ kv, expired t kv.2 = false) c.

Lemma lookup_live t c k :
  live t c !! k = (it ← c !! k; if expired t it then None else Some it).
Proof.
  unfold live. rewrite map_lookup_filter. destruct (c !! k) as [it|]; simpl; [|done].
  case_guard as He; simpl in He; destruct (expired t it); done.
Qed.

Lemma expired_mono t t' it : (t ≤ t')%Z → expired t it = true → expired t' it = true.
Proof.
  unfold expired, After. intros Ht [H1 H2%Z.ltb_lt]%andb_true_iff. rewrite H1. simpl.
  apply Z.ltb_lt. lia.
Qed.

Lemma live_delete_expired t t' c k it :
  (t ≤ t')%Z → c !! k = Some it → expired t it = true → live t' (delete k c) = live t' c.
Proof.
  intros Ht Hk He. apply map_eq. intros k'. rewrite !lookup_live, lookup_delete.
  case_decide; [|done]. subst k'. rewrite Hk. simpl. by rewrite (expired_mono t t').
Qed.

(** Eviction is invisible: at any later time the live entries after a
    [Flush] or a [Get] are those before it, [Flush] keeps exactly the live
    entries and counts the others, and [Get] answers iff the key is live. *)
Theorem Flush_Get_preserve_live (c : DNSCache) (t t' t2 : Time) (query : Msg)
    (q : Question) (qs : list Question) :
  (t ≤ t')%Z → Questions query = q :: qs →
  (Flush t c).2 = live t c ∧ live t' (Flush t c).2 = live t' c
  ∧ (Flush t c).1.1 = size c
  ∧ (Flush t c).1.1 = size (Flush t c).2 + (Flush t c).1.2
  ∧ ∃ r, Get t t2 c query = Ok r ∧ live t' r.2 = live t' c
         ∧ (is_Some r.1 ↔ is_Some (live t c !! msg_key q)).
Proof.
  intros Ht Hq. simpl. split_and!; [done| |done| |].
  - apply map_eq. intros k. change (filter _ c) with (live t c). rewrite !lookup_live.
    destruct (c !! k) as [it|]; simpl; [|done].
    destruct (expired t it) eqn:He; simpl; [|done]. by rewrite (expired_mono t t').
  - pose proof (map_filter_union_complement (λ kv, expired t kv.2 = true) c) as E.
    rewrite <-E at 1. rewrite map_size_disj_union by apply map_disjoint_filter_complement.
    rewrite Nat.add_comm. f_equal. f_equal. apply map_filter_ext.
    intros k it _. simpl. by destruct (expired t it).
  - unfold Get. rewrite Hq, lookup_live.
    destruct (c !! msg_key q) as [it|] eqn:Hk; simpl.
    + destruct (expired t it) eqn:He; simpl.
      * eexists. split_and!; [done|by eapply live_delete_expired|]. simpl.
        split; by intros [].
      * destruct (Permanent it); eexists; (split_and!; [done|done|]); simpl;
          split; intros; eauto.
    + eexists. split_and!; [done|done|]. simpl. split; by intros [].
Qed.

(** A stored answer read back within its lifetime. *)
Lemma Add_Get_fresh (HL : DnsLaws L) (now t1 t2 : Time) (c c' : DNSCache) (msg query : Msg)
    (q q' : Question) (qs qs' : list Question) :
  msg_ok msg → cacheable msg → Questions msg = q :: qs → Questions query = q' :: qs' →
  msg_key q' = msg_key q → Add now c msg = Ok c' → (now ≤ t1 ≤ t2)%Z →
  (t2 ≤ now + Second * min_ttl (all_rrs msg))%Z →
  ∃ reply, Get t1 t2 c' query = Ok (Some reply, c') ∧ Id reply = Id query
    ∧ Rcode reply = Rcode msg ∧ Questions reply = Questions msg
    ∧ all_rrs reply = decrement ((t2 - now) / Second) <$> all_rrs msg
    ∧ ∀ rr, rr ∈ all_rrs msg → not_opt rr →
        Ttl (Header (decrement ((t2 - now) / Second) rr))
        = (Ttl (Header rr) - (t2 - now) / Second)%Z
        ∧ ((t2 - now) / Second ≤ Ttl (Header rr))%Z.
Proof.
  intros Hm Hc Hq Hq' Hk Ha Ht Hf.
  destruct (Add_cacheable now c msg q qs Hm Hq Hc) as [Hb Ha']. rewrite Ha' in Ha.
  injection Ha as <-. unfold Get. rewrite Hq', Hk, lookup_insert_eq.
  unfold expired, After. simpl.
  destruct (Z.ltb_spec (now + Second * min_ttl (all_rrs msg)) t1); [lia|]. rewrite !Copy_value. simpl.
  assert (Hd : uint32_Seconds (Sub t2 now) = ((t2 - now) / Second)%Z).
  { rewrite Sub_small by (unfold Second in *; lia).
    apply uint32_Seconds_exact. unfold Second in *; lia. }
  rewrite Hd. eexists. split; [done|]. simpl. split_and!; [done..| |].
  - unfold all_rrs. simpl. by rewrite !fmap_app.
  - intros rr Hin Hno. pose proof (min_ttl_le _ _ Hin Hno).
    assert ((t2 - now) / Second ≤ Ttl (Header rr))%Z.
    { transitivity (min_ttl (all_rrs msg)); [|done]. apply Z.div_le_upper_bound; [done|]. lia. }
    split; [|done]. apply decrement_exact; [|apply Z.div_pos; unfold Second; lia|done|done].
    unfold msg_ok in Hm. rewrite Forall_forall in Hm. by apply Hm.
Qed.

(** C5: an answer read back while it is fresh is the stored one under the new
    identifier, every non-OPT TTL reduced by the whole seconds elapsed and
    still non-negative; once its lifetime is over it is a miss and the key is
    gone. *)
Theorem Add_then_Get (HL : DnsLaws L) (now t1 t2 : Time) (c c' : DNSCache) (msg query : Msg)
    (q q' : Question) (qs qs' : list Question) :
  msg_ok msg → cacheable msg → Questions msg = q :: qs → Questions query = q' :: qs' →
  msg_key q' = msg_key q → Add now c msg = Ok c' → (now ≤ t1 ≤ t2)%Z →
  let life := (Second * min_ttl (all_rrs msg))%Z in
  ((t2 ≤ now + life)%Z →
     ∃ reply, Get t1 t2 c' query = Ok (Some reply, c') ∧ Id reply = Id query
       ∧ Rcode reply = Rcode msg ∧ Questions reply = Questions msg
       ∧ all_rrs reply = decrement ((t2 - now) / Second) <$> all_rrs msg
       ∧ ∀ rr, rr ∈ all_rrs msg → not_opt rr →
           Ttl (Header (decrement ((t2 - now) / Second) rr))
           = (Ttl (Header rr) - (t2 - now) / Second)%Z
           ∧ ((t2 - now) / Second ≤ Ttl (Header rr))%Z)
  ∧ ((now + life < t1)%Z → Get t1 t2 c' query = Ok (None, delete (msg_key q) c)).
Proof.
  intros Hm Hc Hq Hq' Hk Ha Ht life. split; [intros Hf; by eapply Add_Get_fresh|].
  intros He. destruct (Add_cacheable now c msg q qs Hm Hq Hc) as [Hb Ha']. rewrite Ha' in Ha.
  injection Ha as <-. unfold Get. rewrite Hq', Hk, lookup_insert_eq. unfold expired, After. simpl.
  fold life. destruct (Z.ltb_spec (now + life) t1); [|lia].
  f_equal. f_equal. apply delete_insert_eq.
Qed.

(** C40: the two clock readings of [Get] can straddle the expiry: when the
    second is a whole second past it, the record with the least TTL is
    answered with TTL 2^32 - 1. *)
Theorem Get_ttl_wraps_when_clock_straddles_expiry (HL : DnsLaws L) (now : Time) (c c' : DNSCache)
    (msg query : Msg) (q q' : Question) (qs qs' : list Question) (rr : RR) :
  msg_ok msg → cacheable msg → Questions msg = q :: qs → Questions query = q' :: qs' →
  msg_key q' = msg_key q → Add now c msg = Ok c' →
  rr ∈ Answer msg → not_opt rr → Ttl (Header rr) = min_ttl (all_rrs msg) →
  let t1 := (now + Second * min_ttl (all_rrs msg))%Z in
  ∃ reply, Get t1 (t1 + Second) c' query = Ok (Some reply, c')
    ∧ ∃ rr', rr' ∈ Answer reply ∧ Ttl (Header rr') = (2 ^ 32 - 1)%Z.
Proof.
  intros Hm Hc Hq Hq' Hk Ha Hin Hno Httl t1.
  destruct (Add_cacheable now c msg q qs Hm Hq Hc) as [Hb Ha']. rewrite Ha' in Ha.
  injection Ha as <-. fold t1. unfold Get. rewrite Hq', Hk, lookup_insert_eq.
  unfold expired, After. simpl. rewrite Z.ltb_irrefl, !Copy_value. eexists. split; [done|].
  eexists. split; [apply list_elem_of_fmap; eauto|].
  assert (Hd : uint32_Seconds (Sub (t1 + Second) now) = (min_ttl (all_rrs msg) + 1)%Z).
  { subst t1. rewrite Sub_small by (unfold Second in *; lia).
    rewrite uint32_Seconds_exact by (unfold Second in *; lia).
    replace (now + Second * min_ttl (all_rrs msg) + Second - now)%Z
      with ((min_ttl (all_rrs msg) + 1) * Second)%Z by (unfold Second; lia).
    by apply Z.div_mul. }
  rewrite Hd. unfold decrement, not_opt in *.
  destruct (Z.eqb_spec (Rrtype (Header rr)) TypeOPT); [done|].
  rewrite Header_set_Ttl. simpl. rewrite Httl.
  replace (min_ttl (all_rrs msg) - (min_ttl (all_rrs msg) + 1))%Z with (-1)%Z by lia. done.
Qed.

Lemma labels6_inj (l l' : list Z) :
  bytes_ok l → bytes_ok l' →
  (l ≫= λ b, [fmt_x (Z.land b 15); fmt_x (Z.shiftr b 4)])
  = (l' ≫= λ b, [fmt_x (Z.land b 15); fmt_x (Z.shiftr b 4)]) → l = l'.
Proof.
  intros Hl. revert l'. induction Hl as [|b l Hb _ IH]; intros [|b' l'] Hl'; simpl; [done..|].
  intros [= E1 E2 E3]. apply Forall_cons in Hl' as [Hb' Hl'].
  change 15%Z with (Z.ones 4) in E1. rewrite !Z.land_ones in E1 by lia.
  rewrite !Z.shiftr_div_pow2 in E2 by lia.
  pose proof (Z.mod_pos_bound b (2 ^ 4)). pose proof (Z.mod_pos_bound b' (2 ^ 4)).
  apply fmt_x_inj in E1; [|lia|lia].
  apply fmt_x_inj in E2;
    [|split; [apply Z.div_pos; lia|apply Z.div_lt_upper_bound; lia]..].
  f_equal; [|by apply IH].
  rewrite (Z.div_mod b (2 ^ 4)), (Z.div_mod b' (2 ^ 4)) by done. congruence.
Qed.

(** Distinct addresses have distinct reverse names: on byte sequences the
    reverse name determines the 4-byte, respectively 16-byte, form. *)
Theorem reverse_names_injective (ip ip' : IP) :
  bytes_ok ip → bytes_ok ip' →
  (reverseIP4 ip = reverseIP4 ip' → To4 ip = To4 ip')
  ∧ (reverseIP6 ip = reverseIP6 ip' → To16 ip = To16 ip').
Proof.
  intros Hb Hb'. split; intros E.
  - rewrite !reverseIP4_dotted in E. apply dotted_inj in E; [|by apply labels4_label..].
    unfold labels4 in E. apply (inj reverse).
    apply bytes_ok_To4, Forall_reverse in Hb. apply bytes_ok_To4, Forall_reverse in Hb'.
    revert Hb' E. generalize (reverse (To4 ip')). induction Hb as [|b l Hb _ IH];
      intros [|b' l'] Hl' E; simplify_eq/=; [done|]. apply Forall_cons in Hl' as [Hb' Hl'].
    f_equal; [|by apply IH]. apply fmt_d_inj; [lia..|done].
  - rewrite !reverseIP6_dotted in E. apply dotted_inj in E; [|apply labels6_label..].
    apply (inj reverse). by apply labels6_inj; [apply Forall_reverse, bytes_ok_To16..|].
Qed.

(** The key of a reverse name is the reverse name itself. *)
Lemma CanonicalName_reverse (HL : DnsLaws L) ip :
  bytes_ok ip →
  CanonicalName (reverseIP4 ip) = reverseIP4 ip ∧ CanonicalName (reverseIP6 ip) = reverseIP6 ip.
Proof.
  intros Hb. rewrite reverseIP4_dotted, reverseIP6_dotted. split.
  - by apply (CanonicalName_dotted _ "in-addr.arpa"); [apply labels4_label|].
  - by apply (CanonicalName_dotted _ "ip6.arpa"); [apply labels6_label|].
Qed.

(** An address record and its bytes. *)
Definition address_of (rr : RR) : option IP :=
  match rr with RR_A _ a | RR_AAAA _ a => Some a | _ => None end.

Lemma ptr_key_address rr ip : address_of rr = Some ip → ∃ k, ptr_key rr = Some k.
Proof. destruct rr; naive_solver. Qed.

(** What a local record is stored as. *)
Lemma AddRR_lookup (HL : DnsLaws L) st c rr permanent :
  let k := mkKey (CanonicalName (hdr_Name (Header rr))) (Rrtype (Header rr)) in
  ∃ it, AddRR st c (Some rr) permanent = (None, <[k := it]> c)
        ∧ Permanent it = permanent ∧ Answer (Message it) = [rr] ∧ all_rrs (Message it) = [rr]
        ∧ Authoritative (Message it) = permanent ∧ Rcode (Message it) = RcodeSuccess.
Proof.
  intros k. eexists. split; [reflexivity|]. simpl. split_and!; try done; [|apply AddRR_rrs].
  by rewrite (proj2 (Answer_SetQuestion_new (HL := HL) _ _ _)).
Qed.

Lemma AddRRString_ptr (HL : DnsLaws L) st1 st2 c entry rr ip :
  NewRR entry = inr (Some rr) → address_of rr = Some ip → bytes_ok ip →
  let k := mkKey (CanonicalName (hdr_Name (Header rr))) (Rrtype (Header rr)) in
  ∃ kp it1 it2, ptr_key rr = Some kp
    ∧ AddRRString st1 st2 c entry true true = (None, <[k := it2]> (<[kp := it1]> c))
    ∧ Permanent it2 = true ∧ Answer (Message it2) = [rr].
Proof.
  intros Hn Ha Hb k. unfold AddRRString. rewrite Hn.
  destruct (CanonicalName_reverse HL ip Hb) as [E4 E6].
  destruct rr as [h a|h a|h p|h d]; simplify_eq/=.
  - do 3 eexists. split; [done|]. rewrite E4. split; [reflexivity|].
    simpl. split; [done|]. by rewrite (proj2 (Answer_SetQuestion_new (HL := HL) _ _ _)).
  - do 3 eexists. split; [done|]. rewrite E6. split; [reflexivity|].
    simpl. split; [done|]. by rewrite (proj2 (Answer_SetQuestion_new (HL := HL) _ _ _)).
Qed.

(** C38: a permanent address record added with its pointer record and then
    deleted with its pointer record leaves neither key, and no other key is
    touched, whatever the clock says in between. *)
Theorem AddRRString_DeleteName_roundtrip (HL : DnsLaws L) (st1 st2 : Stamp) (i : Z)
    (t1 t2 : Time) (c : DNSCache) (entry qtype : string) (rr : RR) (ip : IP) :
  NewRR entry = inr (Some rr) → address_of rr = Some ip → bytes_ok ip →
  StringToType qtype = Some (Rrtype (Header rr)) →
  let k := mkKey (CanonicalName (hdr_Name (Header rr))) (Rrtype (Header rr)) in
  ∃ kp c1, ptr_key rr = Some kp
    ∧ AddRRString st1 st2 c entry true true = (None, c1)
    ∧ is_Some (c1 !! k) ∧ is_Some (c1 !! kp)
    ∧ DeleteName i t1 t2 c1 (hdr_Name (Header rr)) qtype true = Ok (delete k (delete kp c)).
Proof.
  intros Hn Ha Hb Ht k.
  destruct (AddRRString_ptr HL st1 st2 c entry rr ip Hn Ha Hb)
    as (kp & it1 & it2 & Hkp & Hadd & Hperm & Hans). fold k in Hadd.
  exists kp, (<[k := it2]> (<[kp := it1]> c)). split_and!; [done|done| | |].
  - rewrite lookup_insert_eq. eauto.
  - rewrite lookup_insert. case_decide; [eauto|]. rewrite lookup_insert_eq. eauto.
  - unfold DeleteName, GetName, Get. rewrite SetQuestion_Questions. unfold msg_key. simpl.
    unfold StringToType0. rewrite Ht. simpl. fold k. rewrite lookup_insert_eq.
    unfold expired. rewrite Hperm. simpl. rewrite Copy_value, Hans. simpl. rewrite Hkp.
    f_equal. apply map_eq. intros k'. rewrite !lookup_delete, !lookup_insert.
    repeat case_decide; done.
Qed.

(** Cache traffic that does not replace or delete key [k]: any lookup or
    flush, and insertions under other keys. *)
Inductive traffic (k : DNSCacheKey) : DNSCache → DNSCache → Prop :=
  | tr_Get t1 t2 c query r : Get t1 t2 c query = Ok r → traffic k c r.2
  | tr_Flush now c : traffic k c (Flush now c).2
  | tr_Add now c msg q qs c' :
      Questions msg = q :: qs → msg_key q ≠ k → Add now c msg = Ok c' → traffic k c c'
  | tr_AddRR st c rr permanent :
      mkKey (CanonicalName (hdr_Name (Header rr))) (Rrtype (Header rr)) ≠ k →
      traffic k c (AddRR st c (Some rr) permanent).2.

Lemma traffic_permanent k c c' it :
  Permanent it = true → traffic k c c' → c !! k = Some it → c' !! k = Some it.
Proof.
  intros Hp Ht Hk. assert (He : ∀ t, expired t it = false) by by (intros t; unfold expired; rewrite Hp).
  destruct Ht as [t1 t2 c qy r Hg|now c|now c msg q qs c' Hq Hne Ha|st c rr perm Hne].
  - unfold Get in Hg. destruct (Questions qy) as [|q qs]; [done|].
    destruct (c !! msg_key q) as [it'|] eqn:Hk'; [|by simplify_eq].
    destruct (expired t1 it') eqn:He'; [|by destruct (Permanent it'); simplify_eq].
    simplify_eq. simpl. rewrite lookup_delete_ne; [done|]. intros E. simplify_eq.
    by rewrite He in He'.
  - simpl. apply map_lookup_filter_Some. split; [done|]. apply He.
  - unfold Add in Ha. rewrite Hq in Ha. repeat case_match; simplify_eq; try done.
    by rewrite lookup_insert_ne.
  - simpl. by rewrite lookup_insert_ne.
Qed.

(** C25: a permanent local record is answered, with its own TTL and the
    authoritative bit, at any time and after any traffic on other keys. *)
Theorem local_record_is_always_answered (HL : DnsLaws L) (st : Stamp) (c c' : DNSCache)
    (rr : RR) (query : Msg) (q : Question) (qs : list Question) (t1 t2 : Time) :
  let k := mkKey (CanonicalName (hdr_Name (Header rr))) (Rrtype (Header rr)) in
  rtc (traffic k) (AddRR st c (Some rr) true).2 c' →
  Questions query = q :: qs → msg_key q = k →
  ∃ reply, Get t1 t2 c' query = Ok (Some reply, c') ∧ Answer reply = [rr]
    ∧ Id reply = Id query ∧ Authoritative reply = true ∧ Rcode reply = RcodeSuccess.
Proof.
  intros k Hr Hq Hk.
  destruct (AddRR_lookup HL st c rr true) as (it & Ha & Hp & Hans & _ & Hau & Hrc). fold k in Ha.
  assert (Hit : c' !! k = Some it).
  { rewrite Ha in Hr. simpl in Hr.
    assert (H0 : (<[k := it]> c) !! k = Some it) by apply lookup_insert_eq.
    clear Ha. revert Hr H0. generalize (<[k := it]> c). intros c0 Hr H0.
    induction Hr as [|c1 c2 c3 H12 _ IH]; [done|]. by eapply IH, traffic_permanent. }
  unfold Get. rewrite Hq, Hk, Hit. unfold expired. rewrite Hp. simpl. rewrite Copy_value.
  eexists. split; [done|]. done.
Qed.
End properties.

(** ** Witnesses: an upstream answer and a local record *)

Definition sample_hdr (name : string) (t ttl : Z) : RR_Header := mkHdr name t ClassINET ttl.

(** An answer with a 60 s address record and an OPT pseudo-record. *)
Definition sample_answer : Msg :=
  mkMsg 7 true 0 false false true true false false false 0 false
    [mkQuestion "www.example.com." TypeA ClassINET]
    [RR_A (sample_hdr "www.example.com." TypeA 60) [192; 0; 2; 1]%Z] []
    [RR_other (sample_hdr "." TypeOPT 32768) ""].

Definition sample_query (i : Z) (name : string) (t : Z) : Msg :=
  mkMsg i false 0 false false true false false false false 0 false
    [mkQuestion name t ClassINET] [] [] [].

Definition sample_cache : DNSCache :=
  <[mkKey "www.example.com." TypeA := mkItem sample_answer 1000 (1000 + Second * 60) false]> New.

Lemma sample_answer_ok : msg_ok sample_answer.
Proof. repeat constructor; simpl; lia. Qed.

Lemma sample_answer_cacheable : cacheable sample_answer.
Proof.
  split_and!; [done..|]. intros rr Hin Hno.
  unfold all_rrs in Hin. simpl in Hin. apply elem_of_cons in Hin as [->|Hin]; [done|].
  apply list_elem_of_singleton in Hin as ->. by destruct Hno.
Qed.

Lemma sample_cache_Add : Add 1000 New sample_answer = Ok sample_cache.
Proof.
  destruct (Add_cacheable 1000 New sample_answer (mkQuestion "www.example.com." TypeA ClassINET) []
              sample_answer_ok eq_refl sample_answer_cacheable) as [_ ->].
  unfold sample_cache. do 3 f_equal.
Qed.

Lemma sample_cache_reachable : rtc cache_step New sample_cache.
Proof. apply rtc_once, (step_Add 1000 New sample_answer), sample_cache_Add. apply sample_answer_ok. Qed.

(** A lookup ten seconds after the insertion. *)
Lemma sample_cache_Get :
  Get (1000 + 10 * Second) (1000 + 10 * Second) sample_cache
      (sample_query 9 "WWW.example.com" TypeA)
  = Ok (Some (set_Id (set_sections sample_answer
                [RR_A (sample_hdr "www.example.com." TypeA 50) [192; 0; 2; 1]%Z] []
                [RR_other (sample_hdr "." TypeOPT 32768) ""]) 9), sample_cache).
Proof.
  unfold Get. cbn [Questions sample_query].
  change (msg_key _) with (mkKey "www.example.com." TypeA).
  unfold sample_cache. rewrite lookup_insert_eq. reflexivity.
Qed.

Lemma cache_invariant_witness : map_Forall item_ok sample_cache.
Proof. apply (cache_invariant sample_laws sample_cache), sample_cache_reachable. Defined.

Lemma Get_hit_ages_records_witness :
  ∃ it, sample_cache !! mkKey "www.example.com." TypeA = Some it.
Proof.
  destruct (Get_hit_ages_records sample_laws sample_cache sample_cache
              (1000 + 10 * Second) (1000 + 10 * Second)
              (sample_query 9 "WWW.example.com" TypeA)
              (set_Id (set_sections sample_answer
                 [RR_A (sample_hdr "www.example.com." TypeA 50) [192; 0; 2; 1]%Z] []
                 [RR_other (sample_hdr "." TypeOPT 32768) ""]) 9)
              (mkQuestion "WWW.example.com" TypeA ClassINET) [])
    as (it & H & _).
  - apply sample_cache_reachable.
  - reflexivity.
  - apply sample_cache_Get.
  - exists it. exact H.
Defined.

Lemma Add_stores_iff_cacheable_witness :
  ∃ it, Add 1000 New sample_answer = Ok (<[mkKey "www.example.com." TypeA := it]> New)
    ∧ Expires it = (1000 + 60 * Second)%Z.
Proof.
  destruct (Add_stores_iff_cacheable 1000 New sample_answer sample_answer_ok) as [_ H].
  destruct (H sample_answer_cacheable) as (it & life & Hit & _ & _ & _ & He & _ & Hle & Hl). exists it. split; [exact Hit|].
  assert (life = 60%Z) as ->; [|rewrite He; reflexivity].
  destruct Hl as [->|(rr & Hin & Hno & ->)].
  - specialize (Hle (RR_A (sample_hdr "www.example.com." TypeA 60) [192; 0; 2; 1]%Z) ltac:(left) ltac:(discriminate)).
    simpl in Hle. lia.
  - simpl in Hin. apply elem_of_cons in Hin as [->|Hin]; [reflexivity|].
    apply list_elem_of_singleton in Hin. subst rr. by destruct Hno.
Defined.

Lemma Flush_Get_preserve_live_witness : (Flush 5 sample_cache).2 = live 5 sample_cache.
Proof.
  apply (Flush_Get_preserve_live sample_cache 5 6 6 (sample_query 1 "a." TypeA)
           (mkQuestion "a." TypeA ClassINET) []); [lia|reflexivity].
Defined.

Lemma Add_then_Get_witness :
  Get (1000 + 61 * Second) (1000 + 61 * Second) sample_cache (sample_query 9 "www.Example.com" TypeA)
  = Ok (None, delete (mkKey "www.example.com." TypeA) New).
Proof.
  destruct (Add_then_Get sample_laws 1000 (1000 + 61 * Second) (1000 + 61 * Second)
              New sample_cache sample_answer (sample_query 9 "www.Example.com" TypeA)
              (mkQuestion "www.example.com." TypeA ClassINET)
              (mkQuestion "www.Example.com" TypeA ClassINET) [] [])
    as [_ H].
  - apply sample_answer_ok.
  - apply sample_answer_cacheable.
  - reflexivity.
  - reflexivity.
  - vm_compute. reflexivity.
  - apply sample_cache_Add.
  - unfold Second. lia.
  - apply H. vm_compute. reflexivity.
Defined.

Lemma Get_ttl_wraps_when_clock_straddles_expiry_witness :
  ∃ reply, Get (1000 + Second * 60) (1000 + Second * 60 + Second) sample_cache
             (sample_query 9 "www.example.com." TypeA) = Ok (Some reply, sample_cache)
    ∧ ∃ rr', rr' ∈ Answer reply ∧ Ttl (Header rr') = (2 ^ 32 - 1)%Z.
Proof.
  apply (Get_ttl_wraps_when_clock_straddles_expiry sample_laws 1000 New sample_cache sample_answer
           (sample_query 9 "www.example.com." TypeA)
           (mkQuestion "www.example.com." TypeA ClassINET)
           (mkQuestion "www.example.com." TypeA ClassINET) [] []
           (RR_A (sample_hdr "www.example.com." TypeA 60) [192; 0; 2; 1]%Z)).
  - apply sample_answer_ok.
  - apply sample_answer_cacheable.
  - reflexivity.
  - reflexivity.
  - reflexivity.
  - apply sample_cache_Add.
  - by left.
  - done.
  - reflexivity.
Defined.

Lemma AddRRString_DeleteName_roundtrip_witness :
  ∃ kp c1,
    ptr_key (RR_A (sample_hdr "host.local." TypeA 3600) (ParseIP "192.168.1.10")) = Some kp
    ∧ AddRRString (mkStamp 1 5 5) (mkStamp 2 5 5) New
        "host.local. 3600 IN A 192.168.1.10" true true = (None, c1)
    ∧ is_Some (c1 !! mkKey "host.local." TypeA) ∧ is_Some (c1 !! kp)
    ∧ DeleteName 3 9 9 c1 "host.local." "A" true
      = Ok (delete (mkKey "host.local." TypeA) (delete kp New)).
Proof.
  apply (AddRRString_DeleteName_roundtrip sample_laws (mkStamp 1 5 5) (mkStamp 2 5 5) 3 9 9 New
           "host.local. 3600 IN A 192.168.1.10" "A"
           (RR_A (sample_hdr "host.local." TypeA 3600) (ParseIP "192.168.1.10"))
           (ParseIP "192.168.1.10")).
  - vm_compute. reflexivity.
  - reflexivity.
  - apply (bool_decide_unpack _). vm_compute. exact I.
  - reflexivity.
Defined.

Lemma local_record_is_always_answered_witness :
  ∃ reply, Get 99 99 (AddRR (mkStamp 1 5 5) New
                        (Some (RR_A (sample_hdr "host.local." TypeA 3600) [10; 0; 0; 1]%Z)) true).2
             (sample_query 4 "HOST.local" TypeA)
           = Ok (Some reply, (AddRR (mkStamp 1 5 5) New
                        (Some (RR_A (sample_hdr "host.local." TypeA 3600) [10; 0; 0; 1]%Z)) true).2)
    ∧ Answer reply = [RR_A (sample_hdr "host.local." TypeA 3600) [10; 0; 0; 1]%Z]
    ∧ Id reply = 4%Z ∧ Authoritative reply = true ∧ Rcode reply = RcodeSuccess.
Proof.
  apply (local_record_is_always_answered sample_laws (mkStamp 1 5 5) New)
    with (q := mkQuestion "HOST.local" TypeA ClassINET) (qs := []).
  - apply rtc_refl.
  - reflexivity.
  - vm_compute. reflexivity.
Defined.
