(* ===== verification/CircularBuffer.v ===== *)
(** * The circular buffer of the query log (statshandler/buffer.go)

    A fixed array with an insertion point.  Sizes and indices are Go [int]s; the
    sums that can leave the 64-bit range are wrapped.  A hook is a callback
    registered under an identifier: [Insert] reports which hooks it calls.  The
    refinement theorems relate the array to the list of all items inserted. *)

From S2P Require Import Prelude.
Set Default Goal Selector "!".
Local Open Scope Z_scope.

Section buffer.
Context {T : Type} {Hook : Type}.

Record CircularBuffer := mkBuffer {
  hooks : gmap string Hook;
  buffer : list T;
  capacity : Z;
  position : Z;
  cb_length : Z;
}.

(** [make([]T, capacity)] panics for a negative size; [zero] is the zero value. *)
Definition NewCircularBuffer (zero : T) (capacity : Z) : res CircularBuffer :=
  if capacity <? 0 then Panic
  else Ok (mkBuffer ∅ (replicate (Z.to_nat capacity) zero) capacity 0 0).

(** The callbacks made, in the map's order, and the new buffer. *)
Definition Insert (b : CircularBuffer) (item : T) : res (list (Hook * T) * CircularBuffer) :=
  buf ← set_idx (buffer b) (position b) item;
  if capacity b =? 0 then Panic
  else
    let pos := Z.rem (position b + 1) (capacity b) in
    let len := if cb_length b <? capacity b then cb_length b + 1 else cb_length b in
    Ok ((λ h, (h.2, item)) <$> map_to_list (hooks b),
        mkBuffer (hooks b) buf (capacity b) pos len).

Definition AddHook (b : CircularBuffer) (id : string) (f : Hook) : CircularBuffer :=
  mkBuffer (<[id := f]> (hooks b)) (buffer b) (capacity b) (position b) (cb_length b).
Definition DeleteHook (b : CircularBuffer) (id : string) : CircularBuffer :=
  mkBuffer (delete id (hooks b)) (buffer b) (capacity b) (position b) (cb_length b).

Definition GetOffset (b : CircularBuffer) (offset count : Z) : res (list T) :=
  if (offset >? cb_length b) || (count <=? 0) then Ok []
  else
    let count := if int64 (count + offset) >? cb_length b
                 then cb_length b - offset else count in
    let start := if cb_length b <? capacity b then 0 else position b in
    mapM (λ i, if capacity b =? 0 then Panic
               else idx (buffer b) (Z.rem (start + i) (capacity b)))
         (seqZ offset (int64 (offset + count) - offset)).

Definition Get (b : CircularBuffer) (count : Z) : res (list T) := GetOffset b 0 count.
Definition GetAll (b : CircularBuffer) : res (list T) := GetOffset b 0 (cb_length b).

(** The index of the [i]-th item before the insertion point. *)
Definition tail_pos (b : CircularBuffer) (i : Z) : Z :=
  let pos := position b - i in
  if pos <? 0 then cb_length b + pos else pos.

Definition Tail (b : CircularBuffer) (count : Z) : res (list T) :=
  let count := if count >? cb_length b then cb_length b else count in
  mapM (λ i, idx (buffer b) (tail_pos b i)) (seqZ 1 count).

(** The loop of [TailFilter], over the indices still to visit. *)
Fixpoint TailFilter_loop (b : CircularBuffer) (count : Z) (f : T → bool)
    (ixs : list Z) (acc : list T) : res (list T) :=
  match ixs with
  | [] => Ok acc
  | i :: ixs =>
      x ← idx (buffer b) (tail_pos b i);
      let acc := if f x then acc ++ [x] else acc in
      if (count >? 0) && (Z.of_nat (length acc) =? count) then Ok acc
      else TailFilter_loop b count f ixs acc
  end.
Definition TailFilter (b : CircularBuffer) (count : Z) (f : T → bool) : res (list T) :=
  TailFilter_loop b count f (seqZ 1 (cb_length b)) [].

(** A [nil] predicate is [None]. *)
Fixpoint TailBetween_loop (b : CircularBuffer) (count : Z) (startf endf itemf : option (T → bool))
    (ixs : list Z) (start : bool) (acc : list T) : res (list T) :=
  match ixs with
  | [] => Ok acc
  | i :: ixs =>
      x ← idx (buffer b) (tail_pos b i);
      if (match endf with Some f => f x | None => false end) then Ok acc
      else
        let start := start || match startf with Some f => f x | None => true end in
        let acc := if start && match itemf with Some f => f x | None => true end
                   then acc ++ [x] else acc in
        if (count >? 0) && (Z.of_nat (length acc) =? count) then Ok acc
        else TailBetween_loop b count startf endf itemf ixs start acc
  end.
Definition TailBetween (b : CircularBuffer) (count : Z) (startf endf itemf : option (T → bool))
    : res (list T) :=
  TailBetween_loop b count startf endf itemf (seqZ 1 (cb_length b))
    (match startf with None => true | Some _ => false end) [].
End buffer.
Arguments CircularBuffer : clear implicits.

(** ** Refinement to the list of inserted items *)

Section refinement.
Context {T : Type} {Hook : Type}.
Implicit Types b : CircularBuffer T Hook.

(** [b] holds the last [capacity b] items of [hist] (oldest first): the item
    number [i] sits in slot [i mod capacity b]. *)
Record represents b (hist : list T) : Prop := {
  rep_cap : 0 < capacity b < 2 ^ 62;
  rep_buf : Z.of_nat (length (buffer b)) = capacity b;
  rep_pos : position b = Z.of_nat (length hist) mod capacity b;
  rep_len : cb_length b = Z.min (Z.of_nat (length hist)) (capacity b);
  rep_item : ∀ (i : nat) x, hist !! i = Some x →
    Z.of_nat (length hist) - capacity b <= Z.of_nat i →
    buffer b !! Z.to_nat (Z.of_nat i mod capacity b) = Some x;
}.

(** The window of a history that a buffer of size [n] keeps, newest first. *)
Definition window (n : Z) (hist : list T) : list T := take (Z.to_nat n) (reverse hist).

Lemma window_length b hist :
  represents b hist → Z.of_nat (length (window (capacity b) hist)) = cb_length b.
Proof.
  intros H. unfold window. rewrite length_take, length_reverse, (rep_len _ _ H).
  pose proof (rep_cap _ _ H). lia.
Qed.

(** Stepping back from the insertion point visits the newest items first. *)
Lemma tail_read b hist (i : nat) x :
  represents b hist → window (capacity b) hist !! i = Some x →
  idx (buffer b) (tail_pos b (Z.of_nat i + 1)) = Ok x.
Proof.
  intros H Hw. pose proof (rep_cap _ _ H) as Hc. unfold window in Hw.
  apply lookup_take_Some in Hw as [Hw Hi].
  assert (Hlt : (i < length hist)%nat).
  { apply lookup_lt_Some in Hw. by rewrite length_reverse in Hw. }
  rewrite reverse_lookup in Hw by done.
  set (n := Z.of_nat (length hist)) in *.
  assert (Hpos : tail_pos b (Z.of_nat i + 1)
                 = Z.of_nat (length hist - S i) mod capacity b).
  { unfold tail_pos. rewrite (rep_pos _ _ H), (rep_len _ _ H). fold n.
    replace (Z.of_nat (length hist - S i)) with (n - (Z.of_nat i + 1)) by lia.
    pose proof (Z.mod_pos_bound n (capacity b) ltac:(lia)) as Hm.
    pose proof (Z.div_mod n (capacity b) ltac:(lia)) as E.
    destruct (Z.ltb_spec (n mod capacity b - (Z.of_nat i + 1)) 0).
    - assert (capacity b <= n).
      { destruct (Z.le_gt_cases (capacity b) n); [done|]. rewrite Z.mod_small in *; lia. }
      rewrite Z.min_r by lia. apply Z.mod_unique_pos with (n / capacity b - 1); lia.
    - apply Z.mod_unique_pos with (n / capacity b); lia. }
  rewrite Hpos. set (j := (length hist - S i)%nat) in *.
  pose proof (Z.mod_pos_bound (Z.of_nat j) (capacity b) ltac:(lia)).
  rewrite <-(Z2Nat.id (Z.of_nat j mod capacity b)) by lia. apply idx_Ok.
  apply (rep_item _ _ H); [done|]. lia.
Qed.

(** The first [n] steps back read the first [n] items of the window. *)
Lemma tail_reads b hist (n : nat) :
  represents b hist → (n <= length (window (capacity b) hist))%nat →
  Forall2 (λ i x, idx (buffer b) (tail_pos b i) = Ok x)
          (seqZ 1 (Z.of_nat n)) (take n (window (capacity b) hist)).
Proof.
  intros H Hn. apply Forall2_same_length_lookup_2.
  - rewrite length_seqZ, length_take. lia.
  - intros i z x Hz Hx. apply lookup_seqZ in Hz as [-> _]. apply lookup_take_Some in Hx as [Hx _].
    rewrite Z.add_comm. by eapply tail_read.
Qed.

Lemma tail_reads_all b hist :
  represents b hist →
  Forall2 (λ i x, idx (buffer b) (tail_pos b i) = Ok x)
          (seqZ 1 (cb_length b)) (window (capacity b) hist).
Proof.
  intros H. rewrite <-(window_length _ _ H).
  rewrite <-(firstn_all (window (capacity b) hist)) at 2. by apply tail_reads.
Qed.

(** [count] items at most, a count of zero or less meaning no limit. *)
Definition limit (count : Z) (l : list T) : list T :=
  if count >? 0 then take (Z.to_nat count) l else l.

Lemma TailFilter_loop_spec b count f ixs xs acc :
  Forall2 (λ i x, idx (buffer b) (tail_pos b i) = Ok x) ixs xs →
  (0 < count → Z.of_nat (length acc) < count) →
  TailFilter_loop b count f ixs acc
  = Ok (acc ++ (if count >? 0 then take (Z.to_nat count - length acc) (List.filter f xs)
                else List.filter f xs)).
Proof.
  intros Hr. revert acc. induction Hr as [|i x ixs xs Hx _ IH]; intros acc Hacc; simpl.
  - by rewrite take_nil; destruct (count >? 0); rewrite app_nil_r.
  - rewrite Hx. simpl. destruct (Z.gtb_spec count 0) as [Hc|Hc]; simpl.
    + specialize (Hacc ltac:(lia)). destruct (f x); simpl.
      * rewrite length_app. simpl. destruct (Z.eqb_spec (Z.of_nat (length acc + 1)) count).
        -- replace (Z.to_nat count - length acc)%nat with 1%nat by lia. done.
        -- rewrite IH by (rewrite length_app; simpl; lia). rewrite <-app_assoc. simpl.
           rewrite length_app. simpl.
           replace (Z.to_nat count - length acc)%nat
             with (S (Z.to_nat count - (length acc + 1))) by lia. done.
      * destruct (Z.eqb_spec (Z.of_nat (length acc)) count); [lia|]. by rewrite IH by lia.
    + rewrite IH by lia. destruct (f x); simpl; [|done]. by rewrite <-app_assoc.
Qed.

(** The selection made by [TailBetween] on the items, newest first. *)
Definition between (startf endf itemf : option (T → bool)) (l : list T) : list T :=
  let l := match endf with Some f => take_until f l | None => l end in
  let l := match startf with Some f => drop_until f l | None => l end in
  match itemf with Some f => List.filter f l | None => l end.

(** The loop after the start of the range: an optional filter up to the end. *)
Lemma TailBetween_loop_started b count startf endf itemf ixs xs acc :
  Forall2 (λ i x, idx (buffer b) (tail_pos b i) = Ok x) ixs xs →
  (0 < count → Z.of_nat (length acc) < count) →
  TailBetween_loop b count startf endf itemf ixs true acc
  = Ok (acc ++ (if count >? 0
                then take (Z.to_nat count - length acc) (between None endf itemf xs)
                else between None endf itemf xs)).
Proof.
  intros Hr. revert acc. induction Hr as [|i x ixs xs Hx _ IH]; intros acc Hacc; simpl.
  - replace (between None endf itemf []) with (@nil T) by by destruct endf, itemf.
    by rewrite take_nil; destruct (count >? 0); rewrite app_nil_r.
  - rewrite Hx. simpl. set (ef := match endf with Some f => f x | None => false end).
    set (tf := match itemf with Some f => f x | None => true end).
    assert (Hb : between None endf itemf (x :: xs)
                 = if ef then [] else if tf then x :: between None endf itemf xs
                                      else between None endf itemf xs).
    { unfold between, ef, tf. destruct endf as [ef'|]; simpl;
        [destruct (ef' x); [by destruct itemf|]|]; by destruct itemf. }
    rewrite Hb. destruct ef.
    { by rewrite take_nil; destruct (count >? 0); rewrite app_nil_r. }
    destruct (Z.gtb_spec count 0) as [Hc|Hc]; simpl.
    + specialize (Hacc ltac:(lia)). destruct tf; simpl.
      * rewrite length_app. simpl. destruct (Z.eqb_spec (Z.of_nat (length acc + 1)) count).
        -- replace (Z.to_nat count - length acc)%nat with 1%nat by lia. simpl.
           by rewrite take_0.
        -- rewrite IH by (rewrite length_app; simpl; lia). rewrite <-app_assoc. simpl.
           rewrite length_app. simpl.
           replace (Z.to_nat count - length acc)%nat
             with (S (Z.to_nat count - (length acc + 1))) by lia. done.
      * destruct (Z.eqb_spec (Z.of_nat (length acc)) count); [lia|]. by rewrite IH by lia.
    + rewrite IH by lia. destruct tf; simpl; [|done]. by rewrite <-app_assoc.
Qed.

Lemma TailBetween_loop_spec b count startf endf itemf ixs xs :
  Forall2 (λ i x, idx (buffer b) (tail_pos b i) = Ok x) ixs xs →
  TailBetween_loop b count startf endf itemf ixs
    (match startf with None => true | Some _ => false end) []
  = Ok (limit count (between startf endf itemf xs)).
Proof.
  intros Hr. destruct startf as [sf|].
  2: { rewrite (TailBetween_loop_started _ _ _ _ _ _ _ _ Hr) by (simpl; lia).
       unfold limit. simpl. by rewrite Nat.sub_0_r. }
  induction Hr as [|i x ixs xs Hx Hr IH].
  { simpl. replace (between (Some sf) endf itemf []) with (@nil T) by by destruct endf, itemf.
    unfold limit. by rewrite take_nil; destruct (count >? 0). }
  destruct (sf x) eqn:Hs.
  - (* the range starts at [x] *)
    transitivity (TailBetween_loop b count (Some sf) endf itemf (i :: ixs) true []).
    { simpl. rewrite Hx. simpl. by rewrite Hs. }
    rewrite (TailBetween_loop_started _ _ _ _ _ _ (x :: xs)) by (by constructor || (simpl; lia)).
    unfold limit. simpl. rewrite Nat.sub_0_r.
    replace (between (Some sf) endf itemf (x :: xs)) with (between None endf itemf (x :: xs));
      [done|].
    unfold between. destruct endf as [ef|]; simpl; [destruct (ef x)|]; simpl; by rewrite ?Hs.
  - simpl. rewrite Hx. simpl. rewrite Hs. simpl. unfold between in *. simpl.
    destruct endf as [ef|]; [destruct (ef x)|]; simpl; rewrite ?Hs.
    + unfold limit. destruct itemf; by rewrite take_nil; destruct (count >? 0).
    + destruct (Z.gtb_spec count 0); simpl; [|apply IH]. destruct count; [lia|apply IH|lia].
    + destruct (Z.gtb_spec count 0); simpl; [|apply IH]. destruct count; [lia|apply IH|lia].
Qed.

(** Reading forward from the oldest item. *)
Lemma head_read b hist (i : nat) x :
  represents b hist → reverse (window (capacity b) hist) !! i = Some x →
  idx (buffer b) (Z.rem ((if cb_length b <? capacity b then 0 else position b) + Z.of_nat i)
                        (capacity b)) = Ok x.
Proof.
  intros H Hw. pose proof (rep_cap _ _ H) as Hc. pose proof (window_length _ _ H) as Hlen.
  pose proof (lookup_lt_Some _ _ _ Hw) as Hi. rewrite length_reverse in Hi.
  rewrite reverse_lookup in Hw by done. unfold window in Hw at 1.
  apply lookup_take_Some in Hw as [Hw _].
  set (w := length (window (capacity b) hist)) in *.
  assert (Hw' : (w - S i < length hist)%nat).
  { apply lookup_lt_Some in Hw. by rewrite length_reverse in Hw. }
  rewrite reverse_lookup in Hw by done.
  set (j := (length hist - S (w - S i))%nat) in *.
  pose proof (rep_len _ _ H) as Hl. pose proof (rep_pos _ _ H) as Hp.
  pose proof (Z.mod_pos_bound (Z.of_nat (length hist)) (capacity b) ltac:(lia)) as Hm.
  assert (Hj : Z.rem ((if cb_length b <? capacity b then 0 else position b) + Z.of_nat i)
                     (capacity b) = Z.of_nat j mod capacity b).
  { rewrite Z.rem_mod_nonneg by (zcmp; lia).
    destruct (Z.ltb_spec (cb_length b) (capacity b)).
    - f_equal. lia.
    - rewrite Hp, Zplus_mod_idemp_l.
      replace (Z.of_nat (length hist) + Z.of_nat i) with (Z.of_nat j + 1 * capacity b) by lia.
      by rewrite Z_mod_plus_full. }
  rewrite Hj. pose proof (Z.mod_pos_bound (Z.of_nat j) (capacity b) ltac:(lia)).
  rewrite <-(Z2Nat.id (Z.of_nat j mod capacity b)) by lia. apply idx_Ok.
  apply (rep_item _ _ H); [done|]. lia.
Qed.

(** The next slot overwrites the item that leaves the window. *)
Lemma represents_Insert b hist item :
  represents b hist →
  ∃ calls b', Insert b item = Ok (calls, b') ∧ represents b' (hist ++ [item])
              ∧ capacity b' = capacity b ∧ hooks b' = hooks b
              ∧ calls = (λ h, (h.2, item)) <$> map_to_list (hooks b).
Proof.
  intros H. pose proof (rep_cap _ _ H) as Hc. pose proof (rep_pos _ _ H) as Hp.
  pose proof (rep_len _ _ H) as Hl. pose proof (rep_buf _ _ H) as Hb.
  set (n := Z.of_nat (length hist)) in *.
  pose proof (Z.mod_pos_bound n (capacity b) ltac:(lia)) as Hm.
  assert (Hset : set_idx (buffer b) (position b) item
                 = Ok (<[Z.to_nat (n mod capacity b) := item]> (buffer b))).
  { rewrite Hp, <-(Z2Nat.id (n mod capacity b)) at 1 by lia. apply set_idx_Ok. lia. }
  unfold Insert. rewrite Hset. simpl. destruct (Z.eqb_spec (capacity b) 0); [lia|].
  do 2 eexists. split; [done|]. split; [|done]. split; simpl.
  - done.
  - by rewrite length_insert.
  - rewrite length_app, Z.rem_mod_nonneg by lia. simpl.
    replace (Z.of_nat (length hist + 1)) with (n + 1) by lia.
    by rewrite Hp, Zplus_mod_idemp_l.
  - rewrite length_app. simpl. destruct (Z.ltb_spec (cb_length b) (capacity b)); lia.
  - intros i x Hx Hi. rewrite length_app in Hi. simpl in Hi.
    apply lookup_app_Some in Hx as [Hx|[Hge Hx]].
    + pose proof (lookup_lt_Some _ _ _ Hx) as Hlt.
      rewrite list_lookup_insert_ne; [apply (rep_item _ _ H); [done|lia]|].
      intros E. apply Z2Nat.inj in E; [|lia|by apply Z.mod_pos_bound; lia].
      pose proof (Z.div_mod n (capacity b) ltac:(lia)) as E1.
      pose proof (Z.div_mod (Z.of_nat i) (capacity b) ltac:(lia)) as E2.
      rewrite E in E1.
      assert (Hgap : 0 < capacity b * (n / capacity b) - capacity b * (Z.of_nat i / capacity b)
                     < capacity b) by lia.
      rewrite <-Z.mul_sub_distr_l in Hgap. clear -Hgap Hc.
      destruct (Z.le_gt_cases (n / capacity b - Z.of_nat i / capacity b) 0); nia.
    + apply list_lookup_singleton_Some in Hx as [Hx <-].
      replace (Z.of_nat i) with n by lia. apply list_lookup_insert_eq. lia.
Qed.

Lemma represents_New (zero : T) (n : Z) :
  0 < n < 2 ^ 62 → ∃ b, NewCircularBuffer zero n = Ok b ∧ represents b [] ∧ capacity b = n.
Proof.
  intros Hn. unfold NewCircularBuffer. destruct (Z.ltb_spec n 0); [lia|].
  eexists. split; [done|]. split; [|done]. split; simpl; try done.
  - rewrite length_replicate. lia.
  - lia.
Qed.
End refinement.

(** ** Properties *)
Section properties.
Context {T : Type} {Hook : Type}.
Implicit Types b : CircularBuffer T Hook.

(** A sequence of insertions. *)
Fixpoint insert_all b (items : list T) : res (CircularBuffer T Hook) :=
  match items with
  | [] => Ok b
  | x :: items => '(_, b') ← Insert b x; insert_all b' items
  end.

Lemma insert_all_represents b hist items :
  represents b hist →
  ∃ b', insert_all b items = Ok b' ∧ represents b' (hist ++ items) ∧ capacity b' = capacity b.
Proof.
  revert b hist. induction items as [|x items IH]; intros b hist H; simpl.
  - exists b. by rewrite app_nil_r.
  - destruct (represents_Insert b hist x H) as (calls & b1 & -> & H1 & Hc & _). simpl.
    destruct (IH b1 (hist ++ [x]) H1) as (b' & -> & H' & Hc').
    exists b'. rewrite <-app_assoc in H'. split_and!; [done..|congruence].
Qed.

Lemma Tail_spec b hist count :
  represents b hist → Tail b count = Ok (take (Z.to_nat count) (window (capacity b) hist)).
Proof.
  intros H. pose proof (window_length _ _ H) as Hw. unfold Tail. apply mapM_res_Ok.
  destruct (Z.gtb_spec count (cb_length b)) as [Hc|Hc].
  - rewrite take_ge by lia. by apply tail_reads_all.
  - destruct (Z.le_gt_cases 0 count).
    + rewrite <-(Z2Nat.id count) at 1 by lia. apply tail_reads; [done|lia].
    + replace (Z.to_nat count) with 0%nat by lia. rewrite seqZ_nil by lia. constructor.
Qed.

Lemma GetOffset_spec b hist offset count :
  represents b hist → 0 <= offset → is_int (count + offset) →
  GetOffset b offset count
  = Ok (take (Z.to_nat count) (drop (Z.to_nat offset) (reverse (window (capacity b) hist)))).
Proof.
  intros H Ho Hi. pose proof (window_length _ _ H) as Hw. pose proof (rep_cap _ _ H) as Hc.
  pose proof (rep_len _ _ H) as Hl. unfold GetOffset. rewrite (int64_id (count + offset)) by done.
  destruct (Z.gtb_spec offset (cb_length b)); simpl.
  { rewrite drop_ge by (rewrite length_reverse; lia). by rewrite take_nil. }
  destruct (Z.leb_spec count 0).
  { by replace (Z.to_nat count) with 0%nat by lia. }
  apply mapM_res_Ok.
  set (n := if count + offset >? cb_length b then cb_length b - offset else count).
  assert (Hn : n = Z.min count (cb_length b - offset)).
  { subst n. destruct (Z.gtb_spec (count + offset) (cb_length b)); lia. }
  rewrite int64_id by (unfold is_int; lia).
  replace (offset + n - offset) with n by lia.
  apply Forall2_same_length_lookup_2.
  { rewrite length_seqZ, length_take, length_drop, length_reverse. lia. }
  intros i z x Hz Hx. apply lookup_seqZ in Hz as [-> _].
  apply lookup_take_Some in Hx as [Hx _]. rewrite lookup_drop in Hx.
  destruct (Z.eqb_spec (capacity b) 0); [lia|].
  replace (offset + Z.of_nat i) with (Z.of_nat (Z.to_nat offset + i)) by lia.
  by eapply head_read.
Qed.

(** C18: a buffer of positive size accepts every insertion and then holds
    exactly the most recent items, as many as fit: [Tail] lists them newest
    first, [GetAll] oldest first. *)
Theorem buffer_holds_latest_items (zero : T) (n count : Z) (hist : list T) :
  0 < n < 2 ^ 62 →
  ∃ b0 b : CircularBuffer T Hook,
    NewCircularBuffer zero n = Ok b0 ∧ insert_all b0 hist = Ok b
    ∧ cb_length b = Z.min (Z.of_nat (length hist)) n
    ∧ Tail b count = Ok (take (Z.to_nat count) (window n hist))
    ∧ GetAll b = Ok (reverse (window n hist)).
Proof.
  intros Hn. destruct (represents_New (Hook := Hook) zero n Hn) as (b0 & Hb0 & H0 & Hc0).
  destruct (insert_all_represents b0 [] hist H0) as (b & Hb & H & Hc). simpl in H.
  assert (capacity b = n) as <- by congruence. pose proof (rep_len _ _ H).
  exists b0, b. split_and!; [done..|by apply Tail_spec|].
  unfold GetAll. rewrite (GetOffset_spec b hist) by (done || unfold is_int; lia).
  rewrite drop_0, take_ge; [done|]. rewrite length_reverse.
  pose proof (window_length _ _ H). lia.
Qed.

(** C33: [TailFilter] returns the matching items newest first, the first
    [count] of them when [count] is positive; [TailBetween] returns the items
    from the first one that satisfies the start test up to (not including) the
    first one that satisfies the end test, filtered and limited likewise. *)
Theorem tail_queries_select_items b (hist : list T) (count : Z) (f : T → bool)
    (startf endf itemf : option (T → bool)) :
  represents b hist →
  TailFilter b count f = Ok (limit count (List.filter f (window (capacity b) hist)))
  ∧ TailBetween b count startf endf itemf
    = Ok (limit count (between startf endf itemf (window (capacity b) hist))).
Proof.
  intros H. pose proof (tail_reads_all b hist H) as Hr. split.
  - unfold TailFilter. rewrite (TailFilter_loop_spec _ _ _ _ _ _ Hr) by (simpl; lia).
    unfold limit. simpl. by rewrite Nat.sub_0_r.
  - by apply TailBetween_loop_spec.
Qed.

End properties.

(** ** Witnesses *)

(** Five insertions into a buffer of three. *)
Definition sample_hist : list Z := [10; 11; 12; 13; 14].
Definition sample_buffer : CircularBuffer Z unit :=
  mkBuffer {[ "client" := tt ]} [13; 14; 12] 3 2 3.

Lemma sample_buffer_represents : represents sample_buffer sample_hist.
Proof.
  split; [simpl; lia|reflexivity|reflexivity|reflexivity|].
  intros i x Hx Hi. cbn [capacity buffer sample_buffer] in *.
  do 5 (destruct i as [|i]; [injection Hx as <-; first [reflexivity|cbn in Hi; lia]|]).
  discriminate Hx.
Qed.

Lemma buffer_holds_latest_items_witness :
  ∃ b0 b : CircularBuffer Z unit,
    NewCircularBuffer 0 3 = Ok b0 ∧ insert_all b0 sample_hist = Ok b ∧ cb_length b = 3
    ∧ Tail b 2 = Ok [14; 13] ∧ GetAll b = Ok [12; 13; 14].
Proof. apply (buffer_holds_latest_items 0 3 2 sample_hist). lia. Defined.

Lemma tail_queries_select_items_witness :
  TailFilter sample_buffer 1 Z.even = Ok [14]
  ∧ TailBetween sample_buffer 1 (Some (Z.eqb 13)) None None = Ok [13].
Proof.
  apply (tail_queries_select_items sample_buffer sample_hist 1 Z.even) with
    (startf := Some (Z.eqb 13)) (endf := None) (itemf := None).
  apply sample_buffer_represents.
Defined.

