(* ===== verification/Resolver.v ===== *)
(** * Upstream resolvers (resolver/resolver.go)

    The three resolver types behind the [Resolver] interface.  The network, the
    HTTP client and the wire format are outside this repository: they are the
    operations of [DnsWire] (Dns.v) and [Net], over a world [W] that the calls
    thread.  A DoT resolver's idle pool is a buffered channel, that is, a queue
    of at most [dotPoolSize] connections; pools live in the resolver state
    [RState] under the identity of their channel, because resolvers are shared
    by pointer.  A call returns [inl text] for a non-nil error; the message Go
    may return beside an error is never read by a caller. *)

From S2P Require Import Prelude GoStrings GoNet GoTime Dns.
Set Default Goal Selector "!".
Local Open Scope string_scope.

Definition upstreamTimeout : Duration := (5 * Second)%Z.
Definition dotPoolSize : nat := 5.
Definition maxAttempts : nat := 3.
Definition Millisecond : Duration := 1000000.

(** The sentinel errors [isTransientConnErr] compares with. *)
Inductive Sentinel := io_EOF | io_ErrUnexpectedEOF | net_ErrClosed.

(** An HTTP exchange as the client sees it. *)
Record HttpRequest := mkHttpRequest {
  req_Method : string;
  req_URL : string;
  req_Body : list Z;
  req_Header : list (string * string);
}.
Record HttpResponse (Err : Type) := mkHttpResponse {
  StatusCode : Z;
  Status : string;
  (** the outcome of reading the body to its end *)
  resp_Body : Err + list Z;
}.
Arguments mkHttpResponse {Err}.
Arguments StatusCode {Err}.
Arguments Status {Err}.
Arguments resp_Body {Err}.

Class Net (W Conn Err : Type) := {
  Err_Error : Err → string;
  errors_Is : Err → Sentinel → bool;
  (** the error is a [net.Error] and its [Timeout()] is true *)
  net_Timeout : Err → bool;
  time_Now : W → Time * W;
  (** [dns.Client]: a UDP exchange, a TLS dial, an exchange on a connection *)
  Exchange : Msg → string → W → (Err + Msg) * W;
  Dial : string → W → (Err + Conn) * W;
  ExchangeWithConn : Msg → Conn → W → (Err + Msg) * W;
  (** one-byte read; [None] is a read that returned data *)
  conn_Read : Conn → W → option Err * W;
  SetReadDeadline : Conn → Time → W → W;
  conn_Close : Conn → W → W;
  (** [net/http] *)
  NewRequest : string → string → list Z → Err + HttpRequest;
  client_Do : HttpRequest → W → (Err + HttpResponse Err) * W;
}.

(** ** The interface

    [S] is the state its calls may change. *)
Class Resolver (R S : Type) := {
  Resolve : R → Msg → S → (string + Msg) * S;
  Resolver_String : R → string;
}.

Record UdpResolver := mkUdp { udp_Upstream : string }.
Record DotResolver := mkDot { dot_upstream : string; dot_address : string; dot_pool : positive }.
Record DohResolver := mkDoh { doh_Upstream : string }.

Definition NewUdpResolver (upstream : string) : UdpResolver := mkUdp upstream.

(** [ch] is the identity of the channel it makes. *)
Definition NewDotResolver (ch : positive) (upstream : string) : DotResolver :=
  mkDot upstream (TrimPrefix upstream "tls://") ch.

Definition NewDohResolver (upstream : string) : DohResolver := mkDoh upstream.

Inductive AnyResolver :=
  | RUdp (r : UdpResolver)
  | RDot (r : DotResolver)
  | RDoh (r : DohResolver).

Section resolver.
Context {Wire : DnsWire} {W Conn Err : Type} {N : Net W Conn Err}.

(** The channels' contents and the world. *)
Record RState := mkRState { pools : gmap positive (list Conn); net : W }.

Definition get_pool (ch : positive) (s : RState) : list Conn := default [] (pools s !! ch).
Definition set_pool (ch : positive) (s : RState) (p : list Conn) : RState :=
  mkRState (<[ch := p]> (pools s)) (net s).

(** *** UDP *)
Definition Udp_Resolve (r : UdpResolver) (q : Msg) (s : RState) : (string + Msg) * RState :=
  let '(x, w) := Exchange q (udp_Upstream r) (net s) in
  let s := mkRState (pools s) w in
  match x with
  | inl err => (inl ("DNS Query Error: " +:+ Err_Error err), s)
  | inr out => (inr out, s)
  end.

(** *** DNS over TLS *)
Definition newConn (r : DotResolver) (w : W) : (string + Conn) * W :=
  let '(x, w) := Dial (dot_address r) w in
  match x with
  | inl err => (inl ("DoT dial: " +:+ Err_Error err), w)
  | inr conn => (inr conn, w)
  end.

(** The deferred reset of the deadline runs after the read. *)
Definition isAlive (c : Conn) (w : W) : bool * W :=
  let '(now, w) := time_Now w in
  let w := SetReadDeadline c (Time_Add now Millisecond) w in
  let '(err, w) := conn_Read c w in
  let w := SetReadDeadline c zero_time w in
  match err with
  | Some err => (net_Timeout err, w)
  | None => (true, w)
  end.

(** The loop receives one connection per turn, so it runs at most once per
    idle connection before the [default] case dials. *)
Fixpoint getConn_loop (r : DotResolver) (pool : list Conn) (w : W)
    : (string + Conn) * list Conn * W :=
  match pool with
  | [] => let '(x, w) := newConn r w in (x, [], w)
  | c :: pool =>
      let '(alive, w) := isAlive c w in
      if alive then (inr c, pool, w) else getConn_loop r pool (conn_Close c w)
  end.

Definition getConn (r : DotResolver) (s : RState) : (string + Conn) * RState :=
  let '(x, p, w) := getConn_loop r (get_pool (dot_pool r) s) (net s) in
  (x, set_pool (dot_pool r) (mkRState (pools s) w) p).

Definition putConn (r : DotResolver) (c : Conn) (s : RState) : RState :=
  let p := get_pool (dot_pool r) s in
  if Nat.ltb (length p) dotPoolSize then set_pool (dot_pool r) s (p ++ [c])%list
  else mkRState (pools s) (conn_Close c (net s)).

Definition isTransientConnErr (err : Err) : bool :=
  errors_Is err io_EOF || errors_Is err io_ErrUnexpectedEOF || errors_Is err net_ErrClosed.

(** [n] attempts are left; [last] is the error of the previous one. *)
Fixpoint Dot_attempts (n : nat) (r : DotResolver) (q : Msg) (last : string) (s : RState)
    : (string + Msg) * RState :=
  match n with
  | O => (inl last, s)
  | S n =>
      let '(x, s) := getConn r s in
      match x with
      | inl err => (inl err, s)
      | inr c =>
          let '(y, w) := ExchangeWithConn q c (net s) in
          let s := mkRState (pools s) w in
          match y with
          | inr out => (inr out, putConn r c s)
          | inl err =>
              let s := mkRState (pools s) (conn_Close c (net s)) in
              if isTransientConnErr err
              then Dot_attempts n r q (Err_Error err) s
              else (inl (Err_Error err), s)
          end
      end
  end.

Definition Dot_Resolve (r : DotResolver) (q : Msg) (s : RState) : (string + Msg) * RState :=
  Dot_attempts maxAttempts r q "" s.

(** *** DNS over HTTPS

    [Header.Set] stores under the canonical spelling of the key; a new request
    has no headers. *)
Definition Doh_Resolve (r : DohResolver) (q : Msg) (s : RState) : (string + Msg) * RState :=
  match Pack q with
  | inl err => (inl ("Error packing record: " +:+ err), s)
  | inr pack =>
      match NewRequest "POST" (doh_Upstream r) pack with
      | inl err => (inl ("Error creating HTTP request: " +:+ Err_Error err), s)
      | inr request =>
          let request := mkHttpRequest (req_Method request) (req_URL request) (req_Body request)
            (req_Header request ++ [("Accept", "application/dns-message");
                                    ("Content-Type", "application/dns-message")])%list in
          let '(x, w) := client_Do request (net s) in
          let s := mkRState (pools s) w in
          match x with
          | inl err => (inl ("HTTP request error: " +:+ Err_Error err), s)
          | inr resp =>
              if negb (StatusCode resp =? 200)%Z
              then (inl ("HTTP request failed - status: " +:+ Status resp), s)
              else match resp_Body resp with
                   | inl err => (inl ("Error reading HTTP body: " +:+ Err_Error err), s)
                   | inr body =>
                       match Unpack body with
                       | inl err => (inl ("Error parsing DNS response: " +:+ err), s)
                       | inr out => (inr out, s)
                       end
                   end
          end
      end
  end.

(** The instances of the interface. *)
#[export] Instance Udp_Resolver : Resolver UdpResolver RState :=
  {| Resolve := Udp_Resolve; Resolver_String := udp_Upstream |}.
#[export] Instance Dot_Resolver : Resolver DotResolver RState :=
  {| Resolve := Dot_Resolve; Resolver_String := dot_upstream |}.
#[export] Instance Doh_Resolver : Resolver DohResolver RState :=
  {| Resolve := Doh_Resolve; Resolver_String := doh_Upstream |}.

(** A value of the interface type carries one of the three. *)
#[export] Instance Any_Resolver : Resolver AnyResolver RState :=
  {| Resolve r q s := match r with
                      | RUdp r => Resolve r q s
                      | RDot r => Resolve r q s
                      | RDoh r => Resolve r q s
                      end;
     Resolver_String r := match r with
                          | RUdp r => Resolver_String r
                          | RDot r => Resolver_String r
                          | RDoh r => Resolver_String r
                          end |}.

(** ** What the network promises

    [opened w] are the connections dialled and not yet closed, [exchanged w]
    counts the queries sent on connections.  Dialling opens a connection that
    was not open, closing closes it, and nothing else opens or closes one. *)
Class NetLaws `{Countable Conn} := {
  opened : W → gset Conn;
  exchanged : W → nat;
  opened_Dial a w : match Dial a w with
                    | (inr c, w') => c ∉ opened w ∧ opened w' = {[ c ]} ∪ opened w
                    | (inl _, w') => opened w' = opened w
                    end;
  opened_Close c w : opened (conn_Close c w) = opened w ∖ {[ c ]};
  opened_ExchangeWithConn q c w : opened (ExchangeWithConn q c w).2 = opened w;
  opened_Read c w : opened (conn_Read c w).2 = opened w;
  opened_SetReadDeadline c t w : opened (SetReadDeadline c t w) = opened w;
  opened_Now w : opened (time_Now w).2 = opened w;
  exchanged_Dial a w : exchanged (Dial a w).2 = exchanged w;
  exchanged_Close c w : exchanged (conn_Close c w) = exchanged w;
  exchanged_ExchangeWithConn q c w : exchanged (ExchangeWithConn q c w).2 = S (exchanged w);
  exchanged_Read c w : exchanged (conn_Read c w).2 = exchanged w;
  exchanged_SetReadDeadline c t w : exchanged (SetReadDeadline c t w) = exchanged w;
  exchanged_Now w : exchanged (time_Now w).2 = exchanged w;
}.

(** ** Ownership of connections *)
Section ownership.
Context `{!EqDecision Conn, !Countable Conn} {NL : NetLaws}.

(** The pool holds distinct connections, no more than its capacity; with the
    connections [F] owned elsewhere (other pools, other calls in progress) they
    are exactly the open ones. *)
Record owns (F : gset Conn) (p : list Conn) (w : W) : Prop := {
  own_NoDup : NoDup p;
  own_disj : list_to_set p ## F;
  own_opened : opened w = list_to_set p ∪ F;
}.

Definition pool_ok (F : gset Conn) (ch : positive) (s : RState) : Prop :=
  owns F (get_pool ch s) (net s) ∧ (length (get_pool ch s) ≤ dotPoolSize)%nat.

Lemma isAlive_world c w :
  opened (isAlive c w).2 = opened w ∧ exchanged (isAlive c w).2 = exchanged w.
Proof.
  unfold isAlive. destruct (time_Now w) as [now w1] eqn:E1.
  destruct (conn_Read c _) as [err w2] eqn:E2.
  pose proof (opened_Now w) as H1. pose proof (exchanged_Now w) as H1'. rewrite E1 in H1, H1'.
  pose proof (opened_Read c (SetReadDeadline c (Time_Add now Millisecond) w1)) as H2.
  pose proof (exchanged_Read c (SetReadDeadline c (Time_Add now Millisecond) w1)) as H2'.
  rewrite E2, opened_SetReadDeadline in H2. rewrite E2, exchanged_SetReadDeadline in H2'.
  simpl in *. destruct err; simpl;
    rewrite opened_SetReadDeadline, exchanged_SetReadDeadline; split; congruence.
Qed.

Lemma owns_world F p w w' : opened w' = opened w → owns F p w → owns F p w'.
Proof. intros E []. split; [done..|congruence]. Qed.

(** A connection moves out of the pool or is closed with the pool unchanged. *)
Lemma owns_take F c p w : owns F (c :: p) w → owns ({[ c ]} ∪ F) p w.
Proof.
  intros [Hn Hd Ho]. apply NoDup_cons in Hn as [Hc Hn]. split; [done|set_solver|].
  rewrite Ho. set_solver.
Qed.

Lemma owns_close F c p w :
  c ∉ F → owns ({[ c ]} ∪ F) p w → owns F p (conn_Close c w).
Proof.
  intros Hc [Hn Hd Ho]. split; [done|set_solver|]. rewrite opened_Close, Ho. set_solver.
Qed.

Lemma owns_put F c p w : c ∉ F → owns ({[ c ]} ∪ F) p w → owns F (p ++ [c])%list w.
Proof.
  intros Hc [Hn Hd Ho]. split; [|rewrite list_to_set_app_L..].
  - apply NoDup_app. split_and!; [done|set_solver|apply NoDup_singleton].
  - set_solver.
  - rewrite Ho. set_solver.
Qed.

(** The outcome of a search of the pool. *)
Lemma getConn_loop_owns r F p w :
  owns F p w →
  let '(x, p', w') := getConn_loop r p w in
  exchanged w' = exchanged w ∧ (length p' ≤ length p)%nat
  ∧ match x with
    | inr c => c ∉ F ∧ owns ({[ c ]} ∪ F) p' w'
    | inl _ => owns F p' w'
    end.
Proof.
  revert w. induction p as [|c p IH]; intros w Ho; simpl.
  - unfold newConn. pose proof (opened_Dial (dot_address r) w) as Hd.
    pose proof (exchanged_Dial (dot_address r) w) as He.
    destruct (Dial _ w) as [[e|c] w']; simpl in *; split_and!; try done.
    + by apply (owns_world F [] w).
    + destruct Hd as [Hc _]. rewrite (own_opened _ _ _ Ho) in Hc. set_solver.
    + destruct Ho as [Hn Hdj Hop]. destruct Hd as [Hc Hd].
      split; [done|set_solver|rewrite Hd, Hop; set_solver].
  - pose proof (isAlive_world c w) as [Hw He]. destruct (isAlive c w) as [alive w1]; simpl in *.
    apply (owns_world _ _ w w1 Hw) in Ho.
    assert (Hc : c ∉ F) by (destruct Ho; set_solver). apply owns_take in Ho.
    destruct alive; [split_and!; [done|lia|done|done]|].
    specialize (IH (conn_Close c w1) (owns_close _ _ _ _ Hc Ho)).
    destruct (getConn_loop r p _) as [[x p'] w']. rewrite exchanged_Close in IH.
    destruct IH as (? & ? & ?). split_and!; [congruence|lia|done].
Qed.

Lemma get_set_pool ch ch' s p :
  get_pool ch' (set_pool ch s p) = if decide (ch = ch') then p else get_pool ch' s.
Proof.
  unfold get_pool, set_pool. simpl. rewrite lookup_insert. by case_decide.
Qed.

Lemma get_pool_net ch (s : RState) w : get_pool ch (mkRState (pools s) w) = get_pool ch s.
Proof. done. Qed.

(** The state after a step of a call on the channel [ch] that sent [n] queries:
    other channels are as before. *)
Definition step_ok (n : nat) (ch : positive) (s s' : RState) : Prop :=
  exchanged (net s') = (n + exchanged (net s))%nat
  ∧ ∀ ch', ch' ≠ ch → get_pool ch' s' = get_pool ch' s.

Lemma step_ok_trans n m ch s1 s2 s3 :
  step_ok n ch s1 s2 → step_ok m ch s2 s3 → step_ok (n + m) ch s1 s3.
Proof.
  intros [E1 H1] [E2 H2]. split; [lia|]. intros ch' Hch. by rewrite H2, H1.
Qed.

Lemma getConn_owns r F s :
  pool_ok F (dot_pool r) s →
  let '(x, s') := getConn r s in
  step_ok 0 (dot_pool r) s s'
  ∧ match x with
    | inr c => c ∉ F ∧ pool_ok ({[ c ]} ∪ F) (dot_pool r) s'
    | inl _ => pool_ok F (dot_pool r) s'
    end.
Proof.
  intros [Ho Hl]. unfold getConn. pose proof (getConn_loop_owns r _ _ _ Ho) as H.
  destruct (getConn_loop _ _ _) as [[x p] w]. destruct H as (He & Hp & H). split.
  - split; [done|]. intros ch' Hch. rewrite get_set_pool. by rewrite decide_False.
  - unfold pool_ok. rewrite get_set_pool, decide_True by done. simpl.
    destruct x; [|destruct H]; (split_and!; [done..|lia] || by split; [|lia]).
Qed.

Lemma putConn_owns r F c s :
  c ∉ F → pool_ok ({[ c ]} ∪ F) (dot_pool r) s →
  step_ok 0 (dot_pool r) s (putConn r c s) ∧ pool_ok F (dot_pool r) (putConn r c s).
Proof.
  intros Hc [Ho Hl]. unfold putConn, pool_ok, step_ok.
  destruct (Nat.ltb_spec (length (get_pool (dot_pool r) s)) dotPoolSize) as [Hlt|Hge].
  - split; [split; [done|]; intros ch' ?; by rewrite get_set_pool, decide_False|].
    rewrite get_set_pool, decide_True by done. split; [by apply owns_put|].
    rewrite length_app. simpl. lia.
  - split; [split; [apply exchanged_Close|done]|]. split; [by apply owns_close|done].
Qed.

(** How a call ends: [n] queries were sent, of which all but the last failed
    with transient errors. *)
Definition outcome (limit n : nat) (x : string + Msg) : Prop :=
  match x with
  | inr _ => (1 ≤ n ≤ limit)%nat
  | inl e =>
      (∃ err, e = "DoT dial: " +:+ Err_Error err ∧ (n < limit)%nat)
      ∨ (∃ err, e = Err_Error err ∧ isTransientConnErr err = false ∧ (1 ≤ n ≤ limit)%nat)
      ∨ (∃ err, e = Err_Error err ∧ isTransientConnErr err = true ∧ n = limit)
  end.

Lemma outcome_S limit n x : outcome limit n x → outcome (S limit) (S n) x.
Proof.
  unfold outcome. destruct x as [e|m]; [|lia].
  intros [(err & ? & ?)|[(err & ? & ? & ?)|(err & ? & ? & ?)]]; [left|right; left|right; right];
    exists err; split_and?; auto; lia.
Qed.

Lemma getConn_dial_error r s e s' :
  getConn r s = (inl e, s') → ∃ err, e = "DoT dial: " +:+ Err_Error err.
Proof.
  unfold getConn. destruct (getConn_loop _ _ _) as [[x p] w] eqn:E. intros [= -> <-].
  revert E. generalize (net s). induction (get_pool (dot_pool r) s) as [|c l IH]; simpl; intros w0.
  - unfold newConn. destruct (Dial _ _) as [[err|] w']; intros [= <- <- <-]. eauto.
  - destruct (isAlive c w0) as [[] w1]; [done|]. apply IH.
Qed.

Lemma Dot_attempts_spec n r q last F s :
  (n = 0%nat → ∃ err, last = Err_Error err ∧ isTransientConnErr err = true) →
  pool_ok F (dot_pool r) s →
  let '(x, s') := Dot_attempts n r q last s in
  ∃ k, outcome n k x ∧ step_ok k (dot_pool r) s s' ∧ pool_ok F (dot_pool r) s'.
Proof.
  revert last s. induction n as [|n IH]; intros last s Hlast Hs; simpl.
  { destruct (Hlast eq_refl) as (err & -> & Ht). exists 0%nat. split_and!; [|done..].
    right. right. eauto. }
  pose proof (getConn_owns r F s Hs) as Hg. pose proof (getConn_dial_error r s) as Hde.
  destruct (getConn r s) as [[e|c] s1].
  { destruct Hg as [Hst Hok]. destruct (Hde _ _ eq_refl) as [err ->].
    exists 0%nat. split_and!; [|done..]. left. eauto with lia. }
  destruct Hg as (Hst & Hc & Hok). pose proof (opened_ExchangeWithConn q c (net s1)) as Hop.
  pose proof (exchanged_ExchangeWithConn q c (net s1)) as Hex.
  destruct (ExchangeWithConn q c (net s1)) as [y w]. simpl in Hop, Hex.
  set (s2 := mkRState (pools s1) w).
  assert (Hst2 : step_ok 1 (dot_pool r) s s2).
  { apply (step_ok_trans 0 1 _ _ s1); [done|]. split; [done|]. done. }
  assert (Hok2 : pool_ok ({[c]} ∪ F) (dot_pool r) s2).
  { destruct Hok as [Ho Hl]. split; [by apply (owns_world _ _ (net s1))|done]. }
  destruct y as [err|out].
  2:{ destruct (putConn_owns r F c s2 Hc Hok2) as [Hp Hp']. exists 1%nat.
      split_and!; [simpl; lia|by apply (step_ok_trans 1 0 _ _ s2)|done]. }
  set (s3 := mkRState _ (conn_Close c _)).
  assert (Hst3 : step_ok 1 (dot_pool r) s s3).
  { apply (step_ok_trans 1 0 _ _ s2); [done|]. split; [apply exchanged_Close|done]. }
  assert (Hok3 : pool_ok F (dot_pool r) s3).
  { destruct Hok2 as [Ho Hl]. split; [by apply owns_close|done]. }
  destruct (isTransientConnErr err) eqn:Ht.
  - specialize (IH (Err_Error err) s3 ltac:(eauto) Hok3).
    destruct (Dot_attempts n r q _ s3) as [x s']. destruct IH as (k & Hk & Hst' & Hok').
    exists (S k). split_and!; [by apply outcome_S|by apply (step_ok_trans 1 k _ _ s3)|done].
  - exists 1%nat. split_and!; [|done..]. right. left. eauto with lia.
Qed.

(** C8: a DoT query ends after at most three exchanges: with an answer, with
    the first dial or non-transient error, or with the third transient error.
    Afterwards the idle pool holds distinct connections within its capacity, the
    open connections are again exactly the pooled ones and those owned elsewhere
    (none is leaked, none is closed under another owner), and no other pool has
    changed. *)
Theorem Dot_Resolve_bounded_and_leak_free (r : DotResolver) (q : Msg) (F : gset Conn) (s : RState) :
  pool_ok F (dot_pool r) s →
  ∃ k, outcome 3 k (Dot_Resolve r q s).1
    ∧ step_ok k (dot_pool r) s (Dot_Resolve r q s).2
    ∧ pool_ok F (dot_pool r) (Dot_Resolve r q s).2.
Proof.
  intros Hs. pose proof (Dot_attempts_spec maxAttempts r q "" F s ltac:(done) Hs) as H.
  unfold Dot_Resolve. by destruct (Dot_attempts _ _ _ _ _).
Qed.
End ownership.
End resolver.

(** ** A concrete network

    Connections are numbered; a script gives the outcome of each exchange, [sn_dead]
    are the connections whose peer has gone away. *)
Inductive SErr := s_timeout | s_eof | s_refused.

Record SNet := mkSNet {
  sn_open : gset positive;
  sn_dead : gset positive;
  sn_count : nat;
  sn_script : list (SErr + Msg);
  sn_http : HttpRequest → SErr + HttpResponse SErr;
}.

Definition sn_exchange (w : SNet) : (SErr + Msg) * SNet :=
  let w' := mkSNet (sn_open w) (sn_dead w) (S (sn_count w)) (List.tl (sn_script w)) (sn_http w) in
  match sn_script w with
  | [] => (inl s_refused, w')
  | x :: _ => (x, w')
  end.

#[export] Instance sample_net : Net SNet positive SErr :=
  {| Err_Error e := match e with s_timeout => "i/o timeout" | s_eof => "EOF" | s_refused => "refused" end;
     errors_Is e t := match e, t with s_eof, io_EOF => true | _, _ => false end;
     net_Timeout e := match e with s_timeout => true | _ => false end;
     time_Now w := (1%Z, w);
     Exchange _ _ w := sn_exchange w;
     Dial _ w := let c := fresh (sn_open w) in
       (inr c, mkSNet ({[ c ]} ∪ sn_open w) (sn_dead w) (sn_count w) (sn_script w) (sn_http w));
     ExchangeWithConn _ _ w := sn_exchange w;
     conn_Read c w := (Some (if decide (c ∈ sn_dead w) then s_eof else s_timeout), w);
     SetReadDeadline _ _ w := w;
     conn_Close c w := mkSNet (sn_open w ∖ {[ c ]}) (sn_dead w) (sn_count w) (sn_script w) (sn_http w);
     NewRequest m u b := inr (mkHttpRequest m u b []);
     client_Do r w := (sn_http w r, w) |}.

#[export] Instance sample_net_laws : NetLaws (N := sample_net).
Proof.
  refine {| opened := sn_open; exchanged := sn_count |}; try done.
  - intros a w. simpl. split; [apply is_fresh|done].
  - intros q c w. simpl. unfold sn_exchange. by destruct (sn_script w).
  - intros q c w. simpl. unfold sn_exchange. by destruct (sn_script w).
Defined.

Definition sample_wire : DnsWire :=
  {| Pack m := inr [Id m]; Unpack b := match b with [i] => inr (set_Id new_Msg i) | _ => inl "unpack" end |}.

(** Two idle connections, the first one dead; the first exchange meets a closed
    connection, the second succeeds. *)
Definition sample_rstate (script : list (SErr + Msg)) : RState (W := SNet) (Conn := positive) :=
  mkRState {[ 1%positive := [1; 2]%positive ]}
    (mkSNet {[ 1; 2 ]}%positive {[ 1%positive ]} 0 script (λ _, inl s_refused)).

Definition sample_dot : DotResolver := NewDotResolver 1 "tls://1.1.1.1:853".

Lemma Dot_Resolve_bounded_and_leak_free_witness :
  let s := sample_rstate [inl s_eof; inr new_Msg] in
  pool_ok ∅ 1%positive s
  ∧ Dot_Resolve sample_dot new_Msg s = (inr new_Msg, (Dot_Resolve sample_dot new_Msg s).2)
  ∧ ∃ k, outcome 3 k (Dot_Resolve sample_dot new_Msg s).1
         ∧ pool_ok ∅ 1%positive (Dot_Resolve sample_dot new_Msg s).2.
Proof.
  assert (Hs : pool_ok ∅ 1%positive (sample_rstate [inl s_eof; inr new_Msg])).
  { split; [split|].
    - by apply (bool_decide_eq_true_1 _).
    - apply disjoint_empty_r.
    - vm_compute. reflexivity.
    - vm_compute. repeat constructor. }
  split; [exact Hs|]. split; [vm_compute; reflexivity|].
  destruct (Dot_Resolve_bounded_and_leak_free sample_dot new_Msg ∅ _ Hs) as (k & H1 & _ & H3).
  exists k. split; [exact H1|exact H3].
Defined.
