(* ===== verification/ResolverPool.v ===== *)
(** * Concurrent DoT queries on one pool (resolver/resolver.go)

    Every query runs in its own goroutine and the goroutines share the pool's
    channel.  [step] is the interleaving semantics of [DotResolver.Resolve]: one
    constructor per interaction with the channel or the network, the program
    counter [Pc] saying where between two interactions a goroutine is.  The
    network chooses the outcome of a probe, a dial and an exchange.
    [Dot_Resolve_runs] ties it to the sequential definition of Resolver.v. *)

From S2P Require Import Prelude GoStrings GoNet GoTime Dns Resolver.
Set Default Goal Selector "!".
Local Open Scope string_scope.

Section pool.
Context {Conn : Type} `{!EqDecision Conn, !Countable Conn}.

(** [n] is the number of attempts left, the current one included. *)
Inductive Pc :=
  | Select (n : nat)                      (* at the select of getConn *)
  | Probe (n : nat) (c : Conn)            (* isAlive(c) *)
  | Discard (n : nat) (c : Conn)          (* c.conn.Close() of a dead connection *)
  | NewConn (n : nat)                     (* r.client.Dial *)
  | Exchanging (n : nat) (c : Conn)       (* ExchangeWithConn *)
  | PutBack (c : Conn) (out : Msg)        (* putConn *)
  | CloseFull (c : Conn) (out : Msg)      (* the default case of putConn *)
  | CloseErr (n : nat) (c : Conn) (transient : bool) (err : string)
  | Done (x : string + Msg).

(** The connection a goroutine holds. *)
Definition holds (p : Pc) : option Conn :=
  match p with
  | Probe _ c | Discard _ c | Exchanging _ c | PutBack c _ | CloseFull c _ | CloseErr _ c _ _ => Some c
  | Select _ | NewConn _ | Done _ => None
  end.

(** [queue] is the channel's buffer, [open_conns] the connections not closed yet. *)
Record PState := mkPState {
  queue : list Conn;
  open_conns : gset Conn;
  threads : gmap nat Pc;
}.

Definition goto (s : PState) (t : nat) (p : Pc) : gmap nat Pc := <[t := p]> (threads s).

(** What follows the [n]-th attempt left when it met a transient error. *)
Definition again (n : nat) (err : string) : Pc :=
  match n with
  | O => Done (inl err)
  | S _ => Select n
  end.

Inductive step : PState → PState → Prop :=
  | s_call s t :
      threads s !! t = None →
      step s (mkPState (queue s) (open_conns s) (goto s t (Select maxAttempts)))
  | s_receive s t n c p :
      threads s !! t = Some (Select n) → queue s = c :: p →
      step s (mkPState p (open_conns s) (goto s t (Probe n c)))
  | s_empty s t n :
      threads s !! t = Some (Select n) → queue s = [] →
      step s (mkPState [] (open_conns s) (goto s t (NewConn n)))
  | s_alive s t n c :
      threads s !! t = Some (Probe n c) →
      step s (mkPState (queue s) (open_conns s) (goto s t (Exchanging n c)))
  | s_dead s t n c :
      threads s !! t = Some (Probe n c) →
      step s (mkPState (queue s) (open_conns s) (goto s t (Discard n c)))
  | s_discard s t n c :
      threads s !! t = Some (Discard n c) →
      step s (mkPState (queue s) (open_conns s ∖ {[ c ]}) (goto s t (Select n)))
  | s_dial s t n c :
      threads s !! t = Some (NewConn n) → c ∉ open_conns s →
      step s (mkPState (queue s) ({[ c ]} ∪ open_conns s) (goto s t (Exchanging n c)))
  | s_dial_error s t n err :
      threads s !! t = Some (NewConn n) →
      step s (mkPState (queue s) (open_conns s) (goto s t (Done (inl ("DoT dial: " +:+ err)))))
  | s_answer s t n c out :
      threads s !! t = Some (Exchanging n c) →
      step s (mkPState (queue s) (open_conns s) (goto s t (PutBack c out)))
  | s_error s t n c transient err :
      threads s !! t = Some (Exchanging n c) →
      step s (mkPState (queue s) (open_conns s) (goto s t (CloseErr n c transient err)))
  | s_put s t c out :
      threads s !! t = Some (PutBack c out) → (length (queue s) < dotPoolSize)%nat →
      step s (mkPState (queue s ++ [c])%list (open_conns s) (goto s t (Done (inr out))))
  | s_full s t c out :
      threads s !! t = Some (PutBack c out) → (dotPoolSize ≤ length (queue s))%nat →
      step s (mkPState (queue s) (open_conns s) (goto s t (CloseFull c out)))
  | s_close_full s t c out :
      threads s !! t = Some (CloseFull c out) →
      step s (mkPState (queue s) (open_conns s ∖ {[ c ]}) (goto s t (Done (inr out))))
  | s_close_retry s t n c err :
      threads s !! t = Some (CloseErr n c true err) →
      step s (mkPState (queue s) (open_conns s ∖ {[ c ]}) (goto s t (again (pred n) err)))
  | s_close_fail s t n c err :
      threads s !! t = Some (CloseErr n c false err) →
      step s (mkPState (queue s) (open_conns s ∖ {[ c ]}) (goto s t (Done (inl err)))).

(** ** Invariant *)

(** [NewDotResolver]: an empty channel, no goroutine. *)
Definition initial : PState := mkPState [] ∅ ∅.

Definition held (s : PState) (c : Conn) : Prop := ∃ t p, threads s !! t = Some p ∧ holds p = Some c.

(** Each open connection is either idle in the pool or held by one goroutine. *)
Record inv (s : PState) : Prop := {
  inv_NoDup : NoDup (queue s);
  inv_bound : (length (queue s) ≤ dotPoolSize)%nat;
  inv_excl : ∀ t t' p p' c, threads s !! t = Some p → threads s !! t' = Some p' →
    holds p = Some c → holds p' = Some c → t = t';
  inv_sep : ∀ c, held s c → c ∉ queue s;
  inv_open : ∀ c, c ∈ open_conns s ↔ c ∈ queue s ∨ held s c;
}.

(** The connections held after goroutine [t] moves from [p] to [p']. *)
Lemma held_goto q o s t p p' c :
  threads s !! t = Some p →
  (∀ t1 t2 p1 p2 d, threads s !! t1 = Some p1 → threads s !! t2 = Some p2 →
    holds p1 = Some d → holds p2 = Some d → t1 = t2) →
  held (mkPState q o (goto s t p')) c ↔ holds p' = Some c ∨ (held s c ∧ holds p ≠ Some c).
Proof.
  intros Ht Hex. unfold held, goto. simpl. setoid_rewrite lookup_insert_Some. split.
  - intros (t1 & p1 & [[<- <-]|[Hne H1]] & Hh); [by left|right]. split; [eauto|].
    intros Hp. apply Hne. by eapply (Hex t t1).
  - intros [Hp'|[(t1 & p1 & H1 & Hh) Hp]]; [by exists t, p'; auto|].
    exists t1, p1. split; [right|done]. split; [|done]. intros <-. congruence.
Qed.

Lemma excl_goto s t p p' :
  inv s → threads s !! t = Some p →
  (∀ c, holds p' = Some c → holds p = Some c ∨ ¬ held s c) →
  ∀ t1 t2 p1 p2 c, goto s t p' !! t1 = Some p1 → goto s t p' !! t2 = Some p2 →
    holds p1 = Some c → holds p2 = Some c → t1 = t2.
Proof.
  intros Hi Ht Hp t1 t2 p1 p2 c. unfold goto. rewrite !lookup_insert_Some.
  intros [[<- <-]|[N1 H1]] [[<- <-]|[N2 H2]] Hc1 Hc2; [done| | |].
  - destruct (Hp c Hc1) as [H|H]; [by eapply (inv_excl s)|]. destruct H. by exists t2, p2.
  - destruct (Hp c Hc2) as [H|H]; [by eapply (inv_excl s)|]. destruct H. by exists t1, p1.
  - by eapply (inv_excl s).
Qed.

(** One goroutine moves: enough for the invariant to hold again. *)
Lemma inv_move q o s t p p' :
  inv s → threads s !! t = Some p →
  NoDup q → (length q ≤ dotPoolSize)%nat →
  (∀ c, holds p' = Some c → holds p = Some c ∨ ¬ held s c) →
  (∀ c, holds p' = Some c ∨ (held s c ∧ holds p ≠ Some c) → c ∉ q) →
  (∀ c, c ∈ o ↔ c ∈ q ∨ holds p' = Some c ∨ (held s c ∧ holds p ≠ Some c)) →
  inv (mkPState q o (goto s t p')).
Proof.
  intros Hi Ht Hn Hl Hex Hsep Ho. pose proof (inv_excl s Hi) as Hx.
  split; simpl; [done|done|by eapply excl_goto| |].
  - intros c. rewrite held_goto by done. apply Hsep.
  - intros c. rewrite held_goto by done. apply Ho.
Qed.

Lemma inv_spawn s t n :
  inv s → threads s !! t = None →
  inv (mkPState (queue s) (open_conns s) (goto s t (Select n))).
Proof.
  intros [Hn Hl Hx Hs Ho] Ht.
  assert (Hh : ∀ c, held (mkPState (queue s) (open_conns s) (goto s t (Select n))) c ↔ held s c).
  { intros c. unfold held, goto. simpl. setoid_rewrite lookup_insert_Some.
    split; [intros (t' & p & [[<- <-]|[? ?]] & ?); [done|eauto]|].
    intros (t' & p & H & ?). exists t', p. split; [|done]. right. split; [|done]. by intros <-; simplify_eq. }
  split; simpl; [done..| | |]; [|by setoid_rewrite Hh|by setoid_rewrite Hh].
  intros t1 t2 p1 p2 c. unfold goto. rewrite !lookup_insert_Some.
  intros [[<- <-]|[? ?]] [[<- <-]|[? ?]]; try done. eauto.
Qed.

Lemma held_by s t p c : threads s !! t = Some p → holds p = Some c → held s c.
Proof. unfold held. eauto. Qed.

(** The move keeps what the goroutine holds. *)
Lemma inv_same s t p p' :
  inv s → threads s !! t = Some p → holds p' = holds p →
  inv (mkPState (queue s) (open_conns s) (goto s t p')).
Proof.
  intros Hi Ht Hp. pose proof Hi as [Hn Hl Hx Hs Ho]. pose proof (held_by s t p) as Hb.
  eapply inv_move; try done; rewrite Hp; [naive_solver|naive_solver|].
  intros c. rewrite Ho. destruct (decide (holds p = Some c)); naive_solver.
Qed.

(** The move closes the connection held. *)
Lemma inv_closed s t p p' c :
  inv s → threads s !! t = Some p → holds p = Some c → holds p' = None →
  inv (mkPState (queue s) (open_conns s ∖ {[ c ]}) (goto s t p')).
Proof.
  intros Hi Ht Hp Hp'. pose proof Hi as [Hn Hl Hx Hs Ho].
  pose proof (Hs c (held_by s t p c Ht Hp)) as Hc.
  eapply inv_move; try done; rewrite Hp'; [done|naive_solver|].
  intros d. rewrite elem_of_difference, elem_of_singleton, Ho, Hp.
  destruct (decide (d = c)); naive_solver.
Qed.

Lemma inv_receive s t n c p :
  inv s → threads s !! t = Some (Select n) → queue s = c :: p →
  inv (mkPState p (open_conns s) (goto s t (Probe n c))).
Proof.
  intros Hi Ht Hq. pose proof Hi as [Hn Hl Hx Hs Ho]. rewrite Hq in Hn, Hl, Hs, Ho.
  apply NoDup_cons in Hn as [Hc Hn]. simpl in Hl.
  eapply inv_move; try done; simpl; [lia|..].
  - intros d [= <-]. right. intros H%Hs. set_solver.
  - intros d [[= <-]|[H%Hs _]]; set_solver.
  - intros d. rewrite Ho, elem_of_cons. naive_solver.
Qed.

Lemma inv_dial s t n c :
  inv s → threads s !! t = Some (NewConn n) → c ∉ open_conns s →
  inv (mkPState (queue s) ({[ c ]} ∪ open_conns s) (goto s t (Exchanging n c))).
Proof.
  intros Hi Ht Hc. pose proof Hi as [Hn Hl Hx Hs Ho]. rewrite Ho in Hc.
  eapply inv_move; try done; simpl; [naive_solver|naive_solver|].
  intros d. rewrite elem_of_union, elem_of_singleton, Ho. naive_solver.
Qed.

Lemma inv_put s t c out :
  inv s → threads s !! t = Some (PutBack c out) → (length (queue s) < dotPoolSize)%nat →
  inv (mkPState (queue s ++ [c])%list (open_conns s) (goto s t (Done (inr out)))).
Proof.
  intros Hi Ht Hlt. pose proof Hi as [Hn Hl Hx Hs Ho].
  pose proof (Hs c (held_by s t _ c Ht eq_refl)) as Hc.
  pose proof (held_by s t _ c Ht eq_refl) as Hh.
  eapply inv_move; try done; simpl.
  - apply NoDup_app. split_and!; [done|set_solver|apply NoDup_singleton].
  - rewrite length_app. simpl. lia.
  - intros d [?|[H Hd]]; [done|]. rewrite elem_of_app, list_elem_of_singleton. naive_solver.
  - intros d. rewrite elem_of_app, list_elem_of_singleton, Ho.
    destruct (decide (d = c)); naive_solver.
Qed.

Lemma inv_step s s' : inv s → step s s' → inv s'.
Proof.
  intros Hi Hst. revert Hi. destruct Hst as [s0 t Ht|s0 t n c p Ht Hq|s0 t n Ht Hq|s0 t n c Ht|s0 t n c Ht|s0 t n c Ht|s0 t n c Ht Hc
    |s0 t n err Ht|s0 t n c out Ht|s0 t n c tr err Ht|s0 t c out Ht Hlt|s0 t c out Ht Hge|s0 t c out Ht
    |s0 t n c err Ht|s0 t n c err Ht]; intros Hi.
  - by apply inv_spawn.
  - by apply (inv_receive _ _ _ _ _ Hi Ht).
  - rewrite <-Hq. by apply (inv_same _ _ _ _ Hi Ht).
  - by apply (inv_same _ _ _ _ Hi Ht).
  - by apply (inv_same _ _ _ _ Hi Ht).
  - by apply (inv_closed _ _ _ _ _ Hi Ht).
  - by apply inv_dial.
  - by apply (inv_same _ _ _ _ Hi Ht).
  - by apply (inv_same _ _ _ _ Hi Ht).
  - by apply (inv_same _ _ _ _ Hi Ht).
  - by apply inv_put.
  - by apply (inv_same _ _ _ _ Hi Ht).
  - by apply (inv_closed _ _ _ _ _ Hi Ht).
  - apply (inv_closed _ _ _ _ _ Hi Ht); [done|]. by destruct (pred n).
  - by apply (inv_closed _ _ _ _ _ Hi Ht).
Qed.

Lemma inv_reachable s : rtc step initial s → inv s.
Proof.
  apply (rtc_ind_r inv); [|eauto using inv_step].
  split; simpl; [constructor|unfold dotPoolSize; lia|done|set_solver|].
  intros c. unfold held. simpl. set_solver.
Qed.

(** ** Properties *)

(** The goroutines that have not returned. *)
Definition is_Done (p : Pc) : bool := match p with Done _ => true | _ => false end.
Definition running (s : PState) : gmap nat Pc := filter (λ kv, is_Done kv.2 = false) (threads s).

Lemma holds_running s t p c :
  threads s !! t = Some p → holds p = Some c → running s !! t = Some p.
Proof. intros Ht Hp. apply map_lookup_filter_Some. split; [done|]. by destruct p. Qed.

Lemma open_bound s : inv s → (size (open_conns s) ≤ dotPoolSize + size (running s))%nat.
Proof.
  intros [Hn Hl _ _ Ho].
  set (hs := omap (λ kv : nat * Pc, holds kv.2) (map_to_list (running s))).
  trans (size (list_to_set (queue s) ∪ list_to_set hs : gset Conn)).
  - apply subseteq_size. intros c. rewrite Ho, elem_of_union, !elem_of_list_to_set.
    intros [?|(t & p & Ht & Hp)]; [by left|right]. apply list_elem_of_omap.
    exists (t, p). split; [|done]. apply elem_of_map_to_list. by eapply holds_running.
  - pose proof (size_union_bound (list_to_set (queue s)) (list_to_set hs : gset Conn)).
    pose proof (size_list_to_set_bound (queue s)). pose proof (size_list_to_set_bound hs).
    pose proof (length_omap_bound (λ kv : nat * Pc, holds kv.2) (map_to_list (running s))) as Hlen.
    fold hs in Hlen. rewrite length_map_to_list in Hlen. lia.
Qed.

(** C7: whatever the interleaving of concurrent queries, a connection is used
    by one goroutine at a time and never while it is in the pool, the pool stays
    within its capacity, every open connection is pooled or in use (so there are
    at most five more than queries in progress), and when all queries have
    returned the open connections are the pooled ones. *)
Theorem pool_exclusive_and_leak_free (s : PState) :
  rtc step initial s →
  (∀ t t' p p' c, threads s !! t = Some p → threads s !! t' = Some p' →
     holds p = Some c → holds p' = Some c → t = t' ∧ c ∉ queue s ∧ c ∈ open_conns s)
  ∧ (length (queue s) ≤ dotPoolSize)%nat
  ∧ (size (open_conns s) ≤ dotPoolSize + size (running s))%nat
  ∧ (running s = ∅ → open_conns s = list_to_set (queue s)).
Proof.
  intros Hs%inv_reachable. split_and!; [|apply Hs|by apply open_bound|].
  - intros t t' p p' c Ht Ht' Hp Hp'. pose proof (held_by s t p c Ht Hp) as Hh. split_and!.
    + by eapply (inv_excl s).
    + by apply (inv_sep s Hs).
    + apply (inv_open s Hs). by right.
  - intros Hr. apply set_eq. intros c. rewrite elem_of_list_to_set, (inv_open s Hs).
    split; [|by left]. intros [?|(t & p & Ht & Hp)]; [done|].
    pose proof (holds_running s t p c Ht Hp) as H. by rewrite Hr, lookup_empty in H.
Qed.
End pool.

(** ** The sequential code runs in this semantics *)
Section runs.
Context {Wire : DnsWire} {W Conn Err : Type} {N : Net W Conn Err}.
Context `{!EqDecision Conn, !Countable Conn} {NL : NetLaws}.

Definition at_pc (q : list Conn) (w : W) (thr : gmap nat Pc) (t : nat) (p : Pc) : PState :=
  mkPState q (opened w) (<[t := p]> thr).

(** Take one step with the rule [r]. *)
Ltac run r :=
  eapply rtc_l; [eapply r; [apply lookup_insert_eq|..]; try done|unfold goto; simpl; rewrite insert_insert_eq].

Definition after_get (n : nat) (x : string + Conn) : Pc :=
  match x with inr c => Exchanging n c | inl e => Done (inl e) end.

Lemma getConn_loop_runs r thr t n q w :
  let '(x, q', w') := getConn_loop r q w in
  rtc step (at_pc q w thr t (Select n)) (at_pc q' w' thr t (after_get n x)).
Proof.
  unfold at_pc. revert w. induction q as [|c q IH]; intros w; simpl.
  - unfold newConn. pose proof (opened_Dial (dot_address r) w) as Hd.
    destruct (Dial _ w) as [[e|c] w']; simpl; run @s_empty.
    + rewrite Hd. run @s_dial_error. done.
    + destruct Hd as [Hc ->]. run @s_dial. done.
  - destruct (isAlive_world c w) as [Hw _]. specialize (IH (conn_Close c (isAlive c w).2)).
    rewrite opened_Close, Hw in IH. destruct (isAlive c w) as [[] w1]; simpl in Hw, IH.
    + run @s_receive. rewrite Hw. run @s_alive. done.
    + destruct (getConn_loop r q _) as [[x q'] w']. run @s_receive. run @s_dead. by run @s_discard.
Qed.

Lemma getConn_runs r thr t n (s : RState) :
  let '(x, s') := getConn r s in
  rtc step (at_pc (get_pool (dot_pool r) s) (net s) thr t (Select n))
           (at_pc (get_pool (dot_pool r) s') (net s') thr t (after_get n x)).
Proof.
  pose proof (getConn_loop_runs r thr t n (get_pool (dot_pool r) s) (net s)) as H. unfold getConn.
  destruct (getConn_loop _ _ _) as [[x p] w]. by rewrite get_set_pool, decide_True.
Qed.

Lemma Dot_attempts_runs n r q last thr t (s : RState) :
  (0 < n)%nat →
  let '(x, s') := Dot_attempts n r q last s in
  rtc step (at_pc (get_pool (dot_pool r) s) (net s) thr t (Select n))
           (at_pc (get_pool (dot_pool r) s') (net s') thr t (Done x)).
Proof.
  revert last s. induction n as [|n IH]; intros last s Hn; [lia|]. simpl.
  pose proof (getConn_runs r thr t (S n) s) as Hg. destruct (getConn r s) as [[e|c] s1]; [done|].
  pose proof (opened_ExchangeWithConn q c (net s1)) as Ho.
  destruct (ExchangeWithConn q c (net s1)) as [[err|out] w2]; simpl in Ho.
  - destruct (isTransientConnErr err) eqn:Ht.
    + set (s3 := mkRState _ (conn_Close c _)). specialize (IH (Err_Error err) s3).
      assert (Hr : rtc step (at_pc (get_pool (dot_pool r) s) (net s) thr t (Select (S n)))
                            (at_pc (get_pool (dot_pool r) s3) (net s3) thr t (again n (Err_Error err)))).
      { etrans; [exact Hg|]. unfold at_pc. run @s_error. run @s_close_retry.
        unfold s3. simpl. by rewrite opened_Close, Ho. }
      destruct n as [|n]; [done|]. specialize (IH ltac:(lia)).
      destruct (Dot_attempts (S n) r q _ s3) as [x s']. by etrans.
    + etrans; [exact Hg|]. unfold at_pc. run @s_error. run @s_close_fail.
      simpl. by rewrite opened_Close, Ho.
  - etrans; [exact Hg|]. unfold at_pc, putConn. rewrite !get_pool_net.
    destruct (Nat.ltb_spec (length (get_pool (dot_pool r) s1)) dotPoolSize) as [Hlt|Hge]; run @s_answer.
    + run @s_put. rewrite get_set_pool, decide_True by done. simpl. by rewrite Ho.
    + run @s_full. run @s_close_full. simpl. by rewrite opened_Close, Ho.
Qed.

(** The sequential definition of a DoT query is a run of one goroutine of
    the interleaving semantics, from the select of its first attempt to its
    return, with the same result, pool and open connections; what is proved of
    every interleaving therefore holds of it. *)
Theorem Dot_Resolve_runs (r : DotResolver) (q : Msg) (thr : gmap nat Pc) (t : nat) (s : RState) :
  rtc step (at_pc (get_pool (dot_pool r) s) (net s) thr t (Select maxAttempts))
           (at_pc (get_pool (dot_pool r) (Dot_Resolve r q s).2) (net (Dot_Resolve r q s).2)
                  thr t (Done (Dot_Resolve r q s).1)).
Proof.
  pose proof (Dot_attempts_runs maxAttempts r q "" thr t s ltac:(unfold maxAttempts; lia)) as H.
  unfold Dot_Resolve. by destruct (Dot_attempts _ _ _ _ _).
Qed.
End runs.

(** Two queries on a new pool that overlap and return their connections. *)
Lemma pool_exclusive_and_leak_free_witness :
  ∃ s : PState (Conn := positive), length (queue s) = 2%nat
    ∧ (length (queue s) ≤ dotPoolSize)%nat ∧ open_conns s = list_to_set (queue s).
Proof.
  assert (H : ∃ s : PState (Conn := positive), rtc step initial s ∧ length (queue s) = 2%nat ∧ running s = ∅).
  { eexists. split.
    - eapply rtc_l; [apply (s_call _ 0); reflexivity|]. eapply rtc_l; [apply (s_call _ 1); reflexivity|].
      eapply rtc_l; [apply (s_empty _ 0 3); reflexivity|]. eapply rtc_l; [apply (s_empty _ 1 3); reflexivity|].
      eapply rtc_l; [apply (s_dial _ 0 3 1%positive); [reflexivity|set_solver]|].
      eapply rtc_l; [apply (s_dial _ 1 3 2%positive); [reflexivity|set_solver]|].
      eapply rtc_l; [apply (s_answer _ 0 3 1%positive new_Msg); reflexivity|].
      eapply rtc_l; [apply (s_answer _ 1 3 2%positive new_Msg); reflexivity|].
      eapply rtc_l; [apply (s_put _ 0 1%positive new_Msg); [reflexivity|unfold dotPoolSize; simpl; lia]|].
      eapply rtc_l; [apply (s_put _ 1 2%positive new_Msg); [reflexivity|unfold dotPoolSize; simpl; lia]|].
      apply rtc_refl.
    - split; [reflexivity|]. apply map_eq. intros i. vm_compute. destruct i as [|p]; [reflexivity|].
      by destruct p. }
  destruct H as (s & Hs & Hl & Hr). exists s. destruct (pool_exclusive_and_leak_free s Hs) as (_ & H2 & _ & H4).
  split; [exact Hl|]. split; [exact H2|exact (H4 Hr)].
Defined.
