(* ===== verification/Stats.v ===== *)
(** * The query log (statshandler/stats.go)

    [StatsHandler] is a circular buffer of [ConnectionLog] items.  A log stream
    registers a hook that sends each item, as JSON, on its channel; [Chan] is the
    identity of such a channel and stands for the hook. *)

From S2P Require Import Prelude GoTime CircularBuffer.
Set Default Goal Selector "!".
Local Open Scope string_scope.

Record ConnectionLog := mkLog {
  Timestamp : Time;
  Client : string;
  Qname : string;
  log_Qtype : string;
  log_Rcode : Z;
  QueryTime : Duration;
  log_Acl : bool;
  Blocked : bool;
  Cached : bool;
  Error : bool;
}.

#[export] Instance ConnectionLog_eq_dec : EqDecision ConnectionLog.
Proof. solve_decision. Defined.

(** The zero value. *)
Definition zero_log : ConnectionLog := mkLog zero_time "" "" "" 0 0 false false false false.

Section stats.
Context {Chan : Type}.

Record StatsHandler := mkStats { connections : CircularBuffer ConnectionLog Chan }.

Definition New (bufferLength : Z) : res StatsHandler :=
  b ← NewCircularBuffer zero_log bufferLength; Ok (mkStats b).

(** The items sent on log channels, and the handler after the insertion. *)
Definition Add (s : StatsHandler) (c : ConnectionLog)
    : res (list (Chan * ConnectionLog) * StatsHandler) :=
  '(calls, b) ← Insert (connections s) c; Ok (calls, mkStats b).

Definition Tail (s : StatsHandler) (n : Z) : res (list ConnectionLog) :=
  CircularBuffer.Tail (connections s) n.

Definition MakeLogChannel (s : StatsHandler) (id : string) (ch : Chan) : StatsHandler :=
  mkStats (AddHook (connections s) id ch).

Definition CloseLogChannel (s : StatsHandler) (id : string) : StatsHandler :=
  mkStats (DeleteHook (connections s) id).

(** The handler has logged [hist], oldest first. *)
Definition logged (s : StatsHandler) (hist : list ConnectionLog) : Prop :=
  represents (connections s) hist.

Lemma logged_New n : (0 < n < 2 ^ 62)%Z → ∃ s, New n = Ok s ∧ logged s [].
Proof.
  intros Hn. destruct (represents_New (Hook := Chan) zero_log n Hn) as (b & Hb & Hr & _).
  exists (mkStats b). unfold New. by rewrite Hb.
Qed.

Lemma logged_Add s hist c :
  logged s hist →
  ∃ calls s', Add s c = Ok (calls, s') ∧ logged s' (hist ++ [c])
    ∧ ∀ p, p ∈ calls → p.2 = c.
Proof.
  intros H. destruct (represents_Insert _ _ c H) as (calls & b & Hi & Hr & _ & _ & Hc).
  exists calls, (mkStats b). unfold Add. rewrite Hi. split_and!; [done..|].
  intros p. rewrite Hc. by intros ([? ?] & -> & _)%list_elem_of_fmap.
Qed.

Lemma Tail_logged s hist n :
  logged s hist →
  Tail s n = Ok (take (Z.to_nat n) (window (capacity (connections s)) hist)).
Proof. intros H. by apply Tail_spec. Qed.
End stats.
Arguments StatsHandler : clear implicits.
