(* ===== verification/Logger.v ===== *)
(** * Loggers (logger/log.go)

    A [LogHandler] is four loggers of Go's package log, one per level; a logger
    is its destination, prefix and flags.  The constructors and the choice of the
    logger by each method of [Logger] are modelled; what a call prints is not. *)

From S2P Require Import Prelude GoStrings.
Set Default Goal Selector "!".
Local Open Scope string_scope.

(** An [io.Writer] that the code hands to a logger: [os.Stderr], [io.Discard], or
    a connection to syslog with a priority and a tag. *)
Inductive Writer := Stderr | Discard | SyslogWriter (priority : Z) (tag : string).

(** [log.New(out, prefix, flag)] *)
Record GoLogger := mkGoLogger { lg_out : Writer; lg_prefix : string; lg_flag : Z }.

Inductive Level := LevelDebug | LevelInfo | LevelError | LevelFatal.

Record LogHandler := mkLogHandler {
  h_Debug : GoLogger;
  h_Info : GoLogger;
  h_Error : GoLogger;
  h_Fatal : GoLogger;
}.

#[export] Instance Writer_eq_dec : EqDecision Writer.
Proof. solve_decision. Defined.

Definition LstdFlags : Z := 3.
Definition Lmsgprefix : Z := 64.
Definition std_flags : Z := Z.lor LstdFlags Lmsgprefix.

Definition NewStderr (debug : bool) : LogHandler :=
  let debugLog := if debug then mkGoLogger Stderr "DEBUG: " std_flags
                  else mkGoLogger Discard "DEBUG: " std_flags in
  mkLogHandler debugLog (mkGoLogger Stderr "INFO: " std_flags)
    (mkGoLogger Stderr "ERROR: " std_flags) (mkGoLogger Stderr "FATAL: " std_flags).

Definition NewDiscard (debug : bool) : LogHandler :=
  mkLogHandler (mkGoLogger Discard "DEBUG: " std_flags) (mkGoLogger Discard "INFO: " std_flags)
    (mkGoLogger Discard "ERROR: " std_flags) (mkGoLogger Discard "FATAL: " std_flags).

(** [filepath.Base]: the last element, without trailing separators. *)
Definition Base (path : string) : string :=
  if bool_decide (path = "") then "."
  else match last (filter (λ p, p ≠ "") (Split path "/")) with Some p => p | None => "/" end.

Definition LOG_SYSLOG : Z := Z.shiftl 5 3.
Definition syslog_priorities : list Z :=
  [Z.lor LOG_SYSLOG 7; Z.lor LOG_SYSLOG 6; Z.lor LOG_SYSLOG 3; Z.lor LOG_SYSLOG 2].

(** The loop over the priorities: [dial] is [syslog.New], the first error ends
    the process. *)
Fixpoint syslog_loggers (dial : Z → string → error) (tag : string) (prios : list Z)
    : string + list GoLogger :=
  match prios with
  | [] => inr []
  | v :: prios =>
      match dial v tag with
      | Some err => inl ("Cant connect to syslog: " +:+ err)
      | None =>
          match syslog_loggers dial tag prios with
          | inl e => inl e
          | inr ls => inr (mkGoLogger (SyslogWriter v tag) "" 0 :: ls)
          end
      end
  end.

(** [inl] is the message of [log.Fatalf]. *)
Definition NewSyslog (dial : Z → string → error) (arg0 : string) (debug : bool) : string + LogHandler :=
  match syslog_loggers dial (Base arg0) syslog_priorities with
  | inl e => inl e
  | inr [d; i; e; f] =>
      inr (mkLogHandler (if debug then d else mkGoLogger Discard "DEBUG: " std_flags) i e f)
  | inr _ => inl "unreachable: four priorities give four loggers"
  end.

(** The logger that the methods of [Logger] for a level write to ([Print] and
    [Printf] are those of [Info]). *)
Definition level_logger (h : LogHandler) (l : Level) : GoLogger :=
  match l with
  | LevelDebug => h_Debug h
  | LevelInfo => h_Info h
  | LevelError => h_Error h
  | LevelFatal => h_Fatal h
  end.

(** The last branch of [NewSyslog] is not reached. *)
Lemma syslog_loggers_length dial tag prios ls :
  syslog_loggers dial tag prios = inr ls → length ls = length prios.
Proof.
  revert ls. induction prios as [|v prios IH]; simpl; intros ls; [by intros [= <-]|].
  destruct (dial v tag); [done|]. destruct (syslog_loggers dial tag prios); [done|].
  intros [= <-]. simpl. by rewrite (IH _ eq_refl).
Qed.

(** [NewSyslog] returns unless a connection fails, whatever [debug] is. *)
Lemma NewSyslog_connects dial arg0 debug :
  (∀ v, v ∈ syslog_priorities → dial v (Base arg0) = None) ↔ ∃ h, NewSyslog dial arg0 debug = inr h.
Proof.
  unfold NewSyslog, syslog_priorities. split.
  - intros H. simpl. rewrite !H by set_solver. simpl. by eauto.
  - simpl. intros [h Hh] v Hv. repeat case_match; simplify_eq; set_solver.
Qed.

(** Debug messages are dropped unless asked for, by each constructor; the other
    levels are written except by [NewDiscard]. *)
Lemma debug_level_gated dial arg0 debug h :
  NewSyslog dial arg0 debug = inr h ∨ h = NewStderr debug →
  ∀ l, lg_out (level_logger h l) = Discard ↔ l = LevelDebug ∧ debug = false.
Proof.
  intros Hh l. assert (∀ v tag, SyslogWriter v tag ≠ Discard) by done.
  destruct Hh as [Hh| ->].
  - unfold NewSyslog in Hh. simpl in Hh. repeat case_match; simplify_eq; destruct l; simpl; naive_solver.
  - destruct l, debug; simpl; naive_solver.
Qed.
