(* ===== verification/Config.v ===== *)
(** * Configuration state (config/config.go, config/userconfig.go)

    [UserConfig] holds the options as the user wrote them, [ProxyConfig] the
    run-time state that the request handlers share.  Fields have the source's
    names with the prefix [u_] or [c_].  The type of upstream resolvers is a
    parameter: the proxy uses them through the interface [Resolver] only. *)

From S2P Require Import Prelude GoStrings GoNet GoTime Dns BlockList Cache CircularBuffer Stats.
From S2P Require Import Logger.
Set Default Goal Selector "!".
Local Open Scope string_scope.

Record UserConfig := mkUserConfig {
  u_Listen : list string;
  u_Upstream : list string;
  u_Acl : list string;
  u_Block : list string;
  u_BlockDelete : list string;
  u_Blocklist : list string;
  u_BlocklistAAAA : list string;
  u_BlocklistFromHosts : list string;
  u_LocalRR : list string;
  u_LocalRRPtr : list string;
  u_Localzone : list string;
  u_Dns64 : bool;
  u_Dns64Prefix : string;
  u_Api : bool;
  u_ApiBind : string;
  u_Doh : list string;
  u_DohCert : string;
  u_DohKey : string;
  u_DohPath : string;
  u_Refresh : bool;
  u_RefreshInterval : string;
  u_Debug : bool;
  u_Syslog : bool;
  u_Discard : bool;
  u_Setuid : string;
}.

Definition NewUserConfig : UserConfig :=
  mkUserConfig [] [] [] [] [] [] [] [] [] [] [] false "" false "" [] "" "" "" false "" false false false "".

Section config.
Context {R Chan : Type}.

Record ProxyConfig := mkProxyConfig {
  c_ListenAddr : list string;
  c_Upstream : list R;
  c_UpstreamErr : Z;
  c_Cache : DNSCache;
  c_CacheFlush : Duration;
  c_BlockList : BlockList.BlockList;
  c_BlockPauseUntil : Time;
  c_Acl : list IPNet;
  c_Dns64 : bool;
  c_Dns64Prefix : IPNet;
  c_Api : bool;
  c_ApiBind : string;
  c_DohBind : list string;
  c_DohCert : string;
  c_DohKey : string;
  c_DohPath : string;
  c_StatsHandler : StatsHandler Chan;
  c_Refresh : bool;
  c_RefreshInterval : Duration;
  c_Log : LogHandler;
  c_UserConfig : option UserConfig;
  c_Setuid : bool;
  c_SetuidUid : Z;
  c_SetuidGid : Z;
}.

(** Field assignments. *)
Definition set_ListenAddr (c : ProxyConfig) (v : list string) : ProxyConfig :=
  mkProxyConfig v (c_Upstream c) (c_UpstreamErr c) (c_Cache c) (c_CacheFlush c) (c_BlockList c)
    (c_BlockPauseUntil c) (c_Acl c) (c_Dns64 c) (c_Dns64Prefix c) (c_Api c) (c_ApiBind c)
    (c_DohBind c) (c_DohCert c) (c_DohKey c) (c_DohPath c) (c_StatsHandler c) (c_Refresh c)
    (c_RefreshInterval c) (c_Log c) (c_UserConfig c) (c_Setuid c) (c_SetuidUid c) (c_SetuidGid
    c).
Definition set_Upstream (c : ProxyConfig) (v : list R) : ProxyConfig :=
  mkProxyConfig (c_ListenAddr c) v (c_UpstreamErr c) (c_Cache c) (c_CacheFlush c) (c_BlockList
    c) (c_BlockPauseUntil c) (c_Acl c) (c_Dns64 c) (c_Dns64Prefix c) (c_Api c) (c_ApiBind c)
    (c_DohBind c) (c_DohCert c) (c_DohKey c) (c_DohPath c) (c_StatsHandler c) (c_Refresh c)
    (c_RefreshInterval c) (c_Log c) (c_UserConfig c) (c_Setuid c) (c_SetuidUid c) (c_SetuidGid
    c).
Definition set_UpstreamErr (c : ProxyConfig) (v : Z) : ProxyConfig :=
  mkProxyConfig (c_ListenAddr c) (c_Upstream c) v (c_Cache c) (c_CacheFlush c) (c_BlockList c)
    (c_BlockPauseUntil c) (c_Acl c) (c_Dns64 c) (c_Dns64Prefix c) (c_Api c) (c_ApiBind c)
    (c_DohBind c) (c_DohCert c) (c_DohKey c) (c_DohPath c) (c_StatsHandler c) (c_Refresh c)
    (c_RefreshInterval c) (c_Log c) (c_UserConfig c) (c_Setuid c) (c_SetuidUid c) (c_SetuidGid
    c).
Definition set_Cache (c : ProxyConfig) (v : DNSCache) : ProxyConfig :=
  mkProxyConfig (c_ListenAddr c) (c_Upstream c) (c_UpstreamErr c) v (c_CacheFlush c)
    (c_BlockList c) (c_BlockPauseUntil c) (c_Acl c) (c_Dns64 c) (c_Dns64Prefix c) (c_Api c)
    (c_ApiBind c) (c_DohBind c) (c_DohCert c) (c_DohKey c) (c_DohPath c) (c_StatsHandler c)
    (c_Refresh c) (c_RefreshInterval c) (c_Log c) (c_UserConfig c) (c_Setuid c) (c_SetuidUid c)
    (c_SetuidGid c).
Definition set_CacheFlush (c : ProxyConfig) (v : Duration) : ProxyConfig :=
  mkProxyConfig (c_ListenAddr c) (c_Upstream c) (c_UpstreamErr c) (c_Cache c) v (c_BlockList c)
    (c_BlockPauseUntil c) (c_Acl c) (c_Dns64 c) (c_Dns64Prefix c) (c_Api c) (c_ApiBind c)
    (c_DohBind c) (c_DohCert c) (c_DohKey c) (c_DohPath c) (c_StatsHandler c) (c_Refresh c)
    (c_RefreshInterval c) (c_Log c) (c_UserConfig c) (c_Setuid c) (c_SetuidUid c) (c_SetuidGid
    c).
Definition set_BlockList (c : ProxyConfig) (v : BlockList.BlockList) : ProxyConfig :=
  mkProxyConfig (c_ListenAddr c) (c_Upstream c) (c_UpstreamErr c) (c_Cache c) (c_CacheFlush c) v
    (c_BlockPauseUntil c) (c_Acl c) (c_Dns64 c) (c_Dns64Prefix c) (c_Api c) (c_ApiBind c)
    (c_DohBind c) (c_DohCert c) (c_DohKey c) (c_DohPath c) (c_StatsHandler c) (c_Refresh c)
    (c_RefreshInterval c) (c_Log c) (c_UserConfig c) (c_Setuid c) (c_SetuidUid c) (c_SetuidGid
    c).
Definition set_BlockPauseUntil (c : ProxyConfig) (v : Time) : ProxyConfig :=
  mkProxyConfig (c_ListenAddr c) (c_Upstream c) (c_UpstreamErr c) (c_Cache c) (c_CacheFlush c)
    (c_BlockList c) v (c_Acl c) (c_Dns64 c) (c_Dns64Prefix c) (c_Api c) (c_ApiBind c) (c_DohBind
    c) (c_DohCert c) (c_DohKey c) (c_DohPath c) (c_StatsHandler c) (c_Refresh c)
    (c_RefreshInterval c) (c_Log c) (c_UserConfig c) (c_Setuid c) (c_SetuidUid c) (c_SetuidGid
    c).
Definition set_Acl (c : ProxyConfig) (v : list IPNet) : ProxyConfig :=
  mkProxyConfig (c_ListenAddr c) (c_Upstream c) (c_UpstreamErr c) (c_Cache c) (c_CacheFlush c)
    (c_BlockList c) (c_BlockPauseUntil c) v (c_Dns64 c) (c_Dns64Prefix c) (c_Api c) (c_ApiBind
    c) (c_DohBind c) (c_DohCert c) (c_DohKey c) (c_DohPath c) (c_StatsHandler c) (c_Refresh c)
    (c_RefreshInterval c) (c_Log c) (c_UserConfig c) (c_Setuid c) (c_SetuidUid c) (c_SetuidGid
    c).
Definition set_Dns64 (c : ProxyConfig) (v : bool) : ProxyConfig :=
  mkProxyConfig (c_ListenAddr c) (c_Upstream c) (c_UpstreamErr c) (c_Cache c) (c_CacheFlush c)
    (c_BlockList c) (c_BlockPauseUntil c) (c_Acl c) v (c_Dns64Prefix c) (c_Api c) (c_ApiBind c)
    (c_DohBind c) (c_DohCert c) (c_DohKey c) (c_DohPath c) (c_StatsHandler c) (c_Refresh c)
    (c_RefreshInterval c) (c_Log c) (c_UserConfig c) (c_Setuid c) (c_SetuidUid c) (c_SetuidGid
    c).
Definition set_Dns64Prefix (c : ProxyConfig) (v : IPNet) : ProxyConfig :=
  mkProxyConfig (c_ListenAddr c) (c_Upstream c) (c_UpstreamErr c) (c_Cache c) (c_CacheFlush c)
    (c_BlockList c) (c_BlockPauseUntil c) (c_Acl c) (c_Dns64 c) v (c_Api c) (c_ApiBind c)
    (c_DohBind c) (c_DohCert c) (c_DohKey c) (c_DohPath c) (c_StatsHandler c) (c_Refresh c)
    (c_RefreshInterval c) (c_Log c) (c_UserConfig c) (c_Setuid c) (c_SetuidUid c) (c_SetuidGid
    c).
Definition set_Api (c : ProxyConfig) (v : bool) : ProxyConfig :=
  mkProxyConfig (c_ListenAddr c) (c_Upstream c) (c_UpstreamErr c) (c_Cache c) (c_CacheFlush c)
    (c_BlockList c) (c_BlockPauseUntil c) (c_Acl c) (c_Dns64 c) (c_Dns64Prefix c) v (c_ApiBind
    c) (c_DohBind c) (c_DohCert c) (c_DohKey c) (c_DohPath c) (c_StatsHandler c) (c_Refresh c)
    (c_RefreshInterval c) (c_Log c) (c_UserConfig c) (c_Setuid c) (c_SetuidUid c) (c_SetuidGid
    c).
Definition set_ApiBind (c : ProxyConfig) (v : string) : ProxyConfig :=
  mkProxyConfig (c_ListenAddr c) (c_Upstream c) (c_UpstreamErr c) (c_Cache c) (c_CacheFlush c)
    (c_BlockList c) (c_BlockPauseUntil c) (c_Acl c) (c_Dns64 c) (c_Dns64Prefix c) (c_Api c) v
    (c_DohBind c) (c_DohCert c) (c_DohKey c) (c_DohPath c) (c_StatsHandler c) (c_Refresh c)
    (c_RefreshInterval c) (c_Log c) (c_UserConfig c) (c_Setuid c) (c_SetuidUid c) (c_SetuidGid
    c).
Definition set_DohBind (c : ProxyConfig) (v : list string) : ProxyConfig :=
  mkProxyConfig (c_ListenAddr c) (c_Upstream c) (c_UpstreamErr c) (c_Cache c) (c_CacheFlush c)
    (c_BlockList c) (c_BlockPauseUntil c) (c_Acl c) (c_Dns64 c) (c_Dns64Prefix c) (c_Api c)
    (c_ApiBind c) v (c_DohCert c) (c_DohKey c) (c_DohPath c) (c_StatsHandler c) (c_Refresh c)
    (c_RefreshInterval c) (c_Log c) (c_UserConfig c) (c_Setuid c) (c_SetuidUid c) (c_SetuidGid
    c).
Definition set_DohCert (c : ProxyConfig) (v : string) : ProxyConfig :=
  mkProxyConfig (c_ListenAddr c) (c_Upstream c) (c_UpstreamErr c) (c_Cache c) (c_CacheFlush c)
    (c_BlockList c) (c_BlockPauseUntil c) (c_Acl c) (c_Dns64 c) (c_Dns64Prefix c) (c_Api c)
    (c_ApiBind c) (c_DohBind c) v (c_DohKey c) (c_DohPath c) (c_StatsHandler c) (c_Refresh c)
    (c_RefreshInterval c) (c_Log c) (c_UserConfig c) (c_Setuid c) (c_SetuidUid c) (c_SetuidGid
    c).
Definition set_DohKey (c : ProxyConfig) (v : string) : ProxyConfig :=
  mkProxyConfig (c_ListenAddr c) (c_Upstream c) (c_UpstreamErr c) (c_Cache c) (c_CacheFlush c)
    (c_BlockList c) (c_BlockPauseUntil c) (c_Acl c) (c_Dns64 c) (c_Dns64Prefix c) (c_Api c)
    (c_ApiBind c) (c_DohBind c) (c_DohCert c) v (c_DohPath c) (c_StatsHandler c) (c_Refresh c)
    (c_RefreshInterval c) (c_Log c) (c_UserConfig c) (c_Setuid c) (c_SetuidUid c) (c_SetuidGid
    c).
Definition set_DohPath (c : ProxyConfig) (v : string) : ProxyConfig :=
  mkProxyConfig (c_ListenAddr c) (c_Upstream c) (c_UpstreamErr c) (c_Cache c) (c_CacheFlush c)
    (c_BlockList c) (c_BlockPauseUntil c) (c_Acl c) (c_Dns64 c) (c_Dns64Prefix c) (c_Api c)
    (c_ApiBind c) (c_DohBind c) (c_DohCert c) (c_DohKey c) v (c_StatsHandler c) (c_Refresh c)
    (c_RefreshInterval c) (c_Log c) (c_UserConfig c) (c_Setuid c) (c_SetuidUid c) (c_SetuidGid
    c).
Definition set_StatsHandler (c : ProxyConfig) (v : StatsHandler Chan) : ProxyConfig :=
  mkProxyConfig (c_ListenAddr c) (c_Upstream c) (c_UpstreamErr c) (c_Cache c) (c_CacheFlush c)
    (c_BlockList c) (c_BlockPauseUntil c) (c_Acl c) (c_Dns64 c) (c_Dns64Prefix c) (c_Api c)
    (c_ApiBind c) (c_DohBind c) (c_DohCert c) (c_DohKey c) (c_DohPath c) v (c_Refresh c)
    (c_RefreshInterval c) (c_Log c) (c_UserConfig c) (c_Setuid c) (c_SetuidUid c) (c_SetuidGid
    c).
Definition set_Refresh (c : ProxyConfig) (v : bool) : ProxyConfig :=
  mkProxyConfig (c_ListenAddr c) (c_Upstream c) (c_UpstreamErr c) (c_Cache c) (c_CacheFlush c)
    (c_BlockList c) (c_BlockPauseUntil c) (c_Acl c) (c_Dns64 c) (c_Dns64Prefix c) (c_Api c)
    (c_ApiBind c) (c_DohBind c) (c_DohCert c) (c_DohKey c) (c_DohPath c) (c_StatsHandler c) v
    (c_RefreshInterval c) (c_Log c) (c_UserConfig c) (c_Setuid c) (c_SetuidUid c) (c_SetuidGid
    c).
Definition set_RefreshInterval (c : ProxyConfig) (v : Duration) : ProxyConfig :=
  mkProxyConfig (c_ListenAddr c) (c_Upstream c) (c_UpstreamErr c) (c_Cache c) (c_CacheFlush c)
    (c_BlockList c) (c_BlockPauseUntil c) (c_Acl c) (c_Dns64 c) (c_Dns64Prefix c) (c_Api c)
    (c_ApiBind c) (c_DohBind c) (c_DohCert c) (c_DohKey c) (c_DohPath c) (c_StatsHandler c)
    (c_Refresh c) v (c_Log c) (c_UserConfig c) (c_Setuid c) (c_SetuidUid c) (c_SetuidGid c).
Definition set_Log (c : ProxyConfig) (v : LogHandler) : ProxyConfig :=
  mkProxyConfig (c_ListenAddr c) (c_Upstream c) (c_UpstreamErr c) (c_Cache c) (c_CacheFlush c)
    (c_BlockList c) (c_BlockPauseUntil c) (c_Acl c) (c_Dns64 c) (c_Dns64Prefix c) (c_Api c)
    (c_ApiBind c) (c_DohBind c) (c_DohCert c) (c_DohKey c) (c_DohPath c) (c_StatsHandler c)
    (c_Refresh c) (c_RefreshInterval c) v (c_UserConfig c) (c_Setuid c) (c_SetuidUid c)
    (c_SetuidGid c).
Definition set_UserConfig (c : ProxyConfig) (v : option UserConfig) : ProxyConfig :=
  mkProxyConfig (c_ListenAddr c) (c_Upstream c) (c_UpstreamErr c) (c_Cache c) (c_CacheFlush c)
    (c_BlockList c) (c_BlockPauseUntil c) (c_Acl c) (c_Dns64 c) (c_Dns64Prefix c) (c_Api c)
    (c_ApiBind c) (c_DohBind c) (c_DohCert c) (c_DohKey c) (c_DohPath c) (c_StatsHandler c)
    (c_Refresh c) (c_RefreshInterval c) (c_Log c) v (c_Setuid c) (c_SetuidUid c) (c_SetuidGid
    c).
Definition set_Setuid (c : ProxyConfig) (v : bool) : ProxyConfig :=
  mkProxyConfig (c_ListenAddr c) (c_Upstream c) (c_UpstreamErr c) (c_Cache c) (c_CacheFlush c)
    (c_BlockList c) (c_BlockPauseUntil c) (c_Acl c) (c_Dns64 c) (c_Dns64Prefix c) (c_Api c)
    (c_ApiBind c) (c_DohBind c) (c_DohCert c) (c_DohKey c) (c_DohPath c) (c_StatsHandler c)
    (c_Refresh c) (c_RefreshInterval c) (c_Log c) (c_UserConfig c) v (c_SetuidUid c)
    (c_SetuidGid c).
Definition set_SetuidUid (c : ProxyConfig) (v : Z) : ProxyConfig :=
  mkProxyConfig (c_ListenAddr c) (c_Upstream c) (c_UpstreamErr c) (c_Cache c) (c_CacheFlush c)
    (c_BlockList c) (c_BlockPauseUntil c) (c_Acl c) (c_Dns64 c) (c_Dns64Prefix c) (c_Api c)
    (c_ApiBind c) (c_DohBind c) (c_DohCert c) (c_DohKey c) (c_DohPath c) (c_StatsHandler c)
    (c_Refresh c) (c_RefreshInterval c) (c_Log c) (c_UserConfig c) (c_Setuid c) v (c_SetuidGid
    c).
Definition set_SetuidGid (c : ProxyConfig) (v : Z) : ProxyConfig :=
  mkProxyConfig (c_ListenAddr c) (c_Upstream c) (c_UpstreamErr c) (c_Cache c) (c_CacheFlush c)
    (c_BlockList c) (c_BlockPauseUntil c) (c_Acl c) (c_Dns64 c) (c_Dns64Prefix c) (c_Api c)
    (c_ApiBind c) (c_DohBind c) (c_DohCert c) (c_DohKey c) (c_DohPath c) (c_StatsHandler c)
    (c_Refresh c) (c_RefreshInterval c) (c_Log c) (c_UserConfig c) (c_Setuid c) (c_SetuidUid c)
    v.

(** [stats] is the handler made by [statshandler.New(1000)]. *)
Definition NewProxyConfig : res ProxyConfig :=
  stats ← Stats.New 1000;
  Ok (mkProxyConfig [] [] 0 Cache.New (30 * Second) BlockList.New zero_time [] false
        (mkIPNet (ParseIP "64:ff9b::") (CIDRMask 96 128)) false "127.0.0.1:8553" [] "" ""
        "/dns-query" stats false (86400 * Second) (NewStderr false) None false 0 0).
End config.
Arguments ProxyConfig : clear implicits.
