(* ===== verification/Util.v ===== *)
(** * Helpers (util/urlreader.go, util/parseaddr.go, util/user_unix.go, util/multiflag.go)

    Files, HTTP, network interfaces and the user database are the operations of
    the class [Os].  A reader is its remaining bytes and the error, if any, that
    ends them. *)

From S2P Require Import Prelude GoStrings GoNet.
Set Default Goal Selector "!".
Local Open Scope string_scope.

Record Reader := mkReader { content : string; read_err : option string }.

Class Os := {
  (** [url.Parse]: an error, or the scheme and the path *)
  url_Parse : string → string + (string * string);
  os_Open : string → string + Reader;
  (** [http.Get] and the response body *)
  http_Get : string → string + Reader;
  (** [net.InterfaceByName] and [netif.Addrs()]: the addresses in CIDR form *)
  InterfaceByName : string → option (string + list string);
  (** [user.Lookup], [user.LookupId]: the numeric ids as text *)
  user_Lookup : string → option (string * string);
  user_LookupId : string → option (string * string);
  user_LookupGroup : string → option string;
  user_LookupGroupId : string → option string;
  Getuid : Z;
  (** [os.Args[0]], and [syslog.New]: an error or a connection *)
  Args0 : string;
  syslog_New : Z → string → option string;
}.

(** ** Lines

    [bufio.Scanner] with its default buffer: a line ends at a newline, loses one
    trailing carriage return, and may be 65535 bytes long; the rest after the
    last newline is a line unless it is empty. *)
Definition maxLine : nat := N.to_nat 65535.

Definition dropCR (s : string) : string := TrimSuffix1 s "013".

(** The raw pieces between newlines, without the empty one at the end. *)
Fixpoint drop_last_empty (l : list string) : list string :=
  match l with
  | [] => []
  | [s] => if bool_decide (s = "") then [] else [s]
  | s :: l => s :: drop_last_empty l
  end.

(** The lines delivered and the scanner's error. *)
Fixpoint scan (pieces : list string) (err : option string) : list string * option string :=
  match pieces with
  | [] => ([], err)
  | p :: pieces =>
      if Nat.ltb maxLine (String.length p) then ([], Some "bufio.Scanner: token too long")
      else let '(ls, e) := scan pieces err in (dropCR p :: ls, e)
  end.

Definition Scanner (r : Reader) : list string * option string :=
  scan (drop_last_empty (Split (content r) "010")) (read_err r).

Section reader.
Context {A : Type}.

(** The loop of [LineReader] on the state [a] that [f] updates. *)
Fixpoint LineReader_loop (f : A → string → error * A) (lines : list string) (count : Z) (a : A)
    : Z * error * A :=
  match lines with
  | [] => (count, None, a)
  | l :: lines =>
      let '(err, a) := f a l in
      match err with
      | Some e => (count, Some ("Error calling line function: " +:+ e), a)
      | None => LineReader_loop f lines (count + 1) a
      end
  end.

Definition LineReader (r : Reader) (f : A → string → error * A) (a : A) : Z * error * A :=
  let '(lines, serr) := Scanner r in
  let '(count, err, a) := LineReader_loop f lines 0 a in
  match err with
  | Some _ => (count, err, a)
  | None => (count, match serr with
                    | Some e => Some ("Scanner Error: " +:+ e) | None => None end, a)
  end.
End reader.

Section os.
Context {O : Os}.

Definition UrlOpen (arg : string) : string + Reader :=
  match url_Parse arg with
  | inl err => inl ("Couldnt parse URL <" +:+ arg +:+ "> " +:+ err)
  | inr (scheme, path) =>
      if bool_decide (scheme = "") then os_Open arg
      else if bool_decide (scheme = "http") || bool_decide (scheme = "https") then
        match http_Get arg with
        | inl err => inl ("Error fetching URL <" +:+ arg +:+ ">: " +:+ err)
        | inr r => inr r
        end
      else if bool_decide (scheme = "file") then os_Open path
      else inl ("Invalid URL scheme: " +:+ arg +:+ " (http/https/file supported)")
  end.

Definition URLReader {A} (url : string) (f : A → string → error * A) (a : A) : Z * error * A :=
  match UrlOpen url with
  | inl err => (0%Z, Some err, a)
  | inr r => LineReader r f a
  end.

(** ** Listen addresses *)

(** [ip.IsLinkLocalUnicast()] and [net.JoinHostPort]. *)
Definition IsLinkLocalUnicast (ip : IP) : bool :=
  match To4 ip with
  | a :: b :: _ => (a =? 169)%Z && (b =? 254)%Z
  | _ => match ip with
         | a :: b :: _ => bool_decide (length ip = 16) && (a =? 254)%Z && (Z.land b 192 =? 128)%Z
         | _ => false
         end
  end.

Definition JoinHostPort (host port : string) : string :=
  if str_mem ":" host then "[" +:+ host +:+ "]:" +:+ port else host +:+ ":" +:+ port.

(** The addresses of one interface. *)
Fixpoint interface_addrs (netif port : string) (ifaddrs : list string)
    : string + list string :=
  match ifaddrs with
  | [] => inr []
  | v :: ifaddrs =>
      match ParseCIDR v with
      | None => inl ("Error parsing address <" +:+ v +:+ ">: invalid CIDR address: " +:+ v)
      | Some (ip, _) =>
          match interface_addrs netif port ifaddrs with
          | inl e => inl e
          | inr addrs =>
              let host := if IsLinkLocalUnicast ip then IP_String ip +:+ "%" +:+ netif
                          else IP_String ip in
              inr (JoinHostPort host port :: addrs)
          end
      end
  end.

(** [addr[0]] panics on the empty string. *)
Definition ParseAddr (addr : string) (defaultPort : Z)
    : res (string + list string) :=
  match addr with
  | "" => Panic
  | String c _ =>
      let addr := if negb (bool_decide (c = "["%char)) && Nat.ltb 1 (str_Count addr ":")
                  then "[" +:+ addr +:+ "]:" +:+ fmt_d defaultPort else addr in
      let addr := if re_port addr then addr else addr +:+ ":" +:+ fmt_d defaultPort in
      match SplitN2 addr ":" with
      | [name; port] =>
          match InterfaceByName name with
          | None => Ok (inr [addr])
          | Some (inl err) => Ok (inl ("Error getting interface addresses: " +:+ err))
          | Some (inr ifaddrs) => Ok (interface_addrs name port ifaddrs)
          end
      | _ => Panic
      end
  end.

(** ** User and group ids *)

(** [strconv.Atoi]: an optional sign and decimal digits within an [int]. *)
Definition Atoi (s : string) : option Z :=
  let '(neg, d) := match s with
                   | String "-" d => (true, d)
                   | String "+" d => (false, d)
                   | _ => (false, s)
                   end in
  if bool_decide (d = "") || negb (str_forallb isDigitByte d) then None
  else
    let n := if neg : bool then (- dec_go d 0)%Z else dec_go d 0 in
    if ((- 2 ^ 63 <=? n) && (n <? 2 ^ 63))%Z then Some n else None.

Definition GetIdFromString (s : string) : string + (Z * Z) :=
  match (match user_Lookup s with Some u => Some u | None => user_LookupId s end) with
  | None => inl ("Invalid user: " +:+ s)
  | Some (u, g) =>
      match Atoi u with
      | None => inl ("Invalid user: " +:+ s)
      | Some uid =>
          match Atoi g with
          | None => inl ("Invalid group: " +:+ s)
          | Some gid => inr (uid, gid)
          end
      end
  end.

Definition GetGidFromString (s : string) : string + Z :=
  match (match user_LookupGroup s with Some g => Some g | None => user_LookupGroupId s end) with
  | None => inl ("Invalid group: " +:+ s)
  | Some g => match Atoi g with
              | None => inl ("Invalid group: " +:+ s)
              | Some gid => inr gid
              end
  end.

Definition SplitId (s : string) : string + (Z * Z) :=
  match Split s ":" with
  | [u] => GetIdFromString u
  | [u; g] =>
      match GetIdFromString u with
      | inl e => inl e
      | inr (uid, _) => match GetGidFromString g with inl e => inl e | inr gid => inr (uid, gid) end
      end
  | _ => inl ("Invalid uid:gid - " +:+ s)
  end.
End os.

(** ** Repeated flags *)
Definition MultiFlag_String (f : list string) : string := Join f ",".
Definition MultiFlag_Set (f : list string) (value : string) : list string := (f ++ [value])%list.

(** ** Lemmas *)

(** A line function that never fails on the lines: the state is their fold. *)
Lemma LineReader_loop_Ok {A} (f : A → string → error * A) lines n a c a' :
  LineReader_loop f lines n a = (c, None, a') →
  a' = foldl (λ a l, (f a l).2) a lines ∧ c = (n + Z.of_nat (length lines))%Z.
Proof.
  revert n a. induction lines as [|l lines IH]; intros n a; simpl.
  - intros [= <- <-]. split; [done|lia].
  - destruct (f a l) as [[e|] a1] eqn:E; [done|]. intros [-> ->]%IH. simpl. split; [done|lia].
Qed.

Lemma URLReader_Ok `{O : Os} {A} (f : A → string → error * A) url a c a' :
  URLReader url f a = (c, None, a') →
  ∃ r, UrlOpen url = inr r ∧ (Scanner r).2 = None ∧ a' = foldl (λ a l, (f a l).2) a (Scanner r).1.
Proof.
  unfold URLReader, LineReader. destruct (UrlOpen url) as [e|r]; [done|].
  destruct (Scanner r) as [lines serr] eqn:E. destruct (LineReader_loop f lines 0 a) as [[c1 e1] a1] eqn:El.
  destruct e1 as [e1|]; [done|]. destruct serr as [e|]; [done|]. intros [= <- <-].
  exists r. rewrite E. split_and!; [done..|]. by apply LineReader_loop_Ok in El as [-> _].
Qed.

Lemma cut_mem s c : str_mem c s = true → ∃ a b, cut s c = Some (a, b).
Proof.
  induction s as [|a s IH]; [done|]. simpl. case_bool_decide; [eauto|]. simpl.
  intros H1. destruct (IH H1) as (x & y & ->). eauto.
Qed.

Lemma re_port_mem s : re_port s = true → str_mem ":" s = true.
Proof.
  induction s as [|c s IH]; [done|]. simpl. intros [[[H _]%andb_true_iff _]%andb_true_iff|H]%orb_true_iff.
  - apply orb_true_iff. by left.
  - apply orb_true_iff. right. by apply IH.
Qed.

(** Only the empty address panics. *)
Lemma ParseAddr_Ok `{O : Os} v port : v ≠ "" → ∃ r, ParseAddr v port = Ok r.
Proof.
  intros Hv. unfold ParseAddr. destruct v as [|c v]; [done|].
  set (a := if (_ && _)%bool then _ else _). set (b := if re_port a then _ else _).
  assert (Hb : str_mem ":" b = true).
  { unfold b. destruct (re_port a) eqn:E; [by apply re_port_mem|].
    rewrite !str_mem_app. simpl. apply orb_true_r. }
  destruct (cut_mem b ":" Hb) as (x & y & E). unfold SplitN2. rewrite E.
  destruct (InterfaceByName x) as [[e|l]|]; eauto.
Qed.
