(* ===== verification/Proxy.v ===== *)
(** * The query handler (proxy/proxy.go)

    [MakeHandler] answers one query over the shared [ProxyConfig]: access list,
    block list, cache, upstream resolvers with failover and demotion, DNS64, and
    the query log.  Upstream resolvers are used through the interface [Resolver]
    (Resolver.v), with a state of their own.  The code runs in the state and
    panic monad [M]; every clock reading takes the next value of the clock
    sequence [clk].  The handler's output is the list of calls it makes on the
    connection and on the log channels.  Debug logging has no effect on either. *)

From S2P Require Import Prelude GoStrings GoNet GoTime Dns BlockList Cache CircularBuffer Stats.
From S2P Require Import Resolver Config.
Set Default Goal Selector "!".
Local Open Scope string_scope.

(** What a handler does to the outside. *)
Inductive Event (Chan : Type) :=
  | WriteMsg (m : Msg)
  | LogSend (ch : Chan) (item : ConnectionLog)
  | Close.
Arguments WriteMsg {Chan} m.
Arguments LogSend {Chan} ch item.
Arguments Close {Chan}.

(** ** Functions without state *)

(** [regexp.MustCompile("%.+$").ReplaceAllString(s, "")]: cuts at the first "%"
    that a non-empty rest without a newline follows. *)
Fixpoint strip_zone (s : string) : string :=
  match s with
  | "" => ""
  | String c r =>
      if bool_decide (c = "%"%char) && negb (bool_decide (r = "")) && negb (str_mem "010" r)
      then "" else String c (strip_zone r)
  end.

Fixpoint checkAcl_loop (acl : list IPNet) (client : IP) : bool :=
  match acl with
  | [] => false
  | v :: acl => if Contains v client then true else checkAcl_loop acl client
  end.

Definition checkAcl (acl : list IPNet) (client : IP) : bool :=
  if bool_decide (length acl = 0) then true else checkAcl_loop acl client.

(** [make(net.IP, 16)], [copy(dst, prefix)] and the four assignments. *)
Definition dns64_addr (prefix ip4 : IP) : res IP :=
  let a := (take 16 prefix ++ drop (length prefix) (replicate 16 0%Z))%list in
  b0 ← idx ip4 0; a ← set_idx a 12 b0;
  b1 ← idx ip4 1; a ← set_idx a 13 b1;
  b2 ← idx ip4 2; a ← set_idx a 14 b2;
  b3 ← idx ip4 3; set_idx a 15 b3.

(** The loop body over the answer of the A query. *)
Definition dns64_rr (prefix : IPNet) (rr : RR) : res RR :=
  match rr with
  | RR_A h a =>
      let ip4 := To4 a in
      if is_nil ip4 then Ok rr
      else
        ip ← dns64_addr (IPNet_IP prefix) ip4;
        Ok (RR_AAAA (mkHdr (hdr_Name h) TypeAAAA ClassINET (Ttl h)) ip)
  | _ => Ok rr
  end.

(** [m.Question[0].Qtype = t]. *)
Definition set_Qtype0 (m : Msg) (t : Z) : res Msg :=
  match Questions m with
  | [] => Panic
  | q :: qs => Ok (set_Questions m (mkQuestion (q_Name q) t (Qclass q) :: qs))
  end.

Section functions.
Context {L : DnsLib}.

Definition matchDomain (domains : list string) (name : string) : bool :=
  existsb (λ domain, IsSubDomain domain name) domains.

(** The text always holds a record, so [NewRR] does not return [nil] here. *)
Definition dnsErrorResponse (r : Msg) (rcode : Z) (err : string) : Msg :=
  let m := SetRcode new_Msg r rcode in
  match NewRR (". 0 IN TXT " +:+ String "034" (err +:+ String "034" "")) with
  | inr (Some txt) => set_sections m (Answer m) (Ns m) (Extra m ++ [txt])%list
  | _ => m
  end.

(** The rewriting of the DNS64 reply. *)
Definition dns64_reply (prefix : IPNet) (m : Msg) : res Msg :=
  m ← set_Qtype0 m TypeAAAA;
  an ← mapM (dns64_rr prefix) (Answer m);
  Ok (set_sections m an (Ns m) (Extra m)).
End functions.

(** ** The upstream probe *)
Section probe.
Context {L : DnsLib} {Wire : DnsWire} {W Conn NErr : Type} {N : Net W Conn NErr}.

(** [i] is the identifier drawn for the query, [ch] the channel of a new DoT pool. *)
Definition CheckUpstream (i : Z) (ch : positive) (upstream : string) (s : RState (W := W) (Conn := Conn))
    : error * RState (W := W) (Conn := Conn) :=
  let r := if HasPrefix upstream "https://" then RDoh (NewDohResolver upstream)
           else if HasPrefix upstream "tls://" then RDot (NewDotResolver ch upstream)
           else RUdp (NewUdpResolver upstream) in
  let q := SetQuestion i new_Msg "." TypeNS in
  let '(x, s) := Resolve r q s in
  match x with
  | inl err => (Some ("Invalid resolver: " +:+ upstream +:+ " (" +:+ err +:+ ")"), s)
  | inr _ => (None, s)
  end.
End probe.

(** ** The handler *)
Section handler.
Context {U : GoUnicode} {L : DnsLib} {R US Chan : Type} {RI : Resolver R US}.
Context (clk : nat → Time).

(** The shared configuration, the resolvers' state, and the number of clock
    readings made so far. *)
Record St := mkSt { cfg : ProxyConfig R Chan; upst : US; tick : nat }.

Definition M (A : Type) : Type := St → res (A * St).
#[export] Instance M_ret : MRet M := λ A a s, Ok (a, s).
#[export] Instance M_bind : MBind M := λ A B f m s,
  match m s with Ok (a, s) => f a s | Panic => Panic end.

Definition lift {A} (r : res A) : M A := λ s, match r with Ok a => Ok (a, s) | Panic => Panic end.
Definition time_now : M Time := λ s, Ok (clk (tick s), mkSt (cfg s) (upst s) (S (tick s))).
Definition get_cfg : M (ProxyConfig R Chan) := λ s, Ok (cfg s, s).
Definition put_cfg (c : ProxyConfig R Chan) : M unit := λ s, Ok (tt, mkSt c (upst s) (tick s)).

(** [config.Cache.Get(q)] and [config.Cache.Add(m)]. *)
Definition cache_Get (q : Msg) : M (option Msg) :=
  t1 ← time_now; t2 ← time_now; c ← get_cfg;
  '(out, ca) ← lift (Cache.Get t1 t2 (c_Cache c) q);
  _ ← put_cfg (set_Cache c ca);
  mret out.
Definition cache_Add (m : Msg) : M unit :=
  t ← time_now; c ← get_cfg;
  ca ← lift (Cache.Add t (c_Cache c) m);
  put_cfg (set_Cache c ca).

Definition upstream_Resolve (r : R) (q : Msg) : M (string + Msg) := λ s,
  let '(x, u) := Resolve r q (upst s) in Ok (x, mkSt (cfg s) u (tick s)).

(** The critical section after a success of the first upstream. *)
Definition clear_error (c : ProxyConfig R Chan) : ProxyConfig R Chan := set_UpstreamErr c 0.

(** The critical section after an error of the first upstream. *)
Definition count_error (c : ProxyConfig R Chan) : res (ProxyConfig R Chan) :=
  let e := (c_UpstreamErr c +ᵢ 1)%go in
  let c := set_UpstreamErr c e in
  if (e >? 3)%Z then
    match c_Upstream c with
    | [] => Panic
    | r :: rs => Ok (set_UpstreamErr (set_Upstream c (rs ++ [r])%list) 0)
    end
  else Ok c.

(** The loop over the snapshot: [first] holds at index 0. *)
Fixpoint try_upstreams (first : bool) (upstreams : list R) (q : Msg) : M (string + Msg) :=
  match upstreams with
  | [] => mret (inl "Unable to resolve host - all upstream resolvers failed")
  | r :: upstreams =>
      x ← upstream_Resolve r q;
      match x with
      | inr out =>
          _ ← (if first then c ← get_cfg; put_cfg (clear_error c) else mret tt);
          _ ← cache_Add out;
          mret (inr out)
      | inl err =>
          _ ← (if first then c ← get_cfg; c ← lift (count_error c); put_cfg c else mret tt);
          try_upstreams false upstreams q
      end
  end.

(** The reply or the error, and whether it came from the cache. *)
Definition resolve (q : Msg) : M ((string + Msg) * bool) :=
  found ← cache_Get q;
  match found with
  | Some out => mret (inr out, true)
  | None =>
      c ← get_cfg;
      x ← try_upstreams true (c_Upstream c) q;
      mret (x, false)
  end.

(** The log item as it stands at a return of the handler. *)
Definition log_item (start : Time) (client qname qtype : string) (rcode : Z)
    (acl blocked cached err : bool) : ConnectionLog :=
  mkLog start client qname qtype rcode 0 acl blocked cached err.

(** Whether blocking is paused at time [now]. *)
Definition blockingPaused (pauseUntil now : Time) : bool :=
  negb (IsZero pauseUntil) && Before now pauseUntil.

(** From the DNS64 test on: [out] is the reply to the query as asked. *)
Definition handle_reply (start : Time) (client qname qtypeS : string) (q : Msg) (qtype : Z)
    (out : Msg) (cached : bool) : M (ConnectionLog * list (Event Chan)) :=
  c ← get_cfg;
  if c_Dns64 c && (qtype =? TypeAAAA)%Z && bool_decide (length (Answer out) = 0) then
    q4 ← lift (set_Qtype0 (Msg_Copy q) TypeA);
    '(x, cached) ← resolve q4;
    match x with
    | inl _ =>
        mret (log_item start client qname qtypeS 0 true false false true,
              [WriteMsg (dnsErrorResponse q RcodeServerFailure "Upstream error")])
    | inr dns64_out =>
        c ← get_cfg;
        dns64_out ← lift (dns64_reply (c_Dns64Prefix c) dns64_out);
        mret (log_item start client qname qtypeS (Rcode dns64_out) true false cached false,
              [WriteMsg dns64_out])
    end
  else
    mret (log_item start client qname qtypeS (Rcode out) true false cached false, [WriteMsg out]).

(** From the access check on, for a query with one question. *)
Definition handle_query (start : Time) (client : string) (clientIP : IP) (q : Msg) (q0 : Question)
    : M (ConnectionLog * list (Event Chan)) :=
  let qname := CanonicalName (q_Name q0) in
  let qtype := Qtype q0 in
  let qtypeS := TypeToString qtype in
  c ← get_cfg;
  if negb (checkAcl (c_Acl c) clientIP) then
    mret (log_item start client qname qtypeS 0 false false false false, [])
  else
    let bl := c_BlockList c in
    let pauseUntil := c_BlockPauseUntil c in
    now ← time_now;
    if negb (blockingPaused pauseUntil now) && BlockList.Match bl qname qtype then
      mret (log_item start client qname qtypeS 0 true true false false,
            [WriteMsg (dnsErrorResponse q RcodeNameError "Blocked")])
    else
      '(x, cached) ← resolve q;
      match x with
      | inl _ =>
          mret (log_item start client qname qtypeS 0 true false false true,
                [WriteMsg (dnsErrorResponse q RcodeServerFailure "Upstream error")])
      | inr out => handle_reply start client qname qtypeS q qtype out cached
      end.

(** The body up to the deferred calls. *)
Definition handle_body (start : Time) (clientAddr : string) (q : Msg)
    : M (ConnectionLog * list (Event Chan)) :=
  match SplitHostPort clientAddr with
  | None => mret (log_item start clientAddr "" "" 0 false false false false, [])
  | Some (clientHost, _) =>
      let clientIP := ParseIP (strip_zone clientHost) in
      match Questions q with
      | [q0] => handle_query start clientAddr clientIP q q0
      | _ => mret (log_item start clientAddr "" "" 0 false false false false, [])
      end
  end.

(** The deferred log insertion. *)
Definition stats_Add (item : ConnectionLog) : M (list (Event Chan)) :=
  c ← get_cfg;
  '(calls, sh) ← lift (Stats.Add (c_StatsHandler c) item);
  _ ← put_cfg (set_StatsHandler c sh);
  mret ((λ p, LogSend p.1 p.2) <$> calls).

Definition set_QueryTime (i : ConnectionLog) (d : Duration) : ConnectionLog :=
  mkLog (Timestamp i) (Client i) (Qname i) (log_Qtype i) (log_Rcode i) d (log_Acl i) (Blocked i)
    (Cached i) (Error i).

(** The deferred calls run in reverse order: the log, then [w.Close()]. *)
Definition MakeHandler (clientAddr : string) (q : Msg) : M (list (Event Chan)) :=
  startTime ← time_now;
  '(item, writes) ← handle_body startTime clientAddr q;
  t ← time_now;
  sends ← stats_Add (set_QueryTime item (Sub t startTime));
  mret (writes ++ sends ++ [Close])%list.
End handler.
