(* ===== verification/ProxySpec.v ===== *)
(** * Properties of the query handler

    A weakest-precondition calculus for the monad of Proxy.v (total
    correctness: no panic), the reference behaviour of failover and demotion,
    the invariant of the shared state, and the handler's theorems. *)

From S2P Require Import Prelude GoStrings GoNet GoTime Dns Samples BlockList Cache CircularBuffer Stats.
From S2P Require Import Resolver Logger Config Proxy.
Set Default Goal Selector "!".
Local Open Scope string_scope.

(** ** Rotations *)
Definition rot1 {A} (l : list A) : list A :=
  match l with [] => [] | x :: l => (l ++ [x])%list end.

Lemma rot1_Permutation {A} (l : list A) : rot1 l ≡ₚ l.
Proof. destruct l as [|x l]; [done|]. simpl. by rewrite Permutation_app_comm. Qed.

Lemma iter_rot1_Permutation {A} n (l : list A) : Nat.iter n rot1 l ≡ₚ l.
Proof. induction n as [|n IH]; [done|]. simpl. by rewrite rot1_Permutation. Qed.

(** ** The shared error counter and the order of the upstreams

    [count_error] and [clear_error] are the two critical sections. *)
Section demotion.
Context {R Chan : Type}.
Implicit Types c : ProxyConfig R Chan.

(** The counter is below the threshold and there is an upstream to demote. *)
Definition counter_ok c : Prop := (0 ≤ c_UpstreamErr c ≤ 3)%Z ∧ c_Upstream c ≠ [].

(** One failure more, as a function. *)
Definition failed c : ProxyConfig R Chan :=
  if (c_UpstreamErr c =? 3)%Z
  then set_UpstreamErr (set_Upstream c (rot1 (c_Upstream c))) 0
  else set_UpstreamErr c (c_UpstreamErr c + 1).

Lemma count_error_failed c : counter_ok c → count_error c = Ok (failed c).
Proof.
  intros [He Hu]. unfold count_error, failed. rewrite int64_id by (unfold is_int; lia).
  rewrite Z.gtb_ltb. destruct (Z.ltb_spec 3 (c_UpstreamErr c + 1)), (Z.eqb_spec (c_UpstreamErr c) 3);
    try lia; [|done].
  simpl. destruct (c_Upstream c); done.
Qed.

Lemma counter_ok_failed c : counter_ok c → counter_ok (failed c).
Proof.
  intros [He Hu]. unfold failed, counter_ok. destruct (Z.eqb_spec (c_UpstreamErr c) 3); simpl; (split; [lia|]); [|done].
  destruct (c_Upstream c) as [|x [|y l]]; done.
Qed.

Lemma counter_ok_clear c : counter_ok c → counter_ok (clear_error c).
Proof. intros [He Hu]. split; [simpl; lia|done]. Qed.

(** [n] failures in a row. *)
Lemma failed_iter c n :
  counter_ok c →
  c_UpstreamErr (Nat.iter n failed c) = ((c_UpstreamErr c + Z.of_nat n) mod 4)%Z
  ∧ c_Upstream (Nat.iter n failed c)
    = Nat.iter (Z.to_nat ((c_UpstreamErr c + Z.of_nat n) / 4)) rot1 (c_Upstream c).
Proof.
  intros [He Hu]. induction n as [|n [IHe IHu]].
  { simpl. rewrite Z.add_0_r, Z.mod_small, Z.div_small by lia. done. }
  change (Nat.iter (S n) failed c) with (failed (Nat.iter n failed c)). revert IHe IHu. generalize (Nat.iter n failed c). intros c' IHe IHu.
  unfold failed. rewrite IHe.
  set (m := (c_UpstreamErr c + Z.of_nat n)%Z) in *.
  replace (c_UpstreamErr c + Z.of_nat (S n))%Z with (m + 1)%Z by lia.
  pose proof (Z.div_mod m 4 ltac:(lia)) as Hd. pose proof (Z.mod_pos_bound m 4 ltac:(lia)) as Hb.
  destruct (Z.eqb_spec (m mod 4) 3) as [E|E]; simpl.
  - rewrite <-(Z.mod_unique_pos (m + 1) 4 (m / 4 + 1) 0), <-(Z.div_unique_pos (m + 1) 4 (m / 4 + 1) 0) by lia.
    split; [done|]. rewrite IHu. replace (Z.to_nat (m / 4 + 1)) with (S (Z.to_nat (m / 4))) by lia. done.
  - rewrite <-(Z.mod_unique_pos (m + 1) 4 (m / 4) (m mod 4 + 1)),
      <-(Z.div_unique_pos (m + 1) 4 (m / 4) (m mod 4 + 1)) by lia. done.
Qed.
End demotion.

(** ** Weakest preconditions *)
Section wp.
Context {R US Chan : Type}.
Notation St := (St (R := R) (US := US) (Chan := Chan)).
Notation M := (M (R := R) (US := US) (Chan := Chan)).

(** [m] run from [s] returns a value and a state that satisfy [Q], or panics and
    [P] holds. *)
Definition wp {A} (m : M A) (s : St) (Q : A → St → Prop) (P : Prop) : Prop :=
  match m s with Ok (a, s') => Q a s' | Panic => P end.

Lemma wp_bind {A B} (m : M A) (f : A → M B) s Q P :
  wp m s (λ a s', wp (f a) s' Q P) P → wp (m ≫= f) s Q P.
Proof. unfold wp, mbind, M_bind. by destruct (m s) as [[a s']|]. Qed.

Lemma wp_ret {A} (a : A) s (Q : A → St → Prop) P : Q a s → wp (mret a : M A) s Q P.
Proof. done. Qed.

Lemma wp_lift {A} (r : res A) s (Q : A → St → Prop) (P : Prop) :
  match r with Ok a => Q a s | Panic => P end → wp (lift r) s Q P.
Proof. unfold wp, lift. by destruct r. Qed.

Lemma wp_mono {A} (m : M A) s (Q Q' : A → St → Prop) (P P' : Prop) :
  wp m s Q P → (∀ a s', Q a s' → Q' a s') → (P → P') → wp m s Q' P'.
Proof. unfold wp. destruct (m s) as [[a s']|]; eauto. Qed.

Lemma wp_get_cfg s (Q : ProxyConfig R Chan → St → Prop) P : Q (cfg s) s → wp get_cfg s Q P.
Proof. done. Qed.
Lemma wp_put_cfg c s (Q : unit → St → Prop) P : Q tt (mkSt c (upst s) (tick s)) → wp (put_cfg c) s Q P.
Proof. done. Qed.
Lemma wp_time_now clk s (Q : Time → St → Prop) P :
  Q (clk (tick s)) (mkSt (cfg s) (upst s) (S (tick s))) → wp (time_now clk) s Q P.
Proof. done. Qed.
End wp.

(** Step over the next primitive. *)
Ltac wp_step :=
  lazymatch goal with
  | |- wp (mbind _ _) _ _ _ => apply wp_bind
  | |- wp (mret _) _ _ _ => apply wp_ret
  | |- wp (lift _) _ _ _ => apply wp_lift
  | |- wp get_cfg _ _ _ => apply wp_get_cfg; simpl
  | |- wp (put_cfg _) _ _ _ => apply wp_put_cfg; simpl
  | |- wp (time_now _) _ _ _ => apply wp_time_now; simpl
  end.
Ltac wp_steps := repeat wp_step.

(** ** What the proxy assumes of its resolvers

    TTLs are uint32 values, as the type of the field has it.  Nothing else is
    assumed of a reply: it may have another identifier than the query, and it may
    have no question. *)
Class ReplyTypes {R US : Type} (RI : Resolver R US) : Prop := {
  reply_ok r q u m u' : Resolve r q u = (inr m, u') → msg_ok m;
}.

(** The three resolvers of the program, when the messages that the DNS library
    reads from the network have TTLs of that type. *)
Section any_resolver.
Context {Wire : DnsWire} {W Conn Err : Type} {N : Net W Conn Err}.
Context (Hunpack : ∀ b m, Unpack b = inr m → msg_ok m).
Context (Hudp : ∀ q a w m w', Exchange q a w = (inr m, w') → msg_ok m).
Context (Htls : ∀ q c w m w', ExchangeWithConn q c w = (inr m, w') → msg_ok m).

Lemma Dot_attempts_ok n r q last s m s' : Dot_attempts n r q last s = (inr m, s') → msg_ok m.
Proof.
  revert last s. induction n as [|n IH]; intros last s; simpl; [done|].
  destruct (getConn r s) as [[e|c] s1]; [done|].
  destruct (ExchangeWithConn q c (net s1)) as [[e|out] w] eqn:E.
  - destruct (isTransientConnErr e); [apply IH|done].
  - intros [= <- _]. by eapply Htls.
Qed.

Lemma Any_ReplyTypes : ReplyTypes Any_Resolver.
Proof.
  split. intros [r|r|r] q s m s'; simpl.
  - unfold Udp_Resolve. destruct (Exchange q _ (net s)) as [[e|out] w] eqn:E; [done|]. intros [= <- _]. by eapply Hudp.
  - apply Dot_attempts_ok.
  - unfold Doh_Resolve. destruct (Pack q) as [e|pack]; [done|]. destruct (NewRequest _ _ pack) as [e|request]; [done|].
    destruct (client_Do _ (net s)) as [[e|resp] w]; [done|]. destruct (negb _); [done|].
    destruct (resp_Body resp) as [e|body]; [done|]. destruct (Unpack body) as [e|out] eqn:E; [done|].
    intros [= <- _]. by eapply Hunpack.
Qed.
End any_resolver.

(** ** Failover *)
Section failover.
Context {L : DnsLib} {R US Chan : Type} {RI : Resolver R US}.
Context (clk : nat → Time).
Notation St := (St (R := R) (US := US) (Chan := Chan)).

Definition all_failed : string := "Unable to resolve host - all upstream resolvers failed".

(** The first reply of the resolvers asked in order. *)
Fixpoint first_success (rs : list R) (q : Msg) (u : US) : (string + Msg) * US :=
  match rs with
  | [] => (inl all_failed, u)
  | r :: rs =>
      let '(x, u) := Resolve r q u in
      match x with inr m => (inr m, u) | inl _ => first_success rs q u end
  end.

(** The critical section that follows the answer of the first upstream. *)
Definition after_first (rs : list R) (q : Msg) (u : US) (c : ProxyConfig R Chan) : ProxyConfig R Chan :=
  match rs with
  | [] => c
  | r :: _ => match (Resolve r q u).1 with inr _ => clear_error c | inl _ => failed c end
  end.

(** A reply that the cache would store but cannot file: it has no question. *)
Definition unkeyed (m : Msg) : bool := storable m && bool_decide (Questions m = []).

(** The cache after a reply is offered to it at time [t]. *)
Definition cached_after (t : Time) (x : string + Msg) (ca : DNSCache) : DNSCache :=
  match x with
  | inl _ => ca
  | inr m => match Cache.Add t ca m with Ok ca => ca | Panic => ca end
  end.

(** The state after a reply was offered to the cache of [c]; the clock is read
    for a reply only. *)
Definition offer (t : nat) (x : string + Msg) (c : ProxyConfig R Chan) (u : US) : res ((string + Msg) * St) :=
  match x with
  | inl _ => Ok (x, mkSt c u t)
  | inr m => if unkeyed m then Panic
             else Ok (x, mkSt (set_Cache c (cached_after (clk t) x (c_Cache c))) u (S t))
  end.

Lemma Add_unkeyed t ca m :
  Cache.Add t ca m = if unkeyed m then Panic else Ok (cached_after t (inr m) ca).
Proof.
  unfold unkeyed. simpl. rewrite Add_cases. destruct (storable m); [|done].
  destruct (Questions m); [by rewrite bool_decide_eq_true_2|by rewrite bool_decide_eq_false_2].
Qed.

Lemma set_Cache_same (c : ProxyConfig R Chan) : set_Cache c (c_Cache c) = c.
Proof. by destruct c. Qed.

Lemma cache_Add_offer m (s : St) :
  cache_Add clk m s = match offer (tick s) (inr m) (cfg s) (upst s) with Ok (_, s') => Ok (tt, s') | Panic => Panic end.
Proof.
  unfold cache_Add, mbind, M_bind, time_now, get_cfg, put_cfg, lift, offer. simpl. rewrite Add_unkeyed.
  by destruct (unkeyed m).
Qed.

(** The upstreams after the first: only the cache may change. *)
Lemma try_rest_eq rs q (s : St) :
  try_upstreams clk false rs q s
  = let '(x, u) := first_success rs q (upst s) in offer (tick s) x (cfg s) u.
Proof.
  revert s. induction rs as [|r rs IH]; intros s; simpl; [by destruct s|].
  unfold upstream_Resolve, mbind, M_bind. destruct (Resolve r q (upst s)) as [[e|m] u]; simpl.
  - apply (IH (mkSt (cfg s) u (tick s))).
  - rewrite cache_Add_offer. simpl. by destruct (unkeyed m).
Qed.

Lemma try_upstreams_eq rs q (s : St) :
  (rs ≠ [] → counter_ok (cfg s)) →
  try_upstreams clk true rs q s
  = let '(x, u) := first_success rs q (upst s) in offer (tick s) x (after_first rs q (upst s) (cfg s)) u.
Proof.
  intros Hok. destruct rs as [|r rs]; simpl; [by destruct s|]. specialize (Hok ltac:(done)).
  unfold upstream_Resolve, mbind, M_bind. destruct (Resolve r q (upst s)) as [[e|m] u]; simpl.
  - unfold lift. rewrite (count_error_failed _ Hok). simpl. rewrite try_rest_eq. done.
  - rewrite cache_Add_offer. simpl. by destruct (unkeyed m).
Qed.

Lemma Get_Ok t1 t2 ca q : Questions q ≠ [] → ∃ r, Cache.Get t1 t2 ca q = Ok r.
Proof. intros Hq. unfold Cache.Get. repeat case_match; eauto. done. Qed.

(** What [resolve] does: the cache, else the upstreams in order. *)
Definition resolve_ref (q : Msg) (s : St) : res (((string + Msg) * bool) * St) :=
  let t := S (S (tick s)) in
  match Cache.Get (clk (tick s)) (clk (S (tick s))) (c_Cache (cfg s)) q with
  | Panic => Panic
  | Ok (Some m, ca) => Ok ((inr m, true), mkSt (set_Cache (cfg s) ca) (upst s) t)
  | Ok (None, ca) =>
      let '(x, u) := first_success (c_Upstream (cfg s)) q (upst s) in
      match offer t x (set_Cache (after_first (c_Upstream (cfg s)) q (upst s) (cfg s)) ca) u with
      | Ok (x, s') => Ok ((x, false), s')
      | Panic => Panic
      end
  end.

Lemma after_first_set_Cache rs q u (c : ProxyConfig R Chan) ca :
  after_first rs q u (set_Cache c ca) = set_Cache (after_first rs q u c) ca.
Proof.
  destruct rs as [|r rs]; [done|]. unfold after_first, failed. simpl.
  destruct (Resolve r q u).1; [|done]. by case_match.
Qed.

Lemma resolve_eq q (s : St) :
  (c_Upstream (cfg s) ≠ [] → counter_ok (cfg s)) → resolve clk q s = resolve_ref q s.
Proof.
  intros Hok. unfold resolve, resolve_ref, cache_Get, mbind, M_bind, time_now, get_cfg, put_cfg, lift. simpl.
  destruct (Cache.Get _ _ _ q) as [[[m|] ca]|]; simpl; [done| |done].
  rewrite try_upstreams_eq by done. simpl. rewrite after_first_set_Cache.
  destruct (first_success _ q (upst s)) as [x u]. destruct (offer _ x _ u) as [[y s']|]; done.
Qed.

Lemma first_success_from rs q u m u' :
  first_success rs q u = (inr m, u') → ∃ r u1 u2, r ∈ rs ∧ Resolve r q u1 = (inr m, u2).
Proof.
  revert u. induction rs as [|r rs IH]; intros u; simpl; [done|].
  destruct (Resolve r q u) as [[e|m'] u1] eqn:E.
  - intros (r' & ? & ? & Hin & ?)%IH. exists r'. do 2 eexists. split; [by right|done].
  - intros [= -> ->]. exists r. do 2 eexists. split; [by left|done].
Qed.

(** The reply that [resolve] gets from an upstream, if it has to ask. *)
Definition upstream_reply (q : Msg) (s : St) : option Msg :=
  match Cache.Get (clk (tick s)) (clk (S (tick s))) (c_Cache (cfg s)) q with
  | Ok (None, _) => match (first_success (c_Upstream (cfg s)) q (upst s)).1 with inr m => Some m | inl _ => None end
  | _ => None
  end.

Context {HL : DnsLaws L} {RT : ReplyTypes RI}.

Lemma Get_hit_msg t1 t2 ca q m ca' :
  cache_ok ca → Cache.Get t1 t2 ca q = Ok (Some m, ca') →
  Id m = Id q ∧ Questions m ≠ [] ∧ ca' = ca.
Proof.
  intros Hok. unfold Cache.Get. destruct (Questions q) as [|q0 qs]; [done|].
  destruct (ca !! msg_key q0) as [it|] eqn:Hk; [|done]. destruct (expired t1 it); [done|].
  destruct (item_key _ _ (Hok _ _ Hk)) as (q1 & qs1 & Hq1 & _).
  destruct (Permanent it); intros [= <- <-]; simpl; rewrite Copy_value, Hq1; done.
Qed.

(** ** The invariant of the shared state *)

(** The cache invariant, the error count below its threshold, and the upstreams
    a rotation of the configured ones. *)
Record shared_ok (ups : list R) (c : ProxyConfig R Chan) : Prop := {
  so_cache : cache_ok (c_Cache c);
  so_err : (0 ≤ c_UpstreamErr c ≤ 3)%Z;
  so_ups : ∃ k, c_Upstream c = Nat.iter k rot1 ups;
}.

(** [c'] differs from [c] at most in the cache and the upstream fields. *)
Definition same_settings (c c' : ProxyConfig R Chan) : Prop :=
  c' = set_Cache (set_UpstreamErr (set_Upstream c (c_Upstream c')) (c_UpstreamErr c')) (c_Cache c').

Lemma same_settings_refl c : same_settings c c.
Proof. by destruct c. Qed.
Lemma same_settings_trans c1 c2 c3 : same_settings c1 c2 → same_settings c2 c3 → same_settings c1 c3.
Proof. unfold same_settings. intros E1 E2. rewrite E2, E1. done. Qed.
Lemma same_settings_Cache c ca : same_settings c (set_Cache c ca).
Proof. by destruct c. Qed.

Lemma shared_ok_set_Cache ups c ca : shared_ok ups c → cache_ok ca → shared_ok ups (set_Cache c ca).
Proof. by intros [_ ? ?] ?; split. Qed.

Lemma after_first_ok ups rs q u c :
  shared_ok ups c → shared_ok ups (after_first rs q u c) ∧ same_settings c (after_first rs q u c).
Proof.
  intros [Hc He [k Hk]]. destruct rs as [|r rs]; simpl; [by split; [split; eauto|destruct c]|].
  destruct ((Resolve r q u).1).
  - unfold failed. destruct (Z.eqb_spec (c_UpstreamErr c) 3); (split; [split; simpl|by destruct c]);
      try done; try lia; [|eauto]. exists (S k). simpl. by rewrite Hk.
  - split; [split; simpl; [done|lia|eauto]|by destruct c].
Qed.

Lemma cached_after_ok t m ca : msg_ok m → cache_ok ca → cache_ok (cached_after t (inr m) ca).
Proof. intros Hm Hc. simpl. destruct (Cache.Add t ca m) eqn:E; [|done]. by eapply cache_ok_Add. Qed.

(** Where a reply of [resolve] comes from. *)
Definition answered_by (ups : list R) (q : Msg) (hit : bool) (m : Msg) : Prop :=
  if hit then Id m = Id q ∧ Questions m ≠ []
  else ∃ r u u', r ∈ ups ∧ Resolve r q u = (inr m, u').

Lemma rotated_elem (ups : list R) c r : shared_ok ups c → r ∈ c_Upstream c → r ∈ ups.
Proof. intros [_ _ [k ->]]. by rewrite iter_rot1_Permutation. Qed.

(** [resolve] keeps the invariant, and panics exactly for a reply without a
    question that the cache would store. *)
Lemma wp_resolve ups q s :
  shared_ok ups (cfg s) → Questions q ≠ [] →
  wp (resolve clk q) s (λ p s',
    shared_ok ups (cfg s') ∧ same_settings (cfg s) (cfg s')
    ∧ upstream_reply q s = (if p.2 then None else match p.1 with inr m => Some m | inl _ => None end)
    ∧ ∀ m, p.1 = inr m → answered_by ups q p.2 m ∧ (p.2 = false → unkeyed m = false))
    (∃ m, upstream_reply q s = Some m ∧ unkeyed m = true).
Proof.
  intros Hs Hq. unfold wp, upstream_reply. rewrite resolve_eq by (intros ?; split; [apply Hs|done]). unfold resolve_ref.
  destruct (Get_Ok (clk (tick s)) (clk (S (tick s))) (c_Cache (cfg s)) q Hq) as [[out ca] E]. rewrite E.
  pose proof (so_cache _ _ Hs) as Hc.
  assert (Hca : cache_ok ca).
  { eapply cache_ok_subseteq, Hc. exact (Get_subseteq _ _ _ _ _ E). }
  destruct out as [m|].
  { split_and!; [by apply shared_ok_set_Cache|apply same_settings_Cache|done|]. intros m' [= <-].
    destruct (Get_hit_msg _ _ _ _ _ _ Hc E) as (? & ? & _). done. }
  destruct (after_first_ok ups (c_Upstream (cfg s)) q (upst s) (cfg s) Hs) as [Ha Hset].
  destruct (first_success (c_Upstream (cfg s)) q (upst s)) as [[e|m] u] eqn:Ef; simpl.
  - split_and!; [by apply shared_ok_set_Cache| |done|done]. eapply same_settings_trans; [done|apply same_settings_Cache].
  - destruct (unkeyed m) eqn:Eu; [by exists m|]. destruct (first_success_from _ _ _ _ _ Ef) as (r & u1 & u2 & Hr & Er).
    split_and!; [| |done|].
    + apply shared_ok_set_Cache; [by apply shared_ok_set_Cache|]. apply cached_after_ok; [by eapply reply_ok|done].
    + eapply same_settings_trans; [done|]. eapply same_settings_trans; apply same_settings_Cache.
    + intros m' [= <-]. split; [|done]. exists r, u1, u2. split; [exact (rotated_elem _ _ _ Hs Hr)|done].
Qed.
End failover.

(** ** DNS64 *)


Lemma dns64_addr_total prefix ip4 : length ip4 = 4 → ∃ ip, dns64_addr prefix ip4 = Ok ip.
Proof.
  intros H4. do 4 (destruct ip4 as [|? ip4]; [done|]). destruct ip4; [|done].
  unfold dns64_addr. set (a := (take 16 prefix ++ _)%list).
  assert (Ha : length a = 16).
  { unfold a. rewrite length_app, length_take, length_drop, length_replicate. lia. }
  clearbody a. do 16 (destruct a as [|? a]; [done|]). destruct a; [|done]. eauto.
Qed.

Lemma length_To4 ip : is_nil (To4 ip) = false → length (To4 ip) = 4.
Proof.
  unfold is_nil, To4. intros H%bool_decide_eq_false. repeat case_bool_decide; simpl in *; try done.
  rewrite length_drop. lia.
Qed.

Lemma dns64_rr_total prefix rr : ∃ rr', dns64_rr prefix rr = Ok rr'.
Proof.
  destruct rr as [h a|h a|h p|h d]; simpl; eauto.
  destruct (is_nil (To4 a)) eqn:E; [eauto|].
  destruct (dns64_addr_total (IPNet_IP prefix) (To4 a)) as [ip ->]; [by apply length_To4|]. eauto.
Qed.

Lemma mapM_res_total {A B} (f : A → res B) l : (∀ x, ∃ y, f x = Ok y) → ∃ k, mapM f l = Ok k.
Proof.
  intros Hf. induction l as [|x l [k IH]]; [by exists []|].
  destruct (Hf x) as [y Hy]. exists (y :: k). simpl. rewrite Hy. simpl. by rewrite IH.
Qed.


Lemma dns64_reply_total prefix m :
  Questions m ≠ [] →
  ∃ m', dns64_reply prefix m = Ok m' ∧ Id m' = Id m ∧ Rcode m' = Rcode m.
Proof.
  intros Hq. unfold dns64_reply, set_Qtype0. destruct (Questions m) as [|q qs]; [done|]. simpl.
  destruct (mapM_res_total (dns64_rr prefix) (Answer m)) as [an ->]; [apply dns64_rr_total|].
  by eexists.
Qed.

(** ** The handler *)
Section handler.
Context {U : GoUnicode} {L : DnsLib} {HL : DnsLaws L} {R US Chan : Type} {RI : Resolver R US}
        {RT : ReplyTypes RI}.
Context (clk : nat → Time).
Notation St := (St (R := R) (US := US) (Chan := Chan)).

(** The queries that get no answer: an address without a host, not exactly one
    question, or a client outside the access list. *)
Definition dropped (c : ProxyConfig R Chan) (addr : string) (q : Msg) : bool :=
  match SplitHostPort addr, Questions q with
  | Some (host, _), [_] => negb (checkAcl (c_Acl c) (ParseIP (strip_zone host)))
  | _, _ => true
  end.

(** The block list refuses the query at time [now]. *)
Definition blocks (c : ProxyConfig R Chan) (q : Msg) (now : Time) : bool :=
  match Questions q with
  | [q0] => negb (blockingPaused (c_BlockPauseUntil c) now)
            && BlockList.Match (c_BlockList c) (CanonicalName (q_Name q0)) (Qtype q0)
  | _ => false
  end.

(** The reply [out] to [q] makes the handler ask for the IPv4 addresses. *)
Definition needs_dns64 (c : ProxyConfig R Chan) (q out : Msg) : bool :=
  c_Dns64 c && bool_decide (Qtype <$> head (Questions q) = Some TypeAAAA) && bool_decide (Answer out = []).

(** The query for the IPv4 addresses. *)
Definition as_A (q : Msg) : Msg :=
  match Questions q with
  | [] => q
  | q0 :: qs => set_Questions q (mkQuestion (q_Name q0) TypeA (Qclass q0) :: qs)
  end.

(** An upstream reply without a question crashes the handler: the one to the query
    when the cache would store it, the one to the query for IPv4 addresses always. *)
Definition crashes (s : St) (addr : string) (q : Msg) : bool :=
  let s1 := mkSt (cfg s) (upst s) (S (S (tick s))) in
  negb (dropped (cfg s) addr q) && negb (blocks (cfg s) q (clk (S (tick s))))
  && (match upstream_reply clk q s1 with Some m => unkeyed m | None => false end
      || match resolve clk q s1 with
         | Ok ((inr out, _), s2) =>
             needs_dns64 (cfg s) q out
             && match upstream_reply clk (as_A q) s2 with Some m => bool_decide (Questions m = []) | None => false end
         | _ => false
         end).

(** How the log item describes an answer [m]: the block list, all upstreams down,
    the cache, or the reply of an upstream to the query or to the query for IPv4
    addresses, passed on under the identifier that the upstream gave it. *)
Definition describes (ups : list R) (q : Msg) (item : ConnectionLog) (m : Msg) : Prop :=
  log_Acl item = true
  ∧ (Blocked item = true → m = dnsErrorResponse q RcodeNameError "Blocked")
  ∧ (Error item = true → m = dnsErrorResponse q RcodeServerFailure "Upstream error")
  ∧ (Blocked item = false → Error item = false → log_Rcode item = Rcode m)
  ∧ (Blocked item || Error item || Cached item = true → Id m = Id q)
  ∧ (Blocked item || Error item || Cached item = false →
     ∃ r q' u m' u', r ∈ ups ∧ (q' = q ∨ q' = as_A q) ∧ Resolve r q' u = (inr m', u')
       ∧ Id m = Id m' ∧ Rcode m = Rcode m').

Lemma dnsErrorResponse_reply q rc e :
  Id (dnsErrorResponse q rc e) = Id q ∧ Rcode (dnsErrorResponse q rc e) = rc
  ∧ Response (dnsErrorResponse q rc e) = true
  ∧ Questions (dnsErrorResponse q rc e) = take 1 (Questions q) ∧ Answer (dnsErrorResponse q rc e) = [].
Proof.
  pose proof (SetRcode_reply new_Msg q rc) as H. unfold dnsErrorResponse. by repeat case_match.
Qed.

Lemma set_Qtype0_A q : Questions q ≠ [] → set_Qtype0 (Msg_Copy q) TypeA = Ok (as_A q).
Proof. intros Hq. unfold set_Qtype0, as_A. rewrite Copy_value. by destruct (Questions q). Qed.

Lemma as_A_query q : Id (as_A q) = Id q ∧ (Questions q ≠ [] → Questions (as_A q) ≠ []).
Proof. unfold as_A. by destruct (Questions q) eqn:E. Qed.

Lemma describes_Blocked ups q start client qn qt :
  describes ups q (log_item start client qn qt 0 true true false false) (dnsErrorResponse q RcodeNameError "Blocked").
Proof. split_and!; try done. intros _. by apply dnsErrorResponse_reply. Qed.

Lemma describes_Error ups q start client qn qt :
  describes ups q (log_item start client qn qt 0 true false false true)
    (dnsErrorResponse q RcodeServerFailure "Upstream error").
Proof. split_and!; try done. intros _. by apply dnsErrorResponse_reply. Qed.

(** A reply [m] to [q'], or what DNS64 makes of it. *)
Lemma describes_reply ups q q' start client qn qt cached m m' :
  answered_by ups q' cached m' → (q' = q ∨ q' = as_A q) → Id m = Id m' → Rcode m = Rcode m' →
  describes ups q (log_item start client qn qt (Rcode m) true false cached false) m.
Proof.
  intros Ha Hq Hid Hrc. destruct (as_A_query q) as [Hi _]. destruct cached; simpl in Ha; split_and!; try done; simpl.
  - intros _. rewrite Hid. destruct Ha as [-> _]. by destruct Hq as [->| ->].
  - intros _. destruct Ha as (r & u & u' & Hr & E). by exists r, q', u, m', u'.
Qed.

(** What is true after the reply has been chosen. *)
Definition replied (ups : list R) (q : Msg) (s : St) (item : ConnectionLog) (ws : list (Event Chan))
    (s' : St) : Prop :=
  shared_ok ups (cfg s') ∧ same_settings (cfg s) (cfg s')
  ∧ ∃ m, ws = [WriteMsg m] ∧ describes ups q item m.

(** The crash while the reply [out] is handled. *)
Definition dns64_crash (q : Msg) (out : Msg) (s : St) : bool :=
  needs_dns64 (cfg s) q out
  && match upstream_reply clk (as_A q) s with Some m => bool_decide (Questions m = []) | None => false end.

Lemma wp_handle_reply ups start client qn qt q q0 qs out cached s :
  shared_ok ups (cfg s) → Questions q = q0 :: qs → answered_by ups q cached out →
  wp (handle_reply clk start client qn qt q (Qtype q0) out cached) s (λ p s',
    dns64_crash q out s = false ∧ replied ups q s p.1 p.2 s' ∧ Client p.1 = client ∧ Blocked p.1 = false)
    (dns64_crash q out s = true).
Proof.
  intros Hs Hq Hout. unfold handle_reply, replied. wp_steps.
  assert (En : needs_dns64 (cfg s) q out
               = c_Dns64 (cfg s) && (Qtype q0 =? TypeAAAA)%Z && bool_decide (length (Answer out) = 0)).
  { unfold needs_dns64. rewrite Hq. simpl. f_equal; [f_equal|].
    - destruct (Z.eqb_spec (Qtype q0) TypeAAAA) as [->|]; [done|]. apply bool_decide_eq_false. congruence.
    - apply bool_decide_ext. by rewrite length_zero_iff_nil. }
  unfold dns64_crash. rewrite <-En. destruct (needs_dns64 (cfg s) q out); simpl.
  2:{ wp_steps. simpl. split_and!; [done|done|apply same_settings_refl| |done..].
      eexists. split; [done|]. by eapply describes_reply; [|left|..]. }
  assert (Hne : Questions q ≠ []) by (by rewrite Hq). destruct (as_A_query q) as [Hi4 Hq4]. specialize (Hq4 Hne).
  wp_steps. rewrite set_Qtype0_A by done. wp_steps. eapply wp_mono; [by apply (wp_resolve clk ups)|..].
  2:{ intros (m & -> & Hu). unfold unkeyed in Hu. by apply andb_true_iff in Hu as [_ ->]. }
  intros [x hit] s1 (Hs1 & Hset & Hup & Hx). simpl in Hx, Hup. cbn beta iota. rewrite Hup. destruct x as [e|m]; wp_steps.
  { simpl. split_and!; [by destruct hit|done|done| |done|done]. eexists. split; [done|apply describes_Error]. }
  destruct (Hx m eq_refl) as [Hm _]. destruct (decide (Questions m = [])) as [E0|E0].
  - destruct hit; [by destruct Hm|]. unfold dns64_reply, set_Qtype0. by rewrite E0.
  - destruct (dns64_reply_total (c_Dns64Prefix (cfg s1)) m E0) as (m' & -> & Hi & Hrc). wp_steps. simpl.
    split_and!; [|done|done| |done|done].
    + destruct hit; [done|]. by rewrite bool_decide_eq_false_2.
    + eexists. split; [done|]. by eapply describes_reply; [|right|..].
Qed.

(** The handler body after the deferred calls are set up. *)
Definition body_spec (ups : list R) (addr : string) (q : Msg) (s : St) (item : ConnectionLog)
    (ws : list (Event Chan)) (s' : St) : Prop :=
  Client item = addr ∧
  if dropped (cfg s) addr q
  then ws = [] ∧ log_Acl item = false ∧ Blocked item = false ∧ cfg s' = cfg s ∧ upst s' = upst s
  else replied ups q s item ws s'
       ∧ Blocked item = blocks (cfg s) q (clk (tick s))
       ∧ (Blocked item = true → cfg s' = cfg s ∧ upst s' = upst s).

(** [crashes] from the state in which the body starts. *)
Definition body_crash (s : St) (addr : string) (q : Msg) : bool :=
  let s1 := mkSt (cfg s) (upst s) (S (tick s)) in
  negb (dropped (cfg s) addr q) && negb (blocks (cfg s) q (clk (tick s)))
  && (match upstream_reply clk q s1 with Some m => unkeyed m | None => false end
      || match resolve clk q s1 with
         | Ok ((inr out, _), s2) => dns64_crash q out s2
         | _ => false
         end).

Lemma needs_dns64_settings c c' q out : same_settings c c' → needs_dns64 c' q out = needs_dns64 c q out.
Proof. intros Hset. unfold needs_dns64. by rewrite Hset. Qed.

Lemma wp_handle_body ups start addr q s :
  shared_ok ups (cfg s) →
  wp (handle_body clk start addr q) s
    (λ p s', body_crash s addr q = false ∧ body_spec ups addr q s p.1 p.2 s') (body_crash s addr q = true).
Proof.
  intros Hs. unfold handle_body, body_spec, body_crash, dropped, blocks.
  destruct (SplitHostPort addr) as [[host port]|]; [|by wp_steps].
  destruct (Questions q) as [|q0 [|? ?]] eqn:Hq; [by wp_steps| |by wp_steps].
  unfold handle_query. wp_steps. destruct (negb (checkAcl _ _)); wp_steps; [done|].
  assert (Hne : Questions q ≠ []) by (by rewrite Hq).
  destruct (negb (blockingPaused _ _) && _) eqn:Hb; wp_steps.
  { simpl. split_and!; [done|done|split_and!; [done|apply same_settings_refl|]|done|done].
    eexists. split; [done|apply describes_Blocked]. }
  pose proof (wp_resolve clk ups q (mkSt (cfg s) (upst s) (S (tick s))) Hs Hne) as Hw. unfold wp in Hw |- *.
  destruct (resolve clk q _) as [[[x hit] s1]|]; simpl.
  2:{ destruct Hw as (m & -> & ->). done. }
  destruct Hw as (Hs1 & Hset & Hup & Hx). simpl in Hx, Hset, Hup. rewrite Hup.
  assert (Hk : match (if hit then None else match x with inr m => Some m | inl _ => None end) with
               | Some m => unkeyed m | None => false end = false).
  { destruct hit; [done|]. destruct x as [e|m]; [done|]. by apply (Hx m). }
  rewrite Hk. simpl. destruct x as [e|m]; simpl.
  { split_and!; [done|done|split_and!; [done..|]|done|done]. eexists. split; [done|apply describes_Error]. }
  destruct (Hx m eq_refl) as [Hm _].
  pose proof (wp_handle_reply ups start addr (CanonicalName (q_Name q0)) (TypeToString (Qtype q0)) q q0 [] m hit s1 Hs1 Hq Hm) as Hr.
  unfold wp in Hr. destruct (handle_reply _ _ _ _ _ _ _ _ _ s1) as [[p s2]|]; [|done].
  destruct Hr as (Hd & (Hs2 & Hset2 & Hm2) & Hcl & Hbl).
  split_and!; [done|done|split_and!; [done| |done]|done|congruence]. by eapply same_settings_trans.
Qed.

Lemma set_StatsHandler_ok (ups : list R) (c : ProxyConfig R Chan) sh : shared_ok ups c → shared_ok ups (set_StatsHandler c sh).
Proof. by intros [? ? ?]; split. Qed.

(** The whole handler: the body, then the log and the close. *)
Definition handler_spec (ups : list R) (hist : list ConnectionLog) (addr : string) (q : Msg) (s : St)
    (ev : list (Event Chan)) (s' : St) : Prop :=
  ∃ item ws sends s1,
    body_spec ups addr q (mkSt (cfg s) (upst s) (S (tick s))) item ws s1
    ∧ ev = (ws ++ sends ++ [Close])%list
    ∧ (∃ d, logged (c_StatsHandler (cfg s')) (hist ++ [set_QueryTime item d])
            ∧ ∀ e, e ∈ sends → ∃ ch, e = LogSend ch (set_QueryTime item d))
    ∧ cfg s' = set_StatsHandler (cfg s1) (c_StatsHandler (cfg s'))
    ∧ upst s' = upst s1 ∧ shared_ok ups (cfg s').

Lemma body_crash_crashes (ups : list R) addr q s :
  shared_ok ups (cfg s) → body_crash (mkSt (cfg s) (upst s) (S (tick s))) addr q = crashes s addr q.
Proof.
  intros Hs. unfold body_crash, crashes, dns64_crash. cbn [cfg upst tick].
  destruct (dropped (cfg s) addr q) eqn:Ed; [done|]. f_equal. f_equal.
  assert (Hne : Questions q ≠ []).
  { intros E. unfold dropped in Ed. rewrite E in Ed. by destruct (SplitHostPort addr) as [[]|]. }
  pose proof (wp_resolve clk ups q (mkSt (cfg s) (upst s) (S (S (tick s)))) Hs Hne) as Hw. unfold wp in Hw.
  destruct (resolve clk q _) as [[[[e|m] hit] s2]|]; [done| |done].
  destruct Hw as (_ & Hset & _). by rewrite (needs_dns64_settings _ _ _ _ Hset).
Qed.

Lemma wp_MakeHandler ups hist addr q s :
  shared_ok ups (cfg s) → logged (c_StatsHandler (cfg s)) hist →
  wp (MakeHandler clk addr q) s
    (λ ev s', crashes s addr q = false ∧ handler_spec ups hist addr q s ev s') (crashes s addr q = true).
Proof.
  intros Hs Hl. rewrite <-(body_crash_crashes ups) by done. unfold MakeHandler. wp_steps.
  eapply wp_mono; [by apply (wp_handle_body ups)| |done].
  intros [item ws] s1 [Hcr Hb]. cbn beta iota. cbn [fst snd] in Hb. wp_steps. unfold stats_Add. wp_steps.
  assert (Hs1 : shared_ok ups (cfg s1) ∧ c_StatsHandler (cfg s1) = c_StatsHandler (cfg s)).
  { destruct Hb as [_ Hb]. destruct (dropped _ _ _).
    - destruct Hb as (_ & _ & _ & -> & _). done.
    - destruct Hb as ((? & Hset & _) & _). split; [done|]. by rewrite Hset. }
  destruct Hs1 as [Hs1 Hst].
  match goal with |- context [Stats.Add _ ?i] =>
    destruct (logged_Add (c_StatsHandler (cfg s1)) hist i) as (calls & sh & Ha & Hl' & Hc); [by rewrite Hst|] end.
  rewrite Ha. cbn beta iota. wp_steps. split; [done|].
  exists item, ws, ((λ p, LogSend p.1 p.2) <$> calls), s1. simpl. split_and!; [done|done| |done|done|].
  - eexists. split; [exact Hl'|]. intros e ([ch i] & -> & Hin%Hc)%list_elem_of_fmap. simpl in *. subst. by eexists.
  - by apply set_StatsHandler_ok.
Qed.

(** The handler panics exactly when [crashes] holds. *)
Lemma MakeHandler_cases ups hist addr q s :
  shared_ok ups (cfg s) → logged (c_StatsHandler (cfg s)) hist →
  if crashes s addr q then MakeHandler clk addr q s = Panic
  else ∃ ev s', MakeHandler clk addr q s = Ok (ev, s') ∧ handler_spec ups hist addr q s ev s'.
Proof.
  intros Hs Hl. pose proof (wp_MakeHandler ups hist addr q s Hs Hl) as Hw. unfold wp in Hw.
  destruct (MakeHandler clk addr q s) as [[ev s']|].
  - destruct Hw as [-> ?]. by eauto.
  - by rewrite Hw.
Qed.

(** Upstreams whose replies have a question never crash the handler. *)
Lemma crashes_questioned s addr q :
  (∀ r q u m u', Resolve r q u = (inr m, u') → Questions m ≠ []) → crashes s addr q = false.
Proof.
  intros H.
  assert (Hr : ∀ q' (s' : St), match upstream_reply clk q' s' with Some m => Questions m ≠ [] | None => True end).
  { intros q' s'. unfold upstream_reply. destruct (Cache.Get _ _ _ q') as [[[m|] ca]|]; [done| |done].
    destruct (first_success _ q' (upst s')) as [[e|m] u'] eqn:E; [done|]. simpl.
    destruct (first_success_from _ _ _ _ _ E) as (r & u1 & u2 & _ & Hm). by eapply H. }
  assert (Hn : ∀ q' (s' : St) p, match upstream_reply clk q' s' with Some m => p m && bool_decide (Questions m = []) | None => false end = false).
  { intros q' s' p. specialize (Hr q' s'). destruct (upstream_reply clk q' s'); [|done].
    rewrite bool_decide_eq_false_2 by done. apply andb_false_r. }
  unfold crashes, unkeyed. rewrite Hn. simpl. apply andb_false_iff. right.
  destruct (resolve clk q _) as [[[[e|out] hit] s2]|]; [done| |done].
  apply andb_false_iff. right. exact (Hn (as_A q) s2 (λ _, true)).
Qed.

(** ** Properties *)


(** C2: a query that is not dropped is blocked exactly when blocking is not
    paused and the block list matches its name and type.  It is then answered,
    whatever the upstreams are, with NXDOMAIN, the query's identifier and question
    and no answer record; neither the upstreams nor the cache are touched.  Only a
    query that is not blocked can meet the crash of C1. *)
Theorem blocked_iff_matched_and_not_paused (ups : list R) (hist : list ConnectionLog)
    (addr : string) (q : Msg) (s : St) :
  shared_ok ups (cfg s) → logged (c_StatsHandler (cfg s)) hist →
  dropped (cfg s) addr q = false →
  (blocks (cfg s) q (clk (S (tick s))) = false → crashes s addr q = false) →
  ∃ m sends item s',
    MakeHandler clk addr q s = Ok ((WriteMsg m :: sends ++ [Close])%list, s')
    ∧ logged (c_StatsHandler (cfg s')) (hist ++ [item])
    ∧ Blocked item = blocks (cfg s) q (clk (S (tick s)))
    ∧ (Blocked item = true →
       Id m = Id q ∧ Rcode m = RcodeNameError ∧ Response m = true
       ∧ Questions m = take 1 (Questions q) ∧ Answer m = []
       ∧ upst s' = upst s ∧ c_Cache (cfg s') = c_Cache (cfg s)
       ∧ c_Upstream (cfg s') = c_Upstream (cfg s) ∧ c_UpstreamErr (cfg s') = c_UpstreamErr (cfg s)).
Proof.
  intros Hs Hl Hd Hcr. pose proof (MakeHandler_cases ups hist addr q s Hs Hl) as Hw.
  assert (Hn : crashes s addr q = false).
  { destruct (blocks (cfg s) q (clk (S (tick s)))) eqn:Hb; [|by apply Hcr]. unfold crashes. rewrite Hb.
    by rewrite andb_false_r. }
  rewrite Hn in Hw.
  destruct Hw as (ev & s' & E & item & ws & sends & s1 & [Hc Hb] & -> & (d & Hl' & _) & Hcfg & Hup & _).
  simpl in Hb. rewrite Hd in Hb.
  destruct Hb as ((_ & _ & m & -> & (_ & Hbm & _)) & Hbl & Hsame).
  exists m, sends, (set_QueryTime item d), s'. split_and!; [done..|]. simpl. intros Hi.
  destruct (Hsame Hi) as [Hcs Hus]. rewrite (Hbm Hi), Hcfg, Hcs, Hup, Hus.
  destruct (dnsErrorResponse_reply q RcodeNameError "Blocked") as (? & ? & ? & ? & ?). done.
Qed.

(** The upstream order and error count after a query, from the outcome of the
    first upstream. *)
Definition next_order (rs : list R) (err : Z) (head_ok : bool) : list R * Z :=
  if head_ok then (rs, 0%Z)
  else if (err =? 3)%Z then (rot1 rs, 0%Z) else (rs, (err + 1)%Z).

(** C3: [resolve] answers from the cache without contacting an upstream;
    otherwise its result is that of the first upstream, in the order of the list,
    that succeeds, or an error when all fail, and a reply is offered to the cache;
    it panics exactly when that reply has no question and the cache would store
    it.  Only the outcome of the first upstream moves the error count: a success
    clears it, a failure adds one, and the failure after the third sends the first
    upstream to the end of the list. *)
Theorem resolve_cache_then_failover (ups : list R) (q : Msg) (s : St) :
  shared_ok ups (cfg s) → Questions q ≠ [] →
  ∃ found ca,
    Cache.Get (clk (tick s)) (clk (S (tick s))) (c_Cache (cfg s)) q = Ok (found, ca)
    ∧ match found with
      | Some m => ∃ s', resolve clk q s = Ok ((inr m, true), s') ∧ cfg s' = set_Cache (cfg s) ca ∧ upst s' = upst s
      | None =>
          let '(x, u) := first_success (c_Upstream (cfg s)) q (upst s) in
          if (match x with inr m => unkeyed m | inl _ => false end) then resolve clk q s = Panic
          else ∃ s', resolve clk q s = Ok ((x, false), s') ∧ upst s' = u
            ∧ c_Cache (cfg s') = cached_after (clk (S (S (tick s)))) x ca
            ∧ (c_Upstream (cfg s'), c_UpstreamErr (cfg s'))
              = match c_Upstream (cfg s) with
                | [] => ([], c_UpstreamErr (cfg s))
                | r :: _ => next_order (c_Upstream (cfg s)) (c_UpstreamErr (cfg s))
                              (if (Resolve r q (upst s)).1 then false else true)
                end
      end.
Proof.
  intros Hs Hq. rewrite resolve_eq by (intros ?; split; [apply Hs|done]). unfold resolve_ref.
  destruct (Get_Ok (clk (tick s)) (clk (S (tick s))) (c_Cache (cfg s)) q Hq) as [[found ca] E]. rewrite E.
  exists found, ca. split; [done|]. destruct found as [m|]; [by eexists|].
  assert (Ho : ∀ c : ProxyConfig R Chan, c = after_first (c_Upstream (cfg s)) q (upst s) (cfg s) →
    (c_Upstream c, c_UpstreamErr c) = match c_Upstream (cfg s) with
      | [] => ([], c_UpstreamErr (cfg s))
      | r :: _ => next_order (c_Upstream (cfg s)) (c_UpstreamErr (cfg s)) (if (Resolve r q (upst s)).1 then false else true)
      end).
  { intros c ->. unfold after_first, next_order. destruct (c_Upstream (cfg s)) as [|r rs] eqn:Hu; simpl; [by rewrite ?Hu|].
    destruct (Resolve r q (upst s)).1; simpl; [|by rewrite ?Hu]. unfold failed. rewrite ?Hu.
    destruct (c_UpstreamErr (cfg s) =? 3)%Z; simpl; by rewrite ?Hu. }
  destruct (first_success (c_Upstream (cfg s)) q (upst s)) as [[e|m] u]; simpl.
  - eexists. split_and!; [done..|]. exact (Ho _ eq_refl).
  - destruct (unkeyed m); [done|]. eexists. split_and!; [done..|]. exact (Ho _ eq_refl).
Qed.

(** C24: a reply that was cached is not fetched twice: while it is fresh, any
    query with the same key is answered from the cache, under its own identifier
    and with the TTLs reduced by the whole seconds elapsed, and no upstream is
    contacted. *)
Theorem repeated_query_from_cache (ups : list R) (q q' m : Msg) (s s1 s2 : St)
    (q0 q0' m0 : Question) (qs qs' ms : list Question) :
  shared_ok ups (cfg s) → Questions q = q0 :: qs → Questions q' = q0' :: qs' →
  resolve clk q s = Ok ((inr m, false), s1) → cacheable m → Questions m = m0 :: ms →
  msg_key m0 = msg_key q0 → msg_key q0' = msg_key q0 → c_Cache (cfg s2) = c_Cache (cfg s1) →
  let now := clk (S (S (tick s))) in
  let t1 := clk (tick s2) in
  let t2 := clk (S (tick s2)) in
  (now ≤ t1 ≤ t2)%Z → (t2 ≤ now + Second * min_ttl (all_rrs m))%Z →
  ∃ reply s3, resolve clk q' s2 = Ok ((inr reply, true), s3)
    ∧ Id reply = Id q' ∧ Rcode reply = Rcode m
    ∧ all_rrs reply = decrement ((t2 - now) / Second) <$> all_rrs m
    ∧ upst s3 = upst s2 ∧ cfg s3 = cfg s2.
Proof.
  intros Hs Hq Hq' Hr Hcm Hm0 Hk Hk' Hcs now t1 t2 Ht Hf.
  rewrite resolve_eq in Hr by (intros ?; split; [apply Hs|done]). unfold resolve_ref in Hr. fold now in Hr.
  destruct (Cache.Get _ _ _ q) as [[[?|] ca]|]; [naive_solver| |done].
  destruct (first_success (c_Upstream (cfg s)) q (upst s)) as [[e|m'] u] eqn:Ef; simpl in Hr; [done|].
  destruct (unkeyed m') eqn:Eu; [done|]. injection Hr as -> <-. simpl in Hcs.
  destruct (first_success_from _ _ _ _ _ Ef) as (r & u1 & u2 & _ & Er). pose proof (reply_ok _ _ _ _ _ Er) as Hm.
  pose proof (Add_unkeyed now ca m) as Ha. rewrite Eu in Ha. unfold cached_after in Ha. fold now in Hcs.
  destruct (Cache.Add now ca m) as [ca'|] eqn:Ea; [|done]. clear Ha.
  destruct (Add_Get_fresh HL now t1 t2 ca ca' m q' m0 q0' ms qs') as (reply & Hg & Hid & Hrc & _ & Hrrs & _);
    [done..|congruence|done|done|done|].
  exists reply, (mkSt (set_Cache (cfg s2) ca') (upst s2) (S (S (tick s2)))).
  split_and!; [|done..|simpl; rewrite <-Hcs; apply set_Cache_same].
  unfold resolve, cache_Get, mbind, M_bind, time_now, get_cfg, put_cfg, lift, mret, M_ret. simpl.
  fold t1 t2. by rewrite Hcs, Hg.
Qed.

End handler.

(** ** Demotion over several failures *)
Section demotion_properties.
Context {R Chan : Type}.

(** [n] failures of the first upstream with no success in between. *)
Definition count_errors (n : nat) (c : ProxyConfig R Chan) : res (ProxyConfig R Chan) :=
  Nat.iter n (λ r, r ≫= count_error) (Ok c).

(** C30: starting from error count [e], [n] failures of the first upstream in a
    row rotate the list [(e + n) / 4] times and leave the count [(e + n) mod 4]:
    the first upstream is demoted on the fourth failure, not the third, and a
    success starts the count again. *)
Theorem demotion_on_every_fourth_failure (c : ProxyConfig R Chan) (n : nat) :
  (0 ≤ c_UpstreamErr c ≤ 3)%Z → c_Upstream c ≠ [] →
  ∃ c', count_errors n c = Ok c'
    ∧ c_UpstreamErr c' = ((c_UpstreamErr c + Z.of_nat n) mod 4)%Z
    ∧ c_Upstream c' = Nat.iter (Z.to_nat ((c_UpstreamErr c + Z.of_nat n) / 4)) rot1 (c_Upstream c)
    ∧ c_UpstreamErr (clear_error c') = 0%Z ∧ c_Upstream (clear_error c') = c_Upstream c'.
Proof.
  intros He Hu. assert (Hc : counter_ok c) by done. exists (Nat.iter n failed c).
  destruct (failed_iter c n Hc) as [H1 H2]. split_and!; [|done..].
  unfold count_errors. clear H1 H2. assert (H : counter_ok (Nat.iter n failed c)
    ∧ Nat.iter n (λ r, r ≫= count_error) (Ok c) = Ok (Nat.iter n failed c)); [|apply H].
  induction n as [|n [IH1 IH2]]; [done|]. simpl. rewrite IH2. simpl. split.
  - by apply counter_ok_failed.
  - by apply count_error_failed.
Qed.
End demotion_properties.

(** ** The initial configuration *)
Lemma NewProxyConfig_ok {L : DnsLib} {R Chan : Type} :
  ∃ c : ProxyConfig R Chan,
    NewProxyConfig = Ok c ∧ shared_ok [] c ∧ logged (c_StatsHandler c) [] ∧ length (IPNet_IP (c_Dns64Prefix c)) = 16.
Proof.
  destruct (logged_New (Chan := Chan) 1000 ltac:(lia)) as (sh & E & Hl).
  unfold NewProxyConfig. rewrite E. eexists. split; [reflexivity|]. split_and!; [|done|done].
  split; simpl; [apply map_Forall_empty|lia|by exists 0].
Qed.

(** ** A concrete proxy

    An upstream that fails, one that knows the IPv4 address of every name, one that
    leaves the question out of its replies, and one that replies with a header
    only; the state counts the queries they received. *)
Inductive SUp := up_fail | up_v4 | up_bare | up_header.

Definition up_reply (q : Msg) : Msg :=
  let q0 := match Questions q with q0 :: _ => q0 | [] => mkQuestion "." TypeNS ClassINET end in
  let an := if (Qtype q0 =? TypeA)%Z
            then [RR_A (mkHdr (q_Name q0) TypeA ClassINET 300) [192; 0; 2; 1]%Z] else [] in
  mkMsg (Id q) true 0 false false true true false false false 0 false [q0] an [] [].

#[export] Instance sample_up : Resolver SUp nat :=
  {| Resolve r q u := (match r with
                       | up_fail => inl "refused"
                       | up_v4 => inr (up_reply q)
                       | up_bare => inr (set_Questions (up_reply q) [])
                       | up_header => inr (set_Id new_Msg (Id q))
                       end, S u);
     Resolver_String r := match r with
                          | up_fail => "192.0.2.53:53" | up_v4 => "192.0.2.54:53" | up_bare => "192.0.2.55:53"
                          | up_header => "192.0.2.56:53"
                          end |}.

#[export] Instance sample_up_types : ReplyTypes sample_up.
Proof.
  split. intros r q u m u' E. assert (Hm : ∀ q n, msg_ok (set_Questions (up_reply q) n)).
  { intros q' n. unfold msg_ok, all_rrs, up_reply. simpl.
    destruct (Qtype _ =? TypeA)%Z; simpl; [|constructor]. repeat constructor; unfold rr_ok; simpl; lia. }
  destruct r; simplify_eq/=; [exact (Hm q _)|exact (Hm q [])|constructor].
Qed.

Definition sample_proxy : ProxyConfig SUp nat :=
  mkProxyConfig [] [up_fail; up_v4] 3 Cache.New (30 * Second)%Z sample_list zero_time
    [mkIPNet [127; 0; 0; 0]%Z [255; 0; 0; 0]%Z] true
    (mkIPNet (ParseIP "64:ff9b::") (CIDRMask 96 128)) false "" [] "" "" "" 
    (mkStats (mkBuffer {[ "stream" := 7 ]} (replicate 4 zero_log) 4 0 0)) false 0 (NewStderr false) None false 0 0.

Definition sample_st : St (US := nat) := mkSt sample_proxy 0 0.
Definition sample_clk (n : nat) : Time := (1000 + Z.of_nat n)%Z.

Lemma sample_shared_ok : shared_ok [up_fail; up_v4] sample_proxy.
Proof. split; simpl; [apply map_Forall_empty|lia|by exists 0]. Qed.

Lemma sample_logged : logged (c_StatsHandler sample_proxy) [].
Proof. split; simpl; try done; lia. Qed.


(** The same query when the only upstream answers without the question: the answer
    cannot be filed in the cache.  A header alone is not cached and is passed on,
    but the query for an IPv6 address makes DNS64 ask again, and the question of
    that reply cannot be rewritten. *)
Definition bare_st (r : SUp) : St (US := nat) := mkSt (set_Upstream sample_proxy [r]) 0 0.

Lemma questionless_reply_panics :
  MakeHandler sample_clk "127.0.0.1:5353" (sample_query 9 "www.example.com." TypeA) (bare_st up_bare) = Panic
  ∧ MakeHandler sample_clk "127.0.0.1:5353" (sample_query 9 "www.example.com." TypeAAAA) (bare_st up_header) = Panic
  ∧ ∃ ev s', MakeHandler sample_clk "127.0.0.1:5353" (sample_query 9 "www.example.com." TypeA) (bare_st up_header) = Ok (ev, s').
Proof. split; [vm_compute; reflexivity|]. split; [vm_compute; reflexivity|]. eexists _, _. vm_compute. reflexivity. Qed.

Lemma blocked_iff_matched_and_not_paused_witness :
  ∃ m sends s',
    MakeHandler sample_clk "127.0.0.1:5353" (sample_query 9 "x.ads.EXAMPLE.com." TypeA) sample_st
    = Ok ((WriteMsg m :: sends ++ [Close])%list, s')
    ∧ Rcode m = RcodeNameError ∧ upst s' = 0.
Proof.
  destruct (blocked_iff_matched_and_not_paused sample_clk [up_fail; up_v4] [] "127.0.0.1:5353"
              (sample_query 9 "x.ads.EXAMPLE.com." TypeA) sample_st sample_shared_ok sample_logged)
    as (m & sends & item & s' & E & _ & Hb & H); [vm_compute; reflexivity|intros _; vm_compute; reflexivity|].
  exists m, sends, s'. split; [exact E|].
  assert (Ht : Blocked item = true) by (rewrite Hb; vm_compute; reflexivity).
  destruct (H Ht) as (_ & Hrc & _ & _ & _ & Hu & _). split; [exact Hrc|exact Hu].
Defined.

Lemma resolve_cache_then_failover_witness :
  ∃ x s', resolve sample_clk (sample_query 9 "www.example.com." TypeA) sample_st = Ok ((x, false), s')
    ∧ (x, upst s') = (inr (up_reply (sample_query 9 "www.example.com." TypeA)), 2)
    ∧ c_Upstream (cfg s') = [up_v4; up_fail].
Proof.
  destruct (resolve_cache_then_failover sample_clk [up_fail; up_v4]
              (sample_query 9 "www.example.com." TypeA) sample_st sample_shared_ok ltac:(discriminate))
    as (found & ca & Hg & H).
  assert (Hf : found = None) by (vm_compute in Hg; congruence). subst found.
  destruct H as (s' & E & Hu & _ & Ho). eexists _, s'. split; [exact E|].
  split; [rewrite Hu; reflexivity|]. exact (f_equal fst Ho).
Defined.

Lemma repeated_query_from_cache_witness :
  ∃ s1 reply s3,
    resolve sample_clk (sample_query 9 "www.example.com." TypeA) sample_st
    = Ok ((inr (up_reply (sample_query 9 "www.example.com." TypeA)), false), s1)
    ∧ resolve sample_clk (sample_query 10 "WWW.example.com" TypeA) s1 = Ok ((inr reply, true), s3)
    ∧ Id reply = 10%Z ∧ upst s3 = upst s1.
Proof.
  destruct (resolve sample_clk (sample_query 9 "www.example.com." TypeA) sample_st) as [[[x hit] s1]|] eqn:E;
    [|vm_compute in E; discriminate].
  assert (Hx : x = inr (up_reply (sample_query 9 "www.example.com." TypeA)) ∧ hit = false ∧ tick s1 = 3).
  { vm_compute in E. injection E as <- <- <-. split; [reflexivity|]. split; reflexivity. }
  destruct Hx as (-> & -> & Ht).
  destruct (repeated_query_from_cache sample_clk [up_fail; up_v4]
    (sample_query 9 "www.example.com." TypeA) (sample_query 10 "WWW.example.com" TypeA)
    (up_reply (sample_query 9 "www.example.com." TypeA)) sample_st s1 s1
    (mkQuestion "www.example.com." TypeA ClassINET) (mkQuestion "WWW.example.com" TypeA ClassINET)
    (mkQuestion "www.example.com." TypeA ClassINET) [] [] [])
    as (reply & s3 & Hr & Hid & _ & _ & Hu & _).
  - exact sample_shared_ok.
  - reflexivity.
  - reflexivity.
  - exact E.
  - split_and!; [reflexivity|reflexivity|discriminate|].
    intros rr Hin%list_elem_of_singleton. subst rr. intros _ H. vm_compute in H. discriminate.
  - reflexivity.
  - reflexivity.
  - vm_compute. reflexivity.
  - reflexivity.
  - rewrite Ht. vm_compute. split; discriminate.
  - rewrite Ht. vm_compute. discriminate.
  - exists s1, reply, s3. split; [reflexivity|]. split; [exact Hr|]. split; [exact Hid|exact Hu].
Defined.


Lemma demotion_on_every_fourth_failure_witness :
  ∃ c', count_errors 1 sample_proxy = Ok c' ∧ c_Upstream c' = [up_v4; up_fail] ∧ c_UpstreamErr c' = 0%Z.
Proof.
  destruct (demotion_on_every_fourth_failure sample_proxy 1) as (c' & E & He & Hu & _);
    [simpl; lia|discriminate|].
  exists c'. split; [exact E|]. split; [exact Hu|exact He].
Defined.
