(* ===== verification/ProxyConc.v ===== *)
(** * Concurrent resolution (proxy/proxy.go, [resolve])

    Each query resolves in its own goroutine; the goroutines share the cache, the
    order of the upstreams and the error count.  [rstep] interleaves them: one
    constructor per access to the shared state, that is, per locked region of the
    code, with the same functions ([Cache.Get], [count_error], [clear_error],
    [Cache.Add]) as the sequential definition.  The upstreams answer as they like,
    with TTLs of their type.  A goroutine keeps the snapshot of the list it took.
    A panic of one goroutine ends the process: no goroutine moves after it. *)

From S2P Require Import Prelude GoStrings GoNet GoTime Dns Samples BlockList Cache CircularBuffer Stats.
From S2P Require Import Resolver Config Proxy ProxySpec.
Set Default Goal Selector "!".
Local Open Scope string_scope.

Section concurrent.
Context {L : DnsLib} {R Chan : Type}.

Inductive RPc :=
  | RCache (q : Msg)                             (* config.Cache.Get(q) *)
  | RSnapshot (q : Msg)                          (* the copy under RLock *)
  | RTry (first : bool) (rest : list R)          (* the loop, at the head of [rest] *)
  | RClear (out : Msg)                           (* config.UpstreamErr = 0 *)
  | RCount (rest : list R)                       (* config.UpstreamErr++ and demotion *)
  | RStore (out : Msg)                           (* config.Cache.Add(out) *)
  | RDone (x : string + Msg) (cached : bool).

(** [dead]: the reply whose insertion into the cache panicked. *)
Record RSt := mkRSt { shared : ProxyConfig R Chan; procs : gmap nat RPc; dead : option Msg }.

Definition move (s : RSt) (t : nat) (p : RPc) : gmap nat RPc := <[t := p]> (procs s).
Definition goto (s : RSt) (c : ProxyConfig R Chan) (t : nat) (p : RPc) : RSt := mkRSt c (move s t p) None.

(** A query that reaches [resolve] has a question: the handler has counted. *)
Inductive rstep : RSt → RSt → Prop :=
  | r_call s t q :
      dead s = None → procs s !! t = None → Questions q ≠ [] →
      rstep s (goto s (shared s) t (RCache q))
  | r_cache s t q t1 t2 found ca :
      dead s = None → procs s !! t = Some (RCache q) → Cache.Get t1 t2 (c_Cache (shared s)) q = Ok (found, ca) →
      rstep s (goto s (set_Cache (shared s) ca) t
                 (match found with Some m => RDone (inr m) true | None => RSnapshot q end))
  | r_snapshot s t q :
      dead s = None → procs s !! t = Some (RSnapshot q) →
      rstep s (goto s (shared s) t (RTry true (c_Upstream (shared s))))
  | r_answer s t first r rest m :
      dead s = None → procs s !! t = Some (RTry first (r :: rest)) → msg_ok m →
      rstep s (goto s (shared s) t (if first then RClear m else RStore m))
  | r_error s t first r rest :
      dead s = None → procs s !! t = Some (RTry first (r :: rest)) →
      rstep s (goto s (shared s) t (if first then RCount rest else RTry false rest))
  | r_exhausted s t first :
      dead s = None → procs s !! t = Some (RTry first []) →
      rstep s (goto s (shared s) t (RDone (inl all_failed) false))
  | r_clear s t m :
      dead s = None → procs s !! t = Some (RClear m) →
      rstep s (goto s (clear_error (shared s)) t (RStore m))
  | r_count s t rest c :
      dead s = None → procs s !! t = Some (RCount rest) → count_error (shared s) = Ok c →
      rstep s (goto s c t (RTry false rest))
  | r_store s t m now ca :
      dead s = None → procs s !! t = Some (RStore m) → Cache.Add now (c_Cache (shared s)) m = Ok ca →
      rstep s (goto s (set_Cache (shared s) ca) t (RDone (inr m) false))
  | r_panic s t m now :
      dead s = None → procs s !! t = Some (RStore m) → Cache.Add now (c_Cache (shared s)) m = Panic →
      rstep s (mkRSt (shared s) (procs s) (Some m)).



Context {HL : DnsLaws L}.






End concurrent.
Arguments RPc : clear implicits.

(** ** The sequential code runs in this semantics *)
#[local] Arguments Cache.Add : simpl never.
#[local] Arguments Cache.Get : simpl never.
#[local] Arguments count_error : simpl never.

Section runs.
Context {L : DnsLib} {R US Chan : Type} {RI : Resolver R US} {RT : ReplyTypes RI}.
Context (clk : nat → Time).

Definition at_rpc (c : ProxyConfig R Chan) (thr : gmap nat (RPc R)) (t : nat) (p : RPc R) : RSt :=
  mkRSt c (<[t := p]> thr) None.

(** Take one step with the rule [r]. *)
Ltac run r :=
  eapply rtc_l; [eapply r; [done|apply lookup_insert_eq|..]; try done|unfold goto, move; simpl; rewrite ?insert_insert_eq].

(** The process has panicked on the way from [s]. *)
Definition panics (s : RSt (R := R) (Chan := Chan)) : Prop := ∃ s' m, rtc rstep s s' ∧ dead s' = Some m.

Lemma panics_rtc s s' : rtc rstep s s' → panics s' → panics s.
Proof. intros H (s2 & m & H2 & E). exists s2, m. split; [by etrans|done]. Qed.

Lemma store_runs m thr t (s : St (US := US)) :
  match cache_Add clk m s with
  | Ok (_, s') => rtc rstep (at_rpc (cfg s) thr t (RStore m)) (at_rpc (cfg s') thr t (RDone (inr m) false))
  | Panic => panics (at_rpc (cfg s) thr t (RStore m))
  end.
Proof.
  unfold cache_Add, mbind, M_bind, time_now, get_cfg, put_cfg, lift. simpl.
  destruct (Cache.Add _ _ m) as [ca|] eqn:Ea; unfold at_rpc.
  - by run @r_store.
  - eexists _, m. split; [eapply rtc_once, r_panic; [done|apply lookup_insert_eq|exact Ea]|done].
Qed.

Lemma try_upstreams_runs first rs q thr t (s : St (US := US)) :
  match try_upstreams clk first rs q s with
  | Ok (x, s') => rtc rstep (at_rpc (cfg s) thr t (RTry first rs)) (at_rpc (cfg s') thr t (RDone x false))
  | Panic => (rs ≠ [] → counter_ok (cfg s)) → panics (at_rpc (cfg s) thr t (RTry first rs))
  end.
Proof.
  revert first s. induction rs as [|r rs IH]; intros first s; simpl.
  - unfold at_rpc. by run @r_exhausted.
  - unfold mbind, M_bind, upstream_Resolve. destruct (Resolve r q (upst s)) as [[e|m] u] eqn:E.
    + assert (Hrest : ∀ c, rtc rstep (at_rpc (cfg s) thr t (RTry first (r :: rs))) (at_rpc c thr t (RTry false rs)) →
        (counter_ok (cfg s) → counter_ok c) →
        match try_upstreams clk false rs q (mkSt c u (tick s)) with
        | Ok (x, s') => rtc rstep (at_rpc (cfg s) thr t (RTry first (r :: rs))) (at_rpc (cfg s') thr t (RDone x false))
        | Panic => (r :: rs ≠ [] → counter_ok (cfg s)) → panics (at_rpc (cfg s) thr t (RTry first (r :: rs)))
        end).
      { intros c Hc Hk. specialize (IH false (mkSt c u (tick s))). simpl in IH.
        destruct (try_upstreams _ _ _ _ _) as [[x s']|]; [by etrans|].
        intros Hok. eapply panics_rtc; [exact Hc|]. apply IH. intros _. by apply Hk, Hok. }
      destruct first; simpl.
      * unfold lift. destruct (count_error (cfg s)) as [c|] eqn:Ec; simpl.
        { apply Hrest.
          - unfold at_rpc. run @r_error. by run @r_count.
          - intros Hk. rewrite count_error_failed in Ec by done. injection Ec as <-. by apply counter_ok_failed. }
        intros Hok. by rewrite count_error_failed in Ec by by apply Hok.
      * apply Hrest; [|done]. unfold at_rpc. by run @r_error.
    + pose proof (reply_ok _ _ _ _ _ E) as Hm.
      assert (Hstore : ∀ c, rtc rstep (at_rpc (cfg s) thr t (RTry first (r :: rs))) (at_rpc c thr t (RStore m)) →
        match cache_Add clk m (mkSt c u (tick s)) with
        | Ok (_, s') => rtc rstep (at_rpc (cfg s) thr t (RTry first (r :: rs))) (at_rpc (cfg s') thr t (RDone (inr m) false))
        | Panic => panics (at_rpc (cfg s) thr t (RTry first (r :: rs)))
        end).
      { intros c Hc. pose proof (store_runs m thr t (mkSt c u (tick s))) as H. simpl in H.
        destruct (cache_Add _ _ _) as [[[] s']|]; [by etrans|by eapply panics_rtc]. }
      destruct first; simpl.
      * specialize (Hstore (clear_error (cfg s))). destruct (cache_Add _ _ _) as [[[] s']|]; [|intros _]; apply Hstore;
          unfold at_rpc; run @r_answer; by run @r_clear.
      * specialize (Hstore (cfg s)). destruct (cache_Add _ _ _) as [[[] s']|]; [|intros _]; apply Hstore;
          unfold at_rpc; by run @r_answer.
Qed.

(** The sequential [resolve] is a run of one goroutine, with the same result and
    the same shared state at the end; its panic is one of the process. *)
Theorem resolve_runs q thr t (s : St (US := US)) :
  match resolve clk q s with
  | Ok ((x, cached), s') => rtc rstep (at_rpc (cfg s) thr t (RCache q)) (at_rpc (cfg s') thr t (RDone x cached))
  | Panic => Questions q ≠ [] → (c_Upstream (cfg s) ≠ [] → counter_ok (cfg s)) → panics (at_rpc (cfg s) thr t (RCache q))
  end.
Proof.
  unfold resolve, cache_Get, mbind, M_bind, time_now, get_cfg, put_cfg, lift, mret, M_ret. simpl.
  destruct (Cache.Get _ _ _ q) as [[found ca]|] eqn:Eg; simpl.
  2:{ intros Hq. by destruct (Get_Ok (clk (tick s)) (clk (S (tick s))) (c_Cache (cfg s)) q Hq) as [? ?]; congruence. }
  assert (Hget : rtc rstep (at_rpc (cfg s) thr t (RCache q)) (at_rpc (set_Cache (cfg s) ca) thr t
    (match found with Some m => RDone (inr m) true | None => RSnapshot q end))).
  { unfold at_rpc. by run @r_cache. }
  destruct found as [m|]; simpl; [done|].
  pose proof (try_upstreams_runs true (c_Upstream (cfg s)) q thr t (mkSt (set_Cache (cfg s) ca) (upst s) (S (S (tick s))))) as Ht.
  simpl in Ht.
  assert (Hsnap : rtc rstep (at_rpc (cfg s) thr t (RCache q))
    (at_rpc (set_Cache (cfg s) ca) thr t (RTry true (c_Upstream (cfg s))))).
  { etrans; [exact Hget|]. unfold at_rpc. by run @r_snapshot. }
  destruct (try_upstreams clk true _ q _) as [[y s1]|]; [by etrans|].
  intros _ Hok. eapply panics_rtc; [exact Hsnap|]. apply Ht. exact Hok.
Qed.
End runs.

Section properties.
Context {L : DnsLib} {HL : DnsLaws L} {R Chan : Type}.

End properties.

