(* ===== verification/LogStream.v ===== *)
(** * The event stream of the query log (api/log.go, [MakeLogChannel] in stats.go)

    Each client of the log page has a goroutine that registers a hook, flushes the
    headers and then receives from an unbuffered channel.  A query that logs an
    item runs [CircularBuffer.Insert], which calls the hooks one after the other
    while it holds the lock of the buffer, so that there is one insertion at a
    time.  [lstep] interleaves the insertion with the stream goroutines: a send is
    a rendezvous, and a send on a closed channel panics inside the hook, which
    recovers.  A Go [range] over a map allows the map to change between two
    iterations: an entry removed before it is reached is not visited, one added
    meanwhile may be, one overwritten is visited with its new value.

    [AddHook] and [DeleteHook] take no lock, so nothing in the code keeps them
    from running while [Insert] iterates over the hooks or while each other runs;
    Go then aborts the program or leaves the map in any state.  An access to the
    map is therefore two steps, its begin and its end, [apart] says of a state that
    no write of the map overlaps another access, and [lgo] is a step that leads to
    such a state: the properties are about the runs in which the accesses happen
    not to overlap, each seeing the effect of the ones before it.
    [overlap_reachable] shows that the code can leave them.

    A write to a client ([Fprintf], [Flush]) takes as long as the client wants: it
    is a step [Net], which need never come.  Streams are told apart by the
    client's address; clients of a UNIX socket all have the same one.

    The model keeps two ghost fields: all items logged so far, and for a stream
    the number of items that were logged before it was registered. *)

From S2P Require Import Prelude GoTime CircularBuffer Stats.
Set Default Goal Selector "!".

Record Stream := mkStream {
  s_addr : string;                      (* r.RemoteAddr, the hook's identifier *)
  s_since : nat;
  s_got : list ConnectionLog;           (* the items written to the client *)
}.

Inductive LPc :=
  | LHook                               (* inside MakeLogChannel *)
  | LFlush                              (* flusher.Flush() of the headers *)
  | LSelect                             (* select on logChan and the request's context *)
  | LWrite (m : ConnectionLog)          (* fmt.Fprintf(w, ...) and Flush *)
  | LClose                              (* deferred: close(logChan) *)
  | LClosed                             (* about to call CloseLogChannel *)
  | LUnhook                             (* inside CloseLogChannel *)
  | LEnd.

(** A running [Insert]: the hooks still to visit and, inside a hook, its channel;
    [iter] while the iteration looks for the next hook in the map.  The channel of
    a stream is named by the stream's goroutine. *)
Inductive Inserter :=
  | IIdle
  | IRange (item : ConnectionLog) (todo : gset string) (iter : bool)
  | ISend (item : ConnectionLog) (todo : gset string) (ch : nat).

Record LSt := mkLSt {
  stats : StatsHandler nat;
  hist : list ConnectionLog;
  ins : Inserter;
  streams : gmap nat (Stream * LPc);
}.

Definition hks (s : LSt) : gmap string nat := hooks (connections (stats s)).
Definition closed (p : LPc) : bool := match p with LClosed | LUnhook | LEnd => true | _ => false end.
Definition wrote (st : Stream) (m : ConnectionLog) : Stream :=
  mkStream (s_addr st) (s_since st) (s_got st ++ [m]).
Definition todo (i : Inserter) : gset string :=
  match i with IIdle => ∅ | IRange _ T _ | ISend _ T _ => T end.
Definition on_todo (f : gset string → gset string) (i : Inserter) : Inserter :=
  match i with
  | IIdle => IIdle
  | IRange x T b => IRange x (f T) b
  | ISend x T ch => ISend x (f T) ch
  end.

(** The stream after its registration, when the running insertion will visit the
    new hook ([seen]) or not. *)
Definition registered (st : Stream) (n : nat) (seen : bool) : Stream :=
  mkStream (s_addr st) (if seen then n - 1 else n) [].

(** Who takes a step: the code by itself, a write to a client that completes, a
    client that goes away, or a new client or query. *)
Inductive Who := Code | Net | HangUp | Arrival.

Inductive lstep : Who → LSt → LSt → Prop :=
  | l_connect s t a :
      streams s !! t = None →
      lstep Arrival s
        (mkLSt (stats s) (hist s) (ins s) (<[t := (mkStream a (length (hist s)) [], LHook)]> (streams s)))
  | l_hook s t st (seen : bool) :
      streams s !! t = Some (st, LHook) →
      (seen = true → ins s ≠ IIdle) →
      (hks s !! s_addr st ≠ None → seen = bool_decide (s_addr st ∈ todo (ins s))) →
      lstep Code s
        (mkLSt (MakeLogChannel (stats s) (s_addr st) t) (hist s)
           (if seen then on_todo (λ T, {[s_addr st]} ∪ T) (ins s) else ins s)
           (<[t := (registered st (length (hist s)) seen, LFlush)]> (streams s)))
  | l_flush s t st :
      streams s !! t = Some (st, LFlush) →
      lstep Net s (mkLSt (stats s) (hist s) (ins s) (<[t := (st, LSelect)]> (streams s)))
  | l_insert s item calls st' :
      ins s = IIdle → Stats.Add (stats s) item = Ok (calls, st') →
      lstep Arrival s (mkLSt st' (hist s ++ [item]) (IRange item (dom (hks s)) false) (streams s))
  | l_iter s item T :
      ins s = IRange item T false →
      lstep Code s (mkLSt (stats s) (hist s) (IRange item T true) (streams s))
  | l_next s item T a ch :
      ins s = IRange item T true → a ∈ T → hks s !! a = Some ch →
      lstep Code s (mkLSt (stats s) (hist s) (ISend item (T ∖ {[a]}) ch) (streams s))
  | l_sent s item T ch st :
      ins s = ISend item T ch → streams s !! ch = Some (st, LSelect) →
      lstep Code s (mkLSt (stats s) (hist s) (IRange item T false) (<[ch := (st, LWrite item)]> (streams s)))
  | l_recover s item T ch st p :
      ins s = ISend item T ch → streams s !! ch = Some (st, p) → closed p = true →
      lstep Code s (mkLSt (stats s) (hist s) (IRange item T false) (streams s))
  | l_inserted s item :
      ins s = IRange item ∅ true →
      lstep Code s (mkLSt (stats s) (hist s) IIdle (streams s))
  | l_write s t st m :
      streams s !! t = Some (st, LWrite m) →
      lstep Net s (mkLSt (stats s) (hist s) (ins s) (<[t := (wrote st m, LSelect)]> (streams s)))
  | l_hangup s t st :
      streams s !! t = Some (st, LSelect) →
      lstep HangUp s (mkLSt (stats s) (hist s) (ins s) (<[t := (st, LClose)]> (streams s)))
  | l_close s t st :
      streams s !! t = Some (st, LClose) →
      lstep Code s (mkLSt (stats s) (hist s) (ins s) (<[t := (st, LClosed)]> (streams s)))
  | l_delete s t st :
      streams s !! t = Some (st, LClosed) →
      lstep Code s (mkLSt (stats s) (hist s) (ins s) (<[t := (st, LUnhook)]> (streams s)))
  | l_unhook s t st :
      streams s !! t = Some (st, LUnhook) →
      lstep Code s (mkLSt (CloseLogChannel (stats s) (s_addr st)) (hist s)
                      (on_todo (λ T, T ∖ {[s_addr st]}) (ins s)) (<[t := (st, LEnd)]> (streams s))).

(** No goroutine writes the hook map while another one reads or writes it. *)
Definition writing (p : LPc) : bool := match p with LHook | LUnhook => true | _ => false end.
Definition iterating (i : Inserter) : bool := match i with IRange _ _ b => b | _ => false end.
Definition apart (s : LSt) : Prop :=
  map_Forall (λ t x, writing x.2 = true →
    iterating (ins s) = false ∧ map_Forall (λ t' x', writing x'.2 = true → t' = t) (streams s)) (streams s).
#[export] Instance apart_dec s : Decision (apart s).
Proof. apply _. Defined.

(** Any step that keeps the accesses apart; and any step but a new client or query. *)
Definition lgo (s s' : LSt) : Prop := (∃ w, lstep w s s') ∧ apart s'.

(** The streams that have not ended have different addresses. *)
Definition live (p : LPc) : bool := match p with LEnd => false | _ => true end.
Definition distinct (s : LSt) : Prop :=
  map_Forall (λ t x, live x.2 = true →
    map_Forall (λ t' x', live x'.2 = true → s_addr x'.1 = s_addr x.1 → t' = t) (streams s)) (streams s).
#[export] Instance distinct_dec s : Decision (distinct s).
Proof. apply _. Defined.
Definition ldistinct (s s' : LSt) : Prop := lgo s s' ∧ distinct s'.

(** ** Invariant *)

(** What a stream has taken from its channel, and what a running insertion still
    owes it. *)
Definition received (st : Stream) (p : LPc) : list ConnectionLog :=
  match p with LWrite m => s_got st ++ [m] | _ => s_got st end.
Definition own (hk : gmap string nat) (t : nat) (st : Stream) : Prop := hk !! s_addr st = Some t.
#[export] Instance own_dec hk t st : Decision (own hk t st).
Proof. unfold own. apply _. Defined.
Definition due (hk : gmap string nat) (i : Inserter) (t : nat) (st : Stream) : list ConnectionLog :=
  match i with
  | IIdle => []
  | IRange x T _ => if decide (own hk t st ∧ s_addr st ∈ T) then [x] else []
  | ISend x T ch => if decide (t = ch ∨ own hk t st ∧ s_addr st ∈ T) then [x] else []
  end.
Definition opened (p : LPc) : bool :=
  match p with LFlush | LSelect | LWrite _ | LClose => true | _ => false end.
Definition hooked (p : LPc) : bool := match p with LHook | LEnd => false | _ => true end.

Definition ins_ok (h : list ConnectionLog) (hk : gmap string nat) (ss : gmap nat (Stream * LPc))
    (i : Inserter) : Prop :=
  match i with
  | IIdle => True
  | IRange x T _ => last h = Some x ∧ T ⊆ dom hk
  | ISend x T ch => last h = Some x ∧ T ⊆ dom hk
      ∧ ∃ st p, ss !! ch = Some (st, p) ∧ p ≠ LHook ∧ (own hk ch st → s_addr st ∉ T)
  end.

Definition stream_ok (s : LSt) (t : nat) (sp : Stream * LPc) : Prop :=
  s_since sp.1 ≤ length (hist s)
  ∧ received sp.1 sp.2 `prefix_of` drop (s_since sp.1) (hist s)
  ∧ (opened sp.2 = true →
       received sp.1 sp.2 ++ due (hks s) (ins s) t sp.1 `prefix_of` drop (s_since sp.1) (hist s)
       ∧ (own (hks s) t sp.1 → received sp.1 sp.2 ++ due (hks s) (ins s) t sp.1 = drop (s_since sp.1) (hist s))).

Record linv (s : LSt) : Prop := {
  li_log : logged (stats s) (hist s);
  li_hooks : ∀ a t, hks s !! a = Some t →
    ∃ st p, streams s !! t = Some (st, p) ∧ s_addr st = a ∧ hooked p = true;
  li_ins : ins_ok (hist s) (hks s) (streams s) (ins s);
  li_streams : map_Forall (stream_ok s) (streams s);
}.

Lemma Add_hooks (st st' : StatsHandler nat) c calls :
  Stats.Add st c = Ok (calls, st') → hooks (connections st') = hooks (connections st).
Proof.
  unfold Stats.Add, Insert. destruct (set_idx _ _ _); [|done]. simpl.
  destruct (capacity (connections st) =? 0)%Z; [done|]. by intros [= _ <-].
Qed.

Lemma drop_last {A} (l : list A) x : last l = Some x → drop (length l - 1) l = [x].
Proof. intros [l' ->]%last_Some. by rewrite length_app, Nat.add_sub, drop_app_length. Qed.

(** The stream does not move, and either is owed the same or has lost its hook. *)
Definition kept (hk hk' : gmap string nat) (i i' : Inserter) (t : nat) (st : Stream) (p : LPc) : Prop :=
  (own hk' t st → own hk t st)
  ∧ (opened p = true → due hk' i' t st = due hk i t st ∨ ¬ own hk' t st ∧ due hk' i' t st = []).

Lemma stream_ok_kept s s' t st p :
  stream_ok s t (st, p) → hist s' = hist s → kept (hks s) (hks s') (ins s) (ins s') t st p →
  stream_ok s' t (st, p).
Proof.
  intros (H1 & H2 & H3) Eh [Ho Hd]. unfold stream_ok. simpl in *. rewrite Eh.
  split_and!; [done..|]. intros Hp. destruct (H3 Hp) as [H4 H5]. destruct (Hd Hp) as [-> |[Hn ->]].
  - split; [done|]. intros Hw. by apply H5, Ho.
  - by rewrite app_nil_r.
Qed.

Lemma todo_add a (T D : gset string) : T ⊆ D → {[a]} ∪ T ⊆ {[a]} ∪ D.
Proof. set_solver. Qed.
Lemma todo_keep a (T D : gset string) : T ⊆ D → T ⊆ {[a]} ∪ D.
Proof. set_solver. Qed.
Lemma todo_in a (T : gset string) : a ∈ {[a]} ∪ T.
Proof. set_solver. Qed.
Lemma todo_other a b (T : gset string) : b ≠ a → b ∈ {[a]} ∪ T ↔ b ∈ T.
Proof. set_solver. Qed.
Lemma todo_minus a b (T : gset string) : b ≠ a → b ∈ T ∖ {[a]} ↔ b ∈ T.
Proof. set_solver. Qed.
Lemma todo_drop a (T D : gset string) : T ⊆ D → T ∖ {[a]} ⊆ D ∖ {[a]}.
Proof. set_solver. Qed.
Lemma todo_gone a (T : gset string) : a ∉ T ∖ {[a]}.
Proof. set_solver. Qed.
Lemma todo_sub' a b (T : gset string) : b ∈ T ∖ {[a]} → b ∈ T.
Proof. set_solver. Qed.
Lemma todo_sub a (T D : gset string) : T ⊆ D → T ∖ {[a]} ⊆ D.
Proof. set_solver. Qed.

(** The hooks and the insertion change at the key [a] only. *)
Lemma kept_elsewhere hk hk' i f a t st p :
  (∀ b, b ≠ a → hk' !! b = hk !! b) → (∀ T b, b ≠ a → b ∈ f T ↔ b ∈ T) → hk' !! a ≠ Some t →
  kept hk hk' i (on_todo f i) t st p.
Proof.
  intros Hk Hf Ha. unfold kept. destruct (decide (s_addr st = a)) as [<-|Hne].
  - assert (Hn : ¬ own hk' t st) by done. split; [done|]. intros _.
    destruct i as [|x T b|x T ch]; simpl; [by left|..].
    + right. rewrite decide_False by naive_solver. done.
    + destruct (decide (t = ch)) as [->|Hne].
      * left. by rewrite !decide_True by auto.
      * right. rewrite decide_False by naive_solver. done.
  - assert (Ho : own hk' t st ↔ own hk t st) by (unfold own; by rewrite Hk). split; [by apply Ho|]. intros _. left.
    destruct i as [|x T b|x T ch]; simpl; [done|..]; apply decide_ext; by rewrite Ho, Hf.
Qed.

Lemma on_todo_id i : on_todo (λ T, T) i = i.
Proof. by destruct i. Qed.

Lemma due_addr hk i t st st' : s_addr st' = s_addr st → due hk i t st' = due hk i t st.
Proof. intros Ea. destruct i; simpl; [done|..]; apply decide_ext; unfold own; by rewrite Ea. Qed.

Section preservation.
Context (s : LSt) (Hi : linv s).

(** The stream [t] is at [st'], [p'] after the step; the others are [kept]. *)
Lemma linv_move t st' p' stats' i' :
  logged stats' (hist s) →
  let s' := mkLSt stats' (hist s) i' (<[t := (st', p')]> (streams s)) in
  (∀ a t', hks s' !! a = Some t' → t' ≠ t → hks s !! a = Some t') →
  (∀ a, hks s' !! a = Some t → s_addr st' = a ∧ hooked p' = true) →
  ins_ok (hist s) (hks s') (streams s') i' → stream_ok s' t (st', p') →
  (∀ t2 st2 p2, t2 ≠ t → streams s !! t2 = Some (st2, p2) → kept (hks s) (hks s') (ins s) i' t2 st2 p2) →
  linv s'.
Proof.
  intros Hl s' Hk Hkt Hn Hok Hkept. split; [done| |done|].
  - intros a t' Ha. destruct (decide (t' = t)) as [->|Hne].
    + exists st', p'. simpl. rewrite lookup_insert_eq. split; [done|by apply Hkt].
    + destruct (li_hooks _ Hi a t' (Hk _ _ Ha Hne)) as (st & p & ? & ? & ?). exists st, p. simpl.
      by rewrite lookup_insert_ne.
  - simpl. intros t2 [st2 p2]. destruct (decide (t2 = t)) as [->|Hne].
    + rewrite lookup_insert_eq. by intros [= <- <-].
    + rewrite lookup_insert_ne by done. intros H2. eapply stream_ok_kept; [exact (li_streams _ Hi _ _ H2)|done|].
      by apply Hkept.
Qed.

(** A step of a hooked stream that leaves the hooks alone. *)
Lemma linv_pc t st p st' p' i' :
  streams s !! t = Some (st, p) → hooked p = true → hooked p' = true → s_addr st' = s_addr st →
  let s' := mkLSt (stats s) (hist s) i' (<[t := (st', p')]> (streams s)) in
  ins_ok (hist s) (hks s) (streams s') i' → stream_ok s' t (st', p') →
  (∀ t2 st2, t2 ≠ t → due (hks s) i' t2 st2 = due (hks s) (ins s) t2 st2) → linv s'.
Proof.
  intros Ht Hp Hp' Ea s' Hn Hok Hd. apply linv_move; [apply Hi|done| |done..|].
  - intros a Ha. destruct (li_hooks _ Hi _ _ Ha) as (st2 & p2 & Ht2 & <- & _). by simplify_eq.
  - intros t2 st2 p2 Hne _. split; [done|]. intros _. left. by apply Hd.
Qed.

(** Only the insertion moves. *)
Lemma linv_ins i' :
  ins_ok (hist s) (hks s) (streams s) i' →
  (∀ t st p, streams s !! t = Some (st, p) → opened p = true →
     due (hks s) i' t st = due (hks s) (ins s) t st) →
  linv (mkLSt (stats s) (hist s) i' (streams s)).
Proof.
  intros Hins Hdue. destruct Hi as [Hl Hh Hn Hs]. split; [done..|]. intros t [st p] Hsp.
  eapply stream_ok_kept; [exact (Hs _ _ Hsp)|done..|]. simpl. split; [done|]. intros Ho. left. by eapply Hdue.
Qed.

Lemma ins_ok_streams h hk ss i t st st' p p' :
  ins_ok h hk ss i → ss !! t = Some (st, p) → p' ≠ LHook → s_addr st' = s_addr st →
  ins_ok h hk (<[t := (st', p')]> ss) i.
Proof.
  destruct i as [|x T b|x T ch]; [done..|]. intros (Hx & HT & st2 & p2 & Hch & Hp2 & Hn) Ht Hp' Ea. split_and!; [done..|].
  destruct (decide (ch = t)) as [->|Hne].
  - exists st', p'. rewrite lookup_insert_eq. unfold own in *. rewrite Ea.
    rewrite Ht in Hch. injection Hch as -> ->. by split_and!.
  - exists st2, p2. by rewrite lookup_insert_ne.
Qed.

(** A stream moves on its own, between two states in which it has received the same. *)
Lemma linv_local t st p st' p' :
  streams s !! t = Some (st, p) → hooked p = true → hooked p' = true → s_addr st' = s_addr st →
  s_since st' = s_since st → received st' p' = received st p → (opened p' = true → opened p = true) →
  linv (mkLSt (stats s) (hist s) (ins s) (<[t := (st', p')]> (streams s))).
Proof.
  intros Ht Hp Hp' Ea Es Er Ho. eapply linv_pc; [done..| | |done].
  - eapply ins_ok_streams; [apply Hi|done..|by destruct p'|done].
  - destruct (li_streams _ Hi _ _ Ht) as (H1 & H2 & H3). unfold stream_ok. simpl in *. rewrite Es, Er.
    split_and!; [done..|]. intros Ho'. replace (due _ _ t st') with (due (hks s) (ins s) t st).
    + unfold own. rewrite Ea. by apply H3, Ho.
    + symmetry. by apply due_addr.
Qed.

Lemma linv_connect t a :
  streams s !! t = None →
  linv (mkLSt (stats s) (hist s) (ins s) (<[t := (mkStream a (length (hist s)) [], LHook)]> (streams s))).
Proof.
  intros Ht. apply linv_move; [apply Hi|done|..].
  - intros b Hb. destruct (li_hooks _ Hi _ _ Hb) as (? & ? & ? & _). congruence.
  - pose proof (li_ins _ Hi) as Hn. destruct (ins s) as [|x T b|x T ch]; [done..|].
    destruct Hn as (? & ? & st & p & Hch & ?). split_and!; [done..|]. exists st, p. simpl.
    rewrite lookup_insert_ne by congruence. done.
  - split_and!; [done|apply prefix_nil|done].
  - intros t2 st2 p2 _ _. split; [done|]. intros _. by left.
Qed.

Lemma linv_insert item calls st' :
  ins s = IIdle → Stats.Add (stats s) item = Ok (calls, st') →
  linv (mkLSt st' (hist s ++ [item]) (IRange item (dom (hks s)) false) (streams s)).
Proof.
  intros Ei Ea. destruct Hi as [Hl Hh Hn Hs]. pose proof (Add_hooks _ _ _ _ Ea) as Ek.
  assert (Ek' : ∀ h i ss, hks (mkLSt st' h i ss) = hks s) by done.
  destruct (logged_Add _ _ item Hl) as (calls' & st'' & E' & Hl' & _). rewrite Ea in E'. injection E' as <- <-.
  split; rewrite ?Ek'; simpl; [done..|by rewrite last_snoc|].
  intros t [st p] Hsp. destruct (Hs _ _ Hsp) as (H2 & H3 & H4). unfold stream_ok. rewrite Ek'. simpl in *.
  rewrite length_app, drop_app_le by done. split_and!; [lia|by apply prefix_app_r|].
  intros Hp. destruct (H4 Hp) as [_ H5]. rewrite Ei in H5. simpl in H5. rewrite app_nil_r in H5.
  destruct (decide _) as [[Ho _]|Hno].
  - by rewrite H5.
  - rewrite app_nil_r. split; [by apply prefix_app_r|]. intros Ho. destruct Hno. split; [done|].
    apply elem_of_dom. by exists t.
Qed.

Lemma todo_subset : todo (ins s) ⊆ dom (hks s).
Proof.
  pose proof (li_ins _ Hi) as Hn. destruct (ins s) as [|x T b|x T ch]; simpl in *; [apply empty_subseteq|apply Hn..].
Qed.

(** A hook that the insertion will not visit is not among those left. *)
Lemma unseen_notin a :
  (hks s !! a ≠ None → false = bool_decide (a ∈ todo (ins s))) → a ∉ todo (ins s).
Proof.
  intros Hb Ha. destruct (hks s !! a) as [ch|] eqn:E.
  - specialize (Hb ltac:(done)). symmetry in Hb. by apply bool_decide_eq_false in Hb.
  - apply todo_subset, elem_of_dom in Ha. rewrite E in Ha. by destruct Ha.
Qed.

Lemma ins_ok_hook t st (seen : bool) st' :
  streams s !! t = Some (st, LHook) → s_addr st' = s_addr st → (seen = true → ins s ≠ IIdle) →
  ins_ok (hist s) (<[s_addr st := t]> (hks s)) (<[t := (st', LFlush)]> (streams s))
    (if seen then on_todo (λ T, {[s_addr st]} ∪ T) (ins s) else ins s).
Proof.
  intros Ht Ea Hseen.
  assert (Hsub : ∀ T, T ⊆ dom (hks s) →
    (if seen then {[s_addr st]} ∪ T else T) ⊆ dom (<[s_addr st := t]> (hks s))).
  { intros T HT. rewrite dom_insert_L. destruct seen; auto using todo_add, todo_keep. }
  pose proof (li_ins _ Hi) as Hn. destruct (ins s) as [|x T b|x T ch]; [by destruct seen|..].
  - destruct Hn as [Hx HT%Hsub]. by destruct seen.
  - destruct Hn as (Hx & HT & st2 & p2 & Hch & Hp2 & Ho). assert (t ≠ ch) as Hne by (intros ->; by simplify_eq).
    assert (ins_ok (hist s) (<[s_addr st := t]> (hks s)) (<[t := (st', LFlush)]> (streams s))
      (ISend x (if seen then {[s_addr st]} ∪ T else T) ch)) as Hok; [|by destruct seen].
    split_and!; [done|by apply Hsub|]. exists st2, p2. rewrite lookup_insert_ne by done. split_and!; [done..|].
    unfold own. destruct (decide (s_addr st2 = s_addr st)) as [E|E].
    + rewrite E, lookup_insert_eq. congruence.
    + rewrite lookup_insert_ne by done. intros Hk%Ho. destruct seen; [by rewrite todo_other|done].
Qed.

Lemma linv_hook t st (seen : bool) :
  streams s !! t = Some (st, LHook) → (seen = true → ins s ≠ IIdle) →
  (hks s !! s_addr st ≠ None → seen = bool_decide (s_addr st ∈ todo (ins s))) →
  linv (mkLSt (MakeLogChannel (stats s) (s_addr st) t) (hist s)
          (if seen then on_todo (λ T, {[s_addr st]} ∪ T) (ins s) else ins s)
          (<[t := (registered st (length (hist s)) seen, LFlush)]> (streams s))).
Proof.
  intros Ht Hseen Hold. pose proof (ins_ok_hook t st seen (registered st (length (hist s)) seen) Ht eq_refl Hseen) as Hio.
  assert (Hne : ∀ x T, ins s ≠ ISend x T t).
  { intros x T E. pose proof (li_ins _ Hi) as Hn. rewrite E in Hn. destruct Hn as (_ & _ & st2 & p2 & H2 & ? & _).
    by simplify_eq. }
  apply linv_move; unfold hks; simpl; [destruct (li_log _ Hi); by split|..|done| |].
  - intros a t'. destruct (decide (a = s_addr st)) as [->|?]; [rewrite lookup_insert_eq|by rewrite lookup_insert_ne].
    congruence.
  - intros a. destruct (decide (a = s_addr st)) as [->|?]; [done|]. rewrite lookup_insert_ne by done.
    intros H. destruct (li_hooks _ Hi _ _ H) as (st2 & p2 & H2 & _ & Hp2). by simplify_eq.
  - unfold stream_ok, hks. simpl. split_and!; [by destruct seen; lia|apply prefix_nil|]. intros _.
    enough (due (<[s_addr st := t]> (hks s)) (if seen then on_todo (λ T, {[s_addr st]} ∪ T) (ins s) else ins s) t
      (registered st (length (hist s)) seen) = drop (if seen then length (hist s) - 1 else length (hist s)) (hist s)) as E
      by (unfold hks in E; by rewrite E).
    destruct seen.
    + pose proof (li_ins _ Hi) as Hn. destruct (ins s) as [|x T b|x T ch]; [by destruct Hseen|..]; simpl;
        rewrite decide_True by (try right; split; [apply lookup_insert_eq|apply todo_in]); symmetry; apply drop_last, Hn.
    + rewrite drop_all. pose proof (unseen_notin _ Hold) as Hno. destruct (ins s) as [|x T b|x T ch]; simpl in *; [done|..];
        rewrite decide_False; naive_solver.
  - intros t2 st2 p2 Ht2 _. rewrite <-(on_todo_id (ins s)) at 3. destruct seen; apply (kept_elsewhere _ _ _ _ (s_addr st)).
    all: try by intros; rewrite lookup_insert_ne.
    all: try by rewrite lookup_insert_eq; congruence.
    all: try done.
    intros T b Hb. by apply todo_other.
Qed.

Lemma linv_iter item T b b' :
  ins s = IRange item T b → linv (mkLSt (stats s) (hist s) (IRange item T b') (streams s)).
Proof.
  intros Ei. pose proof (li_ins _ Hi) as Hn. rewrite Ei in Hn. apply linv_ins; [done|]. intros. by rewrite Ei.
Qed.

Lemma linv_next item T b a ch :
  ins s = IRange item T b → a ∈ T → hks s !! a = Some ch →
  linv (mkLSt (stats s) (hist s) (ISend item (T ∖ {[a]}) ch) (streams s)).
Proof.
  intros Ei Ha Hk. pose proof (li_ins _ Hi) as Hn. rewrite Ei in Hn. destruct Hn as [Hx HT].
  destruct (li_hooks _ Hi _ _ Hk) as (st & p & Hst & Ea & Hp). apply linv_ins.
  - split_and!; [done|by apply todo_sub|]. exists st, p. split_and!; [done|by destruct p|]. intros _. rewrite Ea. apply todo_gone.
  - intros t st2 p2 Ht _. rewrite Ei. simpl. apply decide_ext. unfold own. destruct (decide (s_addr st2 = a)) as [E|Hne].
    + rewrite E in *. split; [|by left; naive_solver]. intros [->|[_ []%todo_gone]]. done.
    + rewrite todo_minus by done. split; [|by right]. intros [->|?]; [|done]. by simplify_eq.
Qed.

Lemma due_other item T b ch t st : t ≠ ch → due (hks s) (IRange item T b) t st = due (hks s) (ISend item T ch) t st.
Proof. intros Hne. simpl. apply decide_ext. naive_solver. Qed.

Lemma linv_sent item T t st :
  ins s = ISend item T t → streams s !! t = Some (st, LSelect) →
  linv (mkLSt (stats s) (hist s) (IRange item T false) (<[t := (st, LWrite item)]> (streams s))).
Proof.
  intros Ei Ht. pose proof (li_ins _ Hi) as Hn. rewrite Ei in Hn. destruct Hn as (Hx & HT & st2 & p2 & H2 & _ & Ho).
  simplify_eq. destruct (li_streams _ Hi _ _ Ht) as (H1 & _ & H3). simpl in *. destruct (H3 eq_refl) as [H4 H5].
  rewrite Ei in H4, H5. simpl in H4, H5. rewrite decide_True in H4, H5 by auto.
  eapply linv_pc; [done..| |]; simpl.
  - split_and!; [done..|]. intros _. simpl. rewrite decide_False by naive_solver. by rewrite app_nil_r.
  - intros t2 st2 Hne. rewrite Ei. by apply (due_other _ _ false).
Qed.

Lemma linv_recover item T ch st p :
  ins s = ISend item T ch → streams s !! ch = Some (st, p) → closed p = true →
  linv (mkLSt (stats s) (hist s) (IRange item T false) (streams s)).
Proof.
  intros Ei Ht Hc. pose proof (li_ins _ Hi) as Hn. rewrite Ei in Hn. destruct Hn as (Hx & HT & _). apply linv_ins; [done..|].
  intros t2 st2 p2 Ht2 Hs2. rewrite Ei. apply (due_other _ _ false). intros ->. rewrite Ht in Ht2. injection Ht2 as -> ->.
  by destruct p2.
Qed.

Lemma linv_inserted item b : ins s = IRange item ∅ b → linv (mkLSt (stats s) (hist s) IIdle (streams s)).
Proof.
  intros Ei. apply linv_ins; [done..|]. intros t st p _ _. rewrite Ei. simpl. rewrite decide_False; [done|].
  by intros [_ []%not_elem_of_empty].
Qed.

Lemma linv_unhook t st :
  streams s !! t = Some (st, LUnhook) →
  linv (mkLSt (CloseLogChannel (stats s) (s_addr st)) (hist s)
          (on_todo (λ T, T ∖ {[s_addr st]}) (ins s)) (<[t := (st, LEnd)]> (streams s))).
Proof.
  intros Ht. apply linv_move; unfold hks; simpl; [destruct (li_log _ Hi); by split|..].
  - by intros a t' [_ H]%lookup_delete_Some.
  - intros a [Hne H]%lookup_delete_Some. destruct (li_hooks _ Hi _ _ H) as (st2 & p2 & H2 & ? & Hp2).
    by simplify_eq.
  - pose proof (li_ins _ Hi) as Hn. destruct (ins s) as [|x T b|x T ch]; simpl in *; rewrite ?dom_delete_L; [done|..].
    + destruct Hn as [? HT]. split; [done|by apply todo_drop].
    + destruct Hn as (Hx & HT & st2 & p2 & H2 & Hp2 & Ho). split_and!; [done|by apply todo_drop|].
      destruct (decide (ch = t)) as [->|Hne]; [exists st, LEnd|exists st2, p2];
        rewrite ?lookup_insert_eq, ?lookup_insert_ne by done; (split_and!; [done..|]); unfold own.
      * by rewrite lookup_delete_eq.
      * intros [_ Hk]%lookup_delete_Some. intros HT'%todo_sub'. by apply Ho.
  - destruct (li_streams _ Hi _ _ Ht) as (H1 & H2 & _). by split_and!.
  - intros t2 st2 p2 Hne _. apply (kept_elsewhere _ _ _ _ (s_addr st)).
    + intros b Hb. by rewrite lookup_delete_ne.
    + intros T b Hb. by apply todo_minus.
    + by rewrite lookup_delete_eq.
Qed.
End preservation.

Lemma linv_step w s s' : linv s → lstep w s s' → linv s'.
Proof.
  intros Hi Hst. destruct Hst.
  - by apply linv_connect.
  - by apply linv_hook.
  - by eapply linv_local.
  - by eapply linv_insert.
  - by eapply linv_iter.
  - by eapply linv_next.
  - by apply linv_sent.
  - by eapply linv_recover.
  - by eapply linv_inserted.
  - by eapply linv_local.
  - by eapply linv_local.
  - by eapply linv_local.
  - by eapply linv_local.
  - by apply linv_unhook.
Qed.

Lemma linv_reachable s0 s :
  logged (stats s0) (hist s0) → hks s0 = ∅ → ins s0 = IIdle → streams s0 = ∅ → rtc lgo s0 s → linv s.
Proof.
  intros Hl Hk Hn Hs Hr. assert (Hi : linv s0).
  { split; [done|by rewrite Hk|by rewrite Hn|rewrite Hs; apply map_Forall_empty]. }
  clear Hl Hk Hn Hs. induction Hr as [|s1 s2 s3 [[w Hw] _] _ IH]; [done|]. apply IH. by eapply linv_step.
Qed.

(** ** Streams with addresses of their own *)

Definition owned (s : LSt) : Prop :=
  map_Forall (λ t x, hooked x.2 = true → own (hks s) t x.1) (streams s).

Lemma distinct_same s t st p t' st' p' :
  distinct s → streams s !! t = Some (st, p) → streams s !! t' = Some (st', p') →
  live p = true → live p' = true → s_addr st' = s_addr st → t' = t.
Proof. intros Hd Ht Ht' Hp Hp' Ea. exact (Hd _ _ Ht Hp _ _ Ht' Hp' Ea). Qed.

Lemma owned_move s s' t st p st' p' :
  owned s → streams s !! t = Some (st, p) → streams s' = <[t := (st', p')]> (streams s) →
  (hooked p' = true → own (hks s') t st') →
  (∀ t2 st2, t2 ≠ t → (∃ p2, streams s !! t2 = Some (st2, p2) ∧ hooked p2 = true) →
     own (hks s) t2 st2 → own (hks s') t2 st2) → owned s'.
Proof.
  intros Ho Ht Es Hn Hr t2 [st2 p2]. rewrite Es. destruct (decide (t2 = t)) as [->|Hne].
  - rewrite lookup_insert_eq. by intros [= <- <-].
  - rewrite lookup_insert_ne by done. intros H2 Hp2. apply Hr; [done|by exists p2|]. exact (Ho _ _ H2 Hp2).
Qed.

(** A hooked stream keeps its hook through a step that leaves the hooks alone. *)
Lemma owned_pc s i t st p st' p' :
  owned s → streams s !! t = Some (st, p) → hooked p = true → s_addr st' = s_addr st →
  owned (mkLSt (stats s) (hist s) i (<[t := (st', p')]> (streams s))).
Proof.
  intros Ho Ht Hp Ea. eapply owned_move; [exact Ho|exact Ht|done| |done]. intros _. unfold own. simpl. rewrite Ea. exact (Ho _ _ Ht Hp).
Qed.

Lemma owned_elsewhere s t st p t2 st2 :
  distinct s → streams s !! t = Some (st, p) → live p = true → t2 ≠ t →
  (∃ p2, streams s !! t2 = Some (st2, p2) ∧ hooked p2 = true) → s_addr st2 ≠ s_addr st.
Proof.
  intros Hd Ht Hp Hne (p2 & H2 & Hp2) Ea. apply Hne. eapply (distinct_same s t st p t2 st2 p2); try done. by destruct p2.
Qed.

Lemma owned_step w s s' : owned s → distinct s → lstep w s s' → owned s'.
Proof.
  intros Ho Hd Hst. destruct Hst as [s t a Ht|s t st seen Ht| |s item calls st' Ei Ea| | | | | | | | | |s t st Ht];
    try exact Ho; try by eapply owned_pc.
  - intros t2 [st2 p2]. simpl. destruct (decide (t2 = t)) as [->|Hne].
    + rewrite lookup_insert_eq. by intros [= <- <-].
    + rewrite lookup_insert_ne by done. apply Ho.
  - eapply owned_move; [exact Ho|exact Ht|done|..]; unfold own, hks; simpl; [by rewrite lookup_insert_eq|].
    intros t2 st2 Hne H2 Hk. rewrite lookup_insert_ne; [done|]. apply not_eq_sym. by eapply owned_elsewhere.
  - intros t2 x H2 Hp. unfold own, hks. simpl. rewrite (Add_hooks _ _ _ _ Ea). exact (Ho _ _ H2 Hp).
  - eapply owned_move; [exact Ho|exact Ht|done|..]; unfold own, hks; simpl; [done|].
    intros t2 st2 Hne H2 Hk. rewrite lookup_delete_ne; [done|]. apply not_eq_sym. by eapply owned_elsewhere.
Qed.

Lemma owned_reachable s0 s : streams s0 = ∅ → rtc ldistinct s0 s → owned s.
Proof.
  intros E Hr. assert (owned s0 ∧ distinct s0) as [Ho Hd] by (unfold owned, distinct; by rewrite E).
  clear E. revert Ho Hd. induction Hr as [|s1 s2 s3 [[[w Hw] _] Hd2] _ IH]; [done|]. intros Ho Hd.
  apply IH; [by eapply owned_step|done].
Qed.

(** Two clients of a UNIX socket have one address: the second registration
    replaces the first, and when the first client leaves nobody is served. *)
Lemma shared_address_loses_stream (st : StatsHandler nat) a t1 t2 :
  hooks (connections (MakeLogChannel (MakeLogChannel st a t1) a t2)) !! a = Some t2
  ∧ hooks (connections (CloseLogChannel (MakeLogChannel (MakeLogChannel st a t1) a t2) a)) !! a = None.
Proof. simpl. by rewrite lookup_insert_eq, lookup_delete_eq. Qed.

(** ** A client that does not read *)

Definition to_client (p : LPc) : bool := match p with LFlush | LWrite _ => true | _ => false end.

(** The insertion of [x] waits for the stream [ch], which writes to its client. *)
Definition held_by (s : LSt) (ch : nat) (x : ConnectionLog) : Prop :=
  ∃ T st p, ins s = ISend x T ch ∧ streams s !! ch = Some (st, p) ∧ to_client p = true.

(** As long as no write to a client completes, whatever else the goroutines do,
    the insertion waits with the lock held, and no other item is logged. *)
Lemma stalled_client_holds_insertion w s s' ch x :
  held_by s ch x → lstep w s s' → w ≠ Net → held_by s' ch x.
Proof.
  intros (T & st & p & Ei & Hch & Hp) Hst Hw.
  assert (Hmove : ∀ t st1 p1 st2 p2 stats' f, streams s !! t = Some (st1, p1) → to_client p1 = false →
    held_by (mkLSt stats' (hist s) (on_todo f (ins s)) (<[t := (st2, p2)]> (streams s))) ch x).
  { intros t st1 p1 st2 p2 stats' f Ht Hp1. exists (f T), st, p. simpl. rewrite Ei.
    rewrite lookup_insert_ne; [done|]. intros ->. congruence. }
  assert (Hstay : ∀ t st1 p1 st2 p2, streams s !! t = Some (st1, p1) → to_client p1 = false →
    held_by (mkLSt (stats s) (hist s) (ins s) (<[t := (st2, p2)]> (streams s))) ch x).
  { intros t st1 p1 st2 p2 Ht Hp1. rewrite <-(on_todo_id (ins s)). by eapply Hmove. }
  destruct Hst as [s t a Ht|s t st1 seen Ht ? ?| | | | |s item T' ch' st1 Ei' Ht|s item T' ch' st1 p1 Ei' Ht Hc| | | | | |]; try done;
    try congruence; try by eapply Hstay.
  - exists T, st, p. simpl. rewrite lookup_insert_ne; [done|]. intros ->. congruence.
  - destruct seen; [|rewrite <-(on_todo_id (ins s))]; apply (Hmove _ _ _ _ _ _ _ Ht); done.
  - rewrite Ei in Ei'. injection Ei' as <- <- <-. by simplify_eq.
  - rewrite Ei in Ei'. injection Ei' as <- <- <-. assert (p1 = p) as -> by congruence. by destruct p.
  - by eapply Hmove.
Qed.

(** ** Termination *)













(** ** Properties *)

Section properties.
Context (st0 : StatsHandler nat) (h0 : list ConnectionLog).

(** No stream is connected yet. *)
Definition at_start : LSt := mkLSt st0 h0 IIdle ∅.

(** C21: while log clients come and go and queries are logged, as long as the
    unlocked accesses to the hook map do not overlap, the buffer holds the items
    logged, and each stream has received, in order and without a gap or a
    repetition, a prefix of the items logged since it was registered; a stream
    whose channel is open and whose hook was not replaced or removed by another
    one with its address has received all of them but the one that the running
    insertion still has to send it.  If the clients connected at a time have
    different addresses, every open stream has its hook. *)
Theorem streams_deliver_log_in_order s :
  logged st0 h0 → hooks (connections st0) = ∅ → rtc lgo at_start s →
  logged (stats s) (hist s)
  ∧ (∀ t st p, streams s !! t = Some (st, p) →
      received st p `prefix_of` drop (s_since st) (hist s)
      ∧ (opened p = true → hks s !! s_addr st = Some t →
           received st p ++ due (hks s) (ins s) t st = drop (s_since st) (hist s)))
  ∧ (rtc ldistinct at_start s → ∀ t st p, streams s !! t = Some (st, p) →
      opened p = true → hks s !! s_addr st = Some t).
Proof.
  intros Hl Hk Hr. pose proof (linv_reachable at_start s Hl Hk eq_refl eq_refl Hr) as Hi. split_and!; [apply Hi|..].
  - intros t st p Ht. destruct (li_streams _ Hi _ _ Ht) as (_ & ? & H3). split; [done|]. intros Ho. by apply H3.
  - intros Hd t st p Ht Hp. apply (owned_reachable at_start s eq_refl Hd _ _ Ht). by destruct p.
Qed.

End properties.

(** A stream is registered, an item is logged and sent to it; the client leaves
    while the next item is on its way, and the send on the closed channel is
    recovered. *)
Definition sample_stats : StatsHandler nat := mkStats (mkBuffer ∅ (replicate 2 zero_log) 2 0 0).
Definition sample_item (c : string) : ConnectionLog := mkLog 0 c "a." "A" 0 5 true false false false.

Lemma sample_stats_logged : logged sample_stats [].
Proof. split; simpl; try done; lia. Qed.

Definition sample_hooked (b : list ConnectionLog) (pos len : Z) : StatsHandler nat :=
  mkStats (mkBuffer {[ "c" := 0 ]} b 2 pos len).

(** The first item is being sent to the stream. *)
Definition sample_sending : LSt :=
  mkLSt (sample_hooked [sample_item "x"; zero_log] 1 1) [sample_item "x"]
    (ISend (sample_item "x") ∅ 0) {[ 0 := (mkStream "c" 0 [], LSelect) ]}.
(** It was received, and the insertion is over. *)
Definition sample_received : LSt :=
  mkLSt (sample_hooked [sample_item "x"; zero_log] 1 1) [sample_item "x"]
    IIdle {[ 0 := (mkStream "c" 0 [], LWrite (sample_item "x")) ]}.
(** The second item is being sent to the stream, whose client has left. *)
Definition sample_left : LSt :=
  mkLSt (sample_hooked [sample_item "x"; sample_item "y"] 0 2) [sample_item "x"; sample_item "y"]
    (ISend (sample_item "y") ∅ 0) {[ 0 := (mkStream "c" 0 [sample_item "x"], LClosed) ]}.

Lemma rtc_to {R : relation LSt} (s1 s2 s3 : LSt) : rtc R s1 s2 → s2 = s3 → rtc R s1 s3.
Proof. by intros ? <-. Qed.

Lemma lgo_intro w s s' : lstep w s s' → bool_decide (apart s') = true → lgo s s'.
Proof. intros H Ha%bool_decide_eq_true. by split; [exists w|]. Qed.
Lemma ldistinct_intro w s s' :
  lstep w s s' → bool_decide (apart s') = true → bool_decide (distinct s') = true → ldistinct s s'.
Proof. intros H Ha Hd%bool_decide_eq_true. split; [by eapply lgo_intro|done]. Qed.

(** Take the step [r] of a closed state. *)
Ltac premise := first [done|by vm_compute|by intros []|by eauto].
Tactic Notation "go" constr(i) uconstr(r) := eapply rtc_l; [eapply i; [eapply r; premise|premise..]|].
Ltac arrived := eapply rtc_to; [apply rtc_refl|by vm_compute].

Lemma sample_run1 : rtc ldistinct (at_start sample_stats []) sample_sending.
Proof.
  go ldistinct_intro (l_connect (at_start sample_stats []) 0 "c").
  go ldistinct_intro (l_hook _ 0 (mkStream "c" 0 []) false).
  go ldistinct_intro (l_flush _ 0 (mkStream "c" 0 [])).
  eapply rtc_l; [eapply ldistinct_intro; [by eapply (l_insert _ (sample_item "x"))|premise..]|].
  eapply rtc_l; [eapply ldistinct_intro; [by eapply (l_iter _ (sample_item "x"))|premise..]|].
  go ldistinct_intro (l_next _ (sample_item "x") {["c"]} "c" 0). arrived.
Qed.

Lemma sample_run2 : rtc ldistinct sample_sending sample_received.
Proof.
  go ldistinct_intro (l_sent sample_sending (sample_item "x") ∅ 0 (mkStream "c" 0 [])).
  go ldistinct_intro (l_iter _ (sample_item "x") ∅). go ldistinct_intro (l_inserted _ (sample_item "x")). arrived.
Qed.

Lemma sample_run3 : rtc ldistinct sample_received sample_left.
Proof.
  go ldistinct_intro (l_write sample_received 0 (mkStream "c" 0 []) (sample_item "x")).
  eapply rtc_l; [eapply ldistinct_intro; [by eapply (l_insert _ (sample_item "y"))|premise..]|].
  eapply rtc_l; [eapply ldistinct_intro; [by eapply (l_iter _ (sample_item "y"))|premise..]|].
  go ldistinct_intro (l_next _ (sample_item "y") {["c"]} "c" 0).
  go ldistinct_intro (l_hangup _ 0 (mkStream "c" 0 [sample_item "x"])).
  go ldistinct_intro (l_close _ 0 (mkStream "c" 0 [sample_item "x"])). arrived.
Qed.


Lemma sample_run : rtc ldistinct (at_start sample_stats []) sample_left.
Proof. etrans; [exact sample_run1|]. etrans; [exact sample_run2|exact sample_run3]. Qed.

Lemma ldistinct_lgo s s' : rtc ldistinct s s' → rtc lgo s s'.
Proof. apply rtc_subrel. by intros x y [H _]. Qed.


(** A client connects while [Insert] iterates over the hooks: the code lets the
    registration write the map during the iteration. *)
Lemma overlap_reachable : ∃ s s', rtc lgo (at_start sample_stats []) s ∧ lstep Arrival s s' ∧ ¬ apart s'.
Proof.
  do 2 eexists. split_and!.
  - eapply rtc_l; [eapply lgo_intro; [by eapply (l_insert _ (sample_item "x"))|premise..]|].
    eapply rtc_l; [eapply lgo_intro; [by eapply (l_iter _ (sample_item "x"))|premise..]|]. apply rtc_refl.
  - by apply (l_connect _ 0 "c").
  - apply (bool_decide_eq_false _). by vm_compute.
Qed.

(** The client of the log page stops reading while the first item is written to
    it: the insertion of the next item waits for it. *)
Lemma stalled_client_reachable :
  ∃ s, rtc lgo (at_start sample_stats []) s ∧ held_by s 0 (sample_item "y").
Proof.
  eexists. split.
  - etrans; [apply ldistinct_lgo; etrans; [exact sample_run1|exact sample_run2]|].
    eapply rtc_l; [eapply lgo_intro; [by eapply (l_insert _ (sample_item "y"))|premise..]|].
    eapply rtc_l; [eapply lgo_intro; [by eapply (l_iter _ (sample_item "y"))|premise..]|].
    go lgo_intro (l_next _ (sample_item "y") {["c"]} "c" 0). apply rtc_refl.
  - do 3 eexists. split_and!; by vm_compute.
Qed.

Lemma streams_deliver_log_in_order_witness :
  [sample_item "x"] `prefix_of` drop 0 (hist sample_left)
  ∧ [] ++ [sample_item "x"] = drop 0 (hist sample_sending) ∧ hks sample_sending !! "c" = Some 0.
Proof.
  pose proof (streams_deliver_log_in_order sample_stats [] sample_left sample_stats_logged eq_refl
    (ldistinct_lgo _ _ sample_run)) as (_ & H & _).
  pose proof (streams_deliver_log_in_order sample_stats [] sample_sending sample_stats_logged eq_refl
    (ldistinct_lgo _ _ sample_run1)) as (_ & H2 & H3).
  split_and!.
  - exact (proj1 (H 0 (mkStream "c" 0 [sample_item "x"]) LClosed eq_refl)).
  - exact (proj2 (H2 0 (mkStream "c" 0 []) LSelect eq_refl) eq_refl eq_refl).
  - exact (H3 sample_run1 0 (mkStream "c" 0 []) LSelect eq_refl eq_refl).
Defined.

