(* ===== verification/ConfigLoad.v ===== *)
(** * From options to run-time state (config/userconfig.go, server/server.go)

    [UpdateBlockList] fills a block list from the options, [GetProxyConfig]
    fills a [ProxyConfig], and [refresh_blocklist] is one turn of the refresh
    loop of [StartServer].  The code runs in the monad [B] over the
    configuration being built and a counter: errors end the computation with
    the configuration as it is then, [log.Fatal] ends the process.  The zone
    parser and the text form of durations are parameters; [stamp] gives the random
    identifier and clock readings of the n-th [AddRR] call, and the counter also
    numbers the channels of new DoT resolvers. *)

From S2P Require Import Prelude GoStrings GoNet GoTime Dns Samples BlockList Cache CircularBuffer Stats.
From S2P Require Import Resolver Logger Config Util Proxy ProxySpec.
Set Default Goal Selector "!".
Local Open Scope string_scope.

(** ** The block list *)
Section blocklist.
Context {U : GoUnicode} {L : DnsLib} {O : Os}.

Fixpoint add_entries (es : list string) (b : BlockList) : error * BlockList :=
  match es with
  | [] => (None, b)
  | e :: es =>
      let '(err, b) := AddEntry b e TypeANY in
      match err with Some _ => (err, b) | None => add_entries es b end
  end.

(** The loops over files and URLs, with the line function [f]. *)
Fixpoint read_lists (f : BlockList → string → error * BlockList) (urls : list string) (b : BlockList)
    : error * BlockList :=
  match urls with
  | [] => (None, b)
  | u :: urls =>
      let '(_, err, b) := URLReader u f b in
      match err with Some _ => (err, b) | None => read_lists f urls b end
  end.

Fixpoint delete_trees (names : list string) (b : BlockList) : res BlockList :=
  match names with
  | [] => Ok b
  | v :: names => '(_, b) ← DeleteTree b v; delete_trees names b
  end.

Definition UpdateBlockList (uc : UserConfig) (bl : BlockList) : res (error * BlockList) :=
  let '(err, bl) := add_entries (u_Block uc) bl in
  if err then Ok (err, bl) else
  let '(err, bl) := read_lists (MakeBlockListReaderf TypeANY) (u_Blocklist uc) bl in
  if err then Ok (err, bl) else
  let '(err, bl) := read_lists (MakeBlockListReaderf TypeAAAA) (u_BlocklistAAAA uc) bl in
  if err then Ok (err, bl) else
  let '(err, bl) := read_lists MakeBlockListHostsReaderf (u_BlocklistFromHosts uc) bl in
  if err then Ok (err, bl) else
  bl ← delete_trees (u_BlockDelete uc) bl;
  Ok (None, bl).

(** One turn of the refresh loop: the list is replaced only when the whole
    update succeeds. *)
Definition refresh_blocklist {R Chan} (uc : UserConfig) (c : ProxyConfig R Chan)
    : res (error * ProxyConfig R Chan) :=
  '(err, newBL) ← UpdateBlockList uc BlockList.New;
  match err with
  | Some _ => Ok (err, c)
  | None => Ok (None, set_BlockList c newBL)
  end.
End blocklist.

(** ** The configuration *)

(** How a step ends early. *)
Inductive Failure := Err (msg : string) | Fatal (msg : string).

Section config.
Context {U : GoUnicode} {L : DnsLib} {O : Os} {Chan : Type}.
(** [dns.NewZoneParser]: the records before the end or the error, and the error. *)
Context (ZoneParser : Reader → list RR * option string).
Context (ParseDuration : string → string + Duration) (Duration_String : Duration → string).
Context (stamp : nat → Stamp).

Record BSt := mkBSt { conf : ProxyConfig AnyResolver Chan; calls : nat }.

Definition B (A : Type) : Type := BSt → res ((Failure + A) * BSt).
#[export] Instance B_ret : MRet B := λ A a s, Ok (inr a, s).
#[export] Instance B_bind : MBind B := λ A C f m s,
  match m s with
  | Ok (inr a, s) => f a s
  | Ok (inl e, s) => Ok (inl e, s)
  | Panic => Panic
  end.

Definition fail {A} (e : Failure) : B A := λ s, Ok (inl e, s).
Definition get : B (ProxyConfig AnyResolver Chan) := λ s, Ok (inr (conf s), s).
Definition put (c : ProxyConfig AnyResolver Chan) : B unit := λ s, Ok (inr tt, mkBSt c (calls s)).
Definition modify (f : ProxyConfig AnyResolver Chan → ProxyConfig AnyResolver Chan) : B unit :=
  λ s, Ok (inr tt, mkBSt (f (conf s)) (calls s)).
Definition next : B nat := λ s, Ok (inr (calls s), mkBSt (conf s) (S (calls s))).
Definition liftB {A} (r : res A) : B A :=
  λ s, match r with Ok a => Ok (inr a, s) | Panic => Panic end.

Fixpoint for_each {X} (l : list X) (f : X → B unit) : B unit :=
  match l with
  | [] => mret tt
  | x :: l => _ ← f x; for_each l f
  end.

(** An [error] value becomes an early return. *)
Definition check (e : error) : B unit := match e with Some m => fail (Err m) | None => mret tt end.

Definition add_listen (v : string) : B unit :=
  r ← liftB (ParseAddr v 53);
  match r with
  | inl e => fail (Err e)
  | inr addrs => modify (λ c, set_ListenAddr c (c_ListenAddr c ++ addrs)%list)
  end.

(** The resolver an option names. *)
Definition make_upstream (ch : positive) (v : string) : AnyResolver :=
  if HasPrefix v "https://" then RDoh (NewDohResolver v)
  else if HasPrefix v "tls://" then
    RDot (NewDotResolver ch (if re_port v then v else v +:+ ":853"))
  else RUdp (NewUdpResolver (if re_port v then v else v +:+ ":53")).

Definition add_upstream (v : string) : B unit :=
  n ← next;
  modify (λ c, set_Upstream c (c_Upstream c ++ [make_upstream (Pos.of_succ_nat n) v])%list).

Definition update_blocklist (uc : UserConfig) : B unit :=
  c ← get;
  '(err, bl) ← liftB (UpdateBlockList uc (c_BlockList c));
  _ ← modify (λ c, set_BlockList c bl);
  check err.

Definition add_rr_string (ptr : bool) (v : string) : B unit :=
  i ← next; j ← next; c ← get;
  let '(err, ca) := AddRRString (stamp i) (stamp j) (c_Cache c) v true ptr in
  _ ← put (set_Cache c ca);
  check err.

Definition add_zone (v : string) : B unit :=
  match UrlOpen v with
  | inl e => fail (Err e)
  | inr f =>
      let '(rrs, err) := ZoneParser f in
      _ ← for_each rrs (λ rr,
            i ← next;
            modify (λ c, set_Cache c (AddRR (stamp i) (c_Cache c) (Some rr) true).2));
      check err
  end.

Definition add_acl (v : string) : B unit :=
  match ParseCIDR v with
  | None => fail (Err ("ACL Error (" +:+ v +:+ "): invalid CIDR address: " +:+ v))
  | Some (_, cidr) => modify (λ c, set_Acl c (c_Acl c ++ [cidr])%list)
  end.

Definition set_dns64 (uc : UserConfig) : B unit :=
  if u_Dns64 uc then
    _ ← modify (λ c, set_Dns64 c true);
    let p := u_Dns64Prefix uc in
    if bool_decide (p = "") then mret tt
    else match ParseCIDR p with
         | None => fail (Err ("Dns64 Prefix Error (" +:+ p +:+ "): invalid CIDR address: " +:+ p))
         | Some (_, ipv6Net) =>
             let '(ones, bits) := Mask_Size (IPNet_Mask ipv6Net) in
             if negb (ones =? 96)%Z || negb (bits =? 128)%Z
             then fail (Err ("Dns64 Prefix Error (" +:+ p +:+ "): Invalid prefix"))
             else modify (λ c, set_Dns64Prefix c ipv6Net)
         end
  else mret tt.

Definition add_doh (v : string) : B unit :=
  r ← liftB (ParseAddr v 443);
  match r with
  | inl e => fail (Err e)
  | inr addrs => modify (λ c, set_DohBind c (c_DohBind c ++ addrs)%list)
  end.

Definition set_api_doh (uc : UserConfig) : B unit :=
  _ ← modify (λ c, set_Api c (u_Api uc));
  _ ← (if bool_decide (u_ApiBind uc = "") then mret tt else modify (λ c, set_ApiBind c (u_ApiBind uc)));
  _ ← for_each (u_Doh uc) add_doh;
  _ ← modify (λ c, set_DohKey (set_DohCert c (u_DohCert uc)) (u_DohKey uc));
  if bool_decide (u_DohPath uc = "") then mret tt else modify (λ c, set_DohPath c (u_DohPath uc)).

Definition set_refresh (uc : UserConfig) : B unit :=
  _ ← modify (λ c, set_Refresh c (u_Refresh uc));
  let v := u_RefreshInterval uc in
  if bool_decide (v = "") then mret tt
  else match ParseDuration v with
       | inl e => fail (Err e)
       | inr d => if (d <? Second)%Z then fail (Err ("Invalid duration: " +:+ Duration_String d))
                  else modify (λ c, set_RefreshInterval c d)
       end.

Definition set_log (uc : UserConfig) : B unit :=
  if u_Discard uc then modify (λ c, set_Log c (NewDiscard false))
  else if u_Syslog uc then
    match NewSyslog syslog_New Args0 (u_Debug uc) with
    | inl e => fail (Fatal e)
    | inr h => modify (λ c, set_Log c h)
    end
  else modify (λ c, set_Log c (NewStderr (u_Debug uc))).

Definition set_setuid (uc : UserConfig) : B unit :=
  if bool_decide (u_Setuid uc = "") then mret tt
  else if negb (Getuid =? 0)%Z then fail (Fatal "setuid: Must be running as root")
  else
    _ ← modify (λ c, set_Setuid c true);
    match SplitId (u_Setuid uc) with
    | inl e => fail (Fatal ("setuid: " +:+ e))
    | inr (uid, gid) => modify (λ c, set_SetuidGid (set_SetuidUid c uid) gid)
    end.

Definition GetProxyConfig (uc : UserConfig) : B unit :=
  _ ← for_each (u_Listen uc) add_listen;
  _ ← for_each (u_Upstream uc) add_upstream;
  _ ← update_blocklist uc;
  _ ← for_each (u_LocalRR uc) (add_rr_string false);
  _ ← for_each (u_LocalRRPtr uc) (add_rr_string true);
  _ ← for_each (u_Localzone uc) add_zone;
  _ ← for_each (u_Acl uc) add_acl;
  _ ← set_dns64 uc;
  _ ← set_api_doh uc;
  _ ← set_refresh uc;
  _ ← set_log uc;
  _ ← set_setuid uc;
  modify (λ c, set_UserConfig c (Some uc)).
End config.

(** ** What the block list becomes *)
Section blocklist_spec.
Context {U : GoUnicode} {L : DnsLib} {O : Os}.

(** The rule that a line of a list, respectively of a hosts file, denotes. *)
Definition line_rule (q : Z) (line : string) : option (list string * Z) :=
  let l := TrimSpace line in if skip_line l then None else entry_rule l q.

Definition hosts_rule (line : string) : option (list string * Z) :=
  let l := TrimSpace line in
  if skip_line l then None
  else match re_ws_Split3 l with
       | ip :: domain :: _ =>
           if negb (bool_decide (ip = "0.0.0.0")) || bool_decide (domain = "0.0.0.0") then None
           else entry_rule domain TypeANY
       | _ => None
       end.

(** The text behind a URL or a file name has this line. *)
Definition has_line (url line : string) : Prop := ∃ r, UrlOpen url = inr r ∧ line ∈ (Scanner r).1.

(** The rules the options ask for, before deletions. *)
Definition asked (uc : UserConfig) (r : list string * Z) : Prop :=
  (∃ e, e ∈ u_Block uc ∧ entry_rule e TypeANY = Some r)
  ∨ (∃ u l, u ∈ u_Blocklist uc ∧ has_line u l ∧ line_rule TypeANY l = Some r)
  ∨ (∃ u l, u ∈ u_BlocklistAAAA uc ∧ has_line u l ∧ line_rule TypeAAAA l = Some r)
  ∨ (∃ u l, u ∈ u_BlocklistFromHosts uc ∧ has_line u l ∧ hosts_rule l = Some r).

(** A line function adds the rule its line denotes and keeps the list reachable. *)
Definition adds (f : BlockList → string → error * BlockList) (rule : string → option (list string * Z)) : Prop :=
  ∀ b l r, reachable b →
    reachable (f b l).2 ∧ (r ∈ Rules (f b l).2 ↔ r ∈ Rules b ∨ rule l = Some r).

Lemma AddEntry_adds q : adds (λ b e, AddEntry b e q) (λ e, entry_rule e q).
Proof.
  intros b e r Hb. split; [auto with dino|]. pose proof (AddEntry_rule b e q) as H.
  destruct (entry_rule e q) as [r'|].
  - destruct H as (b' & -> & Hr). simpl. rewrite Hr, elem_of_union, elem_of_singleton. naive_solver.
  - destruct H as [m ->]. naive_solver.
Qed.

Lemma Readerf_adds q : adds (MakeBlockListReaderf q) (line_rule q).
Proof.
  intros b l r Hb. unfold MakeBlockListReaderf, line_rule. destruct (skip_line _); [naive_solver|].
  by apply (AddEntry_adds q).
Qed.

Lemma HostsReaderf_adds : adds MakeBlockListHostsReaderf hosts_rule.
Proof.
  intros b l r Hb. unfold MakeBlockListHostsReaderf, hosts_rule. destruct (skip_line _); [naive_solver|].
  unfold AddHostsEntry. destruct (re_ws_Split3 _) as [|ip [|d rest]]; [naive_solver..|].
  destruct (_ || _); [naive_solver|]. by apply (AddEntry_adds TypeANY).
Qed.

Lemma foldl_adds f rule lines b r :
  adds f rule → reachable b →
  reachable (foldl (λ a l, (f a l).2) b lines)
  ∧ (r ∈ Rules (foldl (λ a l, (f a l).2) b lines) ↔ r ∈ Rules b ∨ ∃ l, l ∈ lines ∧ rule l = Some r).
Proof.
  intros Hf. revert b. induction lines as [|l lines IH]; intros b Hb; simpl; [set_solver|].
  destruct (Hf b l r Hb) as [H1 H2]. destruct (IH _ H1) as [H3 H4]. split; [done|]. rewrite H4, H2. set_solver.
Qed.

Lemma add_entries_spec es b b' r :
  reachable b → add_entries es b = (None, b') →
  reachable b' ∧ (r ∈ Rules b' ↔ r ∈ Rules b ∨ ∃ e, e ∈ es ∧ entry_rule e TypeANY = Some r).
Proof.
  revert b. induction es as [|e es IH]; intros b Hb; simpl; [intros [= <-]; set_solver|].
  destruct (AddEntry_adds TypeANY b e r Hb) as [H1 H2]. destruct (AddEntry b e TypeANY) as [[m|] b1]; [done|].
  intros H. destruct (IH b1 H1 H) as [H3 H4]. split; [done|]. rewrite H4, H2. set_solver.
Qed.

Lemma read_lists_spec f rule urls b b' r :
  adds f rule → reachable b → read_lists f urls b = (None, b') →
  reachable b'
  ∧ (r ∈ Rules b' ↔ r ∈ Rules b ∨ ∃ u l, u ∈ urls ∧ has_line u l ∧ rule l = Some r).
Proof.
  intros Hf. revert b. induction urls as [|u urls IH]; intros b Hb; simpl; [intros [= <-]; set_solver|].
  destruct (URLReader u f b) as [[n [m|]] b1] eqn:E; [done|].
  apply URLReader_Ok in E as (rd & Ho & _ & ->). intros H.
  destruct (foldl_adds f rule (Scanner rd).1 b r Hf Hb) as [H1 H2].
  destruct (IH _ H1 H) as [H3 H4]. split; [done|]. rewrite H4, H2. unfold has_line. split.
  - intros [[?|(l & ? & ?)]|(u' & l & ? & ? & ?)]; [by left| |]; right.
    + exists u, l. split_and!; [left|by exists rd|done].
    + exists u', l. split_and!; [by right|done|done].
  - intros [?|(u' & l & Hu & (rd' & Hrd & Hl) & Hr)]; [by left; left|].
    apply elem_of_cons in Hu as [->|Hu]; [|by right; exists u', l; eauto].
    left. right. exists l. rewrite Ho in Hrd. injection Hrd as <-. done.
Qed.

Lemma delete_trees_spec names b :
  reachable b → (∀ v, v ∈ names → v ≠ "" ∧ v ≠ ".") →
  ∃ b', delete_trees names b = Ok b' ∧ reachable b'
    ∧ ∀ p q, (p, q) ∈ Rules b' ↔ (p, q) ∈ Rules b ∧ ∀ v, v ∈ names → ¬ splitName v `suffix_of` p.
Proof.
  revert b. induction names as [|v names IH]; intros b Hb Hn; simpl.
  { exists b. split_and!; [done..|]. intros p q. split; [|naive_solver]. intros ?. split; [done|]. set_solver. }
  destruct (DeleteTree b v) as [[f b1]|] eqn:E; simpl.
  - pose proof (reach_DeleteTree b v (f, b1) Hb E) as Hb1. simpl in Hb1.
    pose proof (Rules_DeleteTree b v (f, b1) (reachable_wf _ Hb) E) as Hr. simpl in Hr.
    destruct (IH b1 Hb1) as (b' & -> & Hb' & Hr'); [set_solver|].
    exists b'. split_and!; [done..|]. intros p q. rewrite Hr', Hr. set_solver.
  - destruct (Hn v ltac:(left)) as [H1 H2].
    destruct (DeleteTree_Ok b v (reachable_wf _ Hb) H1 H2) as [r Hr]. congruence.
Qed.

(** The update as a whole. *)
Lemma UpdateBlockList_spec uc b :
  reachable b → (∀ v, v ∈ u_BlockDelete uc → v ≠ "" ∧ v ≠ ".") →
  ∃ err b', UpdateBlockList uc b = Ok (err, b')
    ∧ (err = None → reachable b'
       ∧ ∀ p q, (p, q) ∈ Rules b' ↔ ((p, q) ∈ Rules b ∨ asked uc (p, q))
                                    ∧ ∀ v, v ∈ u_BlockDelete uc → ¬ splitName v `suffix_of` p).
Proof.
  intros Hb Hd. unfold UpdateBlockList.
  destruct (add_entries (u_Block uc) b) as [[e1|] b1] eqn:E1; [eauto 10 with congruence|].
  destruct (read_lists _ (u_Blocklist uc) b1) as [[e2|] b2] eqn:E2; [eauto 10 with congruence|].
  destruct (read_lists _ (u_BlocklistAAAA uc) b2) as [[e3|] b3] eqn:E3; [eauto 10 with congruence|].
  destruct (read_lists _ (u_BlocklistFromHosts uc) b3) as [[e4|] b4] eqn:E4; [eauto 10 with congruence|].
  pose proof (λ r, add_entries_spec _ _ _ r Hb E1) as H1. destruct (H1 ([], 0%Z)) as [Hb1 _].
  pose proof (λ r, read_lists_spec _ _ _ _ _ r (Readerf_adds TypeANY) Hb1 E2) as H2. destruct (H2 ([], 0%Z)) as [Hb2 _].
  pose proof (λ r, read_lists_spec _ _ _ _ _ r (Readerf_adds TypeAAAA) Hb2 E3) as H3. destruct (H3 ([], 0%Z)) as [Hb3 _].
  pose proof (λ r, read_lists_spec _ _ _ _ _ r HostsReaderf_adds Hb3 E4) as H4. destruct (H4 ([], 0%Z)) as [Hb4 _].
  destruct (delete_trees_spec _ b4 Hb4 Hd) as (b' & Ed & Hb' & Hr). rewrite Ed. simpl.
  exists None, b'. split; [done|]. intros _. split; [done|]. intros p q. rewrite Hr.
  destruct (H4 (p, q)) as [_ ->], (H3 (p, q)) as [_ ->], (H2 (p, q)) as [_ ->], (H1 (p, q)) as [_ ->].
  unfold asked. tauto.
Qed.
End blocklist_spec.

(** ** The configuration as a whole *)
Section config_spec.
Context {U : GoUnicode} {L : DnsLib} {HL : DnsLaws L} {O : Os} {Chan : Type}.
Context (ZoneParser : Reader → list RR * option string).
Context (ParseDuration : string → string + Duration) (Duration_String : Duration → string).
Context (stamp : nat → Stamp).

(** Record TTLs are uint32 and the clock does not go back inside a call. *)
Context (Hnew : ∀ s r, NewRR s = inr (Some r) → rr_ok r).
Context (Hzone : ∀ f, Forall rr_ok (ZoneParser f).1).
Context (Hstamp : ∀ n, (st_now (stamp n) ≤ st_now' (stamp n))%Z).

Notation BSt := (BSt (Chan := Chan)).
Notation B := (B (Chan := Chan)).

(** No panic; a value satisfies [Q], an early return says nothing. *)
Definition wpB {A} (m : B A) (s : BSt) (Q : A → BSt → Prop) : Prop :=
  match m s with Ok (inr a, s') => Q a s' | Ok (inl _, _) => True | Panic => False end.

Lemma wpB_bind {A C} (m : B A) (f : A → B C) s Q :
  wpB m s (λ a s', wpB (f a) s' Q) → wpB (m ≫= f) s Q.
Proof. unfold wpB, mbind, B_bind. by destruct (m s) as [[[e|a] s']|]. Qed.

Lemma wpB_mono {A} (m : B A) s (Q Q' : A → BSt → Prop) :
  wpB m s Q → (∀ a s', Q a s' → Q' a s') → wpB m s Q'.
Proof. unfold wpB. destruct (m s) as [[[e|a] s']|]; eauto. Qed.

Lemma wpB_for_each {X} (l : list X) (f : X → B unit) (P : BSt → Prop) s :
  P s → (∀ x s, x ∈ l → P s → wpB (f x) s (λ _, P)) → wpB (for_each l f) s (λ _, P).
Proof.
  revert s. induction l as [|x l IH]; intros s Hs Hf; [done|]. simpl. apply wpB_bind.
  eapply wpB_mono; [apply Hf; [left|done]|]. intros u s' Hs'. apply IH; [done|]. intros y s1 Hy. apply Hf. by right.
Qed.

(** The invariant of the configuration under construction, with the upstreams
    and the access list collected so far. *)
Record conf_ok (ups : list AnyResolver) (acl : list IPNet) (c : ProxyConfig AnyResolver Chan) : Prop := {
  ok_cache : cache_ok (c_Cache c);
  ok_list : reachable (c_BlockList c);
  ok_err : c_UpstreamErr c = 0%Z;
  ok_log : logged (c_StatsHandler c) [];
  ok_prefix : length (IPNet_IP (c_Dns64Prefix c)) = 16;
  ok_interval : (Second ≤ c_RefreshInterval c)%Z;
  ok_api : bool_decide (c_ApiBind c = "") = false;
  ok_ups : c_Upstream c = ups;
  ok_acl : c_Acl c = acl;
}.

Lemma conf_ok_step ups acl c c' :
  conf_ok ups acl c → cache_ok (c_Cache c') → reachable (c_BlockList c') →
  c_UpstreamErr c' = c_UpstreamErr c → c_StatsHandler c' = c_StatsHandler c →
  length (IPNet_IP (c_Dns64Prefix c')) = 16 → (Second ≤ c_RefreshInterval c')%Z →
  bool_decide (c_ApiBind c' = "") = false →
  c_Upstream c' = c_Upstream c → c_Acl c' = c_Acl c → conf_ok ups acl c'.
Proof. intros [] ? ? E1 E2 ? ? ? E3 E4. split; try done; try congruence. Qed.

(** The state invariant of the steps. *)
Definition inv_B (ups : list AnyResolver) (acl : list IPNet) (s : BSt) : Prop := conf_ok ups acl (conf s).

Lemma wpB_modify f s (Q : unit → BSt → Prop) :
  Q tt (mkBSt (f (conf s)) (calls s)) → wpB (modify f) s Q.
Proof. done. Qed.

Lemma wpB_next s (Q : nat → BSt → Prop) :
  Q (calls s) (mkBSt (conf s) (S (calls s))) → wpB next s Q.
Proof. done. Qed.

(** An assignment that keeps the invariant [H]. *)
Ltac kept H :=
  unfold inv_B; eapply conf_ok_step; [exact H|simpl; first [reflexivity|assumption|apply H]..].

Lemma wpB_parse_addr v port (f : list string → B unit) s Q :
  v ≠ "" → (∀ a, wpB (f a) s Q) →
  wpB (r ← liftB (ParseAddr v port); match r with inl e => fail (Err e) | inr a => f a end) s Q.
Proof.
  intros Hv Hf. apply wpB_bind. unfold wpB at 1, liftB.
  destruct (ParseAddr_Ok v port Hv) as [[e|a] ->]; [done|]. apply Hf.
Qed.

Lemma wpB_add_listen ups acl v s n :
  v ≠ "" → inv_B ups acl s ∧ calls s = n →
  wpB (add_listen v) s (λ _ s', inv_B ups acl s' ∧ calls s' = n).
Proof.
  intros Hv [Hs Hn]. apply wpB_parse_addr; [done|]. intros a. apply wpB_modify. split; [kept Hs|done].
Qed.

Lemma wpB_upstreams vs ups acl s :
  inv_B ups acl s →
  wpB (for_each vs add_upstream) s (λ _ s',
    inv_B (ups ++ imap (λ i v, make_upstream (Pos.of_succ_nat (calls s + i)) v) vs)%list acl s').
Proof.
  revert ups s. induction vs as [|v vs IH]; intros ups s Hs; simpl; [by rewrite app_nil_r|].
  apply wpB_bind. unfold add_upstream at 1. apply wpB_bind. unfold wpB at 1. simpl. apply wpB_modify.
  eapply wpB_mono; [apply (IH (ups ++ [make_upstream (Pos.of_succ_nat (calls s)) v])%list)|].
  - split; simpl; try apply Hs. by rewrite (ok_ups _ _ _ Hs).
  - intros u s' H. simpl in *. rewrite <-app_assoc in H. simpl in H.
    rewrite Nat.add_0_r. erewrite imap_ext; [exact H|]. intros i w _. simpl. f_equal. f_equal. lia.
Qed.

Lemma wpB_update_blocklist uc ups acl s :
  (∀ v, v ∈ u_BlockDelete uc → v ≠ "" ∧ v ≠ ".") → inv_B ups acl s →
  wpB (update_blocklist uc) s (λ _, inv_B ups acl).
Proof.
  intros Hd Hs. unfold update_blocklist. apply wpB_bind. unfold wpB at 1. simpl.
  apply wpB_bind. destruct (UpdateBlockList_spec uc _ (ok_list _ _ _ Hs) Hd) as (err & b & E & Hb).
  unfold wpB at 1, liftB. rewrite E. apply wpB_bind, wpB_modify. destruct err as [e|]; [done|].
  destruct (Hb eq_refl) as [Hr _]. unfold wpB. simpl. kept Hs.
Qed.

Lemma inv_B_Cache ups acl s ca n :
  inv_B ups acl s → cache_ok ca → inv_B ups acl (mkBSt (set_Cache (conf s) ca) n).
Proof. intros Hs Hca. kept Hs. Qed.

Lemma wpB_add_rr_string ptr v ups acl s :
  inv_B ups acl s → wpB (add_rr_string stamp ptr v) s (λ _, inv_B ups acl).
Proof.
  intros Hs. unfold add_rr_string. do 3 (apply wpB_bind; unfold wpB at 1; simpl).
  pose proof (step_AddRRString (stamp (calls s)) (stamp (S (calls s))) (c_Cache (conf s)) v true ptr
    (Hstamp _) (Hstamp _) (Hnew v)) as Hst.
  apply (cache_ok_step HL) in Hst; [|apply Hs].
  destruct (AddRRString _ _ _ _ _ _) as [err ca]. simpl in Hst. apply wpB_bind. unfold wpB at 1. simpl.
  destruct err; [done|]. unfold wpB. simpl. by apply inv_B_Cache.
Qed.

Lemma wpB_add_zone v ups acl s :
  inv_B ups acl s → wpB (add_zone ZoneParser stamp v) s (λ _, inv_B ups acl).
Proof.
  intros Hs. unfold add_zone. destruct (UrlOpen v) as [e|f]; [done|].
  pose proof (Hzone f) as Hf. destruct (ZoneParser f) as [rrs err]. simpl in Hf. apply wpB_bind.
  eapply wpB_mono; [apply (wpB_for_each _ _ (inv_B ups acl)); [done|]|].
  - intros rr s1 Hin Hs1. apply wpB_bind, wpB_next, wpB_modify.
    apply (inv_B_Cache _ _ (mkBSt (conf s1) (S (calls s1)))); [exact Hs1|]. apply cache_ok_AddRR; [apply Hstamp| |apply Hs1].
    intros r [= <-]. rewrite Forall_forall in Hf. by apply Hf.
  - intros u s1 Hs1. by destruct err.
Qed.

Lemma wpB_acls vs ups acl s :
  inv_B ups acl s →
  wpB (for_each vs add_acl) s (λ _ s', ∃ nets,
    inv_B ups (acl ++ nets)%list s' ∧ Forall2 (λ v n, ∃ ip, ParseCIDR v = Some (ip, n)) vs nets).
Proof.
  revert acl s. induction vs as [|v vs IH]; intros acl s Hs; simpl.
  { exists []. rewrite app_nil_r. by split. }
  apply wpB_bind. unfold add_acl at 1. destruct (ParseCIDR v) as [[ip n]|] eqn:E; [|done].
  apply wpB_modify. eapply wpB_mono; [apply (IH (acl ++ [n])%list)|].
  - split; simpl; try apply Hs. by rewrite (ok_acl _ _ _ Hs).
  - intros u s' (nets & H & Hf). exists (n :: nets). rewrite <-app_assoc in H. split; [done|]. constructor; eauto.
Qed.

Lemma wpB_set_dns64 uc ups acl s :
  inv_B ups acl s → wpB (set_dns64 uc) s (λ _, inv_B ups acl).
Proof.
  intros Hs. unfold set_dns64. destruct (u_Dns64 uc); [|done]. apply wpB_bind, wpB_modify.
  set (s1 := mkBSt _ _). assert (Hs1 : inv_B ups acl s1) by kept Hs. case_bool_decide; [done|].
  destruct (ParseCIDR _) as [[ip n]|] eqn:E; [|done].
  destruct (Mask_Size (IPNet_Mask n)) as [ones bits] eqn:Em.
  destruct (Z.eqb_spec ones 96), (Z.eqb_spec bits 128); simpl; try done. subst.
  pose proof (ParseCIDR_128 _ _ _ _ E Em). apply wpB_modify. kept Hs1.
Qed.

Lemma wpB_set_api_doh uc ups acl s :
  (∀ v, v ∈ u_Doh uc → v ≠ "") → inv_B ups acl s → wpB (set_api_doh uc) s (λ _, inv_B ups acl).
Proof.
  intros Hd Hs. unfold set_api_doh. apply wpB_bind, wpB_modify. set (s1 := mkBSt _ _).
  assert (Hs1 : inv_B ups acl s1) by kept Hs. clearbody s1. apply wpB_bind.
  apply (wpB_mono _ _ (λ _, inv_B ups acl)); [destruct (bool_decide (u_ApiBind uc = "")) eqn:Eb; [done|]; apply wpB_modify; kept Hs1|].
  intros u2 s2 Hs2. apply wpB_bind.
  eapply wpB_mono; [apply (wpB_for_each _ _ (inv_B ups acl)); [exact Hs2|]|].
  - intros v s3 Hv Hs3. apply wpB_parse_addr; [by apply Hd|]. intros a. apply wpB_modify. kept Hs3.
  - intros u3 s3 Hs3. apply wpB_bind, wpB_modify. set (s4 := mkBSt _ _).
    assert (Hs4 : inv_B ups acl s4) by kept Hs3. case_bool_decide; [done|]. apply wpB_modify. kept Hs4.
Qed.

Lemma wpB_set_refresh uc ups acl s :
  inv_B ups acl s → wpB (set_refresh ParseDuration Duration_String uc) s (λ _, inv_B ups acl).
Proof.
  intros Hs. unfold set_refresh. apply wpB_bind, wpB_modify. set (s1 := mkBSt _ _).
  assert (Hs1 : inv_B ups acl s1) by kept Hs. case_bool_decide; [done|].
  destruct (ParseDuration _) as [e|d]; [done|]. destruct (Z.ltb_spec d Second); [done|].
  apply wpB_modify. kept Hs1.
Qed.

Lemma wpB_set_setuid uc ups acl s :
  inv_B ups acl s → wpB (set_setuid uc) s (λ _, inv_B ups acl).
Proof.
  intros Hs. unfold set_setuid. case_bool_decide; [done|]. destruct (negb _); [done|].
  apply wpB_bind, wpB_modify. destruct (SplitId _) as [e|[uid gid]]; [done|]. apply wpB_modify. kept Hs.
Qed.

Lemma wpB_set_log uc ups acl s :
  inv_B ups acl s → wpB (set_log uc) s (λ _, inv_B ups acl).
Proof.
  intros H. unfold set_log. destruct (u_Discard uc); [apply wpB_modify; kept H|].
  destruct (u_Syslog uc); [|apply wpB_modify; kept H].
  destruct (NewSyslog _ _ _); [done|apply wpB_modify; kept H].
Qed.

(** The configuration built from the initial one. *)
Lemma wpB_GetProxyConfig uc s :
  inv_B [] [] s → calls s = 0 →
  (∀ v, v ∈ u_Listen uc → v ≠ "") → (∀ v, v ∈ u_Doh uc → v ≠ "") →
  (∀ v, v ∈ u_BlockDelete uc → v ≠ "" ∧ v ≠ ".") →
  wpB (GetProxyConfig ZoneParser ParseDuration Duration_String stamp uc) s (λ _ s', ∃ nets,
    inv_B (imap (λ i v, make_upstream (Pos.of_succ_nat i) v) (u_Upstream uc)) nets s'
    ∧ Forall2 (λ v n, ∃ ip, ParseCIDR v = Some (ip, n)) (u_Acl uc) nets
    ∧ c_UserConfig (conf s') = Some uc).
Proof.
  intros Hs Hn Hl Hdoh Hd. unfold GetProxyConfig. apply wpB_bind.
  eapply wpB_mono; [apply (wpB_for_each _ _ (λ s, inv_B [] [] s ∧ calls s = 0)); [done|]|].
  { intros v s1 Hv H1. apply wpB_add_listen; [by apply Hl|done]. }
  intros ? s1 [H1 Hn1]. apply wpB_bind. eapply wpB_mono; [by apply wpB_upstreams|]. rewrite Hn1. simpl.
  set (ups := imap _ _). intros ? s2 H2. apply wpB_bind. eapply wpB_mono; [by apply wpB_update_blocklist|].
  intros ? s3 H3. apply wpB_bind. eapply wpB_mono; [apply (wpB_for_each _ _ (inv_B ups [])); [done|]|].
  { intros. by apply wpB_add_rr_string. }
  intros ? s4 H4. apply wpB_bind. eapply wpB_mono; [apply (wpB_for_each _ _ (inv_B ups [])); [done|]|].
  { intros. by apply wpB_add_rr_string. }
  intros ? s5 H5. apply wpB_bind. eapply wpB_mono; [apply (wpB_for_each _ _ (inv_B ups [])); [done|]|].
  { intros. by apply wpB_add_zone. }
  intros ? s6 H6. apply wpB_bind. eapply wpB_mono; [apply (wpB_acls _ ups []); done|].
  intros ? s7 (nets & H7 & Hacl). simpl in H7. apply wpB_bind. eapply wpB_mono; [by apply wpB_set_dns64|].
  intros ? s8 H8. apply wpB_bind. eapply wpB_mono; [apply (wpB_set_api_doh uc ups nets _ Hdoh); done|].
  intros ? s9 H9. apply wpB_bind. eapply wpB_mono; [apply (wpB_set_refresh uc ups nets); done|].
  intros ? s10 H10. apply wpB_bind. eapply wpB_mono; [apply (wpB_set_log uc ups nets); done|].
  intros ? s11 H11. apply wpB_bind.
  eapply wpB_mono; [apply (wpB_set_setuid uc ups nets); done|]. intros ? s12 H12. apply wpB_modify.
  exists nets. split_and!; [kept H12|done|done].
Qed.

Lemma conf_ok_shared ups acl c : conf_ok ups acl c → shared_ok (c_Upstream c) c.
Proof. intros H. split; [apply H|rewrite (ok_err _ _ _ H); lia|by exists 0]. Qed.
End config_spec.

(** ** Properties *)
Section properties.
Context {U : GoUnicode} {L : DnsLib} {O : Os}.

(** C10: a successful update of a block list leaves exactly the rules it had and
    those the options ask for (direct entries, the lines of the lists for all
    types and for AAAA, the hosts files), except the ones at or below a name of
    the block-delete option, wherever they came from.  The update does not panic
    unless block-delete names the root. *)
Theorem UpdateBlockList_builds_asked_rules (uc : UserConfig) (b : BlockList) :
  reachable b → (∀ v, v ∈ u_BlockDelete uc → v ≠ "" ∧ v ≠ ".") →
  ∃ err b', UpdateBlockList uc b = Ok (err, b')
    ∧ (err = None → ∀ p q,
         (p, q) ∈ Rules b'
         ↔ ((p, q) ∈ Rules b ∨ asked uc (p, q))
           ∧ ∀ v, v ∈ u_BlockDelete uc → ¬ splitName v `suffix_of` p).
Proof.
  intros Hb Hd. destruct (UpdateBlockList_spec uc b Hb Hd) as (err & b' & E & H).
  exists err, b'. split; [done|]. intros He. by apply H.
Qed.

(** C35: a refresh replaces the whole block list or nothing: after an error the
    configuration is as before; after a success only the list has changed, and
    it holds exactly the rules the options ask for, so rules added or removed
    while running are forgotten. *)
Theorem refresh_is_atomic_and_forgets_runtime_changes {R Chan : Type} (uc : UserConfig)
    (c : ProxyConfig R Chan) :
  (∀ v, v ∈ u_BlockDelete uc → v ≠ "" ∧ v ≠ ".") →
  (∃ e, refresh_blocklist uc c = Ok (Some e, c))
  ∨ ∃ bl, refresh_blocklist uc c = Ok (None, set_BlockList c bl)
      ∧ (∀ p q, (p, q) ∈ Rules bl
           ↔ asked uc (p, q) ∧ ∀ v, v ∈ u_BlockDelete uc → ¬ splitName v `suffix_of` p)
      ∧ ∀ c0 : ProxyConfig R Chan, refresh_blocklist uc c0 = Ok (None, set_BlockList c0 bl).
Proof.
  intros Hd. destruct (UpdateBlockList_spec uc BlockList.New reach_New Hd) as (err & b' & E & H).
  unfold refresh_blocklist. rewrite E. simpl. destruct err as [e|]; [left; eauto|right].
  exists b'. split_and!; [done| |done]. intros p q. destruct (H eq_refl) as [_ ->].
  change (Rules BlockList.New) with (Trie.rules Trie.NewLevel). rewrite Trie.rules_NewLevel. set_solver.
Qed.

(** C14: reading the options into the initial configuration panics only for an
    empty listen address or a block-delete of the root.  When it succeeds the
    proxy starts in its invariant: the cache is well formed, the block list is
    reachable, the error count is zero and the log empty, the DNS64 prefix has
    16 bytes, the refresh interval is at least a second; there is one upstream
    per option, in order and of the kind its prefix names, DoT ones with pools of
    their own; and every ACL option is a network of the access list. *)
Theorem GetProxyConfig_establishes_invariant {HL : DnsLaws L} {Chan : Type}
    (ZoneParser : Reader → list RR * option string) (ParseDuration : string → string + Duration)
    (Duration_String : Duration → string) (stamp : nat → Stamp)
    (uc : UserConfig) (c0 : ProxyConfig AnyResolver Chan) :
  (∀ s r, NewRR s = inr (Some r) → rr_ok r) → (∀ f, Forall rr_ok (ZoneParser f).1) →
  (∀ n, (st_now (stamp n) ≤ st_now' (stamp n))%Z) → NewProxyConfig = Ok c0 →
  (∀ v, v ∈ u_Listen uc → v ≠ "") → (∀ v, v ∈ u_Doh uc → v ≠ "") →
  (∀ v, v ∈ u_BlockDelete uc → v ≠ "" ∧ v ≠ ".") →
  ∃ r s, GetProxyConfig ZoneParser ParseDuration Duration_String stamp uc (mkBSt c0 0) = Ok (r, s)
    ∧ (r = inr tt →
       shared_ok (c_Upstream (conf s)) (conf s) ∧ reachable (c_BlockList (conf s))
       ∧ c_UpstreamErr (conf s) = 0%Z ∧ logged (c_StatsHandler (conf s)) []
       ∧ length (IPNet_IP (c_Dns64Prefix (conf s))) = 16 ∧ (Second ≤ c_RefreshInterval (conf s))%Z
       ∧ c_Upstream (conf s) = imap (λ i v, make_upstream (Pos.of_succ_nat i) v) (u_Upstream uc)
       ∧ Forall2 (λ v n, ∃ ip, ParseCIDR v = Some (ip, n)) (u_Acl uc) (c_Acl (conf s))
       ∧ c_UserConfig (conf s) = Some uc).
Proof.
  intros Hnew Hzone Hstamp H0 Hl Hdoh Hd.
  destruct (NewProxyConfig_ok (R := AnyResolver) (Chan := Chan)) as (c & E & [Hca He _] & Hlog & Hp).
  assert (c = c0) as -> by congruence.
  assert (Hs : inv_B [] [] (mkBSt c0 0)).
  { unfold NewProxyConfig in H0. destruct (Stats.New 1000) as [st|] eqn:Est; [|done]. injection H0 as <-.
    split; try done. simpl. constructor. }
  pose proof (wpB_GetProxyConfig ZoneParser ParseDuration Duration_String stamp Hnew Hzone Hstamp uc _
    Hs eq_refl Hl Hdoh Hd) as Hw. unfold wpB in Hw.
  destruct (GetProxyConfig _ _ _ _ uc _) as [[r s]|]; [|done]. exists r, s. split; [done|].
  intros ->. destruct Hw as (nets & Hi & Ha & Hu). pose proof Hi as [].
  split_and!; try done; [by eapply conf_ok_shared|]. by rewrite ok_acl0.
Qed.
End properties.

(** ** A concrete environment: one file, no interfaces, no users. *)
Definition sample_file : string :=
  "# list" +:+ String "010" ("ads.example.com" +:+ String "013" (String "010" "tracker.example.net:A")).

#[export] Instance sample_os : Os :=
  {| url_Parse s := inr ("", s);
     os_Open s := if bool_decide (s = "list.txt") then inr (mkReader sample_file None) else inl "no such file";
     http_Get _ := inl "offline";
     InterfaceByName _ := None;
     user_Lookup _ := None; user_LookupId _ := None;
     user_LookupGroup _ := None; user_LookupGroupId _ := None;
     Getuid := 1000;
     Args0 := "/usr/bin/dinosaur";
     syslog_New _ _ := None |}.

Definition sample_uc : UserConfig :=
  mkUserConfig ["127.0.0.1:53"] ["tls://1.1.1.1"; "192.0.2.53"] ["127.0.0.0/8"] ["bad.example.org"]
    ["tracker.example.net"] ["list.txt"] [] [] [] [] [] true "2001:db8::/96" false "" [] "" "" "" true "6h"
    false false false "".

Lemma sample_uc_deletes v : v ∈ u_BlockDelete sample_uc → v ≠ "" ∧ v ≠ ".".
Proof. simpl. intros ->%list_elem_of_singleton. done. Qed.

Lemma UpdateBlockList_builds_asked_rules_witness :
  ∃ b', UpdateBlockList sample_uc BlockList.New = Ok (None, b')
    ∧ ((["ads"; "example"; "com"], TypeANY) ∈ Rules b'
       ↔ ((["ads"; "example"; "com"], TypeANY) ∈ Rules BlockList.New
          ∨ asked sample_uc (["ads"; "example"; "com"], TypeANY))
         ∧ ∀ v, v ∈ u_BlockDelete sample_uc → ¬ splitName v `suffix_of` ["ads"; "example"; "com"]).
Proof.
  destruct (UpdateBlockList_builds_asked_rules sample_uc BlockList.New reach_New sample_uc_deletes)
    as (err & b' & E & H).
  assert (He : err = None) by (vm_compute in E; congruence). subst err.
  exists b'. split; [exact E|]. exact (H eq_refl _ _).
Defined.

Lemma refresh_is_atomic_and_forgets_runtime_changes_witness :
  ∃ bl, refresh_blocklist sample_uc sample_proxy = Ok (None, set_BlockList sample_proxy bl)
    ∧ BlockList.Match bl "x.ads.example.com." TypeA = true.
Proof.
  destruct (refresh_is_atomic_and_forgets_runtime_changes sample_uc sample_proxy sample_uc_deletes)
    as [[e E]|(bl & E & _ & _)]; [vm_compute in E; discriminate|].
  exists bl. split; [exact E|]. vm_compute in E. injection E as <-. vm_compute. reflexivity.
Defined.

Definition sample_stamp (n : nat) : Stamp := mkStamp (Z.of_nat n) (Z.of_nat n) (Z.of_nat n).

Lemma GetProxyConfig_establishes_invariant_witness :
  ∃ (c0 : ProxyConfig AnyResolver nat) s,
    GetProxyConfig (λ _, ([], None)) (λ _, inr (21600 * Second)%Z) (λ _, "6h0m0s") sample_stamp sample_uc
      (mkBSt c0 0) = Ok (inr tt, s)
    ∧ c_Upstream (conf s) = [RDot (mkDot "tls://1.1.1.1:853" "1.1.1.1:853" 1); RUdp (mkUdp "192.0.2.53:53")]
    ∧ shared_ok (c_Upstream (conf s)) (conf s).
Proof.
  destruct (NewProxyConfig (R := AnyResolver) (Chan := nat)) as [c0|] eqn:E0; [|vm_compute in E0; discriminate].
  destruct (GetProxyConfig_establishes_invariant (Chan := nat) (λ _, ([], None)) (λ _, inr (21600 * Second)%Z)
    (λ _, "6h0m0s") sample_stamp sample_uc c0) as (r & s & E & H).
  - exact sample_NewRR_Ttl.
  - intros f. constructor.
  - intros n. simpl. lia.
  - exact E0.
  - simpl. intros v ->%list_elem_of_singleton. discriminate.
  - simpl. intros v Hv%elem_of_nil. destruct Hv.
  - exact sample_uc_deletes.
  - exists c0, s.
    assert (Hr : r = inr tt).
    { vm_compute in E0. injection E0 as <-. vm_compute in E. congruence. }
    subst r. destruct (H eq_refl) as (Hok & _ & _ & _ & _ & _ & Hu & _).
    split; [exact E|]. split; [exact Hu|exact Hok].
Defined.
