(* ===== verification/Api.v ===== *)
(** * The JSON-RPC service (api/jsonrpc.go, api/changelog.go)

    Each method of [ApiService] is a function on the shared [ProxyConfig] and
    the change log; a method returns its [error], its result and the new state.
    [GetMergedConfig] returns the [UserConfig] that the code marshals; the text is
    in Persist.v, the JSON of requests and results in ApiHttp.v. *)

From stdpp Require Import sorting.
From S2P Require Import Prelude GoStrings GoNet GoTime Dns Samples BlockList Cache CircularBuffer Stats.
From S2P Require Import Resolver Logger Config Util Proxy ProxySpec ConfigLoad.
Set Default Goal Selector "!".
Local Open Scope string_scope.

(** ** The change log *)
Record changeLog := mkChangeLog {
  blocks : gset string;
  blockDeletes : gset string;
  localRRs : gmap string string;
  localRRPtrs : gmap string string;
  localRRDeletes : gset string;
}.

Definition newChangeLog : changeLog := mkChangeLog ∅ ∅ ∅ ∅ ∅.

Record GetChangesRes := mkChanges {
  ch_Blocks : list string;
  ch_BlockDeletes : list string;
  ch_LocalRRs : list string;
  ch_LocalRRPtrs : list string;
  ch_LocalRRDeletes : list string;
}.

(** [sort.Strings]: byte order. *)
Definition str_le (a b : string) : Prop := String.leb a b = true.
#[export] Instance str_le_dec a b : Decision (str_le a b) := decide (String.leb a b = true).
Definition sort_Strings (l : list string) : list string := merge_sort str_le l.

Section changelog.
Context {U : GoUnicode} {L : DnsLib}.

Definition rrKey (name qtype : string) : string := ToLower (Fqdn name) +:+ " " +:+ ToUpper qtype.

Definition normalizeBlockEntry (entry : string) : string :=
  match SplitN2 entry ":" with
  | [d; t] => ToLower (TrimSuffix1 d ".") +:+ ":" +:+ ToUpper t
  | d :: _ => ToLower (TrimSuffix1 d ".")
  | [] => ""
  end.

Definition addBlock (c : changeLog) (entry : string) : changeLog :=
  let key := normalizeBlockEntry entry in
  if decide (key ∈ blockDeletes c)
  then mkChangeLog (blocks c) (blockDeletes c ∖ {[ key ]}) (localRRs c) (localRRPtrs c) (localRRDeletes c)
  else mkChangeLog ({[ key ]} ∪ blocks c) (blockDeletes c) (localRRs c) (localRRPtrs c) (localRRDeletes c).

Definition removeBlock (c : changeLog) (entry : string) : changeLog :=
  let key := normalizeBlockEntry entry in
  if decide (key ∈ blocks c)
  then mkChangeLog (blocks c ∖ {[ key ]}) (blockDeletes c) (localRRs c) (localRRPtrs c) (localRRDeletes c)
  else mkChangeLog (blocks c) ({[ key ]} ∪ blockDeletes c) (localRRs c) (localRRPtrs c) (localRRDeletes c).

(** [rr.Header()] of a [nil] record panics. *)
Definition rr_key (rr : option RR) : res string :=
  match rr with
  | None => Panic
  | Some rr => Ok (rrKey (hdr_Name (Header rr)) (TypeToString (Rrtype (Header rr))))
  end.

Definition addRR (c : changeLog) (rrStr : string) : res changeLog :=
  match NewRR rrStr with
  | inl _ => Ok c
  | inr rr =>
      key ← rr_key rr;
      if decide (key ∈ localRRDeletes c)
      then Ok (mkChangeLog (blocks c) (blockDeletes c) (localRRs c) (localRRPtrs c)
                 (localRRDeletes c ∖ {[ key ]}))
      else Ok (mkChangeLog (blocks c) (blockDeletes c) (<[key := rrStr]> (localRRs c)) (localRRPtrs c)
                 (localRRDeletes c))
  end.

Definition addRRPtr (c : changeLog) (rrStr : string) : res changeLog :=
  match NewRR rrStr with
  | inl _ => Ok c
  | inr rr =>
      key ← rr_key rr;
      if decide (key ∈ localRRDeletes c)
      then Ok (mkChangeLog (blocks c) (blockDeletes c) (localRRs c) (localRRPtrs c)
                 (localRRDeletes c ∖ {[ key ]}))
      else Ok (mkChangeLog (blocks c) (blockDeletes c) (localRRs c) (<[key := rrStr]> (localRRPtrs c))
                 (localRRDeletes c))
  end.

Definition removeRR (c : changeLog) (name qtype : string) : changeLog :=
  let key := rrKey name qtype in
  match localRRs c !! key, localRRPtrs c !! key with
  | Some _, _ => mkChangeLog (blocks c) (blockDeletes c) (delete key (localRRs c)) (localRRPtrs c) (localRRDeletes c)
  | None, Some _ => mkChangeLog (blocks c) (blockDeletes c) (localRRs c) (delete key (localRRPtrs c)) (localRRDeletes c)
  | None, None => mkChangeLog (blocks c) (blockDeletes c) (localRRs c) (localRRPtrs c) ({[ key ]} ∪ localRRDeletes c)
  end.

Definition snapshot (c : changeLog) : GetChangesRes :=
  mkChanges (sort_Strings (elements (blocks c))) (sort_Strings (elements (blockDeletes c)))
    (sort_Strings ((map_to_list (localRRs c)).*2)) (sort_Strings ((map_to_list (localRRPtrs c)).*2))
    (sort_Strings (elements (localRRDeletes c))).
End changelog.

(** ** The methods *)
Record BlockingStatusRes := mkStatus { Paused : bool; RemainingSeconds : Duration }.

Section api.
Context {U : GoUnicode} {L : DnsLib} {R Chan : Type}.

Record ApiService := mkApi { config : ProxyConfig R Chan; changelog : changeLog }.

Definition NewApiService (c : ProxyConfig R Chan) : ApiService := mkApi c newChangeLog.

Definition set_bl (s : ApiService) (bl : BlockList) : ApiService :=
  mkApi (set_BlockList (config s) bl) (changelog s).

(** A [nil] user configuration is a nil dereference. *)
Definition Config (s : ApiService) : res UserConfig :=
  match c_UserConfig (config s) with Some uc => Ok uc | None => Panic end.

(** The two stamps of [AddRRString]. *)
Definition CacheAdd (st1 st2 : Stamp) (s : ApiService) (rr : string) (permanent ptr : bool)
    : res (error * ApiService) :=
  let '(err, ca) := AddRRString st1 st2 (c_Cache (config s)) rr permanent ptr in
  let cfg := set_Cache (config s) ca in
  match err with
  | Some _ => Ok (err, mkApi cfg (changelog s))
  | None =>
      cl ← (if permanent then (if ptr then addRRPtr (changelog s) rr else addRR (changelog s) rr)
            else Ok (changelog s));
      Ok (None, mkApi cfg cl)
  end.

Definition CacheDelete (i : Z) (t1 t2 : Time) (s : ApiService) (name qtype : string) (ptr : bool)
    : res (error * ApiService) :=
  ca ← DeleteName i t1 t2 (c_Cache (config s)) name qtype ptr;
  Ok (None, mkApi (set_Cache (config s) ca) (removeRR (changelog s) name qtype)).

Definition BlockListCount (s : ApiService) : nat := BlockList.Count (c_BlockList (config s)).

Fixpoint BlockListAdd (s : ApiService) (entries : list string) : error * ApiService :=
  match entries with
  | [] => (None, s)
  | v :: entries =>
      let '(err, bl) := AddEntry (c_BlockList (config s)) v TypeANY in
      let s := set_bl s bl in
      match err with
      | Some _ => (err, s)
      | None => BlockListAdd (mkApi (config s) (addBlock (changelog s) v)) entries
      end
  end.

Definition BlockListDelete (s : ApiService) (name : string) : error * bool * ApiService :=
  let '(found, err, bl) := DeleteEntry (c_BlockList (config s)) name TypeANY in
  let s := set_bl s bl in
  match err with
  | Some _ => (err, found, s)
  | None => (None, found, if found then mkApi (config s) (removeBlock (changelog s) name) else s)
  end.

(** Every possible result of [BlockListList]. *)
Definition BlockListList (s : ApiService) (out : list Trie.BlockEntry) : Prop :=
  BlockList.Dump (c_BlockList (config s)) out.

(** [RemainingSeconds] is the duration before its conversion to a float. *)
Definition GetBlockingStatus (now : Time) (s : ApiService) : BlockingStatusRes :=
  let until := c_BlockPauseUntil (config s) in
  if negb (IsZero until) && Before now until then mkStatus true (Sub until now) else mkStatus false 0.

(** The product of [time.Duration]s wraps. *)
Definition PauseBlocking (now1 now2 : Time) (s : ApiService) (seconds : Z) : BlockingStatusRes * ApiService :=
  let seconds := if (seconds <=? 0)%Z then 300%Z else seconds in
  let s := mkApi (set_BlockPauseUntil (config s) (Time_Add now1 (seconds *ᵢ Second)%go)) (changelog s) in
  (GetBlockingStatus now2 s, s).

Definition ResumeBlocking (now : Time) (s : ApiService) : BlockingStatusRes * ApiService :=
  let s := mkApi (set_BlockPauseUntil (config s) zero_time) (changelog s) in
  (GetBlockingStatus now s, s).

Definition GetChanges (s : ApiService) : GetChangesRes := snapshot (changelog s).

Fixpoint filterRRs_loop (startup : list string) (deleteSet : gset string) : res (list string) :=
  match startup with
  | [] => Ok []
  | rrStr :: startup =>
      match NewRR rrStr with
      | inl _ => out ← filterRRs_loop startup deleteSet; Ok (rrStr :: out)
      | inr rr =>
          k ← rr_key rr;
          out ← filterRRs_loop startup deleteSet;
          Ok (if decide (k ∈ deleteSet) then out else rrStr :: out)
      end
  end.

Definition filterRRs (startup : list string) (deleteSet : gset string) (additions : list string)
    : res (list string) :=
  out ← filterRRs_loop startup deleteSet; Ok (out ++ additions)%list.

(** The loop over the startup entries: those kept and the keys of the others. *)
Fixpoint filter_blocks (entries : list string) (deleteSet : gset string) : list string * gset string :=
  match entries with
  | [] => ([], ∅)
  | e :: entries =>
      let '(kept, removed) := filter_blocks entries deleteSet in
      let k := normalizeBlockEntry e in
      if decide (k ∈ deleteSet) then (kept, {[ k ]} ∪ removed) else (e :: kept, removed)
  end.

(** The merged configuration of [uc] and the changes [cl]. *)
Definition merge_config (uc : UserConfig) (cl : GetChangesRes) : res UserConfig :=
  let deleteSet : gset string := list_to_set (ch_BlockDeletes cl) in
  let '(filtered, removedFromBlock) := filter_blocks (u_Block uc) deleteSet in
  let block := (filtered ++ ch_Blocks cl)%list in
  let extraDeletes := List.filter (λ d, negb (bool_decide (d ∈ removedFromBlock))) (ch_BlockDeletes cl) in
  let blockDelete := (u_BlockDelete uc ++ extraDeletes)%list in
  let deleteRRSet : gset string := list_to_set (ch_LocalRRDeletes cl) in
  localRR ← filterRRs (u_LocalRR uc) deleteRRSet (ch_LocalRRs cl);
  localRRPtr ← filterRRs (u_LocalRRPtr uc) deleteRRSet (ch_LocalRRPtrs cl);
  Ok (mkUserConfig (u_Listen uc) (u_Upstream uc) (u_Acl uc) block blockDelete (u_Blocklist uc)
        (u_BlocklistAAAA uc) (u_BlocklistFromHosts uc) localRR localRRPtr (u_Localzone uc) (u_Dns64 uc)
        (u_Dns64Prefix uc) (u_Api uc) (u_ApiBind uc) (u_Doh uc) (u_DohCert uc) (u_DohKey uc) (u_DohPath uc)
        (u_Refresh uc) (u_RefreshInterval uc) (u_Debug uc) (u_Syslog uc) (u_Discard uc) (u_Setuid uc)).

Definition GetMergedConfig (s : ApiService) : res UserConfig :=
  match c_UserConfig (config s) with
  | None => Panic
  | Some uc => merge_config uc (snapshot (changelog s))
  end.
End api.
Arguments ApiService : clear implicits.

(** ** Keys of the change log *)
Section keys.
Context {U : GoUnicode} {L : DnsLib} {HL : DnsLaws L}.

Notation rule := (list string * Z)%type.

(** The printed form under which the change log files a rule. *)
Definition key_of_rule (r : rule) : string :=
  Join r.1 "." +:+ (if (r.2 =? TypeANY)%Z then "" else ":" +:+ TypeToString r.2).

(** An ASCII entry whose domain has at most one trailing dot and whose type, if
    written, is a known one other than ANY with an upper-case name. *)
Definition good_entry (e : string) : Prop :=
  isASCII e = true ∧ ∃ d,
    TrimSuffix1 (TrimSuffix1 d ".") "." = TrimSuffix1 d "." ∧
    (Split e ":" = [d]
     ∨ ∃ t q, Split e ":" = [d; t] ∧ StringToType t = Some q ∧ q ≠ TypeANY ∧ str_map upperByte t = t).

Lemma Split_cut s c : Split s c = match cut s c with Some (a, b) => a :: Split b c | None => [s] end.
Proof.
  induction s as [|a s IH]; [done|]. simpl. case_bool_decide; [done|].
  destruct (cut s c) as [[h t]|]; by rewrite IH.
Qed.

Lemma Split_singleton s c d : Split s c = [d] → s = d.
Proof. intros E. rewrite <-(Join_Split s c), E. done. Qed.

Lemma domain_key d : isASCII d = true → Join (splitName d) "." = ToLower (TrimSuffix1 d ".").
Proof.
  intros HA. destruct (decide (d = "" ∨ d = ".")) as [[->| ->]|E]; [done|done|].
  apply Decidable.not_or in E as [E1 E2]. by rewrite splitName_other, Join_Split.
Qed.

Lemma splitName_key d :
  isASCII d = true → TrimSuffix1 (TrimSuffix1 d ".") "." = TrimSuffix1 d "." →
  splitName (ToLower (TrimSuffix1 d ".")) = splitName d.
Proof.
  intros HA Ht. destruct (decide (d = "" ∨ d = ".")) as [[->| ->]|E]; [done|done|].
  apply Decidable.not_or in E as [E1 E2]. pose proof (TrimSuffix1_dot_nonempty d E1 E2) as Hne.
  pose proof (isASCII_TrimSuffix1 d "." HA) as HA'. rewrite (splitName_other d) by done.
  rewrite ToLower_ASCII by done. rewrite splitName_other.
  - rewrite TrimSuffix1_str_lower, Ht by done.
    rewrite ToLower_ASCII, str_map_lower_idem by (by apply isASCII_str_lower). done.
  - intros E. by apply Hne, str_lower_empty.
  - intros E. apply (f_equal (λ s, TrimSuffix1 s ".")) in E. rewrite TrimSuffix1_str_lower, Ht in E by done.
    by apply Hne, str_lower_empty.
Qed.

Lemma good_entry_key e :
  good_entry e →
  ∃ r, entry_rule e TypeANY = Some r ∧ normalizeBlockEntry e = key_of_rule r
       ∧ entry_rule (key_of_rule r) TypeANY = Some r.
Proof.
  intros (HA & d & Ht & Hd). pose proof (isASCII_Split e ":" HA) as Hs. pose proof (Split_pieces e ":") as Hp.
  unfold normalizeBlockEntry, SplitN2, entry_rule, key_of_rule.
  pose proof (Split_cut e ":") as Hc. destruct Hd as [E|(t & q & E & Hq & Hne & Htu)]; rewrite E in *.
  - apply Forall_cons in Hs as [Hd _]. apply Forall_cons in Hp as [Hpd _].
    destruct (cut e ":") as [[a b]|]; [by destruct (Split b ":") eqn:?; [by apply Split_nonempty in Heql|]|].
    injection Hc as <-. eexists. split; [done|]. simpl. rewrite str_app_nil_r, domain_key by done.
    split; [done|]. rewrite ToLower_ASCII by by apply isASCII_TrimSuffix1.
    rewrite Split_nosep by (rewrite str_mem_lower by done; by apply str_mem_TrimSuffix1).
    rewrite <-ToLower_ASCII by by apply isASCII_TrimSuffix1. by rewrite splitName_key.
  - apply Forall_cons in Hs as [Hd Hs]. apply Forall_cons in Hp as [Hpd _].
    destruct (cut e ":") as [[a b]|]; [|done]. injection Hc as <- Hc. symmetry in Hc. apply Split_singleton in Hc as ->.
    rewrite Hq. simpl. eexists. split; [done|]. simpl.
    destruct (Z.eqb_spec q TypeANY); [done|]. rewrite domain_key by done.
    rewrite (StringToType_TypeToString _ _ Hq). apply Forall_cons in Hs as [Hta _].
    unfold ToUpper. rewrite Hta, Htu. split; [done|].
    rewrite ToLower_ASCII by by apply isASCII_TrimSuffix1.
    rewrite Split_app by (rewrite str_mem_lower by done; by apply str_mem_TrimSuffix1).
    rewrite (Split_nosep t) by (by eapply StringToType_word). rewrite Hq. simpl.
    rewrite <-ToLower_ASCII by by apply isASCII_TrimSuffix1. by rewrite splitName_key.
Qed.

(** A rule that its key denotes again. *)
Definition keyed (r : rule) : Prop := entry_rule (key_of_rule r) TypeANY = Some r.

Lemma key_of_rule_inj r r' : keyed r → keyed r' → key_of_rule r = key_of_rule r' → r = r'.
Proof. unfold keyed. congruence. Qed.
End keys.

(** ** What the change log records *)
Section tracking.
Context {U : GoUnicode} {L : DnsLib} {HL : DnsLaws L} {R Chan : Type}.
Notation rule := (list string * Z)%type.
Implicit Types s : ApiService R Chan.

Definition cur (s : ApiService R Chan) : gset rule := Rules (c_BlockList (config s)).

(** The calls of the block-list methods, with any entries, and a sequence of them. *)
Inductive BlockCall := CallAdd (entries : list string) | CallDelete (name : string).

Definition block_call (s : ApiService R Chan) (call : BlockCall) : ApiService R Chan :=
  match call with
  | CallAdd entries => (BlockListAdd s entries).2
  | CallDelete name => (BlockListDelete s name).2
  end.

Definition block_calls (s : ApiService R Chan) (calls : list BlockCall) : ApiService R Chan :=
  foldl block_call s calls.

(** Entries that the methods refuse, or that have one change-log key. *)
Definition plain_entry (e : string) : Prop := entry_rule e TypeANY = None ∨ good_entry e.
Definition plain_call (call : BlockCall) : Prop :=
  match call with CallAdd entries => Forall plain_entry entries | CallDelete name => plain_entry name end.

(** No entry is added while its rule is in force.  An entry that is refused ends
    its call. *)
Fixpoint fresh_adds (s : ApiService R Chan) (entries : list string) : Prop :=
  match entries with
  | [] => True
  | e :: entries =>
      match entry_rule e TypeANY with
      | None => True
      | Some r => r ∉ cur s ∧ fresh_adds (BlockListAdd s [e]).2 entries
      end
  end.
Fixpoint fresh_calls (s : ApiService R Chan) (calls : list BlockCall) : Prop :=
  match calls with
  | [] => True
  | call :: calls =>
      match call with CallAdd entries => fresh_adds s entries | CallDelete _ => True end
      ∧ fresh_calls (block_call s call) calls
  end.

(** The log holds rules added and startup rules removed; nothing in force is
    missing from it, and it is exact if [P]. *)
Record tracks (P : Prop) (R0 A D : gset rule) (s : ApiService R Chan) : Prop := {
  tr_reach : reachable (c_BlockList (config s));
  tr_blocks : blocks (changelog s) = set_map key_of_rule A;
  tr_deletes : blockDeletes (changelog s) = set_map key_of_rule D;
  tr_old : D ⊆ R0;
  tr_rules : cur s ⊆ (R0 ∖ D) ∪ A;
  tr_exact : P → A ## R0 ∧ cur s = (R0 ∖ D) ∪ A;
  tr_keyed : ∀ r, r ∈ A ∪ D → keyed r;
}.

(** Membership of a key is membership of the rule. *)
Lemma key_in (X : gset rule) r :
  keyed r → (∀ r', r' ∈ X → keyed r') → key_of_rule r ∈ (set_map key_of_rule X : gset string) ↔ r ∈ X.
Proof.
  intros Hr HX. rewrite elem_of_map. split; [|eauto]. intros (r' & E & Hin).
  by rewrite (key_of_rule_inj r r' Hr (HX _ Hin) E).
Qed.

Lemma set_map_key_difference (X : gset rule) r :
  keyed r → (∀ r', r' ∈ X → keyed r') →
  set_map key_of_rule X ∖ {[ key_of_rule r ]} = (set_map key_of_rule (X ∖ {[ r ]}) : gset string).
Proof.
  intros Hr HX. apply set_eq. intros k. rewrite elem_of_difference, elem_of_singleton, !elem_of_map. split.
  - intros [(r' & -> & Hin) Hne]. exists r'. split; [done|]. set_solver.
  - intros (r' & -> & [Hin Hne]%elem_of_difference). split; [eauto|]. intros E.
    apply Hne, elem_of_singleton. by apply key_of_rule_inj; [apply HX| |].
Qed.

Lemma set_map_key_union (X : gset rule) r :
  {[ key_of_rule r ]} ∪ set_map key_of_rule X = (set_map key_of_rule ({[ r ]} ∪ X) : gset string).
Proof. by rewrite set_map_union_L, set_map_singleton_L. Qed.

(** The recorded rules [(R0 ∖ D) ∪ A] after one rule is added or removed. *)
Lemma net_readd (R0 A D : gset rule) r :
  r ∈ D → D ⊆ R0 → {[ r ]} ∪ (R0 ∖ D ∪ A) = R0 ∖ (D ∖ {[ r ]}) ∪ A.
Proof. intros H1 H2. apply set_eq. intros x. destruct (decide (x = r)); set_solver. Qed.
Lemma net_add (R0 A D : gset rule) r : {[ r ]} ∪ (R0 ∖ D ∪ A) = R0 ∖ D ∪ ({[ r ]} ∪ A).
Proof. set_solver. Qed.
Lemma net_unadd (R0 A D : gset rule) r :
  r ∈ A → A ## R0 → (R0 ∖ D ∪ A) ∖ {[ r ]} = R0 ∖ D ∪ A ∖ {[ r ]}.
Proof. intros H1 H2. apply set_eq. intros x. destruct (decide (x = r)); set_solver. Qed.
Lemma net_delete (R0 A D : gset rule) r :
  r ∉ A → (R0 ∖ D ∪ A) ∖ {[ r ]} = R0 ∖ ({[ r ]} ∪ D) ∪ A.
Proof. intros H1. apply set_eq. intros x. destruct (decide (x = r)); set_solver. Qed.
Lemma sub_unadd (C R0 A D : gset rule) r : C ⊆ R0 ∖ D ∪ A → C ∖ {[ r ]} ⊆ R0 ∖ D ∪ A ∖ {[ r ]}.
Proof. intros H x [Hx Hr]%elem_of_difference. specialize (H x Hx). set_solver. Qed.
Lemma sub_delete (C X : gset rule) r : C ⊆ X → C ∖ {[ r ]} ⊆ X ∖ {[ r ]}.
Proof. set_solver. Qed.
Lemma sub_add (C X : gset rule) r : C ⊆ X → {[ r ]} ∪ C ⊆ {[ r ]} ∪ X.
Proof. set_solver. Qed.

Lemma tracks_add P R0 A D s e r :
  tracks P R0 A D s → good_entry e → entry_rule e TypeANY = Some r → (P → r ∉ cur s) →
  ∃ A' D', tracks P R0 A' D' (BlockListAdd s [e]).2.
Proof.
  intros [Hre Hb Hd HD Hsub Hex Hk] He Er Hf. destruct (good_entry_key e He) as (r' & Er' & En & Hr).
  assert (r' = r) as -> by congruence. clear Er'.
  simpl. pose proof (AddEntry_rule (c_BlockList (config s)) e TypeANY) as Ha.
  pose proof (reachable_AddEntry (c_BlockList (config s)) e TypeANY Hre) as Hre'.
  rewrite Er in Ha. destruct Ha as (b' & Ea & Hrules). rewrite Ea in *. simpl in *.
  assert (HkD : ∀ r', r' ∈ D → keyed r') by (intros; apply Hk, elem_of_union; by right).
  unfold addBlock. rewrite En, Hd.
  destruct (decide _) as [Hin|Hni]; rewrite (key_in D r Hr HkD) in *.
  - exists A, (D ∖ {[ r ]}). split; simpl; [done|done|by apply set_map_key_difference| | | |].
    + etrans; [apply subseteq_difference_l|]; done.
    + unfold cur. simpl. rewrite Hrules, <-net_readd by done. by apply sub_add.
    + intros HP. destruct (Hex HP) as [Hdj Hc]. split; [done|]. unfold cur in *. simpl. rewrite Hrules, Hc. by apply net_readd.
    + intros r' [?|[? _]%elem_of_difference]%elem_of_union; apply Hk, elem_of_union; auto.
  - exists ({[ r ]} ∪ A), D. split; simpl; [done|rewrite Hb; apply set_map_key_union|done|done| | |].
    + unfold cur. simpl. rewrite Hrules, <-net_add. by apply sub_add.
    + intros HP. destruct (Hex HP) as [Hdj Hc]. specialize (Hf HP). rewrite Hc in Hf.
      assert (Hr0 : r ∉ R0) by (intros ?; apply Hf, elem_of_union; left; by apply elem_of_difference).
      split; [|unfold cur in *; simpl; rewrite Hrules, Hc; apply net_add].
      apply disjoint_union_l. split; [|done]. by apply disjoint_singleton_l.
    + intros r' [[->%elem_of_singleton|?]%elem_of_union|?]%elem_of_union; [done|..]; apply Hk, elem_of_union; auto.
Qed.

(** A refused entry changes nothing. *)
Lemma set_bl_same s : set_bl s (c_BlockList (config s)) = s.
Proof. by destruct s as [[]]. Qed.

Lemma add_refused s e : entry_rule e TypeANY = None → ∃ err, BlockListAdd s [e] = (Some err, s).
Proof.
  intros Er. pose proof (AddEntry_rule (c_BlockList (config s)) e TypeANY) as Ha. rewrite Er in Ha.
  destruct Ha as [err Ha]. exists err. simpl. by rewrite Ha, set_bl_same.
Qed.

Lemma BlockListAdd_cons s e es :
  BlockListAdd s (e :: es)
  = match BlockListAdd s [e] with (Some err, s1) => (Some err, s1) | (None, s1) => BlockListAdd s1 es end.
Proof. simpl. by destruct (AddEntry _ e TypeANY) as [[err|] bl]. Qed.

Lemma tracks_adds P R0 A D s es :
  tracks P R0 A D s → Forall plain_entry es → (P → fresh_adds s es) → ∃ A' D', tracks P R0 A' D' (BlockListAdd s es).2.
Proof.
  intros Ht Hp. revert s A D Ht. induction Hp as [|e es He _ IH]; intros s A D Ht Hf; [by eauto|].
  rewrite BlockListAdd_cons. simpl in Hf. destruct (entry_rule e TypeANY) as [r|] eqn:Er.
  - destruct He as [?|He]; [congruence|].
    destruct (tracks_add P R0 A D s e r Ht He Er) as (A' & D' & Ht'); [by intros HP; apply Hf|].
    pose proof (AddEntry_rule (c_BlockList (config s)) e TypeANY) as Ha. rewrite Er in Ha. destruct Ha as (b' & Ea & _).
    simpl in Ht', Hf |- *. rewrite Ea in *. simpl in *. eapply IH; [exact Ht'|]. intros HP. by apply Hf.
  - destruct (add_refused s e Er) as [err ->]. by eauto.
Qed.

Lemma tracks_delete P R0 A D s e :
  tracks P R0 A D s → plain_entry e → ∃ A' D', tracks P R0 A' D' (BlockListDelete s e).2.
Proof.
  intros Ht Hp. pose proof Ht as [Hre Hb Hd HD Hsub Hex Hk].
  unfold BlockListDelete. pose proof (DeleteEntry_rule _ e TypeANY (reachable_wf _ Hre)) as Ha.
  pose proof (reachable_DeleteEntry (c_BlockList (config s)) e TypeANY Hre) as Hre'.
  destruct Hp as [Er|He].
  { rewrite Er in Ha. destruct Ha as (err & Ha & _). rewrite Ha. simpl. rewrite set_bl_same. by eauto. }
  destruct (good_entry_key e He) as (r & Er & En & Hr).
  rewrite Er in Ha. destruct Ha as (b' & Ea & Hrules). rewrite Ea in *. simpl in *.
  assert (HkA : ∀ r', r' ∈ A → keyed r') by (intros; apply Hk, elem_of_union; by left).
  unfold cur in Hsub, Hex. case_bool_decide as Hin.
  - unfold removeBlock. rewrite En, Hb. destruct (decide _) as [Hi|Hni]; rewrite (key_in A r Hr HkA) in *.
    + exists (A ∖ {[ r ]}), D. split; simpl; [done|by apply set_map_key_difference|done|done| | |].
      * unfold cur. simpl. rewrite Hrules. by apply sub_unadd.
      * intros HP. destruct (Hex HP) as [Hdj Hc]. split; [by apply disjoint_difference_l2|].
        unfold cur. simpl. rewrite Hrules, Hc. by apply net_unadd.
      * intros r' [[? _]%elem_of_difference|?]%elem_of_union; apply Hk, elem_of_union; auto.
    + assert (Hr0 : r ∈ R0) by (apply Hsub, elem_of_union in Hin as [[? _]%elem_of_difference|?]; done).
      exists A, ({[ r ]} ∪ D). split; simpl; [done|done|rewrite Hd; apply set_map_key_union| | | |].
      * apply union_least; [by apply singleton_subseteq_l|done].
      * unfold cur. simpl. rewrite Hrules, <-net_delete by done. by apply sub_delete.
      * intros HP. destruct (Hex HP) as [Hdj Hc]. split; [done|]. unfold cur. simpl. rewrite Hrules, Hc. by apply net_delete.
      * intros r' [?|[->%elem_of_singleton|?]%elem_of_union]%elem_of_union; [|done|]; apply Hk, elem_of_union; auto.
  - assert (Hsame : Rules b' = Rules (c_BlockList (config s))).
    { rewrite Hrules. by apply difference_disjoint_L, disjoint_singleton_r. }
    exists A, D. split; simpl; try done; unfold cur; simpl; by rewrite Hsame.
Qed.

Lemma tracks_calls P R0 A D s calls :
  tracks P R0 A D s → Forall plain_call calls → (P → fresh_calls s calls) →
  ∃ A' D', tracks P R0 A' D' (block_calls s calls).
Proof.
  intros Ht Hp. revert s A D Ht. induction Hp as [|call calls Hc _ IH]; intros s A D Ht Hf; [by eauto|].
  assert (∃ A' D', tracks P R0 A' D' (block_call s call)) as (A' & D' & Ht').
  { destruct call as [es|name]; simpl in *; [|by eapply tracks_delete].
    eapply tracks_adds; [done..|]. intros HP. by apply Hf. }
  eapply IH; [exact Ht'|]. intros HP. by apply Hf.
Qed.

Lemma tracks_New P c : reachable (c_BlockList c) → tracks P (Rules (c_BlockList c)) ∅ ∅ (NewApiService c).
Proof.
  intros Hc. split; simpl; [done|by rewrite set_map_empty..| | | |]; [set_solver| | |set_solver]; unfold cur; simpl;
    [set_solver|]. intros _. split; set_solver.
Qed.
End tracking.
Arguments BlockCall : clear implicits.

(** ** The merged configuration *)
Section merge.
Context {U : GoUnicode} {L : DnsLib} {HL : DnsLaws L} {O : Os} {R Chan : Type}.
Notation rule := (list string * Z)%type.

Lemma sort_Strings_elem l x : x ∈ sort_Strings l ↔ x ∈ l.
Proof. unfold sort_Strings. by rewrite merge_sort_Permutation. Qed.

Lemma filter_blocks_spec es (X : gset string) :
  (∀ e, e ∈ (filter_blocks es X).1 ↔ e ∈ es ∧ normalizeBlockEntry e ∉ X)
  ∧ (∀ k, k ∈ (filter_blocks es X).2 ↔ k ∈ X ∧ ∃ e, e ∈ es ∧ normalizeBlockEntry e = k).
Proof.
  induction es as [|e es [IH1 IH2]]; [set_solver|]. simpl. destruct (filter_blocks es X) as [kept removed].
  simpl in *. case_decide as Hd; simpl; (split; [intros e'|intros k]).
  - rewrite IH1, elem_of_cons. naive_solver.
  - rewrite elem_of_union, elem_of_singleton, IH2. setoid_rewrite elem_of_cons. naive_solver.
  - rewrite elem_of_cons, IH1, elem_of_cons. naive_solver.
  - rewrite IH2. setoid_rewrite elem_of_cons. naive_solver.
Qed.

Lemma add_entries_Ok es b :
  (∀ e, e ∈ es → is_Some (entry_rule e TypeANY)) → ∃ b', add_entries es b = (None, b').
Proof.
  revert b. induction es as [|e es IH]; intros b He; simpl; [eauto|].
  pose proof (AddEntry_rule b e TypeANY) as Ha. destruct (He e ltac:(left)) as [r Er]. rewrite Er in Ha.
  destruct Ha as (b' & -> & _). apply IH. intros. apply He. by right.
Qed.

(** The options hold only direct block entries, all well formed. *)
Definition direct_blocks (uc : UserConfig) : Prop :=
  u_Blocklist uc = [] ∧ u_BlocklistAAAA uc = [] ∧ u_BlocklistFromHosts uc = [] ∧ u_BlockDelete uc = []
  ∧ ∀ e, e ∈ u_Block uc → good_entry e.

Lemma update_direct uc b :
  u_Blocklist uc = [] → u_BlocklistAAAA uc = [] → u_BlocklistFromHosts uc = [] → u_BlockDelete uc = [] →
  UpdateBlockList uc b = Ok (add_entries (u_Block uc) b).
Proof.
  intros E1 E2 E3 E4. unfold UpdateBlockList. rewrite E1, E2, E3, E4. simpl.
  by destruct (add_entries (u_Block uc) b) as [[]].
Qed.

Lemma Rules_New_empty r : r ∈ Rules BlockList.New ↔ False.
Proof. change (Rules BlockList.New) with (Trie.rules Trie.NewLevel). rewrite Trie.rules_NewLevel. set_solver. Qed.

(** The startup rules of such options. *)
Lemma direct_rules uc bl r :
  direct_blocks uc → UpdateBlockList uc BlockList.New = Ok (None, bl) →
  reachable bl ∧ (r ∈ Rules bl ↔ ∃ e, e ∈ u_Block uc ∧ entry_rule e TypeANY = Some r).
Proof.
  intros (E1 & E2 & E3 & E4 & _) Hu. rewrite update_direct in Hu by done. injection Hu as Hu.
  destruct (add_entries_spec _ _ _ r reach_New Hu) as [Hr Hx]. split; [done|].
  rewrite Hx, Rules_New_empty. tauto.
Qed.

(** Rules asked for by the merged block entries. *)
Lemma merged_rules (uc : UserConfig) (A D R0 : gset rule) (kept added : list string) (r : rule) :
  (∀ e, e ∈ u_Block uc → good_entry e) →
  (∀ r, r ∈ R0 ↔ ∃ e, e ∈ u_Block uc ∧ entry_rule e TypeANY = Some r) →
  (∀ r, r ∈ A ∪ D → keyed r) →
  (∀ e, e ∈ kept ↔ e ∈ u_Block uc ∧ normalizeBlockEntry e ∉ (set_map key_of_rule D : gset string)) →
  (∀ k, k ∈ added ↔ k ∈ (set_map key_of_rule A : gset string)) →
  (∃ e, e ∈ (kept ++ added)%list ∧ entry_rule e TypeANY = Some r) ↔ r ∈ R0 ∖ D ∪ A.
Proof.
  intros Hg HR Hk Hkept Hadd.
  assert (HkD : ∀ r', r' ∈ D → keyed r') by (intros; apply Hk, elem_of_union; by right).
  setoid_rewrite elem_of_app. setoid_rewrite Hkept. setoid_rewrite Hadd.
  rewrite elem_of_union, elem_of_difference, HR. split.
  - intros (e & [[He Hn]|Hin] & Er).
    + left. split; [eauto|]. destruct (good_entry_key e (Hg e He)) as (r' & Er' & En & Hr').
      assert (r' = r) as -> by congruence. by rewrite En, (key_in D r Hr' HkD) in Hn.
    + apply elem_of_map in Hin as (r' & -> & Hin). right.
      pose proof (Hk r' ltac:(apply elem_of_union; by left)) as Hkr. unfold keyed in Hkr. congruence.
  - intros [[(e & He & Er) Hn]|Hin].
    + exists e. split; [left|done]. split; [done|].
      destruct (good_entry_key e (Hg e He)) as (r' & Er' & En & Hr').
      assert (r' = r) as -> by congruence. by rewrite En, (key_in D r Hr' HkD).
    + exists (key_of_rule r). split; [right; apply elem_of_map; eauto|]. apply Hk, elem_of_union. by left.
Qed.

Lemma merge_config_blocks uc cl uc' :
  merge_config uc cl = Ok uc' →
  let fb := filter_blocks (u_Block uc) (list_to_set (ch_BlockDeletes cl)) in
  u_Block uc' = (fb.1 ++ ch_Blocks cl)%list
  ∧ u_BlockDelete uc' = (u_BlockDelete uc ++
      List.filter (λ d, negb (bool_decide (d ∈ fb.2))) (ch_BlockDeletes cl))%list
  ∧ u_Blocklist uc' = u_Blocklist uc ∧ u_BlocklistAAAA uc' = u_BlocklistAAAA uc
  ∧ u_BlocklistFromHosts uc' = u_BlocklistFromHosts uc.
Proof.
  unfold merge_config. destruct (filter_blocks _ _) as [kept removed].
  destruct (filterRRs (u_LocalRR uc) _ _); simpl; [|done].
  destruct (filterRRs (u_LocalRRPtr uc) _ _); simpl; [|done]. by intros [= <-].
Qed.
End merge.

(** ** Properties *)
Section properties.
Context {U : GoUnicode} {L : DnsLib} {HL : DnsLaws L} {O : Os} {R Chan : Type}.
Notation rule := (list string * Z)%type.

(** C13: starting from any block list, after any calls of the block-list methods
    whose entries are refused or are ASCII, with at most one trailing dot and a
    type, if any, other than ANY with an upper-case name: nothing in force is
    missing from the startup rules without those filed as deleted, and those filed
    as added; only startup rules are filed as deleted; and every key filed denotes
    its rule again.  If moreover no entry is added while it is in force, the rules
    in force are exactly those, and nothing is filed as added that was there at
    startup. *)
Theorem changelog_records_net_changes (c : ProxyConfig R Chan) (calls : list BlockCall) :
  reachable (c_BlockList c) → Forall plain_call calls →
  let s := block_calls (NewApiService c) calls in
  let R0 := Rules (c_BlockList c) in
  ∃ A D : gset rule,
    blocks (changelog s) = set_map key_of_rule A ∧ blockDeletes (changelog s) = set_map key_of_rule D
    ∧ D ⊆ R0 ∧ Rules (c_BlockList (config s)) ⊆ R0 ∖ D ∪ A
    ∧ (∀ r, r ∈ A ∪ D → entry_rule (key_of_rule r) TypeANY = Some r)
    ∧ (fresh_calls (NewApiService c) calls → A ## R0 ∧ Rules (c_BlockList (config s)) = R0 ∖ D ∪ A).
Proof.
  intros Hc Hp s R0.
  destruct (tracks_calls _ _ _ _ _ calls (tracks_New (fresh_calls (NewApiService c) calls) c Hc) Hp ltac:(done))
    as (A & D & [? ? ? ? ? ? ?]). by exists A, D.
Qed.

(** The rules of the list built from the merged configuration. *)
Lemma merged_blocks_restored (c : ProxyConfig R Chan) (calls : list BlockCall) (uc uc' : UserConfig) :
  direct_blocks uc → UpdateBlockList uc BlockList.New = Ok (None, c_BlockList c) → Forall plain_call calls →
  let s := block_calls (NewApiService c) calls in
  merge_config uc (snapshot (changelog s)) = Ok uc' →
  ∃ bl, UpdateBlockList uc' BlockList.New = Ok (None, bl) ∧ u_BlockDelete uc' = []
    ∧ Rules (c_BlockList (config s)) ⊆ Rules bl
    ∧ (fresh_calls (NewApiService c) calls → Rules bl = Rules (c_BlockList (config s))).
Proof.
  intros Hd Hu Hp s Hm. pose proof (λ r, direct_rules uc _ r Hd Hu) as HR.
  destruct (HR ([], 0%Z)) as [Hc _]. destruct Hd as (E1 & E2 & E3 & E4 & Hg).
  destruct (tracks_calls _ _ _ _ _ calls (tracks_New (fresh_calls (NewApiService c) calls) c Hc) Hp ltac:(done))
    as (A & D & [_ Hb Hdel HD Hsub Hex Hk]). fold s in Hb, Hdel, Hsub, Hex.
  apply merge_config_blocks in Hm as (Eb & Ed & F1 & F2 & F3). simpl in Eb, Ed.
  set (X := list_to_set _) in Eb, Ed.
  assert (HX : X = set_map key_of_rule D).
  { unfold X. apply set_eq. intros k. rewrite elem_of_list_to_set, sort_Strings_elem, elem_of_elements. by rewrite Hdel. }
  destruct (filter_blocks_spec (u_Block uc) X) as [Hkept Hrem]. rewrite HX in *.
  assert (Hfound : ∀ d, d ∈ (set_map key_of_rule D : gset string) → d ∈ (filter_blocks (u_Block uc) (set_map key_of_rule D)).2).
  { intros d Hin. apply Hrem. split; [done|]. apply elem_of_map in Hin as (r & -> & Hin).
    apply HD in Hin as Hr0. apply HR in Hr0 as (e & He & Er). exists e. split; [done|].
    destruct (good_entry_key e (Hg e He)) as (r' & Er' & -> & _). congruence. }
  assert (Hdel' : u_BlockDelete uc' = []).
  { rewrite Ed, E4. simpl. apply elem_of_nil_inv. intros d [Hn Hin]%list_elem_of_filter_bool.
    apply negb_true_iff, bool_decide_eq_false in Hn. apply Hn, Hfound.
    by rewrite sort_Strings_elem, elem_of_elements, Hdel in Hin. }
  pose proof (λ r, merged_rules uc A D (Rules (c_BlockList c)) _ (sort_Strings (elements (blocks (changelog s)))) r
    Hg (λ r, proj2 (HR r)) Hk Hkept) as Hall.
  assert (Hadd : ∀ k, k ∈ sort_Strings (elements (blocks (changelog s))) ↔ k ∈ (set_map key_of_rule A : gset string)).
  { intros k. by rewrite sort_Strings_elem, elem_of_elements, Hb. }
  rewrite update_direct by congruence.
  destruct (add_entries_Ok (u_Block uc') BlockList.New) as [bl Hbl].
  { rewrite Eb. intros e [He|He]%elem_of_app.
    - apply Hkept in He as [He _]. destruct (good_entry_key e (Hg e He)) as (r & -> & _). eauto.
    - apply Hadd, elem_of_map in He as (r & -> & Hin). exists r. apply Hk, elem_of_union. by left. }
  assert (Hbr : Rules bl = Rules (c_BlockList c) ∖ D ∪ A).
  { apply set_eq. intros r. destruct (add_entries_spec _ _ _ r reach_New Hbl) as [_ ->].
    rewrite Rules_New_empty, Eb, <-(Hall r Hadd). tauto. }
  rewrite Hbl. exists bl. split_and!; [done|done|by rewrite Hbr|]. intros HP. destruct (Hex HP) as [_ Hc']. by rewrite Hbr.
Qed.

(** C31: a pause of [n] seconds (300 when [n] is not positive) suspends blocking
    exactly until [n] seconds from now, the status method reports it, and a
    resume ends it at once.  The product with a second wraps: from 2^63 to 2^64
    nanoseconds the deadline lies in the past and nothing is paused. *)
Theorem pause_lasts_requested_seconds (s : ApiService R Chan) (now now2 n : Z) :
  (0 < now)%Z → (n < 2 ^ 63)%Z →
  let s1 := (PauseBlocking now now2 s n).2 in
  let secs := (if n <=? 0 then 300 else n)%Z in
  (∀ t, Paused (GetBlockingStatus t s1) = blockingPaused (c_BlockPauseUntil (config s1)) t)
  ∧ (secs * Second < 2 ^ 63 → ∀ t, blockingPaused (c_BlockPauseUntil (config s1)) t = bool_decide (t < now + secs * Second))%Z
  ∧ ((2 ^ 63 ≤ secs * Second < 2 ^ 64)%Z → ∀ t, (now ≤ t)%Z → blockingPaused (c_BlockPauseUntil (config s1)) t = false)
  ∧ (∀ t, blockingPaused (c_BlockPauseUntil (config (ResumeBlocking now2 s1).2)) t = false).
Proof.
  intros Hnow Hn s1 secs.
  assert (Hs : (0 < secs < 2 ^ 63)%Z) by (unfold secs; destruct (Z.leb_spec n 0); lia).
  assert (Hu : c_BlockPauseUntil (config s1) = (now + int64 (secs * Second))%Z) by done.
  rewrite Hu. unfold blockingPaused, IsZero, Before, Second in *. split_and!.
  - intros t. unfold GetBlockingStatus. rewrite Hu. unfold IsZero, Before. by destruct (_ && _).
  - intros Hlt t. rewrite int64_id by (unfold is_int; lia).
    destruct (Z.eqb_spec (now + secs * 1000000000) 0); [lia|]. simpl.
    destruct (Z.ltb_spec t (now + secs * 1000000000)); symmetry;
      [by apply bool_decide_eq_true_2|apply bool_decide_eq_false_2; lia].
  - intros Hge t Ht. assert (Hw : int64 (secs * 1000000000) = (secs * 1000000000 - 2 ^ 64)%Z).
    { unfold int64. rewrite <-(Z.mod_unique_pos (secs * 1000000000 + 2 ^ 63) (2 ^ 64) 1
                                 (secs * 1000000000 - 2 ^ 63)); lia. }
    rewrite Hw. destruct (Z.ltb_spec t (now + (secs * 1000000000 - 2 ^ 64))); [lia|]. apply andb_false_r.
  - intros t. done.
Qed.
End properties.

(** ** Cases the conditions above exclude *)

Definition sample_merge_uc : UserConfig :=
  mkUserConfig [] [] [] ["ads.example.com"] [] [] [] [] [] [] [] false "" false "" [] "" "" "" false "" false false false "".

Definition sample_api : ApiService SUp nat :=
  NewApiService (set_UserConfig (set_BlockList sample_proxy
    (add_entries (u_Block sample_merge_uc) BlockList.New).2) (Some sample_merge_uc)).

(** An entry that is in force is added again and then deleted: it is no longer
    blocked, but the merged configuration keeps it. *)
Lemma readded_entry_survives_its_deletion :
  let s := (BlockListDelete (BlockListAdd sample_api ["ads.example.com"]).2 "ads.example.com").2 in
  BlockList.Match (c_BlockList (config s)) "ads.example.com." TypeA = false
  ∧ (u_Block <$> GetMergedConfig s) = Ok ["ads.example.com"].
Proof. vm_compute. split; reflexivity. Qed.

(** An entry added as "x" and deleted as "x:ANY" is one rule under two keys: it is
    no longer blocked, but the merged configuration adds it, and the deletion
    directive it also writes removes nothing. *)
Lemma entry_deleted_as_any_survives :
  let s := (BlockListDelete (BlockListAdd sample_api ["x.example.org"]).2 "x.example.org:ANY").2 in
  BlockList.Match (c_BlockList (config s)) "x.example.org." TypeA = false
  ∧ match GetMergedConfig s with
    | Ok uc => match UpdateBlockList uc BlockList.New with
               | Ok (_, bl) => BlockList.Match bl "x.example.org." TypeA
               | Panic => false
               end
    | Panic => false
    end = true.
Proof. vm_compute. split; reflexivity. Qed.

(** The name of a type that is not upper-case is filed under a key that denotes no
    type: the merged configuration is refused at the next start. *)
Lemma mixed_case_type_breaks_restart :
  let s := (BlockListAdd sample_api ["x.example.org:None"]).2 in
  (BlockListAdd sample_api ["x.example.org:None"]).1 = None
  ∧ (u_Block <$> GetMergedConfig s) = Ok ["ads.example.com"; "x.example.org:NONE"]
  ∧ match GetMergedConfig s with
    | Ok uc => match UpdateBlockList uc BlockList.New with Ok (err, _) => bool_decide (is_Some err) | Panic => false end
    | Panic => false
    end = true.
Proof. vm_compute. done. Qed.

(** A permanent record whose text holds no record crashes the service. *)
Lemma empty_permanent_record_panics st :
  CacheAdd st st sample_api "" true false = Panic.
Proof. reflexivity. Qed.

(** Deleting a record that does not exist cancels the next addition: the record
    is in the cache, the merged configuration does not have it. *)
Lemma deleting_missing_record_hides_addition :
  match CacheDelete 1 1 1 sample_api "host.local." "A" false with
  | Ok (_, s) =>
      match CacheAdd (mkStamp 1 1 1) (mkStamp 1 1 1) s "host.local. 60 IN A 192.0.2.1" true false with
      | Ok (_, s) => (bool_decide (is_Some (c_Cache (config s) !! mkKey "host.local." TypeA)),
                      u_LocalRR <$> GetMergedConfig s)
      | Panic => (false, Panic)
      end
  | Panic => (false, Panic)
  end = (true, Ok []).
Proof. vm_compute. reflexivity. Qed.

(** ** Witnesses *)
Lemma sample_good e : e = "ads.example.com" ∨ e = "x.example.org:AAAA" → good_entry e.
Proof.
  intros [->| ->]; (split; [reflexivity|]).
  - exists "ads.example.com". split; [reflexivity|]. left. reflexivity.
  - exists "x.example.org". split; [reflexivity|]. right. exists "AAAA", TypeAAAA.
    split; [reflexivity|]. split; [reflexivity|]. split; [discriminate|reflexivity].
Qed.

Definition sample_calls : list BlockCall := [CallDelete "ads.example.com"; CallAdd ["x.example.org:AAAA"]].
Definition sample_api2 : ApiService SUp nat := block_calls sample_api sample_calls.

Lemma sample_api_reachable : reachable (c_BlockList (config sample_api)).
Proof. apply (reach_Add BlockList.New "ads.example.com" TypeANY), reach_New. Qed.

Lemma sample_calls_plain : Forall plain_call sample_calls.
Proof.
  apply Forall_cons. split; [right; apply sample_good; by left|]. apply Forall_cons. split; [|by apply Forall_nil].
  apply Forall_cons. split; [right; apply sample_good; by right|by apply Forall_nil].
Qed.

Lemma sample_calls_fresh : fresh_calls sample_api sample_calls.
Proof.
  simpl. split; [exact I|]. split; [|exact I]. split; [|exact I].
  apply (bool_decide_unpack _). vm_compute. exact I.
Qed.

Lemma changelog_records_net_changes_witness :
  ∃ A D : gset (list string * Z),
    blocks (changelog sample_api2) = set_map key_of_rule A
    ∧ Rules (c_BlockList (config sample_api2)) = Rules (c_BlockList (config sample_api)) ∖ D ∪ A.
Proof.
  destruct (changelog_records_net_changes (config sample_api) sample_calls sample_api_reachable sample_calls_plain)
    as (A & D & HA & _ & _ & _ & _ & Hr).
  exists A, D. split; [exact HA|exact (proj2 (Hr sample_calls_fresh))].
Defined.

Lemma pause_lasts_requested_seconds_witness :
  let s1 := (PauseBlocking 1000 2000 sample_api 60).2 in
  blockingPaused (c_BlockPauseUntil (config s1)) 60000000999 = true
  ∧ blockingPaused (c_BlockPauseUntil (config s1)) 60000001000 = false.
Proof.
  destruct (pause_lasts_requested_seconds sample_api 1000 2000 60) as (_ & H & _); [lia|lia|].
  specialize (H ltac:(vm_compute; reflexivity)).
  split; [exact (H 60000000999%Z)|exact (H 60000001000%Z)].
Defined.
