(* ===== verification/Server.v ===== *)
(** * The server (server/server.go, server/util.go)

    [StartServer] starts two listeners per address, the flush loop, the refresh
    loop, the API and the DoH server, all on one [ProxyConfig].  [listeners] is
    the list of what is bound.  [serve] is what each of the running parts does
    with the shared state when it gets its turn, so that a run of the server is a
    list of events: a query handled, a flush, a refresh, a call of the API. *)

From stdpp Require Import sorting.
From S2P Require Import Prelude GoStrings GoNet GoTime Dns Samples BlockList Cache CircularBuffer Stats.
From S2P Require Import Resolver Logger Config Util Proxy ProxySpec ConfigLoad Api.
Set Default Goal Selector "!".
Local Open Scope string_scope.

(** ** Listeners *)

(** The errors of [net.SplitHostPort] are ignored: the host is then empty. *)
Definition host_of (hostport : string) : string :=
  match SplitHostPort hostport with Some (host, _) => host | None => "" end.

Definition isV4Global (hostport : string) : bool :=
  let host := host_of hostport in bool_decide (host = "0.0.0.0") || bool_decide (host = "0").

Definition isV6Global (hostport : string) : bool :=
  let host := host_of hostport in bool_decide (host = "::") || bool_decide (host = "::0").

(** The fields of [dns.Server] that the code sets. *)
Record DnsServer := mkDnsServer { srv_Addr : string; srv_Net : string; srv_UDPSize : Z }.

Definition listen_nets (listenAddr : string) : string * string :=
  let nets := ("udp", "tcp") in
  let nets := if isV4Global listenAddr then ("udp4", "tcp4") else nets in
  if isV6Global listenAddr then ("udp6", "tcp6") else nets.

(** The loop over the listen addresses. *)
Fixpoint listeners (addrs : list string) : list DnsServer :=
  match addrs with
  | [] => []
  | a :: addrs =>
      let '(net_udp, net_tcp) := listen_nets a in
      mkDnsServer a net_udp 4096 :: mkDnsServer a net_tcp 0 :: listeners addrs
  end.

(** ** The running parts *)
Section server.
Context {U : GoUnicode} {L : DnsLib} {O : Os} {R US Chan : Type} {RI : Resolver R US}.
Context (clk : nat → Time).

Record Sv := mkSv { svc : ApiService R Chan; sv_up : US; sv_tick : nat }.

Definition with_cfg (s : Sv) (c : ProxyConfig R Chan) : Sv :=
  mkSv (mkApi c (changelog (svc s))) (sv_up s) (sv_tick s).
Definition with_svc (s : Sv) (a : ApiService R Chan) : Sv := mkSv a (sv_up s) (sv_tick s).

Inductive ServerEvent :=
  | EvQuery (addr : string) (q : Msg)
  | EvFlush (now : Time)
  | EvRefresh
  | EvCacheAdd (st1 st2 : Stamp) (rr : string) (permanent ptr : bool)
  | EvCacheDelete (i : Z) (t1 t2 : Time) (name qtype : string) (ptr : bool)
  | EvBlockAdd (entries : list string)
  | EvBlockDelete (name : string)
  | EvPause (now1 now2 : Time) (seconds : Z)
  | EvResume (now : Time).

(** One turn of the flush goroutine: (total, expired) and the new state. *)
Definition flush_turn (now : Time) (c : ProxyConfig R Chan) : nat * nat * ProxyConfig R Chan :=
  let '(total, expired, ca) := Cache.Flush now (c_Cache c) in (total, expired, set_Cache c ca).

(** One turn of the refresh goroutine; a [nil] user configuration panics. *)
Definition refresh_turn (c : ProxyConfig R Chan) : res (error * ProxyConfig R Chan) :=
  match c_UserConfig c with
  | Some uc => refresh_blocklist uc c
  | None => Panic
  end.

(** What is sent (to the client and to log streams), and the new state. *)
Definition serve (ev : ServerEvent) (s : Sv) : res (list (Event Chan) * Sv) :=
  match ev with
  | EvQuery addr q =>
      match MakeHandler clk addr q (mkSt (config (svc s)) (sv_up s) (sv_tick s)) with
      | Ok (out, s') => Ok (out, mkSv (mkApi (cfg s') (changelog (svc s))) (upst s') (tick s'))
      | Panic => Panic
      end
  | EvFlush now => Ok ([], with_cfg s (flush_turn now (config (svc s))).2)
  | EvRefresh => '(_, c) ← refresh_turn (config (svc s)); Ok ([], with_cfg s c)
  | EvCacheAdd st1 st2 rr permanent ptr =>
      '(_, a) ← CacheAdd st1 st2 (svc s) rr permanent ptr; Ok ([], with_svc s a)
  | EvCacheDelete i t1 t2 name qtype ptr =>
      '(_, a) ← CacheDelete i t1 t2 (svc s) name qtype ptr; Ok ([], with_svc s a)
  | EvBlockAdd entries => Ok ([], with_svc s (BlockListAdd (svc s) entries).2)
  | EvBlockDelete name => Ok ([], with_svc s (BlockListDelete (svc s) name).2)
  | EvPause now1 now2 seconds => Ok ([], with_svc s (PauseBlocking now1 now2 (svc s) seconds).2)
  | EvResume now => Ok ([], with_svc s (ResumeBlocking now (svc s)).2)
  end.

Fixpoint serve_all (evs : list ServerEvent) (s : Sv) : res (list (list (Event Chan)) * Sv) :=
  match evs with
  | [] => Ok ([], s)
  | ev :: evs =>
      '(out, s) ← serve ev s;
      '(outs, s) ← serve_all evs s;
      Ok (out :: outs, s)
  end.




End server.
Arguments Sv : clear implicits.
Arguments ServerEvent : clear implicits.

(** ** The invariant over a run *)
Section invariant.
Context {U : GoUnicode} {L : DnsLib} {HL : DnsLaws L} {O : Os} {R US Chan : Type} {RI : Resolver R US}
        {RT : ReplyTypes RI}.
Context (clk : nat → Time) (ups : list R) (uc : UserConfig).
Context (Hnew : ∀ e r, NewRR e = inr (Some r) → rr_ok r).
Context (Hdel : ∀ v, v ∈ u_BlockDelete uc → v ≠ "" ∧ v ≠ ".").
Implicit Types c : ProxyConfig R Chan.











End invariant.

(** ** Listeners, and a run *)

(** Each address has one UDP and one TCP listener, for both IP versions unless it
    is one of the wildcard addresses, which are bound for their version only. *)
Lemma listeners_per_address addrs i a :
  addrs !! i = Some a →
  ∃ v, listeners addrs !! (2 * i) = Some (mkDnsServer a ("udp" +:+ v) 4096)
    ∧ listeners addrs !! S (2 * i) = Some (mkDnsServer a ("tcp" +:+ v) 0)
    ∧ (v = "" ↔ isV4Global a = false ∧ isV6Global a = false)
    ∧ (v = "6" ↔ isV6Global a = true) ∧ v ∈ [""; "4"; "6"].
Proof.
  revert i. induction addrs as [|b addrs IH]; intros [|i]; simpl; [done..| |].
  - intros [= ->]. unfold listen_nets. destruct (isV6Global a), (isV4Global a);
      [exists "6"|exists "6"|exists "4"|exists ""]; simpl; split_and!; try done; set_solver.
  - intros Hi. destruct (IH _ Hi) as (v & H1 & H2 & Hr). exists v. destruct (listen_nets b).
    replace (i + S (i + 0)) with (S (i + (i + 0))) by lia. by simpl.
Qed.

Example listeners_of_wildcards :
  srv_Net <$> listeners ["0.0.0.0:53"; "[::]:53"; "127.0.0.1:53"; ":53"]
  = ["udp4"; "tcp4"; "udp6"; "tcp6"; "udp"; "tcp"; "udp"; "tcp"].
Proof. reflexivity. Qed.

Definition sample_server : Sv SUp nat nat :=
  mkSv (NewApiService (set_UserConfig sample_proxy (Some sample_uc))) 0 0.

Definition sample_events : list ServerEvent :=
  [EvQuery "127.0.0.1:5353" (sample_query 1 "www.example.com." TypeA);
   EvBlockAdd ["www.example.com"];
   EvQuery "127.0.0.1:5353" (sample_query 2 "www.example.com." TypeA);
   EvRefresh;
   EvCacheAdd (mkStamp 1 5 5) (mkStamp 2 5 5) "host.local. 3600 IN A 192.168.1.10" true true;
   EvFlush 7;
   EvQuery "192.0.2.1:5353" (sample_query 3 "host.local." TypeA)].



(** A permanent record from an empty text ends the run. *)
Example empty_record_ends_run :
  serve_all sample_clk (sample_events ++ [EvCacheAdd (mkStamp 1 5 5) (mkStamp 2 5 5) "" true false]) sample_server = Panic.
Proof. vm_compute. reflexivity. Qed.
