(* ===== verification/Doh.v ===== *)
(** * The DNS-over-HTTPS server (doh/doh.go)

    [MakeDoHHandler] turns an HTTP request into a DNS query, runs the query
    handler of Proxy.v on it with a response writer that keeps the message, and
    turns the outcome into an HTTP reply.  Base64 decoding is
    [base64.RawURLEncoding]; the wire format is the class [DnsWire]. *)

From S2P Require Import Prelude GoStrings GoNet GoTime Dns Samples BlockList Cache CircularBuffer Stats.
From S2P Require Import Resolver Config Proxy ProxySpec.
Set Default Goal Selector "!".
Local Open Scope string_scope.

(** ** Base64, URL alphabet, no padding *)
Section base64.
Local Open Scope Z_scope.

Definition ascii_of_Z (n : Z) : ascii := Ascii.ascii_of_N (Z.to_N n).

Definition enc_char (n : Z) : ascii :=
  if n <? 26 then ascii_of_Z (65 + n)
  else if n <? 52 then ascii_of_Z (71 + n)
  else if n <? 62 then ascii_of_Z (n - 4)
  else if n =? 62 then "-"%char else "_"%char.

Definition dec_char (c : ascii) : option Z :=
  let n := Z.of_N (byte_of c) in
  if isUpperByte c then Some (n - 65)
  else if isLowerByte c then Some (n - 71)
  else if isDigitByte c then Some (n + 4)
  else if n =? 45 then Some 62
  else if n =? 95 then Some 63
  else None.

(** Three bytes per four sextets; a rest of two or three sextets holds one or two
    bytes (their spare bits are ignored), a single sextet is an error.  The
    sextets do not overlap, so the bit-wise or of the library is a sum. *)
Fixpoint dec_groups (l : list Z) : option (list Z) :=
  match l with
  | a :: b :: c :: d :: l =>
      bs ← dec_groups l;
      let v := a * 2 ^ 18 + b * 2 ^ 12 + c * 2 ^ 6 + d in
      Some (v / 2 ^ 16 :: v / 2 ^ 8 mod 256 :: v mod 256 :: bs)
  | [a; b; c] =>
      let v := a * 2 ^ 18 + b * 2 ^ 12 + c * 2 ^ 6 in Some [v / 2 ^ 16; v / 2 ^ 8 mod 256]
  | [a; b] => let v := a * 2 ^ 18 + b * 2 ^ 12 in Some [v / 2 ^ 16]
  | [_] => None
  | [] => Some []
  end.

Fixpoint dec_chars (s : string) : option (list Z) :=
  match s with
  | "" => Some []
  | String c s =>
      if bool_decide (c = "010"%char) || bool_decide (c = "013"%char) then dec_chars s
      else x ← dec_char c; xs ← dec_chars s; Some (x :: xs)
  end.

(** [base64.RawURLEncoding.DecodeString]. *)
Definition DecodeString (s : string) : option (list Z) := l ← dec_chars s; dec_groups l.

(** The encoding a client uses. *)
Fixpoint enc_groups (l : list Z) : list Z :=
  match l with
  | a :: b :: c :: l =>
      let v := a * 2 ^ 16 + b * 2 ^ 8 + c in
      v / 2 ^ 18 :: v / 2 ^ 12 mod 64 :: v / 2 ^ 6 mod 64 :: v mod 64 :: enc_groups l
  | [a; b] => let v := a * 2 ^ 16 + b * 2 ^ 8 in [v / 2 ^ 18; v / 2 ^ 12 mod 64; v / 2 ^ 6 mod 64]
  | [a] => let v := a * 2 ^ 16 in [v / 2 ^ 18; v / 2 ^ 12 mod 64]
  | [] => []
  end.

Definition EncodeToString (l : list Z) : string :=
  foldr (λ n s, String (enc_char n) s) "" (enc_groups l).

Lemma dec_enc_char n :
  0 <= n < 64 →
  dec_char (enc_char n) = Some n ∧ enc_char n ≠ "010"%char ∧ enc_char n ≠ "013"%char.
Proof.
  intros Hn. assert (H : Forall (λ n, dec_char (enc_char n) = Some n ∧ enc_char n ≠ "010"%char
    ∧ enc_char n ≠ "013"%char) (seqZ 0 64)).
  { apply (bool_decide_unpack _). vm_compute. exact I. }
  rewrite Forall_forall in H. apply H, elem_of_seqZ. lia.
Qed.

Lemma dec_enc_chars l :
  Forall (λ n, 0 <= n < 64) l → dec_chars (foldr (λ n s, String (enc_char n) s) "" l) = Some l.
Proof.
  induction 1 as [|n l Hn _ IH]; [done|]. simpl. destruct (dec_enc_char n Hn) as (E & H1 & H2).
  rewrite !bool_decide_eq_false_2 by done. simpl. by rewrite E, IH.
Qed.

Lemma enc_groups_ok l :
  Forall (λ b, 0 <= b < 256) l →
  Forall (λ n, 0 <= n < 64) (enc_groups l) ∧ dec_groups (enc_groups l) = Some l.
Proof.
  revert l. fix IH 1. intros l Hl. destruct l as [|a [|b [|c l]]].
  - done.
  - apply Forall_cons in Hl as [Ha _]. cbn [enc_groups dec_groups]. split.
    + repeat constructor; Z.to_euclidean_division_equations; lia.
    + do 2 f_equal; Z.to_euclidean_division_equations; lia.
  - apply Forall_cons in Hl as [Ha [Hb _]%Forall_cons]. cbn [enc_groups dec_groups]. split.
    + repeat constructor; Z.to_euclidean_division_equations; lia.
    + do 2 f_equal; [|f_equal]; Z.to_euclidean_division_equations; lia.
  - apply Forall_cons in Hl as [Ha [Hb [Hc Hl]%Forall_cons]%Forall_cons].
    destruct (IH l Hl) as [IH1 IH2]. cbn [enc_groups dec_groups]. rewrite IH2. split.
    + repeat constructor; try done; Z.to_euclidean_division_equations; lia.
    + cbn. do 2 f_equal; [|f_equal; [|f_equal]]; Z.to_euclidean_division_equations; lia.
Qed.

Lemma Decode_Encode l :
  Forall (λ b, 0 <= b < 256) l → DecodeString (EncodeToString l) = Some l.
Proof.
  intros Hl. destruct (enc_groups_ok l Hl) as [H1 H2]. unfold DecodeString, EncodeToString.
  by rewrite dec_enc_chars.
Qed.
End base64.

(** ** Requests and replies *)
Record DohRequest := mkDohRequest {
  r_Path : string;
  r_Method : string;
  (** [r.URL.Query().Get("dns")] *)
  r_dns : string;
  (** [r.Header.Get("Content-Type")] *)
  r_ContentType : string;
  r_Body : list Z;
  (** the error that ends the body, if it does not end regularly *)
  r_BodyErr : option string;
  r_RemoteAddr : string;
}.

Inductive DohBody := Text (s : string) | Bytes (b : list Z).
Record DohReply := mkDohReply { reply_Status : Z; reply_ContentType : string; reply_Body : DohBody }.

(** [http.Error] and [http.NotFound]. *)
Definition http_Error (msg : string) (code : Z) : DohReply :=
  mkDohReply code "text/plain; charset=utf-8" (Text (msg +:+ String "010" "")).

Definition bodyLimit : nat := N.to_nat 65536.

(** [io.ReadAll(io.LimitReader(r.Body, 65536))]: an error behind the limit is not met. *)
Definition read_body (r : DohRequest) : option (list Z) :=
  if Nat.ltb (length (r_Body r)) bodyLimit && bool_decide (is_Some (r_BodyErr r)) then None
  else Some (take bodyLimit (r_Body r)).

(** The bytes of the DNS message, or the reply that rejects the request. *)
Definition doh_message (path : string) (r : DohRequest) : DohReply + list Z :=
  if negb (bool_decide (r_Path r = path)) then inl (http_Error "404 page not found" 404)
  else if bool_decide (r_Method r = "GET") then
    if bool_decide (r_dns r = "") then inl (http_Error "missing dns parameter" 400)
    else match DecodeString (r_dns r) with
         | None => inl (http_Error "invalid dns parameter" 400)
         | Some b => inr b
         end
  else if bool_decide (r_Method r = "POST") then
    if negb (bool_decide (r_ContentType r = "application/dns-message"))
    then inl (http_Error "unsupported content type" 415)
    else match read_body r with
         | None => inl (http_Error "error reading body" 400)
         | Some b => inr b
         end
  else inl (http_Error "method not allowed" 405).

Section handler.
Context {U : GoUnicode} {L : DnsLib} {Wire : DnsWire} {R US Chan : Type} {RI : Resolver R US}.
Context (clk : nat → Time).
Notation M := (M (R := R) (US := US) (Chan := Chan)).

(** [dohResponseWriter.msg]: the last message written. *)
Fixpoint written (evs : list (Event Chan)) (msg : option Msg) : option Msg :=
  match evs with
  | [] => msg
  | WriteMsg m :: evs => written evs (Some m)
  | _ :: evs => written evs msg
  end.

(** [path] is read from the configuration when the handler is made. *)
Definition MakeDoHHandler (path : string) (r : DohRequest) : M DohReply :=
  match doh_message path r with
  | inl reply => mret reply
  | inr msgBytes =>
      match Unpack msgBytes with
      | inl _ => mret (http_Error "invalid dns message" 400)
      | inr q =>
          evs ← MakeHandler clk (r_RemoteAddr r) q;
          match written evs None with
          | None => mret (http_Error "forbidden" 403)
          | Some msg =>
              match Pack msg with
              | inl _ => mret (http_Error "error packing response" 500)
              | inr respBytes => mret (mkDohReply 200 "application/dns-message" (Bytes respBytes))
              end
          end
      end
  end.

Lemma written_sends sends msg :
  (∀ e, e ∈ sends → ∃ ch i, e = LogSend ch i) → written (sends ++ [Close])%list msg = msg.
Proof.
  induction sends as [|e sends IH]; intros H; [done|].
  destruct (H e ltac:(left)) as (ch & i & ->). simpl. apply IH. intros e' He. apply H. by right.
Qed.

(** The two ways to send the bytes [b]. *)
Definition doh_get (path addr : string) (b : list Z) : DohRequest :=
  mkDohRequest path "GET" (EncodeToString b) "" [] None addr.
Definition doh_post (path addr : string) (b : list Z) : DohRequest :=
  mkDohRequest path "POST" "" "application/dns-message" b None addr.

Lemma EncodeToString_nonempty b : b ≠ [] → EncodeToString b ≠ "".
Proof. unfold EncodeToString. destruct b as [|x [|y [|z b]]]; done. Qed.

Lemma doh_message_get path addr b :
  Forall (λ x, 0 ≤ x < 256)%Z b → b ≠ [] → doh_message path (doh_get path addr b) = inr b.
Proof.
  intros Hb Hne. unfold doh_message, doh_get. simpl. rewrite bool_decide_eq_true_2 by done. simpl.
  rewrite bool_decide_eq_false_2 by (by apply EncodeToString_nonempty). by rewrite Decode_Encode.
Qed.

Lemma doh_message_post path addr b :
  (length b ≤ bodyLimit)%nat → doh_message path (doh_post path addr b) = inr b.
Proof.
  intros Hb. unfold doh_message, doh_post, read_body. cbn [r_Path r_Method r_ContentType r_Body r_BodyErr].
  rewrite bool_decide_eq_true_2 by done. cbn [negb]. rewrite bool_decide_eq_false_2 by done.
  rewrite bool_decide_eq_true_2 by done. rewrite bool_decide_eq_true_2 by done. cbn [negb].
  rewrite (bool_decide_eq_false_2 (is_Some None)) by (by intros []). rewrite andb_false_r. f_equal.
  by apply take_ge.
Qed.
End handler.

(** ** Properties *)
Section properties.
Context {U : GoUnicode} {L : DnsLib} {HL : DnsLaws L} {Wire : DnsWire} {R US Chan : Type} {RI : Resolver R US}
        {RT : ReplyTypes RI}.
Context (clk : nat → Time).
Notation St := (St (R := R) (US := US) (Chan := Chan)).

(** Both ways to send a message against the DNS handler. *)
Lemma doh_reply_spec (ups : list R) (hist : list ConnectionLog) (path addr : string)
    (b : list Z) (q : Msg) (s : St) :
  shared_ok ups (cfg s) → logged (c_StatsHandler (cfg s)) hist →
  Forall (λ x, 0 ≤ x < 256)%Z b → b ≠ [] → (length b ≤ bodyLimit)%nat → Unpack b = inr q →
  MakeDoHHandler clk path (doh_get path addr b) s = MakeDoHHandler clk path (doh_post path addr b) s
  ∧ match MakeHandler clk addr q s with
    | Panic => crashes clk s addr q = true ∧ MakeDoHHandler clk path (doh_post path addr b) s = Panic
    | Ok (evs, s') => ∃ reply, MakeDoHHandler clk path (doh_post path addr b) s = Ok (reply, s')
        ∧ crashes clk s addr q = false
        ∧ if dropped (cfg s) addr q then reply_Status reply = 403%Z
          else ∃ m, WriteMsg m ∈ evs ∧
               match Pack m with
               | inr out => reply = mkDohReply 200 "application/dns-message" (Bytes out)
               | inl _ => reply_Status reply = 500%Z
               end
    end.
Proof.
  intros Hs Hl Hb Hne Hlen Hq. unfold MakeDoHHandler. rewrite doh_message_post, doh_message_get by done.
  split; [done|]. rewrite Hq. unfold mbind, M_bind. simpl.
  pose proof (MakeHandler_cases clk ups hist addr q s Hs Hl) as Hw. destruct (crashes clk s addr q); [by rewrite Hw|].
  destruct Hw as (ev & s' & -> & item & ws & sends & s1 & [Hc Hbody] & -> & (d & _ & Hsend) & _ & _ & _).
  simpl in Hbody.
  assert (Hws : ∀ msg, written (sends ++ [Close])%list msg = msg).
  { intros msg. apply written_sends. intros e He. destruct (Hsend e He) as [ch ->]. eauto. }
  destruct (dropped (cfg s) addr q).
  - destruct Hbody as [-> _]. simpl. rewrite Hws. by eexists.
  - destruct Hbody as ((_ & _ & m & -> & _) & _). simpl. rewrite Hws.
    destruct (Pack m) as [e|out] eqn:Ep; eexists; (split_and!; [done..|]); exists m; rewrite Ep; (split; [left|done]).
Qed.

(** C17: a DNS message sent by POST, or by GET in base64url form, gets the same
    reply, and it is the one the DNS handler gives a client at the same address:
    200 with the packed answer (500 when it does not pack), 403 exactly when the
    handler drops the query.  The shared state afterwards is the one the DNS
    handler leaves.  The handler panics, and there is no reply, exactly when the
    DNS handler does, that is, when [crashes] holds. *)
Theorem doh_answers_like_dns (ups : list R) (hist : list ConnectionLog) (path addr : string)
    (b : list Z) (q : Msg) (s : St) :
  shared_ok ups (cfg s) → logged (c_StatsHandler (cfg s)) hist →
  Forall (λ x, 0 ≤ x < 256)%Z b → b ≠ [] → (length b ≤ bodyLimit)%nat → Unpack b = inr q →
  MakeDoHHandler clk path (doh_get path addr b) s = MakeDoHHandler clk path (doh_post path addr b) s
  ∧ match MakeHandler clk addr q s with
    | Panic => crashes clk s addr q = true ∧ MakeDoHHandler clk path (doh_post path addr b) s = Panic
    | Ok (evs, s') => ∃ reply, MakeDoHHandler clk path (doh_post path addr b) s = Ok (reply, s')
        ∧ crashes clk s addr q = false
        ∧ if dropped (cfg s) addr q then reply_Status reply = 403%Z
          else ∃ m, WriteMsg m ∈ evs ∧
               match Pack m with
               | inr out => reply = mkDohReply 200 "application/dns-message" (Bytes out)
               | inl _ => reply_Status reply = 500%Z
               end
    end.
Proof. apply doh_reply_spec. Qed.
End properties.

Definition sample_dns_wire : DnsWire :=
  {| Pack m := inr [Id m; Rcode m];
     Unpack b := match b with [i; t] => inr (sample_query i "www.example.com." t) | _ => inl "short" end |}.

Lemma doh_answers_like_dns_witness :
  ∃ s', MakeDoHHandler (Wire := sample_dns_wire) sample_clk "/dns-query"
          (doh_get "/dns-query" "127.0.0.1:443" [9; 1]%Z) sample_st
        = Ok (mkDohReply 200 "application/dns-message" (Bytes [9; 0]%Z), s').
Proof.
  destruct (doh_answers_like_dns (Wire := sample_dns_wire) sample_clk [up_fail; up_v4] [] "/dns-query" "127.0.0.1:443"
              [9; 1]%Z (sample_query 9 "www.example.com." TypeA) sample_st) as [Eg E].
  - exact sample_shared_ok.
  - exact sample_logged.
  - repeat constructor; lia.
  - discriminate.
  - unfold bodyLimit. simpl. lia.
  - reflexivity.
  - destruct (MakeHandler sample_clk _ _ sample_st) as [[evs s']|] eqn:Eh; [|vm_compute in Eh; discriminate Eh].
    destruct E as (reply & E & _). exists s'. rewrite Eg, E. vm_compute in E. injection E as <- <-. reflexivity.
Defined.
