(* ===== verification/Options.v ===== *)
(** * Command line and configuration file (cmd/dinosaur/options.go, main.go)

    [Flags] holds the parsed command line, [Unmarshal] is [json.Unmarshal] of the
    file's text into an existing [UserConfig].  [main_config] is what [main] does
    before it starts the server. *)

From S2P Require Import Prelude GoStrings GoNet GoTime Dns Samples BlockList Cache CircularBuffer Stats.
From S2P Require Import Resolver Logger Config Util Proxy ProxySpec ConfigLoad.
Set Default Goal Selector "!".
Local Open Scope string_scope.

Record Flags := mkFlags {
  helpFlag : bool;
  configFlag : string;
  dns64Flag : bool;
  dns64PrefixFlag : string;
  apiFlag : bool;
  apiBindFlag : string;
  dohCertFlag : string;
  dohKeyFlag : string;
  dohPathFlag : string;
  refreshFlag : bool;
  refreshIntervalFlag : string;
  debugFlag : bool;
  syslogFlag : bool;
  discardFlag : bool;
  setuidFlag : string;
  listenFlag : list string;
  upstreamFlag : list string;
  blockFlag : list string;
  blockDeleteFlag : list string;
  blocklistFlag : list string;
  blocklistAAAAFlag : list string;
  blocklistHostsFlag : list string;
  localRRFlag : list string;
  localRRPtrFlag : list string;
  localZoneFlag : list string;
  aclFlag : list string;
  dohFlag : list string;
}.

(** No flag given. *)
Definition no_flags : Flags :=
  mkFlags false "" false "" false "" "" "" "" false "" false false false "" [] [] [] [] [] [] [] [] [] [] [] [].

(** How reading the options ends: [os.Exit(0)] after the usage text, an error, or
    the options. *)
Inductive OptResult := OptExit | OptErr (msg : string) | OptOk (uc : UserConfig).

(** [if *flag != "" { field = *flag }]. *)
Definition override (field flag : string) : string := if bool_decide (flag = "") then field else flag.

Definition or_default (l d : list string) : list string := if bool_decide (length l = 0) then d else l.

Section options.
Context {O : Os}.
Context (Unmarshal : string → UserConfig → string + UserConfig).

(** The JSON file is read first, when one is named. *)
Definition read_config (f : Flags) (uc : UserConfig) : string + UserConfig :=
  if bool_decide (configFlag f = "") then inr uc
  else match UrlOpen (configFlag f) with
       | inl e => inl e
       | inr r => match read_err r with
                  | Some e => inl e
                  | None => Unmarshal (content r) uc
                  end
       end.

(** The assignments from the flags, then the defaults. *)
Definition apply_flags (f : Flags) (u : UserConfig) : UserConfig :=
  mkUserConfig
    (or_default (u_Listen u ++ listenFlag f) ["lo0:8053"])
    (or_default (u_Upstream u ++ upstreamFlag f) ["tls://1.1.1.1:853"; "tls://1.0.0.1:853"])
    (u_Acl u ++ aclFlag f) (u_Block u ++ blockFlag f) (u_BlockDelete u ++ blockDeleteFlag f)
    (u_Blocklist u ++ blocklistFlag f) (u_BlocklistAAAA u ++ blocklistAAAAFlag f)
    (u_BlocklistFromHosts u ++ blocklistHostsFlag f) (u_LocalRR u ++ localRRFlag f)
    (u_LocalRRPtr u ++ localRRPtrFlag f) (u_Localzone u ++ localZoneFlag f)
    (u_Dns64 u || dns64Flag f) (override (u_Dns64Prefix u) (dns64PrefixFlag f))
    (u_Api u || apiFlag f) (override (u_ApiBind u) (apiBindFlag f))
    (u_Doh u ++ dohFlag f) (override (u_DohCert u) (dohCertFlag f)) (override (u_DohKey u) (dohKeyFlag f))
    (override (u_DohPath u) (dohPathFlag f)) (u_Refresh u || refreshFlag f)
    (override (u_RefreshInterval u) (refreshIntervalFlag f)) (u_Debug u || debugFlag f)
    (u_Syslog u || syslogFlag f) (u_Discard u || discardFlag f) (setuidFlag f).

Definition GetUserConfig (f : Flags) : OptResult :=
  if helpFlag f then OptExit
  else match read_config f NewUserConfig with
       | inl e => OptErr e
       | inr uc => OptOk (apply_flags f uc)
       end.
End options.

Section main.
Context {U : GoUnicode} {L : DnsLib} {O : Os} {Chan : Type}.
Context (Unmarshal : string → UserConfig → string + UserConfig).
Context (ZoneParser : Reader → list RR * option string).
Context (ParseDuration : string → string + Duration) (Duration_String : Duration → string).
Context (stamp : nat → Stamp).

(** The process ends before serving ([None]: usage; [Some msg]: a fatal error),
    or serves with a configuration. *)
Definition main_config (f : Flags) : res ((option string) + ProxyConfig AnyResolver Chan) :=
  match GetUserConfig Unmarshal f with
  | OptExit => Ok (inl None)
  | OptErr e => Ok (inl (Some e))
  | OptOk uc =>
      c0 ← NewProxyConfig;
      '(r, s) ← GetProxyConfig ZoneParser ParseDuration Duration_String stamp uc (mkBSt c0 0);
      match r with
      | inl (Err e) => Ok (inl (Some ("Config Error: " +:+ e)))
      | inl (Fatal e) => Ok (inl (Some e))
      | inr tt => Ok (inr (conf s))
      end
  end.

(** What the start-up sequence makes of the options. *)
Lemma main_config_spec {HL : DnsLaws L} (f : Flags) (uc0 : UserConfig) :
  (∀ s r, NewRR s = inr (Some r) → rr_ok r) → (∀ fl, Forall rr_ok (ZoneParser fl).1) →
  (∀ n, (st_now (stamp n) ≤ st_now' (stamp n))%Z) →
  helpFlag f = false → read_config Unmarshal f NewUserConfig = inr uc0 →
  (∀ v, v ∈ (u_Listen uc0 ++ listenFlag f)%list → v ≠ "") → (∀ v, v ∈ (u_Doh uc0 ++ dohFlag f)%list → v ≠ "") →
  (∀ v, v ∈ (u_BlockDelete uc0 ++ blockDeleteFlag f)%list → v ≠ "" ∧ v ≠ ".") →
  let uc := apply_flags f uc0 in
  ∃ r, main_config f = Ok r ∧
    match r with
    | inl e => is_Some e
    | inr c => ∃ nets, conf_ok (imap (λ i v, make_upstream (Pos.of_succ_nat i) v) (u_Upstream uc)) nets c
                 ∧ Forall2 (λ v n, ∃ ip, ParseCIDR v = Some (ip, n)) (u_Acl uc) nets ∧ c_UserConfig c = Some uc
    end.
Proof.
  intros Hnew Hzone Hstamp Hh Hr Hl Hdoh Hd uc. unfold main_config, GetUserConfig. rewrite Hh, Hr. fold uc.
  destruct (NewProxyConfig_ok (R := AnyResolver) (Chan := Chan)) as (c0 & E0 & [Hca He _] & Hlog & Hp).
  rewrite E0. simpl.
  assert (Hs : inv_B [] [] (mkBSt c0 0)).
  { unfold NewProxyConfig in E0. destruct (Stats.New 1000); [|done]. injection E0 as <-.
    split; try done. simpl. constructor. }
  assert (Hl' : ∀ v, v ∈ u_Listen uc → v ≠ "").
  { intros v. simpl. unfold or_default. case_bool_decide; [|apply Hl]. by intros ->%list_elem_of_singleton. }
  pose proof (wpB_GetProxyConfig ZoneParser ParseDuration Duration_String stamp Hnew Hzone Hstamp uc _
    Hs eq_refl Hl' Hdoh Hd) as Hw. unfold wpB in Hw.
  destruct (GetProxyConfig _ _ _ _ uc _) as [[[[e|e]|[]] s]|]; [eexists; (split; [done|]); by eexists..| |done].
  eexists. split; [done|]. destruct Hw as (nets & Hi & Ha & Hu). by exists nets.
Qed.

(** An empty listen address ends the start with a panic: [ParseAddr] looks at its
    first byte. *)
Lemma empty_listen_panics (f : Flags) (uc0 : UserConfig) :
  helpFlag f = false → read_config Unmarshal f NewUserConfig = inr uc0 → u_Listen uc0 = [] → listenFlag f = [""] →
  main_config f = Panic.
Proof.
  intros Hh Hr Hl Hf. unfold main_config, GetUserConfig. rewrite Hh, Hr.
  destruct (NewProxyConfig_ok (R := AnyResolver) (Chan := Chan)) as (c0 & -> & _).
  unfold GetProxyConfig, apply_flags. cbn [u_Listen]. rewrite Hl, Hf. reflexivity.
Qed.

(** C34: a start without -help whose options, from the file and the command line,
    hold no empty listen or DoH address and no block-delete of the root (which
    panic when the start reaches them) either ends with a message or serves with a configuration in the
    handler's invariant that has an upstream and an API address.  Its options are,
    for every list, the file's entries followed by the flags' entries, with the
    defaults for the listen addresses and the upstreams when there are none; for
    every text the flag if it is given, else the file's; for every switch the
    disjunction of the two; and the flag alone for setuid. *)
Theorem startup_reaches_invariant {HL : DnsLaws L} (f : Flags) (file : UserConfig) :
  (∀ s r, NewRR s = inr (Some r) → rr_ok r) → (∀ fl, Forall rr_ok (ZoneParser fl).1) →
  (∀ n, (st_now (stamp n) ≤ st_now' (stamp n))%Z) →
  helpFlag f = false → read_config Unmarshal f NewUserConfig = inr file →
  (∀ v, v ∈ (u_Listen file ++ listenFlag f)%list → v ≠ "") → (∀ v, v ∈ (u_Doh file ++ dohFlag f)%list → v ≠ "") →
  (∀ v, v ∈ (u_BlockDelete file ++ blockDeleteFlag f)%list → v ≠ "" ∧ v ≠ ".") →
  let text flag file := if decide (flag = "") then file else flag in
  let some l default := match l with [] => default | _ => l end in
  ∃ r, main_config f = Ok r ∧
    match r with
    | inl e => is_Some e
    | inr c =>
        shared_ok (c_Upstream c) c ∧ logged (c_StatsHandler c) [] ∧ reachable (c_BlockList c)
        ∧ c_Upstream c ≠ [] ∧ c_ApiBind c ≠ ""
        ∧ ∃ uc, c_UserConfig c = Some uc ∧ length (c_Upstream c) = length (u_Upstream uc)
          ∧ u_Listen uc = some (u_Listen file ++ listenFlag f)%list ["lo0:8053"]
          ∧ u_Upstream uc = some (u_Upstream file ++ upstreamFlag f)%list ["tls://1.1.1.1:853"; "tls://1.0.0.1:853"]
          ∧ u_Acl uc = (u_Acl file ++ aclFlag f)%list
          ∧ u_Block uc = (u_Block file ++ blockFlag f)%list
          ∧ u_BlockDelete uc = (u_BlockDelete file ++ blockDeleteFlag f)%list
          ∧ u_Blocklist uc = (u_Blocklist file ++ blocklistFlag f)%list
          ∧ u_BlocklistAAAA uc = (u_BlocklistAAAA file ++ blocklistAAAAFlag f)%list
          ∧ u_BlocklistFromHosts uc = (u_BlocklistFromHosts file ++ blocklistHostsFlag f)%list
          ∧ u_LocalRR uc = (u_LocalRR file ++ localRRFlag f)%list
          ∧ u_LocalRRPtr uc = (u_LocalRRPtr file ++ localRRPtrFlag f)%list
          ∧ u_Localzone uc = (u_Localzone file ++ localZoneFlag f)%list
          ∧ u_Dns64 uc = u_Dns64 file || dns64Flag f ∧ u_Dns64Prefix uc = text (dns64PrefixFlag f) (u_Dns64Prefix file)
          ∧ u_Api uc = u_Api file || apiFlag f ∧ u_ApiBind uc = text (apiBindFlag f) (u_ApiBind file)
          ∧ u_Doh uc = (u_Doh file ++ dohFlag f)%list
          ∧ u_DohCert uc = text (dohCertFlag f) (u_DohCert file) ∧ u_DohKey uc = text (dohKeyFlag f) (u_DohKey file)
          ∧ u_DohPath uc = text (dohPathFlag f) (u_DohPath file)
          ∧ u_Refresh uc = u_Refresh file || refreshFlag f
          ∧ u_RefreshInterval uc = text (refreshIntervalFlag f) (u_RefreshInterval file)
          ∧ u_Debug uc = u_Debug file || debugFlag f ∧ u_Syslog uc = u_Syslog file || syslogFlag f
          ∧ u_Discard uc = u_Discard file || discardFlag f ∧ u_Setuid uc = setuidFlag f
    end.
Proof.
  intros Hnew Hzone Hstamp Hh Hr Hl Hdoh Hd text some.
  destruct (main_config_spec f file Hnew Hzone Hstamp Hh Hr Hl Hdoh Hd) as (r & E & H). exists r. split; [done|].
  destruct r as [e|c]; [done|]. destruct H as (nets & Hi & _ & Hu). set (uc := apply_flags f file) in *.
  assert (Hsome : ∀ l d, or_default l d = some l d).
  { intros l d. unfold or_default. by destruct l. }
  assert (Htext : ∀ x flag, override x flag = text flag x).
  { intros x flag. unfold override, text. by case_bool_decide; destruct (decide _). }
  assert (Hlen : length (c_Upstream c) = length (u_Upstream uc)).
  { rewrite (ok_ups _ _ _ Hi). apply length_imap. }
  split_and!; [by eapply conf_ok_shared|apply Hi|apply Hi| | |].
  - intros H0. rewrite H0 in Hlen. symmetry in Hlen. apply length_zero_iff_nil in Hlen. simpl in Hlen. rewrite Hsome in Hlen.
    unfold some in Hlen. by destruct (u_Upstream file ++ upstreamFlag f)%list.
  - pose proof (ok_api _ _ _ Hi) as Hb. by apply bool_decide_eq_false in Hb.
  - exists uc. split_and!; try done; simpl; auto.
Qed.
End main.

(** The flags of the README's quick start, with a file that holds a setuid entry. *)
Definition sample_flags : Flags :=
  mkFlags false "list.txt" false "" false "" "" "" "/q" false "" false false false ""
    ["127.0.0.1:53"] ["192.0.2.53"] ["ads.example.com"] [] [] [] [] [] [] [] [] [].

Definition sample_json (_ : string) (u : UserConfig) : string + UserConfig :=
  inr (mkUserConfig [] [] [] ["bad.example.org"] [] [] [] [] [] [] [] false "" false "" [] "" "" "/p" false "" false
         false false "nobody").

Lemma startup_reaches_invariant_witness :
  ∃ c : ProxyConfig AnyResolver nat,
    main_config sample_json (λ _, ([], None)) (λ _, inl "") (λ _, "") sample_stamp sample_flags = Ok (inr c)
    ∧ shared_ok (c_Upstream c) c
    ∧ ∃ uc, c_UserConfig c = Some uc ∧ u_Block uc = ["bad.example.org"; "ads.example.com"]
        ∧ u_DohPath uc = "/q" ∧ u_Setuid uc = "".
Proof.
  destruct (startup_reaches_invariant (Chan := nat) sample_json (λ _, ([], None)) (λ _, inl "") (λ _, "") sample_stamp
    sample_flags (mkUserConfig [] [] [] ["bad.example.org"] [] [] [] [] [] [] [] false "" false "" [] "" "" "/p" false ""
         false false false "nobody")) as (r & E & H).
  - exact sample_NewRR_Ttl.
  - intros fl. constructor.
  - intros n. simpl. lia.
  - reflexivity.
  - reflexivity.
  - simpl. intros v ->%list_elem_of_singleton. discriminate.
  - simpl. intros v Hv%elem_of_nil. destruct Hv.
  - simpl. intros v Hv%elem_of_nil. destruct Hv.
  - destruct r as [e|c]; [vm_compute in E; discriminate|].
    exists c. split; [exact E|]. destruct H as (H1 & _ & _ & _ & _ & uc & H2 & _ & _ & _ & _ & H3 & H).
    split; [exact H1|]. exists uc. split; [exact H2|]. split; [exact H3|].
    do 14 destruct H as [_ H]. destruct H as (H4 & H). do 5 destruct H as [_ H]. split; [exact H4|exact H].
Defined.
