(* ===== verification/Acl.v ===== *)
(** * What an access list admits (proxy/proxy.go [checkAcl], net.IPNet)

    A network is written address/length.  [Contains] compares bytes under a mask;
    this file shows that it compares the first bits of the addresses read as
    numbers, for the networks that [ParseCIDR] makes, and what the list as a whole
    admits. *)

From S2P Require Import Prelude GoStrings GoNet GoTime Dns BlockList Cache CircularBuffer Stats.
From S2P Require Import Resolver Config Proxy ProxySpec Samples.
Set Default Goal Selector "!".
Local Open Scope Z_scope.

(** An address as a number, the most significant byte first. *)
Fixpoint addr_value (ip : list Z) : Z :=
  match ip with [] => 0 | b :: ip => b * 256 ^ Z.of_nat (length ip) + addr_value ip end.

(** The first [k] bits of [ip] are those of [net]. *)
Definition same_prefix (net : list Z) (k : Z) (ip : list Z) : bool :=
  let low := 2 ^ (8 * Z.of_nat (length net) - k) in
  bool_decide (length ip = length net) && (addr_value ip / low =? addr_value net / low).

(** The form in which addresses are compared: four bytes where possible. *)
Definition canon (ip : IP) : IP := if is_nil (To4 ip) then ip else To4 ip.

(** ** Masks *)

Lemma land_255 a : 0 <= a < 256 → Z.land a 255 = a.
Proof. intros Ha. change 255 with (Z.ones 8). rewrite Z.land_ones by lia. by apply Z.mod_small. Qed.

(** A partial mask byte keeps the leading bits. *)
Lemma land_partial a n : 0 <= a < 256 → 0 <= n < 8 → Z.land a (255 - Z.shiftr 255 n) = 2 ^ (8 - n) * (a / 2 ^ (8 - n)).
Proof.
  intros Ha Hn. assert (H : Forall (λ n, Forall (λ a, Z.land a (255 - Z.shiftr 255 n) = 2 ^ (8 - n) * (a / 2 ^ (8 - n)))
    (seqZ 0 256)) (seqZ 0 8)).
  { apply (bool_decide_unpack _). vm_compute. exact I. }
  rewrite Forall_forall in H. specialize (H n ltac:(apply elem_of_seqZ; lia)). rewrite Forall_forall in H.
  apply H, elem_of_seqZ. lia.
Qed.

Lemma addr_value_bound ip : bytes_ok ip → 0 <= addr_value ip < 256 ^ Z.of_nat (length ip).
Proof.
  induction 1 as [|b ip Hb _ IH]; [simpl; lia|]. cbn [addr_value length]. rewrite Nat2Z.inj_succ, Z.pow_succ_r by lia. nia.
Qed.

Lemma pow256 k : 256 ^ Z.of_nat k = 2 ^ (8 * Z.of_nat k).
Proof. rewrite Z.pow_mul_r by lia. done. Qed.

(** Nothing is compared under an empty mask. *)
Lemma masked_eq_zero k a b : length a = k → length b = k → masked_eq a b (mask_bytes k 0) = true.
Proof.
  revert a b. induction k as [|k IH]; intros [|x a] [|y b] Ha Hb; try done. simpl in *.
  change (255 - Z.shiftr 255 0) with 0. rewrite !Z.land_0_r. simpl. apply IH; lia.
Qed.

(** The comparison under a mask of [n] ones. *)
Lemma masked_eq_prefix k n a b :
  length a = k → length b = k → bytes_ok a → bytes_ok b → 0 <= n <= 8 * Z.of_nat k →
  let low := 2 ^ (8 * Z.of_nat k - n) in
  masked_eq a b (mask_bytes k n) = (addr_value b / low =? addr_value a / low).
Proof.
  revert n a b. induction k as [|k IH]; intros n a b Ha Hb Hba Hbb Hn low.
  { by destruct a, b. }
  destruct a as [|x a], b as [|y b]; try done. apply Forall_cons in Hba as [Hx Hba]. apply Forall_cons in Hbb as [Hy Hbb].
  simpl in Ha, Hb. injection Ha as Ha. injection Hb as Hb. fold (bytes_ok a) in Hba. fold (bytes_ok b) in Hbb.
  pose proof (addr_value_bound a Hba) as Va. pose proof (addr_value_bound b Hbb) as Vb. rewrite Ha, pow256 in Va. rewrite Hb, pow256 in Vb.
  cbn [addr_value]. rewrite Ha, Hb, pow256. unfold low. clear low. rewrite Nat2Z.inj_succ in *. cbn [mask_bytes].
  destruct (Z.leb_spec 8 n) as [H8|H8]; cbn [masked_eq].
  - rewrite !land_255 by done. rewrite (IH (n - 8)) by (done || lia).
    replace (8 * Z.succ (Z.of_nat k) - n) with (8 * Z.of_nat k - (n - 8)) by lia.
    set (e := 8 * Z.of_nat k - (n - 8)). assert (He : 0 <= e) by lia.
    assert (E : 2 ^ (8 * Z.of_nat k) = 2 ^ (n - 8) * 2 ^ e) by (rewrite <-Z.pow_add_r by lia; f_equal; lia).
    pose proof (Z.pow_pos_nonneg 2 e ltac:(lia) He) as Pe. pose proof (Z.pow_pos_nonneg 2 (n - 8) ltac:(lia) ltac:(lia)) as Pn.
    rewrite E in *. rewrite !Z.mul_assoc, !Z.div_add_l by lia.
    assert (0 <= addr_value a / 2 ^ e < 2 ^ (n - 8)) by (split; [apply Z.div_pos; lia|apply Z.div_lt_upper_bound; lia]).
    assert (0 <= addr_value b / 2 ^ e < 2 ^ (n - 8)) by (split; [apply Z.div_pos; lia|apply Z.div_lt_upper_bound; lia]).
    destruct (Z.eqb_spec x y) as [->|Hne]; simpl.
    + destruct (Z.eqb_spec (addr_value b / 2 ^ e) (addr_value a / 2 ^ e)); symmetry; [apply Z.eqb_eq|apply Z.eqb_neq]; lia.
    + symmetry. apply Z.eqb_neq. nia.
  - rewrite !land_partial by lia. rewrite masked_eq_zero, andb_true_r by done.
    replace (8 * Z.succ (Z.of_nat k) - n) with (8 * Z.of_nat k + (8 - n)) by lia.
    rewrite Z.pow_add_r by lia. rewrite <-!Z.div_div by (apply Z.pow_nonzero || apply Z.pow_pos_nonneg; lia).
    rewrite !Z.div_add_l, (Z.div_small (addr_value a)), (Z.div_small (addr_value b)), !Z.add_0_r
      by (try apply Z.pow_nonzero; lia).
    pose proof (Z.pow_pos_nonneg 2 (8 - n) ltac:(lia) ltac:(lia)).
    destruct (Z.eqb_spec (y / 2 ^ (8 - n)) (x / 2 ^ (8 - n))) as [->|Hne]; [by apply Z.eqb_refl|].
    apply Z.eqb_neq. intros E. apply Hne. apply Z.mul_cancel_l in E; lia.
Qed.

(** Masking the network first makes no difference. *)
Lemma masked_eq_masked a b m : length a = length m → masked_eq (zip_with Z.land a m) b m = masked_eq a b m.
Proof.
  revert b m. induction a as [|x a IH]; intros [|y b] [|k m] H; try done. simpl in *.
  rewrite <-Z.land_assoc, Z.land_diag. by rewrite IH by lia.
Qed.

Lemma canon_4 ip : length ip = 4%nat → canon ip = ip ∧ is_nil (To4 ip) = false ∧ To4 ip = ip.
Proof.
  intros H. assert (E : To4 ip = ip) by (unfold To4; by rewrite bool_decide_eq_true_2).
  unfold canon. rewrite E. unfold is_nil. rewrite bool_decide_eq_false_2 by (by destruct ip). done.
Qed.

Lemma To4_16 ip : length ip = 16%nat → To4 ip = if bool_decide (take 12 ip = v4InV6Prefix) then drop 12 ip else [].
Proof. intros H. unfold To4. rewrite (bool_decide_eq_false_2 (length ip = 4%nat)), bool_decide_eq_true_2 by lia. done. Qed.

(** The 128-bit mask of [n] ones around bit 96. *)
Lemma mask_96 n :
  0 <= n <= 128 →
  if 96 <=? n then take 12 (mask_bytes 16 n) = replicate 12 255 ∧ drop 12 (mask_bytes 16 n) = mask_bytes 4 (n - 96)
  else 0 <= default 0 (mask_bytes 16 n !! 11%nat) < 255.
Proof.
  intros Hn. assert (H : Forall (λ n, if 96 <=? n
    then take 12 (mask_bytes 16 n) = replicate 12 255 ∧ drop 12 (mask_bytes 16 n) = mask_bytes 4 (n - 96)
    else 0 <= default 0 (mask_bytes 16 n !! 11%nat) < 255) (seqZ 0 129)).
  { repeat (apply Forall_cons; split; [first [by vm_compute|split; [by vm_compute|by vm_compute]]|]). by apply Forall_nil. }
  rewrite Forall_forall in H. apply H, elem_of_seqZ. lia.
Qed.

Lemma zip_land_255 (a : list Z) k : bytes_ok a → length a = k → zip_with Z.land a (replicate k 255) = a.
Proof.
  intros Ha <-. induction Ha as [|x a Hx _ IH]; [done|]. simpl. rewrite land_255 by done. by f_equal.
Qed.

(** The masked address is an IPv4 one iff the address is and the mask covers the
    embedding. *)
Lemma masked_mapped ip n :
  length ip = 16%nat → bytes_ok ip → 0 <= n <= 128 →
  take 12 (zip_with Z.land ip (mask_bytes 16 n)) = v4InV6Prefix ↔ take 12 ip = v4InV6Prefix ∧ 96 <= n.
Proof.
  intros Hl Hb Hn. rewrite zip_with_take. pose proof (mask_96 n Hn) as Hm. destruct (Z.leb_spec 96 n) as [H|H].
  - destruct Hm as [-> _]. rewrite zip_land_255; [tauto|by apply Forall_take|rewrite length_take; lia].
  - split; [|lia]. intros E. exfalso. apply (f_equal (λ l, l !! 11%nat)) in E.
    rewrite lookup_zip_with, !lookup_take_lt in E by lia. destruct (ip !! 11%nat) as [x|]; [|done].
    destruct (mask_bytes 16 n !! 11%nat) as [m|]; [|done]. simpl in Hm, E. injection E as E.
    pose proof (land_255 m ltac:(lia)) as Em. rewrite <-E in Em.
    rewrite (Z.land_comm x m), Z.land_assoc, Z.land_diag, Z.land_comm, E in Em. lia.
Qed.

(** The network that [ParseCIDR] makes of an address and a length. *)
Definition cidr_net (ip : list Z) (n : Z) : IPNet :=
  let m := CIDRMask n (8 * Z.of_nat (length ip)) in mkIPNet (IP_Mask (To16 ip) m) m.

(** The address and the length that count: an embedded IPv4 network is one. *)
Definition effective (ip : list Z) (n : Z) : list Z * Z :=
  if bool_decide (length ip = 16%nat) && negb (is_nil (To4 ip)) && (96 <=? n) then (To4 ip, n - 96) else (ip, n).

Lemma IP_Mask_4 ip m :
  length ip = 4%nat → length m = 4%nat → IP_Mask (To16 ip) m = zip_with Z.land ip m.
Proof.
  intros Hl Hm. unfold To16, IP_Mask. rewrite (bool_decide_eq_true_2 (length ip = 4%nat)) by done.
  rewrite Hm. simpl. rewrite Hl. simpl. rewrite Hm, (bool_decide_eq_true_2 (4 = 4)%nat) by done. simpl.
  by rewrite drop_0, bool_decide_eq_true_2.
Qed.

Lemma IP_Mask_16 ip m :
  length ip = 16%nat → length m = 16%nat → IP_Mask (To16 ip) m = zip_with Z.land ip m.
Proof.
  intros Hl Hm. assert (E : To16 ip = ip).
  { unfold To16. rewrite (bool_decide_eq_false_2 (length ip = 4%nat)), (bool_decide_eq_true_2 (length ip = 16%nat)) by lia. done. }
  rewrite E. unfold IP_Mask. rewrite (bool_decide_eq_false_2 (length ip = 4%nat)), andb_false_r by lia. simpl.
  rewrite (bool_decide_eq_false_2 (length m = 4%nat)) by lia. simpl. by rewrite bool_decide_eq_true_2 by lia.
Qed.

#[local] Arguments mask_bytes : simpl never.

(** The address and length that count, and that no IPv4 network is left in the
    IPv6 form. *)
Lemma effective_ok ip n :
  bytes_ok ip → length ip = 4%nat ∨ length ip = 16%nat → 0 <= n <= 8 * Z.of_nat (length ip) →
  let '(net, k) := effective ip n in
  bytes_ok net ∧ 0 <= k <= 8 * Z.of_nat (length net)
  ∧ (length net = 4%nat
     ∨ length net = 16%nat ∧ take 12 (zip_with Z.land net (mask_bytes 16 k)) ≠ v4InV6Prefix).
Proof.
  intros Hb [Hl|Hl] Hn; unfold effective; rewrite Hl in Hn |- *; simpl; [rewrite Hl; split_and!; [done|lia|lia|by left]|].
  pose proof (masked_mapped ip n Hl Hb Hn) as Hmap. rewrite (To4_16 ip Hl).
  destruct (bool_decide_reflect (take 12 ip = v4InV6Prefix)) as [Hm|Hm].
  - assert (Hd : length (drop 12 ip) = 4%nat) by (rewrite length_drop; lia).
    unfold is_nil. rewrite bool_decide_eq_false_2 by (by destruct (drop 12 ip)). simpl.
    destruct (Z.leb_spec 96 n); [rewrite Hd; split_and!; [by apply Forall_drop|lia|lia|by left]|].
    rewrite Hl. split_and!; [done|lia|lia|]. right. split; [done|]. intros E%Hmap. lia.
  - simpl. rewrite Hl. split_and!; [done|lia|lia|]. right. split; [done|]. intros E%Hmap. tauto.
Qed.

(** What [Contains] compares with. *)
Lemma network_cidr ip n :
  bytes_ok ip → length ip = 4%nat ∨ length ip = 16%nat → 0 <= n <= 8 * Z.of_nat (length ip) →
  networkNumberAndMask (cidr_net ip n)
  = let '(net, k) := effective ip n in (zip_with Z.land net (mask_bytes (length net) k), mask_bytes (length net) k).
Proof.
  intros Hb Hl Hn. unfold cidr_net, CIDRMask.
  replace (Z.to_nat (8 * Z.of_nat (length ip) / 8)) with (length ip) by (rewrite Z.mul_comm, Z.div_mul; lia).
  destruct Hl as [Hl|Hl]; rewrite Hl in Hn |- *; unfold effective; rewrite Hl.
  - (* IPv4 *)
    pose proof (IP_Mask_4 ip (mask_bytes 4 n) Hl (length_mask_bytes 4 n)) as E.
    rewrite E. set (w := zip_with _ _ _). assert (Hw : length w = 4%nat).
    { unfold w. rewrite length_zip_with, length_mask_bytes. lia. }
    unfold networkNumberAndMask. simpl. destruct (canon_4 w Hw) as (_ & -> & ->). simpl.
    rewrite length_mask_bytes, Hw, Hl. done.
  - (* IPv6 *)
    pose proof (IP_Mask_16 ip (mask_bytes 16 n) Hl (length_mask_bytes 16 n)) as E.
    rewrite E. set (w := zip_with _ _ _). assert (Hw : length w = 16%nat).
    { unfold w. rewrite length_zip_with, length_mask_bytes. lia. }
    pose proof (masked_mapped ip n Hl Hb Hn) as Hmap. fold w in Hmap. unfold networkNumberAndMask. simpl.
    rewrite (To4_16 w Hw), (To4_16 ip Hl), length_mask_bytes.
    assert (Hd : ∀ l : list Z, length l = 16%nat → is_nil (drop 12 l) = false).
    { intros l Hl0. unfold is_nil. apply bool_decide_eq_false_2. intros E0. apply (f_equal length) in E0.
      rewrite length_drop in E0. simpl in E0. lia. }
    destruct (bool_decide_reflect (take 12 w = v4InV6Prefix)) as [Hm|Hm].
    + apply Hmap in Hm as [Hip H96]. pose proof (mask_96 n Hn) as H9. destruct (Z.leb_spec 96 n); [|lia]. destruct H9 as [_ H9].
      rewrite (bool_decide_eq_true_2 (take 12 ip = v4InV6Prefix)), !Hd by done. simpl.
      rewrite !length_drop, Hw, Hl, H9. simpl. unfold w. by rewrite zip_with_drop, H9.
    + rewrite (bool_decide_eq_false_2 (length w = 4%nat)), (bool_decide_eq_true_2 (length w = 16%nat)) by lia. simpl.
      replace (_ && (96 <=? n)) with false; [by rewrite Hl|].
      symmetry. apply not_true_iff_false. intros Ht. apply Hm, Hmap. apply andb_true_iff in Ht as [Ht Hn96].
      split; [|lia]. case_bool_decide; [done|]. by simpl in Ht.
Qed.

Lemma Contains_cidr ip n c :
  bytes_ok ip → length ip = 4%nat ∨ length ip = 16%nat → 0 <= n <= 8 * Z.of_nat (length ip) → bytes_ok (canon c) →
  Contains (cidr_net ip n) c = let '(net, k) := effective ip n in same_prefix net k (canon c).
Proof.
  intros Hb Hl Hn Hc. unfold Contains. rewrite network_cidr by done. fold (canon c).
  pose proof (effective_ok ip n Hb Hl Hn) as He. destruct (effective ip n) as [net k]. destruct He as (Hbn & Hk & _).
  rewrite length_zip_with, length_mask_bytes, Nat.min_id. unfold same_prefix.
  destruct (bool_decide_reflect (length (canon c) = length net)) as [Hd|]; [|done]. simpl.
  rewrite masked_eq_masked by (by rewrite length_mask_bytes). by apply masked_eq_prefix.
Qed.

(** ** What the parsers make *)

Lemma dec_go_nonneg s acc : str_forallb isDigitByte s = true → 0 <= acc → 0 <= dec_go s acc.
Proof.
  revert acc. induction s as [|c s IH]; intros acc; simpl; [lia|]. intros [Hc Hs]%andb_true_iff Ha. apply IH; [done|].
  unfold isDigitByte in Hc. apply andb_true_iff in Hc as [Hc%N.leb_le _]. lia.
Qed.

Lemma ipv4_field_byte s b : ipv4_field s = Some b → 0 <= b < 256.
Proof.
  unfold ipv4_field. case_match eqn:E; [done|]. case_match; [|done]. intros [= <-].
  apply orb_false_iff in E as [E _]. apply orb_false_iff in E as [E _]. apply orb_false_iff in E as [_ E].
  apply negb_false_iff in E. pose proof (dec_go_nonneg s 0 E). lia.
Qed.

Lemma parseIPv4_ok s ip : parseIPv4 s = Some ip → bytes_ok ip ∧ length ip = 4%nat.
Proof.
  unfold parseIPv4. destruct (Split s ".") as [|a [|b [|c [|d [|? ?]]]]]; try done.
  destruct (ipv4_field a) as [x|] eqn:Ea; [|done]. destruct (ipv4_field b) as [y|] eqn:Eb; [|done].
  destruct (ipv4_field c) as [z|] eqn:Ec; [|done]. destruct (ipv4_field d) as [w|] eqn:Ed; [|done].
  intros [= <-]. split; [|done]. repeat (apply Forall_cons; split; [by eapply ipv4_field_byte|]). by apply Forall_nil.
Qed.

Lemma hex_digit_range c d : hex_digit c = Some d → 0 <= d < 16.
Proof.
  unfold hex_digit, isDigitByte. intros H. repeat case_match; simplify_eq;
    repeat match goal with E : _ && _ = true |- _ => apply andb_true_iff in E as [] end;
    rewrite ?N.leb_le, ?Z.leb_le in *; lia.
Qed.

Lemma hex_run_range s acc n v m r :
  hex_run s acc n = (v, m, r) → 0 <= acc < 16 ^ Z.of_nat n → 0 <= v < 16 ^ Z.of_nat m.
Proof.
  revert acc n. induction s as [|c s IH]; intros acc n; simpl; [congruence|].
  destruct (hex_digit c) as [d|] eqn:Ed; [|congruence]. intros E Ha. apply (IH _ _ E).
  apply hex_digit_range in Ed. rewrite Nat2Z.inj_succ, Z.pow_succ_r by lia. lia.
Qed.

(** A group of at most four digits is two bytes. *)
Lemma group_bytes v m : 0 <= v < 16 ^ Z.of_nat m → (m <= 4)%nat → bytes_ok [Z.shiftr v 8; Z.land v 255].
Proof.
  intros Hv Hm. assert (16 ^ Z.of_nat m <= 16 ^ 4) by (apply Z.pow_le_mono_r; lia). change (16 ^ 4) with 65536 in *.
  rewrite Z.shiftr_div_pow2 by lia. change 255 with (Z.ones 8). rewrite Z.land_ones by lia. change (2 ^ 8) with 256.
  pose proof (Z.div_lt_upper_bound v 256 256 ltac:(lia) ltac:(lia)). pose proof (Z.div_pos v 256 ltac:(lia) ltac:(lia)).
  pose proof (Z.mod_pos_bound v 256 ltac:(lia)).
  apply Forall_cons. split; [lia|]. apply Forall_cons. split; [lia|by apply Forall_nil].
Qed.

Lemma ipv6_groups_ok fuel s ip ell ip' ell' r :
  ipv6_groups fuel s ip ell = Some (ip', ell', r) → bytes_ok ip → (length ip + 2 * fuel = 16)%nat →
  bytes_ok ip' ∧ (length ip' <= 16)%nat.
Proof.
  revert s ip ell. induction fuel as [|fuel IH]; intros s ip ell; simpl.
  { intros [= <- <- <-] Hb Hl. split; [done|lia]. }
  destruct (hex_run s 0 0) as [[v n] t] eqn:Eh. pose proof (hex_run_range _ _ _ _ _ _ Eh ltac:(simpl; lia)) as Hv.
  destruct (Nat.ltb_spec 4 n) as [|Hn]; [done|]. destruct (Nat.eqb_spec n 0); [done|]. cbn [orb].
  intros H Hb Hl. destruct (HasPrefix t ".").
  - case_match eqn:Ec; [done|]. destruct (parseIPv4 s) as [q|] eqn:Eq; [|done]. injection H as <- <- <-.
    apply parseIPv4_ok in Eq as [Hq Hlq]. apply orb_false_iff in Ec as [_ Ec%Nat.ltb_ge].
    split; [by apply Forall_app|]. rewrite length_app. lia.
  - pose proof (group_bytes v n Hv Hn) as Hg. set (ip2 := (ip ++ _)%list) in *.
    assert (Hb2 : bytes_ok ip2) by (by apply Forall_app).
    assert (Hl2 : length ip2 = (length ip + 2)%nat) by (unfold ip2; rewrite length_app; simpl; lia).
    repeat case_match; simplify_eq; first [by split; [|lia]|eapply IH; [done|done|lia]].
Qed.

Lemma parseIPv6_ok s ip z : parseIPv6 s = Some (ip, z) → bytes_ok ip ∧ length ip = 16%nat.
Proof.
  unfold parseIPv6. destruct (match cut s "%" with Some _ => _ | None => _ end) as [a zone].
  case_match; [done|]. destruct (if HasPrefix a "::" then _ else _) as [ell b].
  assert (H0 : ∀ k, bytes_ok (replicate k 0)) by (intros k; apply Forall_replicate; lia).
  case_match; [intros [= <- <-]; split; [apply (H0 16%nat)|done]|].
  destruct (ipv6_groups 8 b [] ell) as [[[ip' ell'] r]|] eqn:Eg; [|done]. simpl.
  destruct (ipv6_groups_ok _ _ _ _ _ _ _ Eg) as [Hb Hl]; [by apply Forall_nil|done|].
  case_match; [done|]. destruct (Nat.ltb_spec (length ip') 16) as [Hlt|Hge].
  - destruct ell' as [e|]; [|done]. intros [= <- <-]. split.
    + apply Forall_app; split; [by apply Forall_take|]. apply Forall_app; split; [apply H0|by apply Forall_drop].
    + rewrite !length_app, length_take, length_replicate, length_drop. lia.
  - case_match; [done|]. intros [= <- <-]. split; [done|lia].
Qed.

Lemma netip_ParseAddr_ok s ip z :
  netip_ParseAddr s = Some (ip, z) → bytes_ok ip ∧ (length ip = 4%nat ∨ length ip = 16%nat).
Proof.
  unfold netip_ParseAddr. destruct (ParseAddr_kind s) as [[[] [] [] [] [] [] [] []]|]; try done.
  - destruct (parseIPv4 s) as [q|] eqn:Eq; [|done]. intros [= <- <-]. apply parseIPv4_ok in Eq. tauto.
  - intros H%parseIPv6_ok. tauto.
Qed.

(** An access-list entry: the address and the number of leading bits that count. *)
Definition acl_prefix (spec : string) : option (list Z * Z) :=
  '(addr, mask) ← cut spec "/";
  '(ip, _) ← netip_ParseAddr addr;
  Some (effective ip (dec_go mask 0)).

(** [acl_prefix spec] is what the network made of [spec] compares. *)
Lemma ParseCIDR_prefix spec ip n c :
  ParseCIDR spec = Some (ip, n) → bytes_ok (canon c) →
  ∃ net k, acl_prefix spec = Some (net, k) ∧ Contains n c = same_prefix net k (canon c).
Proof.
  unfold ParseCIDR, acl_prefix. destruct (cut spec "/") as [[addr mask]|]; [|done]. simpl.
  destruct (netip_ParseAddr addr) as [[a z]|] eqn:Ea; [|done]. destruct z; [|done]. simpl.
  destruct (_ || _) eqn:Em; [done|]. intros [= <- <-] Hc. apply netip_ParseAddr_ok in Ea as [Hb Hl].
  apply orb_false_iff in Em as [Em Hbits%Z.ltb_ge]. apply orb_false_iff in Em as [_ Em%negb_false_iff].
  pose proof (dec_go_nonneg mask 0 Em ltac:(lia)) as Hnn.
  pose proof (Contains_cidr a (dec_go mask 0) c Hb Hl (conj Hnn Hbits) Hc) as E.
  destruct (effective a (dec_go mask 0)) as [net k]. by exists net, k.
Qed.

Lemma canon_bytes_ok ip : bytes_ok ip → bytes_ok (canon ip).
Proof. intros H. unfold canon. case_match; [done|by apply bytes_ok_To4]. Qed.

Lemma ParseIP_bytes_ok s : bytes_ok (ParseIP s).
Proof.
  unfold ParseIP. destruct (netip_ParseAddr s) as [[ip z]|] eqn:E; [|by apply Forall_nil].
  destruct z; [|by apply Forall_nil]. apply netip_ParseAddr_ok in E as [E _]. by apply bytes_ok_To16.
Qed.

(** The client is inside the network that [spec] names. *)
Definition admitted_by (spec : string) (client : IP) : Prop :=
  ∃ net k, acl_prefix spec = Some (net, k) ∧ same_prefix net k (canon client) = true.

Lemma checkAcl_spec specs nets client :
  Forall2 (λ v n, ∃ ip, ParseCIDR v = Some (ip, n)) specs nets → bytes_ok (canon client) →
  checkAcl nets client = true ↔ specs = [] ∨ Exists (λ spec, admitted_by spec client) specs.
Proof.
  intros H Hc. unfold checkAcl. destruct H as [|v n specs nets Hv H]; [simpl; tauto|].
  rewrite bool_decide_eq_false_2 by done. trans (Exists (λ spec, admitted_by spec client) (v :: specs)); [|naive_solver].
  pose proof (List.Forall2_cons _ _ Hv H) as HA. clear Hv H. induction HA as [|w m ws ms (ip & Hw) _ IH]; simpl.
  { by rewrite Exists_nil. }
  rewrite Exists_cons, <-IH. destruct (ParseCIDR_prefix _ _ _ client Hw Hc) as (net & k & Hp & E). rewrite E.
  assert (Ha : admitted_by w client ↔ same_prefix net k (canon client) = true).
  { unfold admitted_by. rewrite Hp. naive_solver. }
  rewrite Ha. destruct (same_prefix net k (canon client)); naive_solver.
Qed.

Section admission.
Context {U : GoUnicode} {L : DnsLib} {HL : DnsLaws L} {R US Chan : Type} {RI : Resolver R US}
        {RT : ReplyTypes RI}.
Context (clk : nat → Time).

(** C11: with the access list read from [specs], a client that asks one question
    is admitted iff the list is empty or, for some entry address/length, the
    client's address and the entry's have the same kind (IPv4 or IPv6) and the same
    leading [length] bits as numbers; an IPv4 address written as ::ffff:a.b.c.d
    counts as IPv4 on both sides, the zone of the client address is ignored, and a
    client whose address does not parse is in no network.  An admitted client is
    answered, unless the handler meets the crash of C1; everyone else, whatever the
    upstreams are, gets no answer, only a log entry and a closed connection, and
    touches neither the cache nor the upstreams. *)
Theorem acl_admits_exactly_listed_prefixes (ups : list R) (hist : list ConnectionLog) (specs : list string)
    (addr host port : string) (q : Msg) (q0 : Question) (s : St (R := R) (US := US) (Chan := Chan)) :
  shared_ok ups (cfg s) → logged (c_StatsHandler (cfg s)) hist →
  Forall2 (λ v n, ∃ ip, ParseCIDR v = Some (ip, n)) specs (c_Acl (cfg s)) →
  SplitHostPort addr = Some (host, port) → Questions q = [q0] →
  let admitted := specs = [] ∨ Exists (λ spec, admitted_by spec (ParseIP (strip_zone host))) specs in
  (admitted → crashes clk s addr q = false → ∃ m rest s', MakeHandler clk addr q s = Ok (WriteMsg m :: rest, s'))
  ∧ (admitted → crashes clk s addr q = true → MakeHandler clk addr q s = Panic)
  ∧ (¬ admitted → ∃ sends s', MakeHandler clk addr q s = Ok ((sends ++ [Close])%list, s')
       ∧ (∀ e, e ∈ sends → ∃ ch item, e = LogSend ch item)
       ∧ c_Cache (cfg s') = c_Cache (cfg s) ∧ upst s' = upst s).
Proof.
  intros Hs Hl Hacl Ha Hq. cbv zeta.
  rewrite <-(checkAcl_spec specs _ _ Hacl (canon_bytes_ok _ (ParseIP_bytes_ok _))).
  pose proof (MakeHandler_cases clk ups hist addr q s Hs Hl) as Hw.
  assert (Ed : dropped (cfg s) addr q = negb (checkAcl (c_Acl (cfg s)) (ParseIP (strip_zone host)))).
  { unfold dropped. by rewrite Ha, Hq. }
  destruct (checkAcl _ _); simpl in Ed.
  - split_and!; [intros _ Hc|intros _ Hc|done]; rewrite Hc in Hw; [|done].
    destruct Hw as (ev & s' & E & item & ws & sends & s1 & [_ Hb] & -> & _). simpl in Hb. rewrite Ed in Hb.
    destruct Hb as ((_ & _ & m & -> & _) & _). by do 3 eexists.
  - split_and!; [done..|]. intros _. assert (Hc : crashes clk s addr q = false) by (unfold crashes; by rewrite Ed).
    rewrite Hc in Hw. destruct Hw as (ev & s' & E & item & ws & sends & s1 & [_ Hb] & -> & (d & _ & Hsend) & Ecfg & Eup & _).
    simpl in Hb. rewrite Ed in Hb. destruct Hb as (-> & _ & _ & Hcfg & Hup). exists sends, s'.
    split_and!; [done| |rewrite Ecfg; simpl; by rewrite Hcfg|by rewrite Eup, Hup].
    intros e He. destruct (Hsend e He) as [ch ->]. eauto.
Qed.
End admission.

(** The proxy of the samples with the list 192.0.2.0/24, ::ffff:198.51.100.0/120,
    2001:db8::/32. *)
Definition acl_specs : list string := ["192.0.2.0/24"; "::ffff:198.51.100.0/120"; "2001:db8::/32"]%string.
Definition acl_st : St (US := nat) :=
  mkSt (set_Acl sample_proxy (omap (λ v, snd <$> ParseCIDR v) acl_specs)) 0%nat 0%nat.

Lemma acl_admits_exactly_listed_prefixes_witness :
  (∃ m rest s', MakeHandler sample_clk "198.51.100.77:5353" (sample_query 9 "www.example.com." TypeA) acl_st
    = Ok (WriteMsg m :: rest, s'))
  ∧ (∃ sends s', MakeHandler sample_clk "198.51.101.77:5353" (sample_query 9 "www.example.com." TypeA) acl_st
    = Ok ((sends ++ [Close])%list, s') ∧ upst s' = 0%nat).
Proof.
  assert (Hok : shared_ok [up_fail; up_v4] (cfg acl_st)) by (by destruct sample_shared_ok; split).
  assert (Hl : Forall2 (λ v n, ∃ ip, ParseCIDR v = Some (ip, n)) acl_specs (c_Acl (cfg acl_st))).
  { repeat (apply Forall2_cons; split; [eexists; vm_compute; reflexivity|]). by apply Forall2_nil. }
  split.
  - destruct (acl_admits_exactly_listed_prefixes sample_clk [up_fail; up_v4] [] acl_specs "198.51.100.77:5353"
      "198.51.100.77" "5353" (sample_query 9 "www.example.com." TypeA) (mkQuestion "www.example.com." TypeA ClassINET)
      acl_st Hok sample_logged Hl) as [H _]; [by vm_compute..|].
    apply H; [|vm_compute; reflexivity]. right. apply Exists_cons. right. apply Exists_cons. left.
    exists [198; 51; 100; 0], 24. split; vm_compute; reflexivity.
  - destruct (acl_admits_exactly_listed_prefixes sample_clk [up_fail; up_v4] [] acl_specs "198.51.101.77:5353"
      "198.51.101.77" "5353" (sample_query 9 "www.example.com." TypeA) (mkQuestion "www.example.com." TypeA ClassINET)
      acl_st Hok sample_logged Hl) as (_ & _ & H); [by vm_compute..|].
    destruct H as (sends & s' & E & _ & _ & Hu); [|exists sends, s'; split; [exact E|exact Hu]]. intros [?|Hx]; [done|].
    repeat (apply Exists_cons in Hx as [(net & k & E1 & Hx)|Hx]; [vm_compute in E1; injection E1 as <- <-; vm_compute in Hx; discriminate Hx|]). by apply Exists_nil in Hx.
Defined.
