(* ===== verification/Json.v ===== *)
(** * JSON text (encoding/json)

    What the program uses of Go's package encoding/json: the values, [Marshal] and
    [MarshalIndent] as one printer with two layouts, and the reader behind
    [Unmarshal] and [Valid] as a recursive descent over the bytes.  A string is a
    byte sequence: the printer replaces what is not UTF-8 by U+FFFD and escapes
    the characters that HTML treats specially.  A number keeps its text.

    The recursion of the reader is bounded by [fuel], twice the length of the
    text; [parse_fuel] shows that more would not change a result. *)

From S2P Require Import Prelude GoStrings.
Set Default Goal Selector "!".
Local Open Scope string_scope.

Unset Elimination Schemes.
Inductive json :=
  | JNull
  | JBool (b : bool)
  | JNum (lit : string)
  | JStr (s : string)
  | JArr (l : list json)
  | JObj (m : list (string * json)).
Set Elimination Schemes.

(** Induction with hypotheses for the elements and the members. *)
Section json_ind.
Context (P : json → Prop).
Context (Pnull : P JNull) (Pbool : ∀ b, P (JBool b)) (Pnum : ∀ l, P (JNum l)) (Pstr : ∀ s, P (JStr s)).
Context (Parr : ∀ l, Forall P l → P (JArr l)) (Pobj : ∀ m, Forall (λ kv, P kv.2) m → P (JObj m)).

Fixpoint json_ind (v : json) : P v :=
  match v with
  | JNull => Pnull
  | JBool b => Pbool b
  | JNum l => Pnum l
  | JStr s => Pstr s
  | JArr l => Parr l ((fix go l := match l return Forall P l with
                                   | [] => Forall_nil_2 _
                                   | v :: l => Forall_cons_2 _ _ _ (json_ind v) (go l)
                                   end) l)
  | JObj m => Pobj m ((fix go m := match m return Forall (λ kv, P kv.2) m with
                                   | [] => Forall_nil_2 _
                                   | kv :: m => Forall_cons_2 _ _ _ (json_ind kv.2) (go m)
                                   end) m)
  end.
End json_ind.

(** ** UTF-8 (unicode/utf8) *)
Section utf8.
Local Open Scope N_scope.

Definition in_range (lo hi : N) (c : ascii) : bool := (lo <=? byte_of c) && (byte_of c <=? hi).
Definition cont (c : ascii) : bool := in_range 128 191 c.

(** The well-formed sequences of two, three and four bytes. *)
Definition rune2 (a b : ascii) : bool := in_range 194 223 a && cont b.
Definition rune3 (a b c : ascii) : bool :=
  (if byte_of a =? 224 then in_range 160 191 b
   else if byte_of a =? 237 then in_range 128 159 b
   else in_range 225 239 a && cont b) && cont c.
Definition rune4 (a b c d : ascii) : bool :=
  (if byte_of a =? 240 then in_range 144 191 b
   else if byte_of a =? 244 then in_range 128 143 b
   else in_range 241 243 a && cont b) && cont c && cont d.

Definition chr (n : N) : ascii := Ascii.ascii_of_N n.

(** [utf8.EncodeRune] of a code point that is not a surrogate. *)
Definition encode_rune (r : N) : string :=
  if r <? 128 then String (chr r) ""
  else if r <? 2048 then String (chr (192 + r / 64)) (String (chr (128 + r mod 64)) "")
  else if r <? 65536 then
    String (chr (224 + r / 4096)) (String (chr (128 + r / 64 mod 64)) (String (chr (128 + r mod 64)) ""))
  else String (chr (240 + r / 262144)) (String (chr (128 + r / 4096 mod 64))
         (String (chr (128 + r / 64 mod 64)) (String (chr (128 + r mod 64)) ""))).
End utf8.

Definition replacement : string := encode_rune 65533.

(** ** Strings *)
Definition DQ : ascii := "034".
Definition BS : ascii := "\".

Definition hex_digit (n : N) : ascii :=
  chr (if (n <? 10)%N then 48 + n else 87 + n).

(** How a byte below [utf8.RuneSelf] is written: [htmlSafeSet] and its exceptions. *)
Definition escape_byte (c : ascii) : string :=
  let n := byte_of c in
  if bool_decide (c = DQ ∨ c = BS) then String BS (String c "")
  else if (n =? 8)%N then String BS "b"
  else if (n =? 9)%N then String BS "t"
  else if (n =? 10)%N then String BS "n"
  else if (n =? 12)%N then String BS "f"
  else if (n =? 13)%N then String BS "r"
  else if (n <? 32)%N || bool_decide (c = "<"%char ∨ c = ">"%char ∨ c = "&"%char)
  then String BS ("u00" +:+ String (hex_digit (n / 16)) (String (hex_digit (n mod 16)) ""))
  else String c "".

(** U+2028 and U+2029 are escaped, other well-formed sequences are copied. *)
Definition escape3 (a b c : ascii) : string :=
  if bool_decide (a = "226"%char ∧ b = "128"%char ∧ (c = "168"%char ∨ c = "169"%char))
  then String BS ("u202" +:+ String (hex_digit (byte_of c mod 16)) "")
  else String a (String b (String c "")).

Definition bad_rune : string := String BS "ufffd".

Fixpoint escape (s : string) : string :=
  match s with
  | "" => ""
  | String a s1 =>
      if isASCIIbyte a then escape_byte a +:+ escape s1
      else match s1 with
           | "" => bad_rune +:+ escape s1
           | String b s2 =>
               if rune2 a b then String a (String b "") +:+ escape s2
               else match s2 with
                    | "" => bad_rune +:+ escape s1
                    | String c s3 =>
                        if rune3 a b c then escape3 a b c +:+ escape s3
                        else match s3 with
                             | "" => bad_rune +:+ escape s1
                             | String d s4 =>
                                 if rune4 a b c d
                                 then String a (String b (String c (String d ""))) +:+ escape s4
                                 else bad_rune +:+ escape s1
                             end
                    end
           end
  end.

Definition print_str (s : string) : string := String DQ (escape s +:+ String DQ "").

(** Reading: the escapes of one letter, four hexadecimal digits. *)
Definition unescape1 (c : ascii) : option ascii :=
  if bool_decide (c = DQ ∨ c = BS ∨ c = "/"%char) then Some c
  else if bool_decide (c = "b"%char) then Some (chr 8)
  else if bool_decide (c = "t"%char) then Some (chr 9)
  else if bool_decide (c = "n"%char) then Some (chr 10)
  else if bool_decide (c = "f"%char) then Some (chr 12)
  else if bool_decide (c = "r"%char) then Some (chr 13)
  else None.

Definition unhex (c : ascii) : option N :=
  let n := byte_of c in
  if in_range 48 57 c then Some (n - 48)%N
  else if in_range 97 102 c then Some (n - 87)%N
  else if in_range 65 70 c then Some (n - 55)%N
  else None.

Definition hex4 (a b c d : ascii) : option N :=
  a ← unhex a; b ← unhex b; c ← unhex c; d ← unhex d;
  Some (((a * 16 + b) * 16 + c) * 16 + d)%N.

Definition high_surrogate (r : N) : bool := (55296 <=? r)%N && (r <? 56320)%N.
Definition low_surrogate (r : N) : bool := (56320 <=? r)%N && (r <? 57344)%N.
Definition surrogate_pair (r r' : N) : N := (65536 + (r - 55296) * 1024 + (r' - 56320))%N.

Definition prepend (s : string) (r : option (string * string)) : option (string * string) :=
  match r with Some (t, rest) => Some (s +:+ t, rest) | None => None end.

(** The text of a string literal after its opening quote, and what follows it. *)
Fixpoint parse_str (s : string) : option (string * string) :=
  match s with
  | "" => None
  | String a s1 =>
      if bool_decide (a = DQ) then Some ("", s1)
      else if bool_decide (a = BS) then
        match s1 with
        | "" => None
        | String e s2 =>
            match unescape1 e with
            | Some c => prepend (String c "") (parse_str s2)
            | None =>
                if bool_decide (e = "u"%char) then
                  match s2 with
                  | String h1 (String h2 (String h3 (String h4 s6))) =>
                      match hex4 h1 h2 h3 h4 with
                      | None => None
                      | Some r =>
                          if high_surrogate r then
                            match s6 with
                            | String b' (String u' (String g1 (String g2 (String g3 (String g4 s12))))) =>
                                match (if bool_decide (b' = BS ∧ u' = "u"%char) then hex4 g1 g2 g3 g4 else None) with
                                | Some r' =>
                                    if low_surrogate r'
                                    then prepend (encode_rune (surrogate_pair r r')) (parse_str s12)
                                    else prepend replacement (parse_str s6)
                                | None => prepend replacement (parse_str s6)
                                end
                            | _ => prepend replacement (parse_str s6)
                            end
                          else if low_surrogate r then prepend replacement (parse_str s6)
                          else prepend (encode_rune r) (parse_str s6)
                      end
                  | _ => None
                  end
                else None
            end
        end
      else if (byte_of a <? 32)%N then None
      else if isASCIIbyte a then prepend (String a "") (parse_str s1)
      else match s1 with
           | "" => prepend replacement (parse_str s1)
           | String b s2 =>
               if rune2 a b then prepend (String a (String b "")) (parse_str s2)
               else match s2 with
                    | "" => prepend replacement (parse_str s1)
                    | String c s3 =>
                        if rune3 a b c then prepend (String a (String b (String c ""))) (parse_str s3)
                        else match s3 with
                             | "" => prepend replacement (parse_str s1)
                             | String d s4 =>
                                 if rune4 a b c d
                                 then prepend (String a (String b (String c (String d "")))) (parse_str s4)
                                 else prepend replacement (parse_str s1)
                             end
                    end
           end
  end.

(** ** Printing

    [nl d] is what separates elements at depth [d]; [colon] follows a name. *)
Record Layout := mkLayout { nl : nat → string; colon : string }.

Fixpoint spaces (n : nat) : string := match n with 0 => "" | S n => "  " +:+ spaces n end.

Definition compact : Layout := mkLayout (λ _, "") ":".
Definition indented : Layout := mkLayout (λ d, String "010" (spaces d)) ": ".

Fixpoint print (y : Layout) (d : nat) (v : json) : string :=
  match v with
  | JNull => "null"
  | JBool true => "true"
  | JBool false => "false"
  | JNum l => l
  | JStr s => print_str s
  | JArr [] => "[]"
  | JArr l =>
      "[" +:+ nl y (S d) +:+ Join (List.map (print y (S d)) l) ("," +:+ nl y (S d)) +:+ nl y d +:+ "]"
  | JObj [] => "{}"
  | JObj m =>
      "{" +:+ nl y (S d)
      +:+ Join (List.map (λ kv, print_str kv.1 +:+ colon y +:+ print y (S d) kv.2) m) ("," +:+ nl y (S d))
      +:+ nl y d +:+ "}"
  end.

(** [json.Marshal(v)] and [json.MarshalIndent(v, '', '  ')]. *)
Definition Marshal (v : json) : string := print compact 0 v.
Definition MarshalIndent (v : json) : string := print indented 0 v.

(** ** Reading *)
Definition isJsonSpace (c : ascii) : bool :=
  bool_decide (c = " "%char ∨ c = "009"%char ∨ c = "010"%char ∨ c = "013"%char).

Fixpoint skip_sp (s : string) : string :=
  match s with
  | String c s' => if isJsonSpace c then skip_sp s' else s
  | "" => ""
  end.

Fixpoint span (p : ascii → bool) (s : string) : string * string :=
  match s with
  | String c s' => if p c then let '(a, b) := span p s' in (String c a, b) else ("", s)
  | "" => ("", "")
  end.

(** One or more digits. *)
Definition digits1 (s : string) : option (string * string) :=
  match span isDigitByte s with
  | ("", _) => None
  | r => Some r
  end.

Definition lex_int (s : string) : option (string * string) :=
  match s with
  | String c s' => if bool_decide (c = "0"%char) then Some ("0", s') else digits1 s
  | "" => None
  end.
Definition lex_frac (s : string) : option (string * string) :=
  match s with
  | String c s' =>
      if bool_decide (c = "."%char) then '(d, r) ← digits1 s'; Some (String c d, r) else Some ("", s)
  | "" => Some ("", "")
  end.
Definition lex_sign (s : string) : string * string :=
  match s with
  | String c s' => if bool_decide (c = "+"%char ∨ c = "-"%char) then (String c "", s') else ("", s)
  | "" => ("", "")
  end.
Definition lex_exp (s : string) : option (string * string) :=
  match s with
  | String c s' =>
      if bool_decide (c = "e"%char ∨ c = "E"%char)
      then let '(sg, s'') := lex_sign s' in '(d, r) ← digits1 s''; Some (String c (sg +:+ d), r)
      else Some ("", s)
  | "" => Some ("", "")
  end.

(** The longest number at the start of [s]. *)
Definition lex_number (s : string) : option (string * string) :=
  let '(m, s1) := match s with
                  | String c s' => if bool_decide (c = "-"%char) then ("-", s') else ("", s)
                  | "" => ("", "")
                  end in
  '(i, s2) ← lex_int s1; '(f, s3) ← lex_frac s2; '(e, s4) ← lex_exp s3;
  Some (m +:+ i +:+ f +:+ e, s4).

Definition lex_word (w s : string) : option string :=
  if HasPrefix s w then Some (str_drop (String.length w) s) else None.

(** [maxNestingDepth] *)
Definition maxDepth : N := 10000.

Fixpoint parse_value (n : nat) (d : N) (s : string) : option (json * string) :=
  match n with
  | 0 => None
  | S n =>
      match skip_sp s with
      | "" => None
      | String c s' =>
          if bool_decide (c = DQ) then '(t, r) ← parse_str s'; Some (JStr t, r)
          else if bool_decide (c = "["%char) then
            if (maxDepth <? d + 1)%N then None
            else match lex_word "]" (skip_sp s') with
                 | Some r => Some (JArr [], r)
                 | None => '(l, r) ← parse_elems n (d + 1) s'; Some (JArr l, r)
                 end
          else if bool_decide (c = "{"%char) then
            if (maxDepth <? d + 1)%N then None
            else match lex_word "}" (skip_sp s') with
                 | Some r => Some (JObj [], r)
                 | None => '(m, r) ← parse_members n (d + 1) s'; Some (JObj m, r)
                 end
          else if bool_decide (c = "t"%char) then r ← lex_word "true" (String c s'); Some (JBool true, r)
          else if bool_decide (c = "f"%char) then r ← lex_word "false" (String c s'); Some (JBool false, r)
          else if bool_decide (c = "n"%char) then r ← lex_word "null" (String c s'); Some (JNull, r)
          else '(l, r) ← lex_number (String c s'); Some (JNum l, r)
      end
  end
with parse_elems (n : nat) (d : N) (s : string) : option (list json * string) :=
  match n with
  | 0 => None
  | S n =>
      '(v, s1) ← parse_value n d s;
      match skip_sp s1 with
      | String c s2 =>
          if bool_decide (c = ","%char) then '(l, r) ← parse_elems n d s2; Some (v :: l, r)
          else if bool_decide (c = "]"%char) then Some ([v], s2)
          else None
      | "" => None
      end
  end
with parse_members (n : nat) (d : N) (s : string) : option (list (string * json) * string) :=
  match n with
  | 0 => None
  | S n =>
      match skip_sp s with
      | String c s' =>
          if bool_decide (c = DQ) then
            '(k, s1) ← parse_str s';
            match skip_sp s1 with
            | String c s2 =>
                if bool_decide (c = ":"%char) then
                  '(v, s3) ← parse_value n d s2;
                  match skip_sp s3 with
                  | String c s4 =>
                      if bool_decide (c = ","%char) then '(m, r) ← parse_members n d s4; Some ((k, v) :: m, r)
                      else if bool_decide (c = "}"%char) then Some ([(k, v)], s4)
                      else None
                  | "" => None
                  end
                else None
            | "" => None
            end
          else None
      | "" => None
      end
  end.

Definition fuel (s : string) : nat := 2 * String.length s + 2.

(** A whole document; [None] is a syntax error. *)
Definition parse (s : string) : option json :=
  '(v, r) ← parse_value (fuel s) 0 s;
  if bool_decide (skip_sp r = "") then Some v else None.

Definition Valid (s : string) : bool := match parse s with Some _ => true | None => false end.

Definition sample_text : string :=
  "{" +:+ print_str "a" +:+ ": [1, -2.50e+3, true ,null, " +:+ print_str "x<y" +:+ "], " +:+ print_str "b" +:+ ":{}}".

Example sample_parses :
  parse sample_text
  = Some (JObj [("a", JArr [JNum "1"; JNum "-2.50e+3"; JBool true; JNull; JStr "x<y"]); ("b", JObj [])]).
Proof. vm_compute. reflexivity. Qed.

Example sample_syntax_errors :
  parse "[1,]" = None ∧ parse "01" = None ∧ parse "1." = None ∧ parse "{" = None ∧ parse "nul" = None
  ∧ parse "[] x" = None ∧ parse "" = None.
Proof. vm_compute. done. Qed.

(** ** Round trip of strings *)

(** [utf8.ValidString] *)
Fixpoint valid_utf8 (s : string) : bool :=
  match s with
  | "" => true
  | String a s1 =>
      if isASCIIbyte a then valid_utf8 s1
      else match s1 with
           | "" => false
           | String b s2 =>
               if rune2 a b then valid_utf8 s2
               else match s2 with
                    | "" => false
                    | String c s3 =>
                        if rune3 a b c then valid_utf8 s3
                        else match s3 with
                             | "" => false
                             | String d s4 => rune4 a b c d && valid_utf8 s4
                             end
                    end
           end
  end.

Lemma isASCII_valid s : isASCII s = true → valid_utf8 s = true.
Proof.
  unfold isASCII. induction s as [|a s IH]; simpl; [done|]. destruct (isASCIIbyte a); [done|discriminate].
Qed.

Section utf8_facts.
Local Open Scope N_scope.

Lemma in_range_true lo hi c : in_range lo hi c = true ↔ lo <= byte_of c <= hi.
Proof. unfold in_range. rewrite andb_true_iff, !N.leb_le. done. Qed.

Lemma rune2_high a b : rune2 a b = true → 194 <= byte_of a <= 223.
Proof. unfold rune2. rewrite andb_true_iff, in_range_true. tauto. Qed.

Lemma rune3_high a b c : rune3 a b c = true → 224 <= byte_of a <= 239.
Proof.
  unfold rune3. rewrite andb_true_iff. intros [H _]. revert H.
  destruct (N.eqb_spec (byte_of a) 224) as [->|_]; [lia|].
  destruct (N.eqb_spec (byte_of a) 237) as [->|_]; [lia|].
  rewrite andb_true_iff, in_range_true. lia.
Qed.

Lemma rune4_high a b c d : rune4 a b c d = true → 240 <= byte_of a <= 244.
Proof.
  unfold rune4. rewrite !andb_true_iff. intros [[H _] _]. revert H.
  destruct (N.eqb_spec (byte_of a) 240) as [->|_]; [lia|].
  destruct (N.eqb_spec (byte_of a) 244) as [->|_]; [lia|].
  rewrite andb_true_iff, in_range_true. lia.
Qed.

Lemma not_ASCII a : isASCIIbyte a = false ↔ 128 <= byte_of a.
Proof. unfold isASCIIbyte. by rewrite N.ltb_ge. Qed.

Lemma rune2_false a b : 224 <= byte_of a → rune2 a b = false.
Proof. intros H. destruct (rune2 a b) eqn:E; [|done]. apply rune2_high in E. lia. Qed.
Lemma rune3_false a b c : 240 <= byte_of a → rune3 a b c = false.
Proof. intros H. destruct (rune3 a b c) eqn:E; [|done]. apply rune3_high in E. lia. Qed.
End utf8_facts.

(** Induction over the characters of a valid string. *)
Lemma valid_utf8_ind (P : string → Prop) :
  P "" →
  (∀ a s, isASCIIbyte a = true → P s → P (String a s)) →
  (∀ a b s, rune2 a b = true → P s → P (String a (String b s))) →
  (∀ a b c s, rune3 a b c = true → P s → P (String a (String b (String c s)))) →
  (∀ a b c d s, rune4 a b c d = true → P s → P (String a (String b (String c (String d s))))) →
  ∀ s, valid_utf8 s = true → P s.
Proof.
  intros P0 P1 P2 P3 P4 s. remember (String.length s) as n eqn:En. revert s En.
  induction (lt_wf n) as [n _ IH]. intros [|a s1] En H; [done|]. simpl in *.
  destruct (isASCIIbyte a) eqn:Ea; [apply P1; [done|]; apply (IH (String.length s1)); [lia|done|done]|].
  destruct s1 as [|b s2]; [done|]. simpl in *.
  destruct (rune2 a b) eqn:E2; [apply P2; [done|]; apply (IH (String.length s2)); [lia|done|done]|].
  destruct s2 as [|c s3]; [done|]. simpl in *.
  destruct (rune3 a b c) eqn:E3; [apply P3; [done|]; apply (IH (String.length s3)); [lia|done|done]|].
  destruct s3 as [|d s4]; [done|]. simpl in *. apply andb_true_iff in H as [E4 H].
  apply P4; [done|]. apply (IH (String.length s4)); [lia|done|done].
Qed.

Lemma parse_escape_byte a t :
  isASCIIbyte a = true → parse_str (escape_byte a +:+ t) = prepend (String a "") (parse_str t).
Proof. destruct a as [[] [] [] [] [] [] [] []]; intros H; try discriminate H; reflexivity. Qed.

Lemma parse_str_high a s1 :
  isASCIIbyte a = false →
  parse_str (String a s1)
  = match s1 with
    | "" => prepend replacement (parse_str s1)
    | String b s2 =>
        if rune2 a b then prepend (String a (String b "")) (parse_str s2)
        else match s2 with
             | "" => prepend replacement (parse_str s1)
             | String c s3 =>
                 if rune3 a b c then prepend (String a (String b (String c ""))) (parse_str s3)
                 else match s3 with
                      | "" => prepend replacement (parse_str s1)
                      | String d s4 =>
                          if rune4 a b c d
                          then prepend (String a (String b (String c (String d "")))) (parse_str s4)
                          else prepend replacement (parse_str s1)
                      end
             end
    end.
Proof.
  intros H. simpl. rewrite !bool_decide_false by (intros ->; discriminate H). rewrite H.
  apply not_ASCII in H. destruct (N.ltb_spec (byte_of a) 32); [lia|done].
Qed.

Lemma parse_escape3 a b c t :
  rune3 a b c = true → parse_str (escape3 a b c +:+ t) = prepend (String a (String b (String c ""))) (parse_str t).
Proof.
  intros H. unfold escape3. case_bool_decide as E.
  - by destruct E as (-> & -> & [->| ->]).
  - pose proof (rune3_high _ _ _ H). change (parse_str (String a (String b (String c t)))
      = prepend (String a (String b (String c ""))) (parse_str t)).
    rewrite parse_str_high by (apply not_ASCII; lia). rewrite rune2_false by lia. by rewrite H.
Qed.

(** A printed string reads back as itself, and reading stops at its quote. *)
Lemma parse_escape s rest :
  valid_utf8 s = true → parse_str (escape s +:+ String DQ rest) = Some (s, rest).
Proof.
  revert s. apply (valid_utf8_ind (λ s, parse_str (escape s +:+ String DQ rest) = Some (s, rest))).
  - done.
  - intros a s Ha IH. cbn [escape]. rewrite Ha, str_app_assoc, parse_escape_byte by done. by rewrite IH.
  - intros a b s H IH. pose proof (rune2_high _ _ H). cbn [escape].
    rewrite (proj2 (not_ASCII a)) by lia. rewrite H, str_app_assoc.
    change (parse_str (String a (String b (escape s +:+ String DQ rest))) = Some (String a (String b s), rest)).
    rewrite parse_str_high by (apply not_ASCII; lia). by rewrite H, IH.
  - intros a b c s H IH. pose proof (rune3_high _ _ _ H). cbn [escape].
    rewrite (proj2 (not_ASCII a)), rune2_false by lia. rewrite H, str_app_assoc, parse_escape3 by done. by rewrite IH.
  - intros a b c d s H IH. pose proof (rune4_high _ _ _ _ H). cbn [escape].
    rewrite (proj2 (not_ASCII a)), rune2_false, rune3_false by lia. rewrite H, str_app_assoc.
    change (parse_str (String a (String b (String c (String d (escape s +:+ String DQ rest)))))
      = Some (String a (String b (String c (String d s))), rest)).
    rewrite parse_str_high by (apply not_ASCII; lia). rewrite rune2_false, rune3_false by lia. by rewrite H, IH.
Qed.

(** ** Round trip of values *)

(** [rest] does not continue a number. *)
Definition stops (rest : string) : bool :=
  match rest with
  | "" => true
  | String c _ =>
      negb (isDigitByte c) && bool_decide (c ≠ "."%char ∧ c ≠ "e"%char ∧ c ≠ "E"%char ∧ c ≠ "+"%char ∧ c ≠ "-"%char)
  end.

Section number.
Context (rest : string) (Hrest : stops rest = true).

Lemma stops_digit : span isDigitByte rest = ("", rest).
Proof. destruct rest as [|c r]; simpl in *; [done|]. by destruct (isDigitByte c). Qed.

Lemma span_app s : span isDigitByte (s +:+ rest) = let '(a, b) := span isDigitByte s in (a, b +:+ rest).
Proof.
  induction s as [|c s IH]; simpl; [apply stops_digit|]. rewrite IH.
  destruct (isDigitByte c); [|done]. by destruct (span _ s).
Qed.

Lemma digits1_app s a r : digits1 s = Some (a, r) → digits1 (s +:+ rest) = Some (a, r +:+ rest).
Proof. unfold digits1. rewrite span_app. destruct (span _ s) as [[|c d] b]; [done|]. by intros [= <- <-]. Qed.

Lemma lex_int_app s a r : lex_int s = Some (a, r) → lex_int (s +:+ rest) = Some (a, r +:+ rest).
Proof.
  destruct s as [|c s]; [done|]. unfold lex_int. cbn [String.append]. case_bool_decide.
  - by intros [= <- <-].
  - apply (digits1_app (String c s)).
Qed.

Lemma lex_frac_app s a r : lex_frac s = Some (a, r) → lex_frac (s +:+ rest) = Some (a, r +:+ rest).
Proof.
  destruct s as [|c s]; simpl.
  - intros [= <- <-]. destruct rest as [|c r']; [done|]. simpl in *.
    apply andb_true_iff in Hrest as [_ H%bool_decide_eq_true]. by rewrite bool_decide_false by naive_solver.
  - case_bool_decide; [|by intros [= <- <-]]. destruct (digits1 s) as [[d b]|] eqn:E; [|done].
    apply digits1_app in E as ->. by intros [= <- <-].
Qed.

Lemma lex_sign_app s : s ≠ "" → lex_sign (s +:+ rest) = let '(a, b) := lex_sign s in (a, b +:+ rest).
Proof. destruct s as [|c s]; [done|]. simpl. by case_bool_decide. Qed.

Lemma lex_exp_app s a r : lex_exp s = Some (a, r) → lex_exp (s +:+ rest) = Some (a, r +:+ rest).
Proof.
  destruct s as [|c s]; simpl.
  - intros [= <- <-]. destruct rest as [|c r']; [done|]. simpl in *.
    apply andb_true_iff in Hrest as [_ H%bool_decide_eq_true]. by rewrite bool_decide_false by naive_solver.
  - case_bool_decide; [|by intros [= <- <-]]. destruct (decide (s = "")) as [->|Hs]; [done|].
    rewrite lex_sign_app by done. destruct (lex_sign s) as [sg s2].
    destruct (digits1 s2) as [[d b]|] eqn:E; [|done]. apply digits1_app in E as ->. by intros [= <- <-].
Qed.

Lemma lex_number_app s a r : lex_number s = Some (a, r) → lex_number (s +:+ rest) = Some (a, r +:+ rest).
Proof.
  destruct s as [|c s]; [done|]. unfold lex_number. cbn [String.append].
  assert (H : ∀ m s1, match lex_int s1 with Some (i, s2) => match lex_frac s2 with Some (f, s3) =>
      match lex_exp s3 with Some (e, s4) => Some (m +:+ i +:+ f +:+ e, s4) | None => None end
      | None => None end | None => None end = Some (a, r) →
    match lex_int (s1 +:+ rest) with Some (i, s2) => match lex_frac s2 with Some (f, s3) =>
      match lex_exp s3 with Some (e, s4) => Some (m +:+ i +:+ f +:+ e, s4) | None => None end
      | None => None end | None => None end = Some (a, r +:+ rest)).
  { intros m s1. destruct (lex_int s1) as [[i s2]|] eqn:E1; [|done]. rewrite (lex_int_app _ _ _ E1).
    destruct (lex_frac s2) as [[f s3]|] eqn:E2; [|done]. rewrite (lex_frac_app _ _ _ E2).
    destruct (lex_exp s3) as [[e s4]|] eqn:E3; [|done]. rewrite (lex_exp_app _ _ _ E3). by intros [= <- <-]. }
  case_bool_decide; [apply (H "-" s)|apply (H "" (String c s))].
Qed.
End number.

(** A number as the grammar has it. *)
Definition is_number (l : string) : bool := bool_decide (lex_number l = Some (l, "")).

Lemma number_starts l rest :
  is_number l = true → stops rest = true → lex_number (l +:+ rest) = Some (l, rest)
  ∧ ∃ c l', l = String c l' ∧ (isDigitByte c = true ∨ c = "-"%char).
Proof.
  intros H%bool_decide_eq_true Hr. split; [by apply (lex_number_app rest Hr) in H|].
  destruct l as [|c l]; [done|]. exists c, l. split; [done|]. revert H. unfold lex_number.
  case_bool_decide; [by right|]. unfold lex_int. case_bool_decide; [subst; by left|].
  unfold digits1. simpl. destruct (isDigitByte c); [by left|done].
Qed.

(** Values the printer is faithful on: UTF-8 strings and proper numbers. *)
Fixpoint wf_json (v : json) : bool :=
  match v with
  | JNull | JBool _ => true
  | JNum l => is_number l
  | JStr s => valid_utf8 s
  | JArr l => forallb wf_json l
  | JObj m => forallb (λ kv, valid_utf8 kv.1 && wf_json kv.2) m
  end.

Fixpoint depth (v : json) : nat :=
  match v with
  | JArr l => S (max_list (List.map depth l))
  | JObj m => S (max_list (List.map (λ kv, depth kv.2) m))
  | _ => 0
  end.

Definition is_sp (s : string) : bool := str_forallb isJsonSpace s.

Lemma skip_sp_app w s : is_sp w = true → skip_sp (w +:+ s) = skip_sp s.
Proof.
  unfold is_sp. induction w as [|c w IH]; simpl; [done|]. rewrite andb_true_iff. intros [-> Hw]. by apply IH.
Qed.

Lemma skip_sp_ne c s : isJsonSpace c = false → skip_sp (String c s) = String c s.
Proof. intros H. simpl. by rewrite H. Qed.

Record layout_ok (y : Layout) : Prop := {
  lo_nl : ∀ d, is_sp (nl y d) = true;
  lo_colon : ∃ w, colon y = String ":" w ∧ is_sp w = true;
}.

Lemma spaces_sp d : is_sp (spaces d) = true.
Proof. induction d as [|d IH]; [done|]. apply IH. Qed.

Lemma compact_ok : layout_ok compact.
Proof. split; [done|]. by exists "". Qed.
Lemma indented_ok : layout_ok indented.
Proof. split; [|by exists " "]. intros d. apply spaces_sp. Qed.

Lemma stops_sp w c r : is_sp w = true → stops (String c r) = true → stops (w +:+ String c r) = true.
Proof.
  intros Hw Hc. destruct w as [|a w]; [done|]. unfold is_sp in Hw. simpl in Hw. apply andb_true_iff in Hw as [Ha _].
  unfold isJsonSpace in Ha. apply bool_decide_eq_true in Ha. by destruct Ha as [->|[->|[->| ->]]].
Qed.

(** The first byte of a printed value. *)
Lemma print_head y d v :
  wf_json v = true →
  ∃ c t, print y d v = String c t ∧ isJsonSpace c = false ∧ c ≠ "]"%char.
Proof.
  assert (Hd : ∀ c, isDigitByte c = true → isJsonSpace c = false ∧ c ≠ "]"%char).
  { intros [[] [] [] [] [] [] [] []] H; try discriminate H; done. }
  destruct v as [|[]|l|s|[|v l]|[|kv m]]; simpl; intros Hv; try (by do 2 eexists).
  destruct (number_starts l "" Hv eq_refl) as [_ (c & l' & -> & [H| ->])]; exists c || exists "-"%char; exists l'.
  - by split; [|apply Hd].
  - done.
Qed.

Section print_parse.
Context (y : Layout) (Hy : layout_ok y).

(** With enough fuel, [v] is read back from its text whatever surrounds it. *)
Definition reads (v : json) : Prop :=
  ∃ N : nat, ∀ n d D w rest, (N ≤ n)%nat → (D + N.of_nat (depth v) <= maxDepth)%N → is_sp w = true → stops rest = true →
    parse_value n D (w +:+ print y d v +:+ rest) = Some (v, rest).

Lemma parse_value_S n d s :
  parse_value (S n) d s
  = match skip_sp s with
    | "" => None
    | String c s' =>
        if bool_decide (c = DQ) then '(t, r) ← parse_str s'; Some (JStr t, r)
        else if bool_decide (c = "["%char) then
          if (maxDepth <? d + 1)%N then None
          else match lex_word "]" (skip_sp s') with
               | Some r => Some (JArr [], r)
               | None => '(l, r) ← parse_elems n (d + 1) s'; Some (JArr l, r)
               end
        else if bool_decide (c = "{"%char) then
          if (maxDepth <? d + 1)%N then None
          else match lex_word "}" (skip_sp s') with
               | Some r => Some (JObj [], r)
               | None => '(m, r) ← parse_members n (d + 1) s'; Some (JObj m, r)
               end
        else if bool_decide (c = "t"%char) then r ← lex_word "true" (String c s'); Some (JBool true, r)
        else if bool_decide (c = "f"%char) then r ← lex_word "false" (String c s'); Some (JBool false, r)
        else if bool_decide (c = "n"%char) then r ← lex_word "null" (String c s'); Some (JNull, r)
        else '(l, r) ← lex_number (String c s'); Some (JNum l, r)
    end.
Proof. done. Qed.

(** Scalars need one step. *)
Lemma reads_scalar v :
  depth v = 0 → (∀ n d D rest, stops rest = true → parse_value (S n) D (print y d v +:+ rest) = Some (v, rest)) → reads v.
Proof.
  intros _ H. exists 1. intros [|n] d D w rest Hn _ Hw Hr; [lia|]. rewrite parse_value_S, skip_sp_app by done.
  by rewrite <-parse_value_S, H.
Qed.

Lemma lex_word_self w rest : lex_word w (w +:+ rest) = Some rest.
Proof.
  unfold lex_word, HasPrefix. induction w as [|c w IH]; [by destruct rest|]. simpl.
  by destruct (Ascii.ascii_dec c c).
Qed.

Lemma reads_num l : is_number l = true → reads (JNum l).
Proof.
  intros Hl. apply reads_scalar; [done|]. intros n d D rest Hr. cbn [print]. rewrite parse_value_S.
  destruct (number_starts l rest Hl Hr) as [El (c & l' & -> & Hc)]. cbn [String.append] in *. simpl skip_sp.
  assert (isJsonSpace c = false ∧ c ≠ DQ ∧ c ≠ "["%char ∧ c ≠ "{"%char ∧ c ≠ "t"%char ∧ c ≠ "f"%char ∧ c ≠ "n"%char)
    as (Hs & Hne).
  { destruct Hc as [Hc| ->]; [|done]. destruct c as [[] [] [] [] [] [] [] []]; try discriminate Hc; done. }
  rewrite Hs, !bool_decide_false by tauto. by rewrite El.
Qed.

Lemma reads_str s : valid_utf8 s = true → reads (JStr s).
Proof.
  intros Hs. apply reads_scalar; [done|]. intros n d D rest _. cbn [print]. unfold print_str.
  rewrite parse_value_S. cbn [String.append]. rewrite skip_sp_ne by done. rewrite bool_decide_true by done.
  rewrite str_app_assoc. cbn [String.append]. by rewrite parse_escape.
Qed.

Definition elems_text (d : nat) (w2 : string) (l : list json) : string :=
  Join (List.map (print y d) l) ("," +:+ nl y d) +:+ w2 +:+ "]".

Lemma reads_elems l :
  l ≠ [] → Forall reads l →
  ∃ N : nat, ∀ n d D w w2 rest, (N ≤ n)%nat → (D + N.of_nat (max_list (List.map depth l)) <= maxDepth)%N →
    is_sp w = true → is_sp w2 = true →
    parse_elems n D (w +:+ elems_text d w2 l +:+ rest) = Some (l, rest).
Proof.
  intros Hne Hl. induction Hl as [|v l [N1 Hv] Hl IH]; [done|]. destruct (decide (l = [])) as [->|Hl'].
  - exists (S N1). intros [|n] d D w w2 rest Hn HD Hw Hw2; [lia|]. unfold elems_text. simpl in *.
    rewrite str_app_assoc, str_app_assoc, Hv; [|lia..|done|by apply stops_sp].
    simpl. rewrite skip_sp_app by done. done.
  - destruct (IH Hl') as [N2 H2]. exists (S (N1 `max` N2)). intros [|n] d D w w2 rest Hn HD Hw Hw2; [lia|].
    destruct l as [|v' l]; [done|]. specialize (H2 n d D (nl y d) w2 rest). unfold elems_text in *.
    change (Join (List.map (print y d) (v :: v' :: l)) ("," +:+ nl y d)) with
      (print y d v +:+ ("," +:+ nl y d) +:+ Join (List.map (print y d) (v' :: l)) ("," +:+ nl y d)).
    set (J := Join _ _) in *. clearbody J.
    change (max_list (List.map depth (v :: v' :: l))) with (depth v `max` max_list (List.map depth (v' :: l))) in HD.
    rewrite !str_app_assoc in *. cbn [parse_elems]. rewrite Hv; [|lia..|done|done]. simpl in *.
    rewrite H2; [done|lia|lia|apply Hy|done].
Qed.

Definition member (d : nat) (kv : string * json) : string := print_str kv.1 +:+ colon y +:+ print y d kv.2.
Definition members_text (d : nat) (w2 : string) (m : list (string * json)) : string :=
  Join (List.map (member d) m) ("," +:+ nl y d) +:+ w2 +:+ "}".

(** One member, up to what follows its value. *)
Lemma parse_member n d D w k v rest :
  is_sp w = true → valid_utf8 k = true →
  (∀ w', is_sp w' = true → parse_value n D (w' +:+ print y d v +:+ rest) = Some (v, rest)) →
  parse_members (S n) D (w +:+ member d (k, v) +:+ rest)
  = match skip_sp rest with
    | String c s4 =>
        if bool_decide (c = ","%char) then '(m, r) ← parse_members n D s4; Some ((k, v) :: m, r)
        else if bool_decide (c = "}"%char) then Some ([(k, v)], s4)
        else None
    | "" => None
    end.
Proof.
  intros Hw Hk Hv. destruct (lo_colon _ Hy) as (wc & Ec & Hwc). unfold member, print_str. rewrite Ec. simpl fst. simpl snd.
  cbn [parse_members]. rewrite skip_sp_app by done. cbn [String.append]. rewrite skip_sp_ne by done.
  rewrite bool_decide_true by done. rewrite !str_app_assoc. cbn [String.append]. rewrite parse_escape by done.
  simpl. by rewrite str_app_assoc, Hv.
Qed.

Lemma reads_members m :
  m ≠ [] → Forall (λ kv, valid_utf8 kv.1 = true ∧ reads kv.2) m →
  ∃ N : nat, ∀ n d D w w2 rest, (N ≤ n)%nat → (D + N.of_nat (max_list (List.map (λ kv, depth kv.2) m)) <= maxDepth)%N →
    is_sp w = true → is_sp w2 = true →
    parse_members n D (w +:+ members_text d w2 m +:+ rest) = Some (m, rest).
Proof.
  intros Hne Hm. induction Hm as [|[k v] m [Hk [N1 Hv]] Hm IH]; [done|]. simpl in Hk, Hv.
  destruct (decide (m = [])) as [->|Hm'].
  - exists (S N1). intros [|n] d D w w2 rest Hn HD Hw Hw2; [lia|]. unfold members_text. cbn [List.map Join] in *. simpl in HD.
    rewrite !str_app_assoc, parse_member; [|done|done|].
    + rewrite skip_sp_app by done. done.
    + intros w' Hw'. apply Hv; [lia..|done|by apply stops_sp].
  - destruct (IH Hm') as [N2 H2]. exists (S (N1 `max` N2)). intros [|n] d D w w2 rest Hn HD Hw Hw2; [lia|].
    destruct m as [|kv m]; [done|]. specialize (H2 n d D (nl y d) w2 rest). unfold members_text in *.
    change (Join (List.map (member d) ((k, v) :: kv :: m)) ("," +:+ nl y d)) with
      (member d (k, v) +:+ ("," +:+ nl y d) +:+ Join (List.map (member d) (kv :: m)) ("," +:+ nl y d)).
    set (J := Join _ _) in *. clearbody J.
    change (max_list (List.map (λ kv, depth kv.2) ((k, v) :: kv :: m)))
      with (depth v `max` max_list (List.map (λ kv, depth kv.2) (kv :: m))) in HD.
    rewrite !str_app_assoc in *. rewrite parse_member; [|done|done|].
    + simpl in *. rewrite H2; [done|lia|lia|apply Hy|done].
    + intros w' Hw'. apply Hv; [lia..|done|done].
Qed.

(** The bracketed texts: an empty one, and one with elements. *)
Lemma no_bracket w t c r : is_sp w = true → t = String c r → isJsonSpace c = false → c ≠ "]"%char →
  ∀ rest, lex_word "]" (skip_sp (w +:+ t +:+ rest)) = None.
Proof.
  intros Hw -> Hc Hne rest. rewrite skip_sp_app by done. cbn [String.append]. rewrite skip_sp_ne by done.
  unfold lex_word, HasPrefix. cbn [String.prefix]. destruct (Ascii.ascii_dec "]" c); [congruence|done].
Qed.

Lemma reads_arr l : Forall (λ v, wf_json v = true) l → Forall reads l → reads (JArr l).
Proof.
  intros Hwf Hl. destruct l as [|v l]; [exists 1; intros [|n] d D w rest Hn HD Hw Hr|].
  - lia.
  - rewrite parse_value_S, skip_sp_app by done. simpl. destruct (N.ltb_spec maxDepth (D + 1)); [simpl in HD; lia|].
    unfold lex_word, HasPrefix. simpl. by destruct rest.
  - destruct (reads_elems (v :: l) ltac:(done) Hl) as [N HN]. exists (S N).
    intros [|n] d D w rest Hn HD Hw Hr; [lia|]. rewrite parse_value_S, skip_sp_app by done.
    specialize (HN n (S d) (D + 1)%N (nl y (S d)) (nl y d) rest ltac:(lia)).
    apply Forall_cons in Hwf as [Hv _]. destruct (print_head y (S d) v Hv) as (c & t & Ev & Hc & Hc').
    change (depth (JArr (v :: l))) with (S (max_list (List.map depth (v :: l)))) in HD.
    change (print y d (JArr (v :: l))) with ("[" +:+ nl y (S d) +:+ elems_text (S d) (nl y d) (v :: l)).
    cbn [String.append]. rewrite skip_sp_ne by done. rewrite bool_decide_false, bool_decide_true by done.
    destruct (N.ltb_spec maxDepth (D + 1)); [lia|]. rewrite str_app_assoc.
    assert (∃ t', elems_text (S d) (nl y d) (v :: l) = String c t') as [t' Et].
    { unfold elems_text. cbn [List.map]. destruct l as [|v' l]; cbn [List.map Join]; rewrite Ev; eexists; reflexivity. }
    rewrite (no_bracket _ _ c t') by (done || apply Hy). rewrite HN; [done|lia|apply Hy..].
Qed.

Lemma reads_obj m :
  Forall (λ kv, valid_utf8 kv.1 = true ∧ reads kv.2) m → reads (JObj m).
Proof.
  intros Hm. destruct m as [|kv m]; [exists 1; intros [|n] d D w rest Hn HD Hw Hr|].
  - lia.
  - rewrite parse_value_S, skip_sp_app by done. simpl. destruct (N.ltb_spec maxDepth (D + 1)); [simpl in HD; lia|].
    unfold lex_word, HasPrefix. simpl. by destruct rest.
  - destruct (reads_members (kv :: m) ltac:(done) Hm) as [N HN]. exists (S N).
    intros [|n] d D w rest Hn HD Hw Hr; [lia|]. rewrite parse_value_S, skip_sp_app by done.
    specialize (HN n (S d) (D + 1)%N (nl y (S d)) (nl y d) rest ltac:(lia)).
    change (depth (JObj (kv :: m))) with (S (max_list (List.map (λ kv, depth kv.2) (kv :: m)))) in HD.
    change (print y d (JObj (kv :: m))) with ("{" +:+ nl y (S d) +:+ members_text (S d) (nl y d) (kv :: m)).
    cbn [String.append]. rewrite skip_sp_ne by done. rewrite !bool_decide_false, bool_decide_true by done.
    destruct (N.ltb_spec maxDepth (D + 1)); [lia|]. rewrite str_app_assoc.
    assert (∃ t', members_text (S d) (nl y d) (kv :: m) = String DQ t') as [t' Et].
    { unfold members_text. cbn [List.map]. destruct m as [|kv' m]; cbn [List.map Join]; eexists; reflexivity. }
    replace (lex_word "}" _) with (@None string); [rewrite HN; [done|lia|apply Hy..]|].
    rewrite skip_sp_app by apply Hy. by rewrite Et.
Qed.

Lemma wf_reads v : wf_json v = true → reads v.
Proof.
  induction v as [|b|l|s|l IH|m IH] using json_ind; intros Hv.
  - apply reads_scalar; [done|]. intros n d D rest _. cbn [print]. by destruct rest.
  - apply reads_scalar; [done|]. intros n d D rest _. by destruct b, rest.
  - by apply reads_num.
  - by apply reads_str.
  - simpl in Hv. rewrite forallb_forall in Hv. assert (Hw : Forall (λ v, wf_json v = true) l).
    { apply List.Forall_forall. done. }
    apply reads_arr; [done|]. rewrite !Forall_forall in *. naive_solver.
  - simpl in Hv. rewrite forallb_forall in Hv. apply reads_obj. apply List.Forall_forall. intros kv Hkv.
    rewrite List.Forall_forall in IH. specialize (Hv _ Hkv). apply andb_true_iff in Hv as [? ?].
    split; [done|]. by apply IH.
Qed.
End print_parse.

(** ** Fuel *)

Section lengths.
Local Open Scope nat_scope.
Notation len := String.length.

Lemma skip_sp_length s : len (skip_sp s) ≤ len s.
Proof. induction s as [|c s IH]; simpl; [done|]. destruct (isJsonSpace c); simpl; lia. Qed.

Lemma prepend_Some x o t r : prepend x o = Some (t, r) → ∃ t', o = Some (t', r).
Proof. destruct o as [[t' r']|]; [|done]. intros [= _ <-]. by exists t'. Qed.

Lemma parse_str_length s t r : parse_str s = Some (t, r) → len r < len s.
Proof.
  remember (len s) as n eqn:En. revert s t r En. induction (lt_wf n) as [n _ IH].
  assert (Hp : ∀ s x t r, len s < n → prepend x (parse_str s) = Some (t, r) → len r < n).
  { intros s x t r Hs H. apply prepend_Some in H as [t' H]. apply (IH _ Hs) in H; [lia|done]. }
  intros s t r -> H. destruct s as [|a s1]; [done|]. cbn [parse_str] in H.
  repeat (case_match; try discriminate); simplify_eq;
    first [simpl; lia|eapply Hp; [|eassumption]; simpl; lia].
Qed.

Lemma span_length p s a b : span p s = (a, b) → len s = len a + len b.
Proof.
  revert a b. induction s as [|c s IH]; simpl; intros a b; [by intros [= <- <-]|].
  destruct (p c); [|by intros [= <- <-]]. destruct (span p s) as [x z]. intros [= <- <-]. simpl.
  by rewrite (IH _ _ eq_refl).
Qed.

Lemma digits1_length s a r : digits1 s = Some (a, r) → len r < len s.
Proof.
  unfold digits1. destruct (span _ s) as [[|c d] b] eqn:E; [done|]. intros [= <- <-].
  apply span_length in E. simpl in E. lia.
Qed.

Lemma lex_int_length s a r : lex_int s = Some (a, r) → len r < len s.
Proof.
  destruct s as [|c s]; [done|]. unfold lex_int. case_bool_decide; [intros [= _ <-]; simpl; lia|]. apply digits1_length.
Qed.

Lemma lex_frac_length s a r : lex_frac s = Some (a, r) → len r ≤ len s.
Proof.
  destruct s as [|c s]; simpl; [by intros [= _ <-]|]. case_bool_decide; [|by intros [= _ <-]].
  destruct (digits1 s) as [[d b]|] eqn:E; [|done]. apply digits1_length in E. intros [= _ <-]. lia.
Qed.

Lemma lex_exp_length s a r : lex_exp s = Some (a, r) → len r ≤ len s.
Proof.
  destruct s as [|c s]; simpl; [by intros [= _ <-]|]. case_bool_decide; [|by intros [= _ <-]].
  assert (Hs : len (lex_sign s).2 ≤ len s) by (destruct s; simpl; [done|case_bool_decide; simpl; lia]).
  destruct (lex_sign s) as [sg s2]. simpl in Hs.
  destruct (digits1 s2) as [[d b]|] eqn:E; [|done]. apply digits1_length in E. intros [= _ <-]. lia.
Qed.

Lemma lex_number_length s a r : lex_number s = Some (a, r) → len r < len s.
Proof.
  destruct s as [|c s]; [done|]. unfold lex_number.
  set (p := if bool_decide _ then _ else _). assert (Hp : len p.2 ≤ S (len s)) by (unfold p; case_bool_decide; simpl; lia).
  destruct p as [m s1]. simpl in Hp.
  destruct (lex_int s1) as [[i s2]|] eqn:E1; [|done]. simpl.
  destruct (lex_frac s2) as [[f s3]|] eqn:E2; [|done]. simpl.
  destruct (lex_exp s3) as [[e s4]|] eqn:E3; [|done]. intros [= _ <-].
  apply lex_int_length in E1. apply lex_frac_length in E2. apply lex_exp_length in E3. simpl. lia.
Qed.

Lemma lex_word_length w s r : w ≠ ""%string → lex_word w s = Some r → len r < len s.
Proof.
  unfold lex_word, HasPrefix. destruct w as [|c w]; [done|]. intros _. destruct s as [|a s]; [done|].
  destruct (String.prefix _ _); [|done]. intros [= <-]. cbn [String.length str_drop].
  assert (∀ n s, len (str_drop n s) ≤ len s) as H by (induction n as [|n IH]; intros []; simpl; [done..|]; rewrite IH; lia).
  specialize (H (len w) s). lia.
Qed.

(** Open the binds and tests of a successful run. *)
Ltac unbind :=
  repeat (first [progress simplify_option_eq | match goal with p : (_ * _)%type |- _ => destruct p end
                | case_match; try discriminate]).

(** What is left after a lexer or a recursive call is shorter. *)
Ltac shorter :=
  repeat match goal with
  | H : parse_str _ = Some (_, _) |- _ => apply parse_str_length in H
  | H : lex_word _ _ = Some _ |- _ => apply lex_word_length in H; [|done]
  | H : lex_number _ = Some (_, _) |- _ => apply lex_number_length in H
  | IH : ∀ d s v r, _ = Some (v, r) → _, H : _ = Some (_, _) |- _ => apply IH in H
  | H : skip_sp ?s = String _ _ |- _ => let H' := fresh in pose proof (skip_sp_length s) as H'; rewrite H in H'; clear H
  end; simpl in *; try lia.

(** Reading a value, the elements or the members uses up text. *)
Lemma parse_length n :
  (∀ d s v r, parse_value n d s = Some (v, r) → len r < len s)
  ∧ (∀ d s v r, parse_elems n d s = Some (v, r) → len r < len s)
  ∧ (∀ d s v r, parse_members n d s = Some (v, r) → len r < len s).
Proof.
  induction n as [|n (IHv & IHe & IHm)]; [done|]. split_and!; intros d s v r H.
  - rewrite parse_value_S in H. pose proof (skip_sp_length s). destruct (skip_sp s) as [|c s'] eqn:Es; [done|].
    simpl in *. pose proof (skip_sp_length s'). unbind; shorter.
  - cbn [parse_elems] in H. unbind; shorter.
  - cbn [parse_members] in H. unbind; shorter.
Qed.

(** Twice the length of the text is enough: more fuel gives the same result. *)
Lemma parse_enough n :
  (∀ m d s, 2 * len s < n → 2 * len s < m → parse_value n d s = parse_value m d s)
  ∧ (∀ m d s, S (2 * len s) < n → S (2 * len s) < m → parse_elems n d s = parse_elems m d s)
  ∧ (∀ m d s, 2 * len s < n → 2 * len s < m → parse_members n d s = parse_members m d s).
Proof.
  induction n as [|n (IHv & IHe & IHm)]; [split_and!; lia|].
  split_and!; intros [|m] d s Hn Hm; try lia.
  - rewrite !parse_value_S. pose proof (skip_sp_length s). destruct (skip_sp s) as [|c s']; [done|]. simpl in *.
    by rewrite (IHe m), (IHm m) by lia.
  - cbn [parse_elems]. rewrite (IHv m) by lia. destruct (parse_value m d s) as [[v s1]|] eqn:E; [|done]. simpl.
    apply (parse_length m) in E. pose proof (skip_sp_length s1). destruct (skip_sp s1) as [|c s2]; [done|]. simpl in *.
    by rewrite (IHe m) by lia.
  - cbn [parse_members]. pose proof (skip_sp_length s). destruct (skip_sp s) as [|c s']; [done|]. simpl in *.
    destruct (bool_decide (c = DQ)); [|done]. destruct (parse_str s') as [[k s1]|] eqn:E1; [|done]. simpl.
    apply parse_str_length in E1. pose proof (skip_sp_length s1). destruct (skip_sp s1) as [|c2 s2]; [done|]. simpl in *.
    destruct (bool_decide (c2 = _)); [|done]. rewrite (IHv m) by lia.
    destruct (parse_value m d s2) as [[v s3]|] eqn:E2; [|done]. simpl.
    apply (parse_length m) in E2. pose proof (skip_sp_length s3). destruct (skip_sp s3) as [|c3 s4]; [done|]. simpl in *.
    by rewrite (IHm m) by lia.
Qed.

Lemma parse_fuel d s n : fuel s ≤ n → parse_value n d s = parse_value (fuel s) d s.
Proof. unfold fuel. intros H. apply parse_enough; lia. Qed.
End lengths.

Lemma parse_print y v :
  layout_ok y → wf_json v = true → (N.of_nat (depth v) <= maxDepth)%N → parse (print y 0 v) = Some v.
Proof.
  intros Hy Hv Hd. destruct (wf_reads y Hy v Hv) as [N HN]. unfold parse.
  rewrite <-(parse_fuel _ _ (N `max` fuel (print y 0 v))) by lia.
  specialize (HN (N `max` fuel (print y 0 v)) 0 0%N "" "" ltac:(lia)). rewrite str_app_nil_r in HN. simpl in HN.
  rewrite HN; [done|lia|done|done].
Qed.
