(* ===== verification/JsonData.v ===== *)
(** * Structs as JSON (encoding/json on the program's types)

    A Go struct with json tags is a table of fields, in the order of its
    declaration: the tag, and how the field is read and set.  [encode] is what
    [json.Marshal] makes of a value, [decode] what [json.Unmarshal] does to an
    existing one: members set fields, unknown names are skipped, a value of the
    wrong kind is remembered as the error while the rest is still decoded.

    [Unmarshal] of a configuration file is an instance, and [GetMergedConfig]
    returns the text that [MarshalIndent] makes.  A slice is a list; which of the
    empty ones are [nil], and print as null, is a parameter of the printed
    configuration ([nils]): it depends on how the options were made. *)

From S2P Require Import Prelude GoStrings GoNet GoTime Json Config Util.
Set Default Goal Selector "!".
Local Open Scope string_scope.

Inductive Field (S : Type) :=
  | FBool (get : S → bool) (set : S → bool → S)
  | FInt (get : S → Z) (set : S → Z → S)
  | FStr (get : S → string) (set : S → string → S)
  | FStrs (get : S → list string) (set : S → list string → S)
  | FRaw (get : S → option json) (set : S → option json → S).
Arguments FBool {S} get set.
Arguments FInt {S} get set.
Arguments FStr {S} get set.
Arguments FStrs {S} get set.
Arguments FRaw {S} get set.

(** Decimal text of an [int]. *)
Definition fmt_int (n : Z) : string := if (n <? 0)%Z then "-" +:+ fmt_d (- n) else fmt_d n.

Definition encode_field {S} (f : Field S) (x : S) : json :=
  match f with
  | FBool get _ => JBool (get x)
  | FInt get _ => JNum (fmt_int (get x))
  | FStr get _ => JStr (get x)
  | FStrs get _ => JArr (List.map JStr (get x))
  | FRaw get _ => match get x with Some v => v | None => JNull end
  end.

(** [json.Marshal] of a struct. *)
Definition encode {S} (fs : list (string * Field S)) (x : S) : json :=
  JObj (List.map (λ f, (f.1, encode_field f.2 x)) fs).

(** ** Decoding *)

(** How an error names the value that was found. *)
Definition kind_of (v : json) : string :=
  match v with
  | JNull => "null" | JBool _ => "bool" | JNum _ => "number" | JStr _ => "string"
  | JArr _ => "array" | JObj _ => "object"
  end.

Definition type_error (what where_ type : string) : string :=
  "json: cannot unmarshal " +:+ what +:+ " into Go " +:+ where_ +:+ " of type " +:+ type.

(** [d.saveError]: the first error is kept. *)
Definition first_err (e e' : error) : error := match e with Some _ => e | None => e' end.

Section decode.
Context {S : Type} (struct pkg : string).

Definition at_field (name : string) : string := "struct field " +:+ struct +:+ "." +:+ name.

(** The elements are decoded into those that the slice has already, [old]; null
    leaves an element as it is.  Elements past the length of [old] start empty: the
    ones that a shorter array left in the capacity of the slice are not kept. *)
Fixpoint decode_strs (name : string) (old : list string) (l : list json) : error * list string :=
  match l with
  | [] => (None, [])
  | v :: l =>
      let s0 := List.hd "" old in
      let '(e, s) := match v with
                     | JStr s => (None, s)
                     | JNull => (None, s0)
                     | _ => (Some (type_error (kind_of v) (at_field name) "string"), s0)
                     end in
      let '(e', ss) := decode_strs name (List.tl old) l in
      (first_err e e', s :: ss)
  end.

Definition decode_field (name : string) (f : Field S) (v : json) (x : S) : error * S :=
  match f, v with
  | FBool _ set, JBool b => (None, set x b)
  | FInt _ set, JNum l =>
      match Atoi l with
      | Some n => (None, set x n)
      | None => (Some (type_error ("number " +:+ l) (at_field name) "int"), x)
      end
  | FStr _ set, JStr s => (None, set x s)
  | FStrs get set, JArr l => let '(e, ss) := decode_strs name (get x) l in (e, set x ss)
  | FStrs _ set, JNull => (None, set x [])
  | FRaw _ set, v => (None, set x (Some v))
  | (FBool _ _ | FInt _ _ | FStr _ _), JNull => (None, x)
  | FBool _ _, _ => (Some (type_error (kind_of v) (at_field name) "bool"), x)
  | FInt _ _, _ => (Some (type_error (kind_of v) (at_field name) "int"), x)
  | FStr _ _, _ => (Some (type_error (kind_of v) (at_field name) "string"), x)
  | FStrs _ _, _ => (Some (type_error (kind_of v) (at_field name) "[]string"), x)
  end.

(** [foldName]: case is ignored, and the two non-ASCII letters that fold to ASCII
    ones, the long s and the Kelvin sign, are theirs. *)
Fixpoint fold_name (s : string) : string :=
  match s with
  | "" => ""
  | String a s1 =>
      match s1 with
      | String b s2 =>
          if bool_decide (a = "197"%char ∧ b = "191"%char) then String "s" (fold_name s2)
          else match s2 with
               | String c s3 =>
                   if bool_decide (a = "226"%char ∧ b = "132"%char ∧ c = "170"%char)
                   then String "k" (fold_name s3)
                   else String (lowerByte a) (fold_name s1)
               | "" => String (lowerByte a) (fold_name s1)
               end
      | "" => String (lowerByte a) ""
      end
  end.

Fixpoint find_by (p : string → bool) (fs : list (string * Field S)) : option (string * Field S) :=
  match fs with
  | [] => None
  | f :: fs => if p f.1 then Some f else find_by p fs
  end.

(** The field for a name: an exact match, else the first that matches without case. *)
Definition find_field (fs : list (string * Field S)) (k : string) : option (string * Field S) :=
  match find_by (λ n, bool_decide (n = k)) fs with
  | Some f => Some f
  | None => find_by (λ n, bool_decide (fold_name n = fold_name k)) fs
  end.

Fixpoint decode_members (fs : list (string * Field S)) (m : list (string * json)) (x : S) : error * S :=
  match m with
  | [] => (None, x)
  | (k, v) :: m =>
      let '(e, x) := match find_field fs k with
                     | Some (name, f) => decode_field name f v x
                     | None => (None, x)
                     end in
      let '(e', x) := decode_members fs m x in
      (first_err e e', x)
  end.

(** The error and the value after decoding [v] into [x]. *)
Definition decode (fs : list (string * Field S)) (v : json) (x : S) : error * S :=
  match v with
  | JObj m => decode_members fs m x
  | JNull => (None, x)
  | _ => (Some (type_error (kind_of v) "value" (pkg +:+ "." +:+ struct)), x)
  end.

(** [json.Unmarshal] of a text; [syntax] is the message of a syntax error. *)
Definition Unmarshal_struct (syntax : string → string) (fs : list (string * Field S)) (text : string) (x : S)
    : error * S :=
  match parse text with
  | None => (Some (syntax text), x)
  | Some v => decode fs v x
  end.
End decode.

Lemma decode_strs_JStr struct name old ss : decode_strs struct name old (List.map JStr ss) = (None, ss).
Proof. revert old. induction ss as [|s ss IH]; intros old; simpl; [done|]. by rewrite IH. Qed.

(** ** Decimal text *)

Lemma pretty_N_char_digit x : (x < 10)%N → isDigitByte (pretty_N_char x) = true
  ∧ Z.of_N (byte_of (pretty_N_char x)) = (48 + Z.of_N x)%Z.
Proof.
  intros Hx. assert (x = 0 ∨ x = 1 ∨ x = 2 ∨ x = 3 ∨ x = 4 ∨ x = 5 ∨ x = 6 ∨ x = 7 ∨ x = 8 ∨ x = 9)%N by lia.
  naive_solver.
Qed.

Lemma pretty_N_go_spec x s :
  dec_go (pretty_N_go x s) 0 = dec_go s (Z.of_N x)
  ∧ (str_forallb isDigitByte s = true → str_forallb isDigitByte (pretty_N_go x s) = true).
Proof.
  revert s. induction (N.lt_wf_0 x) as [x _ IH]; intros s. destruct (decide (x = 0)%N) as [->|Hx]; [done|].
  rewrite pretty_N_go_step by lia. assert (Hlt : (x `mod` 10 < 10)%N) by (apply N.mod_lt; lia).
  destruct (pretty_N_char_digit _ Hlt) as [Hd Hv].
  destruct (IH (x `div` 10)%N ltac:(apply N.div_lt; lia) (String (pretty_N_char (x `mod` 10)) s)) as [E F].
  split.
  - rewrite E. cbn [dec_go]. rewrite Hv. f_equal. pose proof (N.div_mod x 10 ltac:(lia)). lia.
  - intros Hs. apply F. cbn [str_forallb]. by rewrite Hd.
Qed.

Lemma pretty_N_go_head x c s : (0 < x)%N → ∃ a t, pretty_N_go x (String c s) = String a t ∧ a ≠ "0"%char.
Proof.
  revert c s. induction (N.lt_wf_0 x) as [x _ IH]; intros c s Hx. rewrite pretty_N_go_step by done.
  destruct (decide (x `div` 10 = 0)%N) as [E|E].
  - rewrite E, pretty_N_go_0. do 2 eexists. split; [done|].
    assert (x < 10)%N by (pose proof (N.div_mod x 10 ltac:(lia)); pose proof (N.mod_lt x 10); lia).
    rewrite N.mod_small by done.
    assert (x = 1 ∨ x = 2 ∨ x = 3 ∨ x = 4 ∨ x = 5 ∨ x = 6 ∨ x = 7 ∨ x = 8 ∨ x = 9)%N by lia. naive_solver.
  - apply IH; [by apply N.div_lt|by apply N.neq_0_lt_0].
Qed.

(** Decimal text: all digits, no leading zero, and it denotes the number. *)
Lemma fmt_d_spec n :
  (0 ≤ n)%Z →
  ∃ a t, fmt_d n = String a t ∧ str_forallb isDigitByte (fmt_d n) = true ∧ dec_go (fmt_d n) 0 = n
    ∧ (a = "0"%char → t = "").
Proof.
  intros Hn. unfold fmt_d, pretty, pretty_N. destruct (decide (Z.to_N n = 0)%N) as [E|E].
  - assert (n = 0)%Z as -> by lia. by exists "0"%char, "".
  - destruct (pretty_N_go_spec (Z.to_N n) "") as [Ed Hd].
    rewrite pretty_N_go_step in * by lia. set (y := (Z.to_N n `div` 10)%N) in *.
    destruct (decide (y = 0)%N) as [Ey|Ey].
    + rewrite Ey, pretty_N_go_0 in *. do 2 eexists. split_and!; [done|by apply Hd| |done].
      rewrite Ed. simpl. lia.
    + destruct (pretty_N_go_head y (pretty_N_char (Z.to_N n `mod` 10)) "" ltac:(by apply N.neq_0_lt_0)) as (a & t & E' & Ha).
      exists a, t. split_and!; [done|by apply Hd|rewrite Ed; simpl; lia|done].
Qed.

Lemma span_all p s : str_forallb p s = true → span p s = (s, "").
Proof. induction s as [|c s IH]; simpl; [done|]. rewrite andb_true_iff. intros [-> Hs]. by rewrite IH. Qed.

(** The text of a natural number is an integer of the grammar. *)
Lemma lex_int_fmt_d n : (0 ≤ n)%Z → lex_int (fmt_d n) = Some (fmt_d n, "").
Proof.
  intros Hn. destruct (fmt_d_spec n Hn) as (a & t & -> & Hd & _ & Hz). unfold lex_int. case_bool_decide as Ea.
  - rewrite (Hz Ea). by subst.
  - unfold digits1. by rewrite span_all.
Qed.

Lemma fmt_int_number n : is_number (fmt_int n) = true.
Proof.
  unfold is_number. apply bool_decide_eq_true. unfold fmt_int. destruct (Z.ltb_spec n 0) as [H|H].
  - unfold lex_number. simpl. rewrite lex_int_fmt_d by lia. simpl. by rewrite !str_app_nil_r.
  - pose proof (lex_int_fmt_d n H) as El. destruct (fmt_d_spec n H) as (a & t & E & Hd & _ & _). rewrite E in *.
    unfold lex_number. rewrite bool_decide_false; [rewrite El; simpl; by rewrite str_app_nil_r|].
    intros ->. discriminate Hd.
Qed.

(** [strconv] reads back what it writes. *)
Lemma Atoi_fmt_int n : is_int n → Atoi (fmt_int n) = Some n.
Proof.
  intros Hn. assert (Hr : ((- 2 ^ 63 <=? n) && (n <? 2 ^ 63))%Z = true).
  { unfold is_int in Hn. apply andb_true_iff. rewrite Z.leb_le, Z.ltb_lt. lia. }
  unfold fmt_int, Atoi. destruct (Z.ltb_spec n 0) as [H|H].
  - simpl. destruct (fmt_d_spec (- n) ltac:(lia)) as (a & t & E & Hd & Hv & _). rewrite Hd, Hv, bool_decide_false by (by rewrite E).
    simpl. by rewrite Z.opp_involutive, Hr.
  - destruct (fmt_d_spec n H) as (a & t & E & Hd & Hv & _).
    assert (a ≠ "-"%char ∧ a ≠ "+"%char) as [H1 H2].
    { rewrite E in Hd. simpl in Hd. split; intros ->; discriminate Hd. }
    rewrite E in *. replace (match String a t with String "-" d => (true, d) | String "+" d => (false, d) | _ => (false, String a t) end)
      with (false, String a t).
    + rewrite Hd, Hv. simpl. by rewrite Hr.
    + destruct a as [[] [] [] [] [] [] [] []]; done.
Qed.

(** ** The user configuration *)

Definition put_Listen (u : UserConfig) (v : list string) : UserConfig :=
  mkUserConfig v (u_Upstream u) (u_Acl u) (u_Block u) (u_BlockDelete u) (u_Blocklist u)
    (u_BlocklistAAAA u) (u_BlocklistFromHosts u) (u_LocalRR u) (u_LocalRRPtr u) (u_Localzone u)
    (u_Dns64 u) (u_Dns64Prefix u) (u_Api u) (u_ApiBind u) (u_Doh u) (u_DohCert u) (u_DohKey u)
    (u_DohPath u) (u_Refresh u) (u_RefreshInterval u) (u_Debug u) (u_Syslog u) (u_Discard u)
    (u_Setuid u).
Definition put_Upstream (u : UserConfig) (v : list string) : UserConfig :=
  mkUserConfig (u_Listen u) v (u_Acl u) (u_Block u) (u_BlockDelete u) (u_Blocklist u)
    (u_BlocklistAAAA u) (u_BlocklistFromHosts u) (u_LocalRR u) (u_LocalRRPtr u) (u_Localzone u)
    (u_Dns64 u) (u_Dns64Prefix u) (u_Api u) (u_ApiBind u) (u_Doh u) (u_DohCert u) (u_DohKey u)
    (u_DohPath u) (u_Refresh u) (u_RefreshInterval u) (u_Debug u) (u_Syslog u) (u_Discard u)
    (u_Setuid u).
Definition put_Acl (u : UserConfig) (v : list string) : UserConfig :=
  mkUserConfig (u_Listen u) (u_Upstream u) v (u_Block u) (u_BlockDelete u) (u_Blocklist u)
    (u_BlocklistAAAA u) (u_BlocklistFromHosts u) (u_LocalRR u) (u_LocalRRPtr u) (u_Localzone u)
    (u_Dns64 u) (u_Dns64Prefix u) (u_Api u) (u_ApiBind u) (u_Doh u) (u_DohCert u) (u_DohKey u)
    (u_DohPath u) (u_Refresh u) (u_RefreshInterval u) (u_Debug u) (u_Syslog u) (u_Discard u)
    (u_Setuid u).
Definition put_Block (u : UserConfig) (v : list string) : UserConfig :=
  mkUserConfig (u_Listen u) (u_Upstream u) (u_Acl u) v (u_BlockDelete u) (u_Blocklist u)
    (u_BlocklistAAAA u) (u_BlocklistFromHosts u) (u_LocalRR u) (u_LocalRRPtr u) (u_Localzone u)
    (u_Dns64 u) (u_Dns64Prefix u) (u_Api u) (u_ApiBind u) (u_Doh u) (u_DohCert u) (u_DohKey u)
    (u_DohPath u) (u_Refresh u) (u_RefreshInterval u) (u_Debug u) (u_Syslog u) (u_Discard u)
    (u_Setuid u).
Definition put_BlockDelete (u : UserConfig) (v : list string) : UserConfig :=
  mkUserConfig (u_Listen u) (u_Upstream u) (u_Acl u) (u_Block u) v (u_Blocklist u)
    (u_BlocklistAAAA u) (u_BlocklistFromHosts u) (u_LocalRR u) (u_LocalRRPtr u) (u_Localzone u)
    (u_Dns64 u) (u_Dns64Prefix u) (u_Api u) (u_ApiBind u) (u_Doh u) (u_DohCert u) (u_DohKey u)
    (u_DohPath u) (u_Refresh u) (u_RefreshInterval u) (u_Debug u) (u_Syslog u) (u_Discard u)
    (u_Setuid u).
Definition put_Blocklist (u : UserConfig) (v : list string) : UserConfig :=
  mkUserConfig (u_Listen u) (u_Upstream u) (u_Acl u) (u_Block u) (u_BlockDelete u) v
    (u_BlocklistAAAA u) (u_BlocklistFromHosts u) (u_LocalRR u) (u_LocalRRPtr u) (u_Localzone u)
    (u_Dns64 u) (u_Dns64Prefix u) (u_Api u) (u_ApiBind u) (u_Doh u) (u_DohCert u) (u_DohKey u)
    (u_DohPath u) (u_Refresh u) (u_RefreshInterval u) (u_Debug u) (u_Syslog u) (u_Discard u)
    (u_Setuid u).
Definition put_BlocklistAAAA (u : UserConfig) (v : list string) : UserConfig :=
  mkUserConfig (u_Listen u) (u_Upstream u) (u_Acl u) (u_Block u) (u_BlockDelete u) (u_Blocklist u) v
    (u_BlocklistFromHosts u) (u_LocalRR u) (u_LocalRRPtr u) (u_Localzone u) (u_Dns64 u)
    (u_Dns64Prefix u) (u_Api u) (u_ApiBind u) (u_Doh u) (u_DohCert u) (u_DohKey u) (u_DohPath u)
    (u_Refresh u) (u_RefreshInterval u) (u_Debug u) (u_Syslog u) (u_Discard u) (u_Setuid u).
Definition put_BlocklistFromHosts (u : UserConfig) (v : list string) : UserConfig :=
  mkUserConfig (u_Listen u) (u_Upstream u) (u_Acl u) (u_Block u) (u_BlockDelete u) (u_Blocklist u)
    (u_BlocklistAAAA u) v (u_LocalRR u) (u_LocalRRPtr u) (u_Localzone u) (u_Dns64 u)
    (u_Dns64Prefix u) (u_Api u) (u_ApiBind u) (u_Doh u) (u_DohCert u) (u_DohKey u) (u_DohPath u)
    (u_Refresh u) (u_RefreshInterval u) (u_Debug u) (u_Syslog u) (u_Discard u) (u_Setuid u).
Definition put_LocalRR (u : UserConfig) (v : list string) : UserConfig :=
  mkUserConfig (u_Listen u) (u_Upstream u) (u_Acl u) (u_Block u) (u_BlockDelete u) (u_Blocklist u)
    (u_BlocklistAAAA u) (u_BlocklistFromHosts u) v (u_LocalRRPtr u) (u_Localzone u) (u_Dns64 u)
    (u_Dns64Prefix u) (u_Api u) (u_ApiBind u) (u_Doh u) (u_DohCert u) (u_DohKey u) (u_DohPath u)
    (u_Refresh u) (u_RefreshInterval u) (u_Debug u) (u_Syslog u) (u_Discard u) (u_Setuid u).
Definition put_LocalRRPtr (u : UserConfig) (v : list string) : UserConfig :=
  mkUserConfig (u_Listen u) (u_Upstream u) (u_Acl u) (u_Block u) (u_BlockDelete u) (u_Blocklist u)
    (u_BlocklistAAAA u) (u_BlocklistFromHosts u) (u_LocalRR u) v (u_Localzone u) (u_Dns64 u)
    (u_Dns64Prefix u) (u_Api u) (u_ApiBind u) (u_Doh u) (u_DohCert u) (u_DohKey u) (u_DohPath u)
    (u_Refresh u) (u_RefreshInterval u) (u_Debug u) (u_Syslog u) (u_Discard u) (u_Setuid u).
Definition put_Localzone (u : UserConfig) (v : list string) : UserConfig :=
  mkUserConfig (u_Listen u) (u_Upstream u) (u_Acl u) (u_Block u) (u_BlockDelete u) (u_Blocklist u)
    (u_BlocklistAAAA u) (u_BlocklistFromHosts u) (u_LocalRR u) (u_LocalRRPtr u) v (u_Dns64 u)
    (u_Dns64Prefix u) (u_Api u) (u_ApiBind u) (u_Doh u) (u_DohCert u) (u_DohKey u) (u_DohPath u)
    (u_Refresh u) (u_RefreshInterval u) (u_Debug u) (u_Syslog u) (u_Discard u) (u_Setuid u).
Definition put_Dns64 (u : UserConfig) (v : bool) : UserConfig :=
  mkUserConfig (u_Listen u) (u_Upstream u) (u_Acl u) (u_Block u) (u_BlockDelete u) (u_Blocklist u)
    (u_BlocklistAAAA u) (u_BlocklistFromHosts u) (u_LocalRR u) (u_LocalRRPtr u) (u_Localzone u) v
    (u_Dns64Prefix u) (u_Api u) (u_ApiBind u) (u_Doh u) (u_DohCert u) (u_DohKey u) (u_DohPath u)
    (u_Refresh u) (u_RefreshInterval u) (u_Debug u) (u_Syslog u) (u_Discard u) (u_Setuid u).
Definition put_Dns64Prefix (u : UserConfig) (v : string) : UserConfig :=
  mkUserConfig (u_Listen u) (u_Upstream u) (u_Acl u) (u_Block u) (u_BlockDelete u) (u_Blocklist u)
    (u_BlocklistAAAA u) (u_BlocklistFromHosts u) (u_LocalRR u) (u_LocalRRPtr u) (u_Localzone u)
    (u_Dns64 u) v (u_Api u) (u_ApiBind u) (u_Doh u) (u_DohCert u) (u_DohKey u) (u_DohPath u)
    (u_Refresh u) (u_RefreshInterval u) (u_Debug u) (u_Syslog u) (u_Discard u) (u_Setuid u).
Definition put_Api (u : UserConfig) (v : bool) : UserConfig :=
  mkUserConfig (u_Listen u) (u_Upstream u) (u_Acl u) (u_Block u) (u_BlockDelete u) (u_Blocklist u)
    (u_BlocklistAAAA u) (u_BlocklistFromHosts u) (u_LocalRR u) (u_LocalRRPtr u) (u_Localzone u)
    (u_Dns64 u) (u_Dns64Prefix u) v (u_ApiBind u) (u_Doh u) (u_DohCert u) (u_DohKey u) (u_DohPath u)
    (u_Refresh u) (u_RefreshInterval u) (u_Debug u) (u_Syslog u) (u_Discard u) (u_Setuid u).
Definition put_ApiBind (u : UserConfig) (v : string) : UserConfig :=
  mkUserConfig (u_Listen u) (u_Upstream u) (u_Acl u) (u_Block u) (u_BlockDelete u) (u_Blocklist u)
    (u_BlocklistAAAA u) (u_BlocklistFromHosts u) (u_LocalRR u) (u_LocalRRPtr u) (u_Localzone u)
    (u_Dns64 u) (u_Dns64Prefix u) (u_Api u) v (u_Doh u) (u_DohCert u) (u_DohKey u) (u_DohPath u)
    (u_Refresh u) (u_RefreshInterval u) (u_Debug u) (u_Syslog u) (u_Discard u) (u_Setuid u).
Definition put_Doh (u : UserConfig) (v : list string) : UserConfig :=
  mkUserConfig (u_Listen u) (u_Upstream u) (u_Acl u) (u_Block u) (u_BlockDelete u) (u_Blocklist u)
    (u_BlocklistAAAA u) (u_BlocklistFromHosts u) (u_LocalRR u) (u_LocalRRPtr u) (u_Localzone u)
    (u_Dns64 u) (u_Dns64Prefix u) (u_Api u) (u_ApiBind u) v (u_DohCert u) (u_DohKey u) (u_DohPath u)
    (u_Refresh u) (u_RefreshInterval u) (u_Debug u) (u_Syslog u) (u_Discard u) (u_Setuid u).
Definition put_DohCert (u : UserConfig) (v : string) : UserConfig :=
  mkUserConfig (u_Listen u) (u_Upstream u) (u_Acl u) (u_Block u) (u_BlockDelete u) (u_Blocklist u)
    (u_BlocklistAAAA u) (u_BlocklistFromHosts u) (u_LocalRR u) (u_LocalRRPtr u) (u_Localzone u)
    (u_Dns64 u) (u_Dns64Prefix u) (u_Api u) (u_ApiBind u) (u_Doh u) v (u_DohKey u) (u_DohPath u)
    (u_Refresh u) (u_RefreshInterval u) (u_Debug u) (u_Syslog u) (u_Discard u) (u_Setuid u).
Definition put_DohKey (u : UserConfig) (v : string) : UserConfig :=
  mkUserConfig (u_Listen u) (u_Upstream u) (u_Acl u) (u_Block u) (u_BlockDelete u) (u_Blocklist u)
    (u_BlocklistAAAA u) (u_BlocklistFromHosts u) (u_LocalRR u) (u_LocalRRPtr u) (u_Localzone u)
    (u_Dns64 u) (u_Dns64Prefix u) (u_Api u) (u_ApiBind u) (u_Doh u) (u_DohCert u) v (u_DohPath u)
    (u_Refresh u) (u_RefreshInterval u) (u_Debug u) (u_Syslog u) (u_Discard u) (u_Setuid u).
Definition put_DohPath (u : UserConfig) (v : string) : UserConfig :=
  mkUserConfig (u_Listen u) (u_Upstream u) (u_Acl u) (u_Block u) (u_BlockDelete u) (u_Blocklist u)
    (u_BlocklistAAAA u) (u_BlocklistFromHosts u) (u_LocalRR u) (u_LocalRRPtr u) (u_Localzone u)
    (u_Dns64 u) (u_Dns64Prefix u) (u_Api u) (u_ApiBind u) (u_Doh u) (u_DohCert u) (u_DohKey u) v
    (u_Refresh u) (u_RefreshInterval u) (u_Debug u) (u_Syslog u) (u_Discard u) (u_Setuid u).
Definition put_Refresh (u : UserConfig) (v : bool) : UserConfig :=
  mkUserConfig (u_Listen u) (u_Upstream u) (u_Acl u) (u_Block u) (u_BlockDelete u) (u_Blocklist u)
    (u_BlocklistAAAA u) (u_BlocklistFromHosts u) (u_LocalRR u) (u_LocalRRPtr u) (u_Localzone u)
    (u_Dns64 u) (u_Dns64Prefix u) (u_Api u) (u_ApiBind u) (u_Doh u) (u_DohCert u) (u_DohKey u)
    (u_DohPath u) v (u_RefreshInterval u) (u_Debug u) (u_Syslog u) (u_Discard u) (u_Setuid u).
Definition put_RefreshInterval (u : UserConfig) (v : string) : UserConfig :=
  mkUserConfig (u_Listen u) (u_Upstream u) (u_Acl u) (u_Block u) (u_BlockDelete u) (u_Blocklist u)
    (u_BlocklistAAAA u) (u_BlocklistFromHosts u) (u_LocalRR u) (u_LocalRRPtr u) (u_Localzone u)
    (u_Dns64 u) (u_Dns64Prefix u) (u_Api u) (u_ApiBind u) (u_Doh u) (u_DohCert u) (u_DohKey u)
    (u_DohPath u) (u_Refresh u) v (u_Debug u) (u_Syslog u) (u_Discard u) (u_Setuid u).
Definition put_Debug (u : UserConfig) (v : bool) : UserConfig :=
  mkUserConfig (u_Listen u) (u_Upstream u) (u_Acl u) (u_Block u) (u_BlockDelete u) (u_Blocklist u)
    (u_BlocklistAAAA u) (u_BlocklistFromHosts u) (u_LocalRR u) (u_LocalRRPtr u) (u_Localzone u)
    (u_Dns64 u) (u_Dns64Prefix u) (u_Api u) (u_ApiBind u) (u_Doh u) (u_DohCert u) (u_DohKey u)
    (u_DohPath u) (u_Refresh u) (u_RefreshInterval u) v (u_Syslog u) (u_Discard u) (u_Setuid u).
Definition put_Syslog (u : UserConfig) (v : bool) : UserConfig :=
  mkUserConfig (u_Listen u) (u_Upstream u) (u_Acl u) (u_Block u) (u_BlockDelete u) (u_Blocklist u)
    (u_BlocklistAAAA u) (u_BlocklistFromHosts u) (u_LocalRR u) (u_LocalRRPtr u) (u_Localzone u)
    (u_Dns64 u) (u_Dns64Prefix u) (u_Api u) (u_ApiBind u) (u_Doh u) (u_DohCert u) (u_DohKey u)
    (u_DohPath u) (u_Refresh u) (u_RefreshInterval u) (u_Debug u) v (u_Discard u) (u_Setuid u).
Definition put_Discard (u : UserConfig) (v : bool) : UserConfig :=
  mkUserConfig (u_Listen u) (u_Upstream u) (u_Acl u) (u_Block u) (u_BlockDelete u) (u_Blocklist u)
    (u_BlocklistAAAA u) (u_BlocklistFromHosts u) (u_LocalRR u) (u_LocalRRPtr u) (u_Localzone u)
    (u_Dns64 u) (u_Dns64Prefix u) (u_Api u) (u_ApiBind u) (u_Doh u) (u_DohCert u) (u_DohKey u)
    (u_DohPath u) (u_Refresh u) (u_RefreshInterval u) (u_Debug u) (u_Syslog u) v (u_Setuid u).
Definition put_Setuid (u : UserConfig) (v : string) : UserConfig :=
  mkUserConfig (u_Listen u) (u_Upstream u) (u_Acl u) (u_Block u) (u_BlockDelete u) (u_Blocklist u)
    (u_BlocklistAAAA u) (u_BlocklistFromHosts u) (u_LocalRR u) (u_LocalRRPtr u) (u_Localzone u)
    (u_Dns64 u) (u_Dns64Prefix u) (u_Api u) (u_ApiBind u) (u_Doh u) (u_DohCert u) (u_DohKey u)
    (u_DohPath u) (u_Refresh u) (u_RefreshInterval u) (u_Debug u) (u_Syslog u) (u_Discard u) v.

(** The fields with their tags. *)
Definition UserConfig_fields : list (string * Field UserConfig) :=
  [("listen", FStrs u_Listen put_Listen);
   ("upstream", FStrs u_Upstream put_Upstream);
   ("acl", FStrs u_Acl put_Acl);
   ("block", FStrs u_Block put_Block);
   ("block-delete", FStrs u_BlockDelete put_BlockDelete);
   ("blocklist", FStrs u_Blocklist put_Blocklist);
   ("blocklist-aaaa", FStrs u_BlocklistAAAA put_BlocklistAAAA);
   ("blocklist-from-hosts", FStrs u_BlocklistFromHosts put_BlocklistFromHosts);
   ("localrr", FStrs u_LocalRR put_LocalRR);
   ("localrr-ptr", FStrs u_LocalRRPtr put_LocalRRPtr);
   ("localzone", FStrs u_Localzone put_Localzone);
   ("dns64", FBool u_Dns64 put_Dns64);
   ("dns64-prefix", FStr u_Dns64Prefix put_Dns64Prefix);
   ("api", FBool u_Api put_Api);
   ("api-bind", FStr u_ApiBind put_ApiBind);
   ("doh", FStrs u_Doh put_Doh);
   ("doh-cert", FStr u_DohCert put_DohCert);
   ("doh-key", FStr u_DohKey put_DohKey);
   ("doh-path", FStr u_DohPath put_DohPath);
   ("refresh", FBool u_Refresh put_Refresh);
   ("refresh-interval", FStr u_RefreshInterval put_RefreshInterval);
   ("debug", FBool u_Debug put_Debug);
   ("syslog", FBool u_Syslog put_Syslog);
   ("discard", FBool u_Discard put_Discard);
   ("setuid", FStr u_Setuid put_Setuid)].

(** [json.Unmarshal] of a configuration file into an existing configuration. *)
Definition Unmarshal_UserConfig (syntax : string → string) (text : string) (uc : UserConfig) : string + UserConfig :=
  match Unmarshal_struct "UserConfig" "config" syntax UserConfig_fields text uc with
  | (Some e, _) => inl e
  | (None, uc) => inr uc
  end.

(** An empty slice that is [nil]. *)
Definition nil_slice (nil : bool) (v : json) : json :=
  match v with JArr [] => if nil then JNull else v | _ => v end.

(** [json.Marshal] of the options; [nils] are the tags of the [nil] slices. *)
Definition UserConfig_json (nils : string → bool) (uc : UserConfig) : json :=
  JObj (List.map (λ f, (f.1, nil_slice (nils f.1) (encode_field f.2 uc))) UserConfig_fields).

(** The text that [GetMergedConfig] puts into its result. *)
Definition UserConfig_text (nils : string → bool) (uc : UserConfig) : string := MarshalIndent (UserConfig_json nils uc).

(** Every string of the configuration is UTF-8. *)
Definition UserConfig_utf8 (uc : UserConfig) : bool := wf_json (encode UserConfig_fields uc).

Lemma decode_nil_slice {S} struct name get (set : S → list string → S) nil l x :
  decode_field struct name (FStrs get set) (nil_slice nil (JArr (List.map JStr l))) x = (None, set x l).
Proof. destruct l as [|a l]; simpl; [by destruct nil|]. by rewrite decode_strs_JStr. Qed.

Lemma wf_nil_slice nil v : wf_json (nil_slice nil v) = wf_json v.
Proof. destruct v as [| | | |[]|]; try done. by destruct nil. Qed.

Lemma depth_strs ss : max_list (List.map depth (List.map JStr ss)) = 0.
Proof. induction ss as [|x ss IH]; [done|]. exact IH. Qed.

Lemma depth_nil_slice nil l : depth (nil_slice nil (JArr (List.map JStr l))) <= 1.
Proof. destruct l as [|a l]; [destruct nil; simpl; lia|]. change (S (max_list (List.map depth (List.map JStr (a :: l)))) <= 1). rewrite depth_strs. lia. Qed.

Lemma decode_members_step {S} struct (fs : list (string * Field S)) k v m x name f x' :
  find_field fs k = Some (name, f) → decode_field struct name f v x = (None, x') →
  decode_members struct fs ((k, v) :: m) x = decode_members struct fs m x'.
Proof. intros Hf Hd. simpl. rewrite Hf, Hd. by destruct (decode_members _ _ m x'). Qed.

Lemma decode_UserConfig_json nils uc uc0 :
  decode "UserConfig" "config" UserConfig_fields (UserConfig_json nils uc) uc0 = (None, uc).
Proof.
  unfold UserConfig_json, decode. set (fs := UserConfig_fields) at 1. cbn [List.map UserConfig_fields fst snd encode_field].
  repeat (erewrite decode_members_step; [|reflexivity|first [apply decode_nil_slice|reflexivity]]).
  by destruct uc.
Qed.

Lemma UserConfig_depth nils uc : depth (UserConfig_json nils uc) <= 2.
Proof.
  unfold UserConfig_json. cbn [List.map UserConfig_fields fst snd encode_field depth max_list]. 
  repeat match goal with |- context [depth (nil_slice ?b (JArr (List.map JStr ?l)))] =>
    pose proof (depth_nil_slice b l); generalize dependent (depth (nil_slice b (JArr (List.map JStr l)))); intros end.
  simpl. lia.
Qed.

Lemma UserConfig_wf nils uc : wf_json (UserConfig_json nils uc) = UserConfig_utf8 uc.
Proof.
  unfold UserConfig_utf8, UserConfig_json, encode. cbn [List.map UserConfig_fields fst snd wf_json forallb].
  by rewrite !wf_nil_slice.
Qed.

Lemma UserConfig_parse nils uc :
  UserConfig_utf8 uc = true → parse (UserConfig_text nils uc) = Some (UserConfig_json nils uc).
Proof.
  intros H. unfold UserConfig_text, MarshalIndent. apply parse_print; [apply indented_ok|by rewrite UserConfig_wf|].
  pose proof (UserConfig_depth nils uc). unfold maxDepth. lia.
Qed.

Lemma Unmarshal_text syntax nils uc uc0 :
  UserConfig_utf8 uc = true → Unmarshal_UserConfig syntax (UserConfig_text nils uc) uc0 = inr uc.
Proof.
  intros H. unfold Unmarshal_UserConfig, Unmarshal_struct. rewrite UserConfig_parse by done.
  by rewrite decode_UserConfig_json.
Qed.

(** ** What a file sets *)

(** The tags of the [UserConfig] struct, by the type of the field. *)
Definition list_options : list string :=
  ["listen"; "upstream"; "acl"; "block"; "block-delete"; "blocklist"; "blocklist-aaaa"; "blocklist-from-hosts";
   "localrr"; "localrr-ptr"; "localzone"; "doh"].
Definition flag_options : list string := ["dns64"; "api"; "refresh"; "debug"; "syslog"; "discard"].
Definition text_options : list string :=
  ["dns64-prefix"; "api-bind"; "doh-cert"; "doh-key"; "doh-path"; "refresh-interval"; "setuid"].

(** The values that an option takes, null among them. *)
Definition string_or_null (v : json) : bool := match v with JStr _ | JNull => true | _ => false end.
Definition bool_or_null (v : json) : bool := match v with JBool _ | JNull => true | _ => false end.
Definition strings_or_null (v : json) : bool :=
  match v with JArr l => forallb string_or_null l | JNull => true | _ => false end.

Definition member_ok (kv : string * json) : bool :=
  let tag := fold_name kv.1 in
  if bool_decide (tag ∈ list_options) then strings_or_null kv.2
  else if bool_decide (tag ∈ flag_options) then bool_or_null kv.2
  else if bool_decide (tag ∈ text_options) then string_or_null kv.2
  else true.

(** An object whose members have the types of their options, or null. *)
Definition config_ok (v : json) : bool :=
  match v with JObj m => forallb member_ok m | JNull => true | _ => false end.

(** What a value makes of an option: null empties a list, and leaves a text, a
    flag or an element of a list as it was. *)
Definition text_value (old : string) (v : json) : string := match v with JStr s => s | _ => old end.
Definition flag_value (old : bool) (v : json) : bool := match v with JBool b => b | _ => old end.
Fixpoint elements_value (old : list string) (l : list json) : list string :=
  match l with
  | [] => []
  | v :: l => text_value (List.hd "" old) v :: elements_value (List.tl old) l
  end.
Definition list_value (old : list string) (v : json) : list string :=
  match v with JArr l => elements_value old l | JNull => [] | _ => old end.

(** The values that members named [tag], in any case, give to the option, one after
    the other. *)
Definition setting {A} (value : A → json → A) (v : json) (tag : string) (old : A) : A :=
  match v with
  | JObj m => foldl (λ old kv, if bool_decide (fold_name kv.1 = tag) then value old kv.2 else old) old m
  | _ => old
  end.

(** The options [uc] after the file [v], one by one. *)
Definition file_options (v : json) (uc : UserConfig) : UserConfig := {|
  u_Listen := setting list_value v "listen" (u_Listen uc);
  u_Upstream := setting list_value v "upstream" (u_Upstream uc);
  u_Acl := setting list_value v "acl" (u_Acl uc);
  u_Block := setting list_value v "block" (u_Block uc);
  u_BlockDelete := setting list_value v "block-delete" (u_BlockDelete uc);
  u_Blocklist := setting list_value v "blocklist" (u_Blocklist uc);
  u_BlocklistAAAA := setting list_value v "blocklist-aaaa" (u_BlocklistAAAA uc);
  u_BlocklistFromHosts := setting list_value v "blocklist-from-hosts" (u_BlocklistFromHosts uc);
  u_LocalRR := setting list_value v "localrr" (u_LocalRR uc);
  u_LocalRRPtr := setting list_value v "localrr-ptr" (u_LocalRRPtr uc);
  u_Localzone := setting list_value v "localzone" (u_Localzone uc);
  u_Dns64 := setting flag_value v "dns64" (u_Dns64 uc);
  u_Dns64Prefix := setting text_value v "dns64-prefix" (u_Dns64Prefix uc);
  u_Api := setting flag_value v "api" (u_Api uc);
  u_ApiBind := setting text_value v "api-bind" (u_ApiBind uc);
  u_Doh := setting list_value v "doh" (u_Doh uc);
  u_DohCert := setting text_value v "doh-cert" (u_DohCert uc);
  u_DohKey := setting text_value v "doh-key" (u_DohKey uc);
  u_DohPath := setting text_value v "doh-path" (u_DohPath uc);
  u_Refresh := setting flag_value v "refresh" (u_Refresh uc);
  u_RefreshInterval := setting text_value v "refresh-interval" (u_RefreshInterval uc);
  u_Debug := setting flag_value v "debug" (u_Debug uc);
  u_Syslog := setting flag_value v "syslog" (u_Syslog uc);
  u_Discard := setting flag_value v "discard" (u_Discard uc);
  u_Setuid := setting text_value v "setuid" (u_Setuid uc);
|}.

Lemma first_err_None e e' : first_err e e' = None ↔ e = None ∧ e' = None.
Proof. destruct e; simpl; naive_solver. Qed.

Lemma decode_strs_spec struct name old l :
  ((decode_strs struct name old l).1 = None ↔ forallb string_or_null l = true)
  ∧ ((decode_strs struct name old l).1 = None → (decode_strs struct name old l).2 = elements_value old l).
Proof.
  revert old. induction l as [|v l IH]; intros old; simpl; [done|].
  destruct (IH (List.tl old)) as [IH1 IH2]. destruct (decode_strs struct name (List.tl old) l) as [e ss]. simpl in *.
  rewrite andb_true_iff. destruct v; simpl; split; try naive_solver; intros He; by rewrite IH2.
Qed.

(** A field of each type takes the values described, and is set to them. *)
Lemma decode_FStrs {S} struct name get (set : S → list string → S) v x :
  ((decode_field struct name (FStrs get set) v x).1 = None ↔ strings_or_null v = true)
  ∧ ((decode_field struct name (FStrs get set) v x).1 = None →
     (decode_field struct name (FStrs get set) v x).2 = set x (list_value (get x) v)).
Proof.
  destruct v as [| | | |l|]; simpl; try done. destruct (decode_strs_spec struct name (get x) l) as [H1 H2].
  destruct (decode_strs struct name (get x) l) as [e ss]. simpl in *. split; [done|]. intros He. by rewrite H2.
Qed.

Lemma decode_FBool {S} struct name get (set : S → bool → S) v x :
  set x (get x) = x →
  ((decode_field struct name (FBool get set) v x).1 = None ↔ bool_or_null v = true)
  ∧ ((decode_field struct name (FBool get set) v x).1 = None →
     (decode_field struct name (FBool get set) v x).2 = set x (flag_value (get x) v)).
Proof. intros E. destruct v; simpl; by rewrite ?E. Qed.

Lemma decode_FStr {S} struct name get (set : S → string → S) v x :
  set x (get x) = x →
  ((decode_field struct name (FStr get set) v x).1 = None ↔ string_or_null v = true)
  ∧ ((decode_field struct name (FStr get set) v x).1 = None →
     (decode_field struct name (FStr get set) v x).2 = set x (text_value (get x) v)).
Proof. intros E. destruct v; simpl; by rewrite ?E. Qed.

Lemma find_by_Some {S} p (fs : list (string * Field S)) f : find_by p fs = Some f → f ∈ fs ∧ p f.1 = true.
Proof.
  induction fs as [|g fs IH]; simpl; [done|]. destruct (p g.1) eqn:E.
  - intros [= ->]. split; [by left|done].
  - intros [H ?]%IH. split; [by right|done].
Qed.

Lemma find_by_None {S} p (fs : list (string * Field S)) f : find_by p fs = None → f ∈ fs → p f.1 = false.
Proof.
  induction fs as [|g fs IH]; simpl; [by intros _ ?%elem_of_nil|]. destruct (p g.1) eqn:E; [done|].
  intros H [->|?]%elem_of_cons; [done|by apply IH].
Qed.

Lemma find_by_ext {S} p q (fs : list (string * Field S)) :
  (∀ f, f ∈ fs → p f.1 = q f.1) → find_by p fs = find_by q fs.
Proof.
  induction fs as [|g fs IH]; intros H; simpl; [done|]. rewrite H by by left. rewrite IH; [done|].
  intros f Hf. apply H. by right.
Qed.

(** When the tags are folded already, a name means the tag that it folds to. *)
Lemma find_field_folded {S} (fs : list (string * Field S)) k :
  Forall (λ f, fold_name f.1 = f.1) fs → find_field fs k = find_by (λ n, bool_decide (n = fold_name k)) fs.
Proof.
  intros Hf. rewrite Forall_forall in Hf. unfold find_field. destruct (find_by _ fs) as [f|] eqn:E.
  - rewrite <-E. apply find_by_Some in E as [Hin <-%bool_decide_eq_true]. by rewrite (Hf _ Hin).
  - apply find_by_ext. intros f Hin. by rewrite (Hf _ Hin).
Qed.

(** One member, decoded by the table of the fields. *)
Definition decode_member (kv : string * json) (uc : UserConfig) : error * UserConfig :=
  match find_field UserConfig_fields kv.1 with
  | Some (name, f) => decode_field "UserConfig" name f kv.2 uc
  | None => (None, uc)
  end.

Lemma setting_other {A} (value : A → json → A) k v tag old :
  fold_name k ≠ tag → setting value (JObj [(k, v)]) tag old = old.
Proof. intros H. simpl. by rewrite bool_decide_eq_false_2. Qed.

Lemma not_option k name :
  find_by (λ n, bool_decide (n = fold_name k)) UserConfig_fields = None →
  name ∈ (UserConfig_fields.*1) → fold_name k ≠ name.
Proof.
  intros E (f & -> & Hf)%list_elem_of_fmap. pose proof (find_by_None _ _ f E Hf) as H.
  by apply bool_decide_eq_false, not_eq_sym in H.
Qed.

(** The options have the tags of the table. *)
Lemma options_tagged : Forall (λ tag, tag ∈ UserConfig_fields.*1) (list_options ++ flag_options ++ text_options).
Proof. apply (bool_decide_unpack _). vm_compute. exact I. Qed.

Lemma option_tagged tag :
  tag ∈ list_options ∨ tag ∈ flag_options ∨ tag ∈ text_options → tag ∈ UserConfig_fields.*1.
Proof. intros H. pose proof options_tagged as Ht. rewrite Forall_forall in Ht. apply Ht. by rewrite !elem_of_app. Qed.

(** The field that the member names: take the lemma for its type. *)
Ltac member_of H :=
  let H1 := fresh in let H2 := fresh in injection H as <- <-;
  lazymatch goal with
  | |- context [decode_field ?s ?n (FStrs ?get ?set) ?v ?uc] => destruct (decode_FStrs s n get set v uc) as [H1 H2]
  | |- context [decode_field ?s ?n (FBool ?get ?set) ?v ?uc] =>
      destruct (decode_FBool s n get set v uc) as [H1 H2]; [by destruct uc|]
  | |- context [decode_field ?s ?n (FStr ?get ?set) ?v ?uc] =>
      destruct (decode_FStr s n get set v uc) as [H1 H2]; [by destruct uc|]
  end;
  split; [exact H1|let H := fresh in intros H; rewrite (H2 H); reflexivity].

(** A member that names an option sets it, and no other one. *)
Lemma decode_member_spec k v uc :
  ((decode_member (k, v) uc).1 = None ↔ member_ok (k, v) = true)
  ∧ ((decode_member (k, v) uc).1 = None → (decode_member (k, v) uc).2 = file_options (JObj [(k, v)]) uc).
Proof.
  unfold decode_member. cbn [fst snd]. rewrite find_field_folded by (repeat constructor).
  destruct (find_by _ _) as [[name f]|] eqn:E.
  - apply find_by_Some in E as [Hin Hk%bool_decide_eq_true]. cbn [fst] in Hk. subst name.
    unfold member_ok, file_options, setting. cbn [fst snd foldl]. apply list_elem_of_In in Hin. unfold UserConfig_fields in Hin.
    repeat (destruct Hin as [Hin|Hin]; [member_of Hin|]). by destruct Hin.
  - pose proof (λ name, not_option k name E) as Hn. split.
    + simpl. split; [|done]. intros _. unfold member_ok. cbn [fst snd].
      rewrite !bool_decide_eq_false_2; [done|..]; intros Hin; (eapply Hn; [|done]); apply option_tagged; auto.
    + intros _. unfold file_options.
      rewrite !setting_other by (apply Hn; apply (bool_decide_unpack _); vm_compute; exact I). by destruct uc.
Qed.

Lemma file_options_cons kv m uc :
  file_options (JObj (kv :: m)) uc = file_options (JObj m) (file_options (JObj [kv]) uc).
Proof. done. Qed.

Lemma decode_members_spec m uc :
  ((decode_members "UserConfig" UserConfig_fields m uc).1 = None ↔ forallb member_ok m = true)
  ∧ ((decode_members "UserConfig" UserConfig_fields m uc).1 = None →
     (decode_members "UserConfig" UserConfig_fields m uc).2 = file_options (JObj m) uc).
Proof.
  revert uc. induction m as [|[k v] m IH]; intros uc; [split; [done|by destruct uc]|].
  destruct (decode_member_spec k v uc) as [H1 H2]. rewrite file_options_cons.
  cbn [decode_members forallb].
  change (match find_field UserConfig_fields k with
          | Some (name, f) => decode_field "UserConfig" name f v uc
          | None => (None, uc)
          end) with (decode_member (k, v) uc).
  destruct (decode_member (k, v) uc) as [e uc1]. cbn [fst snd] in *. destruct (IH uc1) as [IH1 IH2].
  destruct (decode_members "UserConfig" UserConfig_fields m uc1) as [e' uc2]. cbn [fst snd] in *.
  rewrite first_err_None, andb_true_iff, <-H1, <-IH1. split; [done|]. intros [He He'].
  by rewrite <-(H2 He), IH2.
Qed.

(** ** Properties *)

(** C32: a configuration file is accepted exactly when it is JSON, an object or
    null, and every member that names an option, with or without its case, has a
    value of the option's type or null; the options are then the ones before with
    each option set, tag by tag, from the members that name it, and nothing
    else (see [decode_strs] for the elements of a list set more than once). *)
Theorem config_file_sets_named_options (syntax : string → string) (text : string) (uc uc' : UserConfig) :
  Unmarshal_UserConfig syntax text uc = inr uc'
  ↔ ∃ v, parse text = Some v ∧ config_ok v = true ∧ uc' = file_options v uc.
Proof.
  unfold Unmarshal_UserConfig, Unmarshal_struct. destruct (parse text) as [v|]; [|split; [done|by intros (? & ? & _)]].
  assert (H : ((decode "UserConfig" "config" UserConfig_fields v uc).1 = None ↔ config_ok v = true)
    ∧ ((decode "UserConfig" "config" UserConfig_fields v uc).1 = None →
       (decode "UserConfig" "config" UserConfig_fields v uc).2 = file_options v uc)).
  { destruct v; simpl; try done; [by destruct uc|]. apply decode_members_spec. }
  destruct (decode _ _ _ v uc) as [[e|] uc1]; simpl in H; destruct H as [H1 H2].
  - split; [done|]. intros (v' & [= <-] & H%H1 & _). done.
  - rewrite (H2 eq_refl). split.
    + intros [= <-]. exists v. by rewrite <-H1.
    + by intros (v' & [= <-] & _ & ->).
Qed.

(** A byte that is not UTF-8 does not survive. *)
Example invalid_utf8_is_replaced :
  parse (Marshal (JStr (String (chr 255) ""))) = Some (JStr replacement).
Proof. vm_compute. reflexivity. Qed.

(** Names match without case; a value of the wrong type is an error. *)
Example config_names_ignore_case :
  Unmarshal_UserConfig (λ _, "syntax") (Marshal (JObj [("DNS64", JBool true)])) NewUserConfig
  = inr (put_Dns64 NewUserConfig true)
  ∧ Unmarshal_UserConfig (λ _, "syntax") (Marshal (JObj [("acl", JStr "10.0.0.0/8")])) NewUserConfig
    = inl "json: cannot unmarshal string into Go struct field UserConfig.acl of type []string".
Proof. vm_compute. done. Qed.

(** A null element of a repeated member keeps the element of the first one. *)
Example repeated_member_reuses_slice :
  Unmarshal_UserConfig (λ _, "syntax") (Marshal (JObj [("acl", JArr [JStr "10.0.0.0/8"]); ("acl", JArr [JNull; JStr "::1/128"])]))
    NewUserConfig = inr (put_Acl NewUserConfig ["10.0.0.0/8"; "::1/128"]).
Proof. vm_compute. done. Qed.
