(* ===== verification/Persist.v ===== *)
(** * From the API back to a start: the merged configuration as a file

    [GetMergedConfig] (api/jsonrpc.go) hands out the options with the changes of
    this run as JSON text; saved to a file and named by [-config], it is read by
    [GetUserConfig] (cmd/dinosaur/options.go) at the next start. *)

From stdpp Require Import sorting.
From S2P Require Import Prelude GoStrings GoNet GoTime Dns Samples BlockList Cache CircularBuffer Stats.
From S2P Require Import Resolver Logger Config Util Proxy ProxySpec ConfigLoad Api Options Json JsonData.
Set Default Goal Selector "!".
Local Open Scope string_scope.

(** The result of the method: the text of the merged options. *)
Definition GetMergedConfig_text `{GoUnicode} `{DnsLib} {R Chan} (nils : string → bool) (s : ApiService R Chan) : res string :=
  uc ← GetMergedConfig s; Ok (UserConfig_text nils uc).

(** The command line with nothing but [-config path]. *)
Definition only_config (path : string) : Flags :=
  mkFlags false path false "" false "" "" "" "" false "" false false false "" [] [] [] [] [] [] [] [] [] [] [] [].

Section persist.
Context {U : GoUnicode} {L : DnsLib} {HL : DnsLaws L} {O : Os} {R Chan : Type}.

Lemma BlockListAdd_user (a : ApiService R Chan) es :
  c_UserConfig (config (BlockListAdd a es).2) = c_UserConfig (config a).
Proof.
  revert a. induction es as [|e es IH]; intros a; simpl; [done|].
  destruct (AddEntry _ e TypeANY) as [[err|] bl]; simpl; [done|]. by rewrite IH.
Qed.

Lemma BlockListDelete_user (a : ApiService R Chan) name :
  c_UserConfig (config (BlockListDelete a name).2) = c_UserConfig (config a).
Proof. unfold BlockListDelete. by destruct (DeleteEntry _ name TypeANY) as [[[] []] bl]. Qed.

(** The part of the change log that the block-list methods leave alone. *)
Definition rr_changes (cl : changeLog) : gmap string string * gmap string string * gset string :=
  (localRRs cl, localRRPtrs cl, localRRDeletes cl).

Lemma block_call_others (a : ApiService R Chan) call :
  c_UserConfig (config (block_call a call)) = c_UserConfig (config a)
  ∧ rr_changes (changelog (block_call a call)) = rr_changes (changelog a).
Proof.
  destruct call as [es|name]; simpl.
  - split; [apply BlockListAdd_user|]. revert a. induction es as [|e es IH]; intros a; simpl; [done|].
    destruct (AddEntry _ e TypeANY) as [[err|] bl]; simpl; [done|]. rewrite IH. simpl. unfold addBlock. by case_decide.
  - split; [apply BlockListDelete_user|]. unfold BlockListDelete.
    destruct (DeleteEntry _ name TypeANY) as [[[] []] bl]; simpl; try done. unfold removeBlock. by case_decide.
Qed.

Lemma block_calls_others (a : ApiService R Chan) calls :
  c_UserConfig (config (block_calls a calls)) = c_UserConfig (config a)
  ∧ rr_changes (changelog (block_calls a calls)) = rr_changes (changelog a).
Proof.
  revert a. induction calls as [|call calls IH]; intros a; [done|]. simpl.
  destruct (IH (block_call a call)) as [-> ->]. apply block_call_others.
Qed.

Lemma filterRRs_loop_keeps l out : filterRRs_loop l ∅ = Ok out → out = l.
Proof.
  revert out. induction l as [|x l IH]; intros out; simpl; [by intros [= <-]|].
  destruct (NewRR x) as [e|rr].
  - destruct (filterRRs_loop l ∅) as [k|]; [|done]. simpl. intros [= <-]. by rewrite (IH k).
  - destruct (rr_key rr) as [key|]; [|done]. simpl. destruct (filterRRs_loop l ∅) as [k|]; [|done]. simpl.
    rewrite decide_False by apply not_elem_of_empty. intros [= <-]. by rewrite (IH k).
Qed.

(** [uc] with other block entries and no block-delete. *)
Definition with_blocks (uc : UserConfig) (block : list string) : UserConfig := put_BlockDelete (put_Block uc block) [].

Lemma merge_config_others uc cl uc' :
  merge_config uc (snapshot cl) = Ok uc' → rr_changes cl = (∅, ∅, ∅) → u_BlockDelete uc' = [] →
  uc' = with_blocks uc (u_Block uc').
Proof.
  unfold merge_config, snapshot, rr_changes. destruct cl as [bs ds l1 l2 l3]. simpl. intros E [= -> -> ->] Hd.
  rewrite map_to_list_empty, elements_empty in E. simpl in E.
  destruct (filter_blocks _ _) as [kept removed]. unfold filterRRs in E.
  destruct (filterRRs_loop (u_LocalRR uc) _) as [k1|] eqn:E1; [|done]. simpl in E.
  destruct (filterRRs_loop (u_LocalRRPtr uc) _) as [k2|] eqn:E2; [|done]. simpl in E. injection E as <-.
  change (list_to_set (sort_Strings [])) with (∅ : gset string) in E1, E2.
  apply filterRRs_loop_keeps in E1 as ->. apply filterRRs_loop_keeps in E2 as ->.
  simpl in *. rewrite Hd, !app_nil_r. done.
Qed.

(** With no flag but the file, the options are the file's, with defaults. *)
Lemma GetUserConfig_file syntax nils path uc :
  path ≠ "" → UserConfig_utf8 uc = true → UrlOpen path = inr (mkReader (UserConfig_text nils uc) None) →
  GetUserConfig (Unmarshal_UserConfig syntax) (only_config path) = OptOk (apply_flags (only_config path) uc).
Proof.
  intros Hp Hu Ho. unfold GetUserConfig, read_config. simpl. rewrite bool_decide_false by done.
  rewrite Ho. simpl. by rewrite Unmarshal_text.
Qed.

Lemma UpdateBlockList_only_config path uc bl :
  UpdateBlockList (apply_flags (only_config path) uc) bl = UpdateBlockList uc bl.
Proof. unfold UpdateBlockList. simpl. by rewrite !app_nil_r. Qed.

(** The defaults of a start for the options [uc], which never has a setuid entry. *)
Definition started_with (uc : UserConfig) : UserConfig :=
  put_Setuid (put_Upstream (put_Listen uc (or_default (u_Listen uc) ["lo0:8053"]))
    (or_default (u_Upstream uc) ["tls://1.1.1.1:853"; "tls://1.0.0.1:853"])) "".

(** C12: for options whose block list has direct, plain entries only, and after any
    calls of the block-list methods with plain entries (those of C13), the text of
    [GetMergedConfig], saved to a file and given to the next start, yields the
    options of this run but for the block entries, with the defaults where the
    list of addresses or upstreams is empty, and without setuid, which the start
    takes from the command line alone; the block list then built holds every rule
    in force, and no other if no entry was added while it was in force. *)
Theorem merged_config_survives_restart (syntax : string → string) (nils : string → bool) (path text : string)
    (c : ProxyConfig R Chan) (calls : list BlockCall) (uc : UserConfig) :
  direct_blocks uc → UpdateBlockList uc BlockList.New = Ok (None, c_BlockList c) → c_UserConfig c = Some uc →
  Forall plain_call calls →
  let s := block_calls (NewApiService c) calls in
  GetMergedConfig_text nils s = Ok text → (∀ uc', GetMergedConfig s = Ok uc' → UserConfig_utf8 uc' = true) →
  path ≠ "" → UrlOpen path = inr (mkReader text None) →
  ∃ uc2 bl,
    GetUserConfig (Unmarshal_UserConfig syntax) (only_config path) = OptOk uc2
    ∧ uc2 = started_with (with_blocks uc (u_Block uc2))
    ∧ UpdateBlockList uc2 BlockList.New = Ok (None, bl)
    ∧ Rules (c_BlockList (config s)) ⊆ Rules bl
    ∧ (fresh_calls (NewApiService c) calls → Rules bl = Rules (c_BlockList (config s))).
Proof.
  intros Hd Hu Hc Hp s Ht Hutf Hpath Ho. unfold GetMergedConfig_text in Ht.
  destruct (GetMergedConfig s) as [uc'|] eqn:Em; [|done]. simpl in Ht. injection Ht as <-.
  destruct (block_calls_others (NewApiService c) calls) as [Hc' Hrr]. fold s in Hc', Hrr. simpl in Hc', Hrr.
  unfold GetMergedConfig in Em. rewrite Hc', Hc in Em.
  destruct (merged_blocks_restored c calls uc uc' Hd Hu Hp Em) as (bl & Hbl & Hnil & Hr).
  exists (apply_flags (only_config path) uc'), bl. rewrite UpdateBlockList_only_config.
  split_and!; [|..|done|apply Hr|apply Hr].
  - apply (GetUserConfig_file syntax nils); [done|by apply Hutf|done].
  - pose proof (merge_config_others _ _ _ Em Hrr Hnil) as ->. unfold apply_flags. simpl. rewrite !app_nil_r, !orb_false_r. done.
Qed.
End persist.

(** The deletion and the addition of [sample_api2], saved and read again. *)
Definition saved_text : string :=
  match GetMergedConfig_text (λ f, bool_decide (f = "doh")) sample_api2 with Ok t => t | Panic => "" end.

Definition saved_os : Os :=
  {| url_Parse s := inr ("", s);
     os_Open s := if bool_decide (s = "saved.json") then inr (mkReader saved_text None) else inl "no such file";
     http_Get _ := inl "offline";
     InterfaceByName _ := None;
     user_Lookup _ := None; user_LookupId _ := None;
     user_LookupGroup _ := None; user_LookupGroupId _ := None;
     Getuid := 1000;
     Args0 := "dinosaur";
     syslog_New _ _ := None |}.

Lemma merged_config_survives_restart_witness :
  ∃ uc2 bl,
    GetUserConfig (O := saved_os) (Unmarshal_UserConfig (λ _, "syntax")) (only_config "saved.json") = OptOk uc2
    ∧ u_Block uc2 = ["x.example.org:AAAA"]
    ∧ UpdateBlockList (O := saved_os) uc2 BlockList.New = Ok (None, bl)
    ∧ Rules bl = Rules (c_BlockList (config sample_api2)).
Proof.
  destruct (merged_config_survives_restart (O := saved_os) (λ _, "syntax") (λ f, bool_decide (f = "doh")) "saved.json" saved_text
    (config sample_api) sample_calls sample_merge_uc) as (uc2 & bl & E & _ & Hu & _ & Hr).
  - split; [reflexivity|]. split; [reflexivity|]. split; [reflexivity|]. split; [reflexivity|].
    simpl. intros e ->%list_elem_of_singleton. apply sample_good. by left.
  - reflexivity.
  - reflexivity.
  - exact sample_calls_plain.
  - vm_compute. reflexivity.
  - intros uc' Hm. vm_compute in Hm. injection Hm as <-. vm_compute. reflexivity.
  - discriminate.
  - vm_compute. reflexivity.
  - exists uc2, bl. split; [exact E|]. split; [vm_compute in E; injection E as <-; reflexivity|].
    split; [exact Hu|exact (Hr sample_calls_fresh)].
Defined.
