(* ===== verification/JsonRpc.v ===== *)
(** * The JSON-RPC clients (util/jsonrpc.go, cmd/json-rpc/main.go)

    [JsonRpcRequest] is the client of the test suite, [rpc_main] the command-line
    client.  The HTTP exchange is a parameter: what [client.Do] or [http.Post]
    answers to a body.  The texts are those of encoding/json (Json.v). *)

From S2P Require Import Prelude GoStrings GoNet GoTime Json Config Util JsonData.
Set Default Goal Selector "!".
Local Open Scope string_scope.

(** ** Messages *)
Record JsonRpcReq := mkReq { rq_JsonRpc : string; rq_Id : Z; rq_Method : string; rq_Params : json }.
Record JsonRpcError := mkRpcError { re_Code : Z; re_Message : string; re_Data : string }.
(** A raw message is the value of its text; [None] is [nil]. *)
Record JsonRpcResp := mkResp { rs_JsonRpc : string; rs_Id : Z; rs_Error : option json; rs_Result : option json }.

Definition JsonRpcReq_json (r : JsonRpcReq) : json :=
  JObj [("jsonrpc", JStr (rq_JsonRpc r)); ("id", JNum (fmt_int (rq_Id r))); ("method", JStr (rq_Method r));
        ("params", rq_Params r)].

Definition JsonRpcError_fields : list (string * Field JsonRpcError) :=
  [("code", FInt re_Code (λ e v, mkRpcError v (re_Message e) (re_Data e)));
   ("message", FStr re_Message (λ e v, mkRpcError (re_Code e) v (re_Data e)));
   ("data", FStr re_Data (λ e v, mkRpcError (re_Code e) (re_Message e) v))].

Definition JsonRpcResp_fields : list (string * Field JsonRpcResp) :=
  [("jsonrpc", FStr rs_JsonRpc (λ r v, mkResp v (rs_Id r) (rs_Error r) (rs_Result r)));
   ("id", FInt rs_Id (λ r v, mkResp (rs_JsonRpc r) v (rs_Error r) (rs_Result r)));
   ("error", FRaw rs_Error (λ r v, mkResp (rs_JsonRpc r) (rs_Id r) v (rs_Result r)));
   ("result", FRaw rs_Result (λ r v, mkResp (rs_JsonRpc r) (rs_Id r) (rs_Error r) v))].

(** An HTTP response: status code and line, and what reading its body gives. *)
Record HttpResp := mkHttpResp { StatusCode : Z; Status : string; Body : string + string }.

(** ** The client of the test suite *)
Section client.
Context {T : Type}.
(** [http.NewRequest] (an error), [client.Do], the syntax errors of [json.Unmarshal],
    and its decoding of the result into a [T]. *)
Context (NewRequest : string → error) (Do : string → string → string + HttpResp).
Context (syntax : string → string) (decode_T : json → string + T).

(** [params] is the value or the error of [json.Marshal]; [id] the random number. *)
Definition JsonRpcEncoder (id : Z) (method : string) (params : string + json) : string + string :=
  match params with
  | inl err => inl err
  | inr p => inr (Marshal (JsonRpcReq_json (mkReq "2.0" id method p)))
  end.

Definition rpc_error_text (e : JsonRpcError) : string :=
  "JSON-RPC: " +:+ fmt_int (re_Code e) +:+ " [" +:+ re_Message e +:+ "] [" +:+ re_Data e +:+ "]".

(** From the body on. *)
Definition read_response (id : Z) (body : string) : string + T :=
  match Unmarshal_struct "JsonRpcResp" "util" syntax JsonRpcResp_fields body (mkResp "" 0 None None) with
  | (Some err, _) => inl err
  | (None, r) =>
      if negb (rs_Id r =? id)%Z
      then inl ("JSON-RPC: Invalid Id (" +:+ fmt_int id +:+ "/" +:+ fmt_int (rs_Id r) +:+ ")")
      else match rs_Error r with
           | Some v =>
               match decode "JsonRpcError" "util" JsonRpcError_fields v (mkRpcError 0 "" "") with
               | (Some err, _) => inl err
               | (None, e) => inl (rpc_error_text e)
               end
           | None =>
               match rs_Result r with
               | None => inl "JSON-RPC: Nil Response"
               | Some v => decode_T v
               end
           end
  end.

(** The result, and whether a response body is left open. *)
Definition JsonRpcRequest (id : Z) (endpoint method : string) (params : string + json) : (string + T) * bool :=
  match JsonRpcEncoder id method params with
  | inl err => (inl err, false)
  | inr b =>
      match NewRequest endpoint with
      | Some err => (inl err, false)
      | None =>
          match Do endpoint b with
          | inl err => (inl err, false)
          | inr resp =>
              if negb (StatusCode resp =? 200)%Z then (inl (Status resp), true)
              else match Body resp with
                   | inl err => (inl err, false)
                   | inr body => (read_response id body, false)
                   end
          end
      end
  end.
End client.

(** ** Replies *)

(** A JSON-RPC 2.0 server's reply with a result. *)
Definition result_reply (id : Z) (v : json) : json :=
  JObj [("jsonrpc", JStr "2.0"); ("result", v); ("id", JNum (fmt_int id))].

Lemma parse_reply v : wf_json v = true → (N.of_nat (depth v) <= maxDepth)%N → parse (Marshal v) = Some v.
Proof. intros. apply parse_print; [apply compact_ok|done|done]. Qed.

(** ** The command-line client *)

Record RpcFlags := mkRpcFlags {
  f_url : string; f_method : string; f_params : string; f_id : Z; f_pretty : bool; f_debug : bool;
}.

(** What the process leaves behind: output, error output and exit status. *)
Record Outcome := mkOutcome { out : string; err : string; code : Z }.

Definition NL : string := String "010" "".

(** [json.Compact] with HTML escaping, as [Marshal] applies it to a raw message:
    white space outside strings is dropped. *)
Fixpoint compact_text (in_str esc : bool) (s : string) : string :=
  match s with
  | "" => ""
  | String c s1 =>
      let in_str' := if in_str then (if esc then true else negb (bool_decide (c = DQ)))
                     else bool_decide (c = DQ) in
      let esc' := in_str && negb esc && bool_decide (c = BS) in
      if bool_decide (c = "<"%char ∨ c = ">"%char ∨ c = "&"%char)
      then escape_byte c +:+ compact_text in_str' esc' s1
      else match s1 with
           | String b (String a s3) =>
               if bool_decide (c = "226"%char ∧ b = "128"%char ∧ (a = "168"%char ∨ a = "169"%char))
               then escape3 c b a +:+ compact_text in_str' esc' s3
               else if negb in_str && isJsonSpace c then compact_text in_str' esc' s1
               else String c (compact_text in_str' esc' s1)
           | _ =>
               if negb in_str && isJsonSpace c then compact_text in_str' esc' s1
               else String c (compact_text in_str' esc' s1)
           end
  end.

(** [json.Marshal] of the request with raw parameters. *)
Definition rpcRequest_text (id : Z) (method rawParams : string) : string :=
  "{" +:+ print_str "jsonrpc" +:+ ":" +:+ print_str "2.0" +:+ "," +:+ print_str "id" +:+ ":" +:+ fmt_int id
  +:+ "," +:+ print_str "method" +:+ ":" +:+ print_str method +:+ ","
  +:+ print_str "params" +:+ ":" +:+ compact_text false false rawParams +:+ "}".

Section cli.
Context {U : GoUnicode}.
(** The text of [flag.Usage], standard input ([None]: a terminal), the random
    number, [http.Post], and [json.MarshalIndent] of the decoded response. *)
Context (usage : string) (stdin : option (string + string)) (rand31 : Z).
Context (Post : string → string → string → string + HttpResp) (reindent : json → string).

Definition fatalf (e : string) : string := "error: " +:+ e +:+ NL.
Definition debugf (debug : bool) (line : string) : string := if debug then line +:+ NL else "".

(** Collecting the parameters: an error, or the raw text. *)
Definition raw_params (params : string) : string + string :=
  let raw := if negb (bool_decide (params = "")) then inr params
             else match stdin with
                  | None => inr ""
                  | Some (inl e) => inl ("reading stdin: " +:+ e)
                  | Some (inr b) => inr (TrimSpace b)
                  end in
  match raw with
  | inl e => inl e
  | inr raw =>
      let raw := if bool_decide (raw = "") then "{}" else raw in
      if Valid raw then inr raw else inl "params is not valid JSON"
  end.

Definition rpc_main (f : RpcFlags) : Outcome :=
  if bool_decide (f_url f = "") then mkOutcome "" ("error: --url is required" +:+ NL +:+ usage) 1
  else if bool_decide (f_method f = "") then mkOutcome "" ("error: --method is required" +:+ NL +:+ usage) 1
  else match raw_params (f_params f) with
       | inl e => mkOutcome "" (fatalf e) 1
       | inr raw =>
           let reqID := if (f_id f =? 0)%Z then rand31 else f_id f in
           let reqBody := rpcRequest_text reqID (f_method f) raw in
           let dbg1 := debugf (f_debug f) ("POST " +:+ f_url f) +:+ debugf (f_debug f) ("Request: " +:+ reqBody) in
           match Post (f_url f) "application/json" reqBody with
           | inl e => mkOutcome "" (dbg1 +:+ fatalf e) 1
           | inr resp =>
               let dbg2 := dbg1 +:+ debugf (f_debug f) ("HTTP " +:+ Status resp) in
               match Body resp with
               | inl e => mkOutcome "" (dbg2 +:+ fatalf ("reading response: " +:+ e)) 1
               | inr respBody =>
                   let dbg3 := dbg2 +:+ debugf (f_debug f) ("Response: " +:+ respBody) in
                   if negb (StatusCode resp =? 200)%Z
                   then mkOutcome (respBody +:+ NL) (dbg3 +:+ "error: HTTP " +:+ Status resp +:+ NL) 2
                   else if f_pretty f then
                     match parse respBody with
                     | Some v => mkOutcome (reindent v +:+ NL) dbg3 0
                     | None => mkOutcome (respBody +:+ NL) dbg3 0
                     end
                   else mkOutcome (respBody +:+ NL) dbg3 0
               end
           end
       end.
End cli.

(** The body of a call made with pretty-printed parameters. *)
Example rpc_body :
  parse (rpcRequest_text 7 "api.BlockListAdd" (MarshalIndent (JObj [("entries", JArr [JStr "a<b"; JStr "c d"])])))
  = Some (JObj [("jsonrpc", JStr "2.0"); ("id", JNum "7"); ("method", JStr "api.BlockListAdd");
                ("params", JObj [("entries", JArr [JStr "a<b"; JStr "c d"])])]).
Proof. vm_compute. reflexivity. Qed.

(** ** Properties *)

(** Neither side of an equivalence holds. *)
Ltac refuse :=
  split; [done|]; intros;
  repeat match goal with H : ∃ _, _ |- _ => destruct H | H : _ ∧ _ |- _ => destruct H end; congruence.

(** C37: a call succeeds exactly when the server answers with status 200 a body
    that decodes to a response with the call's id, without an error member and
    with a result that decodes; every other outcome is an error, and an answer to
    another call is never taken for the result.  The body of a response with
    another status is left open. *)
Theorem JsonRpcRequest_succeeds_iff {T} NewRequest Do syntax (decode_T : json → string + T)
    (id : Z) (endpoint method : string) (params : string + json) :
  let r := JsonRpcRequest NewRequest Do syntax decode_T id endpoint method params in
  (∀ x, r.1 = inr x ↔
     ∃ p resp body env v,
       params = inr p ∧ NewRequest endpoint = None
       ∧ Do endpoint (Marshal (JsonRpcReq_json (mkReq "2.0" id method p))) = inr resp
       ∧ StatusCode resp = 200%Z ∧ Body resp = inr body
       ∧ Unmarshal_struct "JsonRpcResp" "util" syntax JsonRpcResp_fields body (mkResp "" 0 None None) = (None, env)
       ∧ rs_Id env = id ∧ rs_Error env = None ∧ rs_Result env = Some v ∧ decode_T v = inr x)
  ∧ (r.2 = true ↔
     ∃ p resp, params = inr p ∧ NewRequest endpoint = None
       ∧ Do endpoint (Marshal (JsonRpcReq_json (mkReq "2.0" id method p))) = inr resp ∧ StatusCode resp ≠ 200%Z).
Proof.
  intros r. unfold r, JsonRpcRequest, JsonRpcEncoder. destruct params as [e|p]; [by split; [intros x|]; refuse|].
  destruct (NewRequest endpoint) as [e|] eqn:En; [by split; [intros x|]; refuse|].
  destruct (Do endpoint _) as [e|resp] eqn:Ed; [by split; [intros x|]; refuse|].
  destruct (Z.eqb_spec (StatusCode resp) 200) as [Hs|Hs]; simpl.
  2:{ split; [intros x; refuse|]. split; [|done]. intros _. by exists p, resp. }
  destruct (Body resp) as [e|body] eqn:Eb; [by split; [intros x|]; refuse|]. simpl. split; [|refuse].
  intros x. unfold read_response. destruct (Unmarshal_struct _ _ _ _ body _) as [[e|] env] eqn:Eu; [refuse|].
  destruct (Z.eqb_spec (rs_Id env) id) as [Hi|Hi]; simpl; [|refuse].
  destruct (rs_Error env) as [w|] eqn:Ee; [destruct (decode _ _ _ w _) as [[] ?]; refuse|].
  destruct (rs_Result env) as [v|] eqn:Er; [|refuse]. split.
  - intros Hx. exists p, resp, body, env, v. done.
  - intros (p' & resp' & body' & env' & v' & ? & _ & E1 & _ & E2 & E3 & _ & _ & E4 & Hx). congruence.
Qed.

(** The exit status of the command-line client: 0 exactly when a response
    with status 200 was read, 2 for another status, and 1, with nothing on the
    output, when an option is missing, the parameters are not JSON, or the
    exchange fails.  In the first two cases the output is the response and a
    newline, unless it is to be indented and is JSON. *)
Theorem rpc_main_exit_status {U : GoUnicode} usage stdin rand31 Post reindent (f : RpcFlags) :
  let o := rpc_main usage stdin rand31 Post reindent f in
  let sent raw := Post (f_url f) "application/json"
    (rpcRequest_text (if (f_id f =? 0)%Z then rand31 else f_id f) (f_method f) raw) in
  let answered raw resp body :=
    f_url f ≠ "" ∧ f_method f ≠ "" ∧ raw_params stdin (f_params f) = inr raw ∧ Valid raw = true
    ∧ sent raw = inr resp ∧ Body resp = inr body in
  (code o = 0%Z ∧ ∃ raw resp body, answered raw resp body ∧ StatusCode resp = 200%Z
     ∧ (f_pretty f = false ∨ parse body = None → out o = body +:+ NL))
  ∨ (code o = 2%Z ∧ ∃ raw resp body, answered raw resp body ∧ StatusCode resp ≠ 200%Z ∧ out o = body +:+ NL)
  ∨ (code o = 1%Z ∧ out o = "" ∧ ∀ raw resp body, ¬ answered raw resp body).
Proof.
  intros o sent answered. unfold o, rpc_main.
  case_bool_decide as Eu; [right; right; split_and!; [done..|]; by intros ??? (? & _)|].
  case_bool_decide as Em; [right; right; split_and!; [done..|]; by intros ??? (_ & ? & _)|].
  destruct (raw_params stdin (f_params f)) as [e|raw] eqn:Er.
  { right; right; split_and!; [done..|]. intros ??? (_ & _ & H & _). congruence. }
  assert (Hv : Valid raw = true).
  { unfold raw_params in Er. by repeat (case_match; try discriminate); simplify_eq. }
  destruct (sent raw) as [e|resp] eqn:Es; unfold sent in Es; rewrite Es.
  { right; right; split_and!; [done..|]. intros raw' ?? (_ & _ & H & _ & H' & _). unfold sent in H'. congruence. }
  destruct (Body resp) as [e|body] eqn:Eb.
  { right; right; split_and!; [done..|]. intros raw' ?? (_ & _ & H & _ & H' & H''). unfold sent in H'. congruence. }
  assert (Ha : answered raw resp body) by done. destruct (Z.eqb_spec (StatusCode resp) 200) as [Hs|Hs]; simpl.
  - left. destruct (f_pretty f) eqn:Ep; [destruct (parse body) as [v|] eqn:Ej|]; (split; [done|]);
      exists raw, resp, body; (split_and!; [done..|]); intros [H|H]; first [done|congruence].
  - right; left. split; [done|]. by exists raw, resp, body.
Qed.
