(* ===== verification/DohServer.v ===== *)
(** * Starting the DoH server, and one proxy as the upstream of another (doh/doh.go)

    [StartDoH] makes a TLS configuration, from files or with a self-signed
    certificate, and one HTTPS server per address; the primitives of the crypto
    packages are the class [Crypto].  The second part puts the DoH resolver
    (resolver/resolver.go) in front of the DoH server: the resolver's HTTP request
    is handled by [MakeDoHHandler] of another instance. *)

From S2P Require Import Prelude GoStrings GoNet GoTime Dns Samples BlockList Cache CircularBuffer Stats.
From S2P Require Import Resolver Logger Config Proxy ProxySpec Doh.
Set Default Goal Selector "!".
Local Open Scope string_scope.

(** ** Certificates *)

(** The fields of [x509.Certificate] that the template sets. *)
Record CertTemplate := mkTemplate {
  SerialNumber : Z;
  Subject_CommonName : string;
  NotBefore : Time;
  NotAfter : Time;
  KeyUsage : Z;
  ExtKeyUsage : list Z;
}.

(** [x509.KeyUsageDigitalSignature], [x509.ExtKeyUsageServerAuth]. *)
Definition KeyUsageDigitalSignature : Z := 1.
Definition ExtKeyUsageServerAuth : Z := 1.

(** Results are an error or a value; [rand_Int max] is a number below [max]. *)
Class Crypto (Key Cert : Type) := {
  ecdsa_GenerateKey : string + Key;
  rand_Int : Z → string + Z;
  CreateCertificate : CertTemplate → Key → string + list Z;
  MarshalECPrivateKey : Key → string + list Z;
  (** [pem.EncodeToMemory] of a block with a type *)
  pem_Encode : string → list Z → string;
  tls_X509KeyPair : string → string → string + Cert;
  tls_LoadX509KeyPair : string → string → string + Cert;
}.

Record TLSConfig (Cert : Type) := mkTLS { Certificates : list Cert; NextProtos : list string }.
Arguments mkTLS {Cert}.
Arguments Certificates {Cert}.
Arguments NextProtos {Cert}.

(** The fields of [http.Server] that the code sets. *)
Record HttpServer (Cert : Type) := mkHttpServer {
  hs_Addr : string;
  hs_Path : string;                    (* the path of the handler *)
  hs_TLSConfig : TLSConfig Cert;
  ReadHeaderTimeout : Duration;
  ReadTimeout : Duration;
  WriteTimeout : Duration;
  IdleTimeout : Duration;
}.
Arguments mkHttpServer {Cert}.
Arguments hs_Addr {Cert}.
Arguments hs_Path {Cert}.
Arguments hs_TLSConfig {Cert}.
Arguments ReadHeaderTimeout {Cert}.
Arguments ReadTimeout {Cert}.
Arguments WriteTimeout {Cert}.
Arguments IdleTimeout {Cert}.

Section start.
Context {Key Cert : Type} {CR : Crypto Key Cert} {R Chan : Type}.

(** The template, with both clock readings. *)
Definition cert_template (serial : Z) (now1 now2 : Time) : CertTemplate :=
  mkTemplate serial "dinosaur-dns" (Time_Add now1 (- (60 * Second))) (Time_Add now2 (10 * 365 * 24 * 3600 * Second))
    KeyUsageDigitalSignature [ExtKeyUsageServerAuth].

Definition generateSelfSigned (now1 now2 : Time) : string + Cert :=
  match ecdsa_GenerateKey with
  | inl err => inl err
  | inr key =>
      match rand_Int (Z.shiftl 1 128) with
      | inl err => inl err
      | inr serial =>
          match CreateCertificate (cert_template serial now1 now2) key with
          | inl err => inl err
          | inr certDER =>
              match MarshalECPrivateKey key with
              | inl err => inl err
              | inr keyDER =>
                  tls_X509KeyPair (pem_Encode "CERTIFICATE" certDER) (pem_Encode "EC PRIVATE KEY" keyDER)
              end
          end
      end
  end.

Definition MakeTLSConfig (now1 now2 : Time) (certFile keyFile : string) : string + TLSConfig Cert :=
  match (if negb (bool_decide (certFile = "")) && negb (bool_decide (keyFile = ""))
         then tls_LoadX509KeyPair certFile keyFile
         else generateSelfSigned now1 now2) with
  | inl err => inl err
  | inr cert => inr (mkTLS [cert] ["h2"; "http/1.1"])
  end.

(** [inl] is the message of [log.Fatalf]; otherwise the line about the certificate,
    if it is printed, and the servers that are started. *)
Definition StartDoH (now1 now2 : Time) (c : ProxyConfig R Chan) : string + (option string * list (HttpServer Cert)) :=
  match MakeTLSConfig now1 now2 (c_DohCert c) (c_DohKey c) with
  | inl err => inl ("DoH TLS: " +:+ err)
  | inr tlsCfg =>
      inr (if bool_decide (c_DohCert c = "") then Some "DoH: using auto-generated self-signed certificate" else None,
           List.map (λ addr, mkHttpServer addr (c_DohPath c) tlsCfg (10 * Second) (15 * Second) (15 * Second) (120 * Second))
             (c_DohBind c))
  end.

(** The DoH server starts exactly when its certificate can be made, with one
    server per address, all with that certificate, HTTP/2 first and the path of
    the configuration.  The certificate is the one of the files when both are
    named; otherwise, also when one of them is named, it is a fresh self-signed
    one, which the log mentions only if no certificate file was given. *)
Theorem StartDoH_certificate (now1 now2 : Time) (c : ProxyConfig R Chan) :
  let both := c_DohCert c ≠ "" ∧ c_DohKey c ≠ "" in
  let cert := if bool_decide both then tls_LoadX509KeyPair (c_DohCert c) (c_DohKey c)
              else generateSelfSigned now1 now2 in
  match StartDoH now1 now2 c, cert with
  | inl msg, inl err => msg = "DoH TLS: " +:+ err
  | inr (note, servers), inr ct =>
      hs_Addr <$> servers = c_DohBind c
      ∧ (∀ srv, srv ∈ servers → Certificates (hs_TLSConfig srv) = [ct] ∧ hs_Path srv = c_DohPath c
           ∧ NextProtos (hs_TLSConfig srv) = ["h2"; "http/1.1"]
           ∧ (0 < ReadHeaderTimeout srv <= ReadTimeout srv)%Z ∧ (0 < WriteTimeout srv < IdleTimeout srv)%Z)
      ∧ (note = None ↔ c_DohCert c ≠ "")
  | _, _ => False
  end.
Proof.
  intros both cert. unfold StartDoH, MakeTLSConfig, cert.
  replace (bool_decide both) with (negb (bool_decide (c_DohCert c = "")) && negb (bool_decide (c_DohKey c = "")))
    by (unfold both; by do 3 case_bool_decide; naive_solver).
  destruct (if _ && _ then _ else _) as [err|ct]; [done|]. split_and!.
  - induction (c_DohBind c) as [|a l IH]; simpl; [done|]. by f_equal.
  - intros srv Hs. apply list_elem_of_In, in_map_iff in Hs as (a & <- & _). unfold Second. simpl. split_and!; done || lia.
  - by case_bool_decide.
Qed.
End start.

(** ** A proxy behind a proxy *)

(** [http.StatusText] of the codes the handler uses, in a status line. *)
Definition status_line (code : Z) : string :=
  fmt_d code +:+ " " +:+
  match code with
  | 200%Z => "OK" | 400%Z => "Bad Request" | 403%Z => "Forbidden" | 404%Z => "Not Found"
  | 405%Z => "Method Not Allowed" | 415%Z => "Unsupported Media Type" | 500%Z => "Internal Server Error"
  | _ => ""
  end.

Section chain.
Context {U : GoUnicode} {L : DnsLib} {HL : DnsLaws L} {Wire : DnsWire}.
Context {R US Chan : Type} {RI : Resolver R US} {RT : ReplyTypes RI}.
Context (clk : nat → Time).
Notation St := (St (R := R) (US := US) (Chan := Chan)).

(** The bytes of a reply's body. *)
Fixpoint string_bytes (s : string) : list Z :=
  match s with "" => [] | String c s => Z.of_N (byte_of c) :: string_bytes s end.
Definition body_bytes (b : DohBody) : list Z := match b with Text s => string_bytes s | Bytes l => l end.

Definition header (req : HttpRequest) (k : string) : string :=
  match list_find (λ kv, kv.1 = k) (req_Header req) with Some (_, kv) => kv.2 | None => "" end.

(** What net/http does between the two: the request arrives at the handler from
    [addr], its reply becomes the response; a panic of the handler closes the
    connection and leaves the other instance in some state ([aborted]). *)
Definition http_serve {Err} (closed : Err) (aborted : St → St) (url_path : string → string) (addr path : string)
    (req : HttpRequest) (s : St) : (Err + HttpResponse Err) * St :=
  let r := mkDohRequest (url_path (req_URL req)) (req_Method req) "" (header req "Content-Type")
             (req_Body req) None addr in
  match MakeDoHHandler clk path r s with
  | Ok (reply, s') =>
      (inr (mkHttpResponse (reply_Status reply) (status_line (reply_Status reply)) (inr (body_bytes (reply_Body reply)))), s')
  | Panic => (inl closed, aborted s)
  end.

Context {Conn Err : Type} {N : Net St Conn Err}.
Context (closed : Err) (aborted : St → St) (url_path : string → string) (url addr path : string).
(** The client's requests reach the other instance, whose handler is at [url]. *)
Context (Hdo : ∀ req w, client_Do req w = http_serve closed aborted url_path addr path req w).
Context (Hreq : ∀ b, NewRequest "POST" url b = inr (mkHttpRequest "POST" url b [])).
Context (Hpath : url_path url = path).

(** The request of the resolver, as the handler sees it. *)
Lemma resolver_request b s :
  client_Do (mkHttpRequest "POST" url b [("Accept", "application/dns-message"); ("Content-Type", "application/dns-message")]) s
  = match MakeDoHHandler clk path (doh_post path addr b) s with
    | Ok (reply, s') =>
        (inr (mkHttpResponse (reply_Status reply) (status_line (reply_Status reply)) (inr (body_bytes (reply_Body reply)))), s')
    | Panic => (inl closed, aborted s)
    end.
Proof. rewrite Hdo. unfold http_serve, doh_post. simpl. by rewrite Hpath. Qed.

(** C16: a DoH upstream that is another instance of the program resolves a query
    like that instance's DNS handler answers a client at the resolver's address:
    with the message it writes, as the wire format carries it, with an error for
    status 403 when that instance drops the query, and with an error when a
    message does not survive packing; the other instance is left in the state in
    which its DNS handler leaves it.  When the DNS handler of that instance would
    panic (see [crashes]), the resolver reports the closed connection. *)
Theorem doh_upstream_answers_like_its_dns (ups : list R) (hist : list ConnectionLog) (b : list Z) (q : Msg)
    (s : RState (W := St) (Conn := Conn)) :
  shared_ok ups (cfg (net s)) → logged (c_StatsHandler (cfg (net s))) hist →
  Forall (λ x, 0 ≤ x < 256)%Z b → b ≠ [] → (length b ≤ bodyLimit)%nat → Pack q = inr b → Unpack b = inr q →
  match MakeHandler clk addr q (net s) with
  | Panic => crashes clk (net s) addr q = true
      ∧ Doh_Resolve (NewDohResolver url) q s
        = (inl ("HTTP request error: " +:+ Err_Error closed), mkRState (pools s) (aborted (net s)))
  | Ok (evs, w') => ∃ r, Doh_Resolve (NewDohResolver url) q s = (r, mkRState (pools s) w')
      ∧ if dropped (cfg (net s)) addr q then r = inl "HTTP request failed - status: 403 Forbidden"
        else ∃ m, WriteMsg m ∈ evs ∧
             match Pack m with
             | inl _ => r = inl "HTTP request failed - status: 500 Internal Server Error"
             | inr bytes => r = match Unpack bytes with
                                | inl e => inl ("Error parsing DNS response: " +:+ e)
                                | inr m' => inr m'
                                end
             end
  end.
Proof.
  intros Hs Hl Hb Hne Hlen Hp Hq.
  destruct (doh_reply_spec clk ups hist path addr b q (net s) Hs Hl Hb Hne Hlen Hq) as [_ H].
  unfold Doh_Resolve, NewDohResolver. rewrite Hp. simpl doh_Upstream. rewrite Hreq. simpl.
  rewrite resolver_request. destruct (MakeHandler clk addr q (net s)) as [[evs w']|].
  2:{ destruct H as [-> ->]. done. }
  destruct H as (reply & -> & _ & Hr). destruct (dropped (cfg (net s)) addr q).
  - rewrite Hr. simpl. by eexists.
  - destruct Hr as (m & Hm & Hr). destruct (Pack m) as [e|bytes] eqn:Epm.
    + rewrite Hr. simpl. eexists. split; [done|]. exists m. by rewrite Epm.
    + rewrite Hr. simpl. destruct (Unpack bytes) as [e|m'] eqn:Eu; eexists; (split; [done|]);
        exists m; by rewrite Epm, Eu.
Qed.
End chain.

(** The instance of ProxySpec.v as the upstream; on the wire a message is its
    identifier and the type of its question. *)
Definition chain_wire : DnsWire :=
  {| Pack m := inr [Id m; match Questions m with q :: _ => Qtype q | [] => 0%Z end];
     Unpack b := match b with [i; t] => inr (sample_query i "www.example.com." t) | _ => inl "short" end |}.

Definition chain_net : Net (St (R := SUp) (US := nat) (Chan := nat)) nat string :=
  {| Err_Error e := e; errors_Is _ _ := false; net_Timeout _ := false;
     time_Now w := (0%Z, w);
     Exchange _ _ w := (inl "no network", w);
     Dial _ w := (inl "no network", w);
     ExchangeWithConn _ _ w := (inl "no network", w);
     conn_Read _ w := (None, w);
     SetReadDeadline _ _ w := w;
     conn_Close _ w := w;
     NewRequest m u b := inr (mkHttpRequest m u b []);
     client_Do := http_serve (Wire := chain_wire) sample_clk "closed" id (λ _, "/dns-query") "127.0.0.1:443" "/dns-query" |}.

Lemma doh_upstream_answers_like_its_dns_witness :
  ∃ s', Doh_Resolve (Wire := chain_wire) (N := chain_net) (NewDohResolver "https://other/dns-query")
          (sample_query 9 "www.example.com." TypeA) (mkRState ∅ sample_st)
        = (inr (sample_query 9 "www.example.com." TypeA), s').
Proof.
  pose proof (doh_upstream_answers_like_its_dns (Wire := chain_wire) (N := chain_net) sample_clk "closed" id (λ _, "/dns-query")
    "https://other/dns-query" "127.0.0.1:443" "/dns-query" (λ _ _, eq_refl) (λ _, eq_refl) eq_refl
    [up_fail; up_v4] [] [9; 1]%Z (sample_query 9 "www.example.com." TypeA) (mkRState ∅ sample_st)
    sample_shared_ok sample_logged ltac:(repeat constructor; lia) ltac:(discriminate)
    ltac:(unfold bodyLimit; simpl; lia) eq_refl eq_refl) as H.
  destruct (MakeHandler sample_clk _ _ _) as [[evs w']|] eqn:Eh; [|vm_compute in Eh; discriminate Eh].
  destruct H as (r & E & _). exists (mkRState ∅ w'). rewrite E. vm_compute in E. injection E as <- _. reflexivity.
Defined.
