(* ===== verification/ApiHttp.v ===== *)
(** * The HTTP side of the API (api/api.go, the messages of api/jsonrpc.go)

    [MakeApiHandler] binds a listener, registers the methods of [ApiService] with
    the JSON-RPC server of gorilla/rpc, and serves five routes through gorilla/mux.
    The two libraries are parameters, classes with the documented behaviour that
    the code relies on: the router takes the first registered route that matches,
    and the JSON-RPC server calls the method that a request names with the decoded
    parameters and wraps what it returns. *)

From stdpp Require Import sorting.
From S2P Require Import Prelude GoStrings GoNet GoTime Dns Samples BlockList Cache CircularBuffer Stats.
From S2P Require Import Resolver Logger Config Util Proxy ProxySpec ConfigLoad Api Json JsonData Persist JsonRpc.
Set Default Goal Selector "!".
Local Open Scope string_scope.

(** ** Messages *)
Record CacheAddReq := mkCacheAddReq { ca_RR : string; ca_Permanent : bool; ca_Ptr : bool }.
Record CacheDeleteReq := mkCacheDeleteReq { cd_Name : string; cd_Qtype : string; cd_Ptr : bool }.
Record BlockListAddReq := mkBlockListAddReq { ba_Entries : list string }.
Record BlockListDeleteReq := mkBlockListDeleteReq { bd_Name : string }.
Record PauseBlockingReq := mkPauseBlockingReq { pb_Seconds : Z }.

Definition CacheAddReq_fields : list (string * Field CacheAddReq) :=
  [("rr", FStr ca_RR (λ r v, mkCacheAddReq v (ca_Permanent r) (ca_Ptr r)));
   ("permanent", FBool ca_Permanent (λ r v, mkCacheAddReq (ca_RR r) v (ca_Ptr r)));
   ("ptr", FBool ca_Ptr (λ r v, mkCacheAddReq (ca_RR r) (ca_Permanent r) v))].
Definition CacheDeleteReq_fields : list (string * Field CacheDeleteReq) :=
  [("name", FStr cd_Name (λ r v, mkCacheDeleteReq v (cd_Qtype r) (cd_Ptr r)));
   ("qtype", FStr cd_Qtype (λ r v, mkCacheDeleteReq (cd_Name r) v (cd_Ptr r)));
   ("ptr", FBool cd_Ptr (λ r v, mkCacheDeleteReq (cd_Name r) (cd_Qtype r) v))].
Definition BlockListAddReq_fields : list (string * Field BlockListAddReq) :=
  [("entries", FStrs ba_Entries (λ _ v, mkBlockListAddReq v))].
Definition BlockListDeleteReq_fields : list (string * Field BlockListDeleteReq) :=
  [("name", FStr bd_Name (λ _ v, mkBlockListDeleteReq v))].
Definition PauseBlockingReq_fields : list (string * Field PauseBlockingReq) :=
  [("seconds", FInt pb_Seconds (λ _ v, mkPauseBlockingReq v))].
Definition Empty_fields : list (string * Field unit) := [].

(** A call of the service: the method and its decoded argument. *)
Inductive ApiReq :=
  | RConfig
  | RCacheAdd (r : CacheAddReq)
  | RCacheDelete (r : CacheDeleteReq)
  | RCacheDebug
  | RBlockListCount
  | RBlockListAdd (r : BlockListAddReq)
  | RBlockListDelete (r : BlockListDeleteReq)
  | RBlockListList
  | RGetBlockingStatus
  | RPauseBlocking (r : PauseBlockingReq)
  | RResumeBlocking
  | RGetChanges
  | RGetMergedConfig.

(** The name under which [RegisterService(apiService, "api")] makes it known, and
    the parameters of a call. *)
Definition req_method (q : ApiReq) : string :=
  match q with
  | RConfig => "api.Config"
  | RCacheAdd _ => "api.CacheAdd"
  | RCacheDelete _ => "api.CacheDelete"
  | RCacheDebug => "api.CacheDebug"
  | RBlockListCount => "api.BlockListCount"
  | RBlockListAdd _ => "api.BlockListAdd"
  | RBlockListDelete _ => "api.BlockListDelete"
  | RBlockListList => "api.BlockListList"
  | RGetBlockingStatus => "api.GetBlockingStatus"
  | RPauseBlocking _ => "api.PauseBlocking"
  | RResumeBlocking => "api.ResumeBlocking"
  | RGetChanges => "api.GetChanges"
  | RGetMergedConfig => "api.GetMergedConfig"
  end.

Definition req_params (q : ApiReq) : json :=
  match q with
  | RCacheAdd r => encode CacheAddReq_fields r
  | RCacheDelete r => encode CacheDeleteReq_fields r
  | RBlockListAdd r => encode BlockListAddReq_fields r
  | RBlockListDelete r => encode BlockListDeleteReq_fields r
  | RPauseBlocking r => encode PauseBlockingReq_fields r
  | _ => encode Empty_fields tt
  end.

(** Decoding the argument of a method: the error of [json.Unmarshal], or the
    call. *)
Definition read_args {S} (struct : string) (fs : list (string * Field S)) (zero : S) (call : S → ApiReq)
    (params : json) : string + ApiReq :=
  match decode struct "api" fs params zero with
  | (Some e, _) => inl e
  | (None, x) => inr (call x)
  end.

(** The methods by name: those of [ApiService] with the signature of a method. *)
Definition service_methods : list (string * (json → string + ApiReq)) :=
  let no_args q := read_args "Empty" Empty_fields tt (λ _, q) in
  [("api.Config", no_args RConfig);
   ("api.CacheAdd", read_args "CacheAddReq" CacheAddReq_fields (mkCacheAddReq "" false false) RCacheAdd);
   ("api.CacheDelete", read_args "CacheDeleteReq" CacheDeleteReq_fields (mkCacheDeleteReq "" "" false) RCacheDelete);
   ("api.CacheDebug", no_args RCacheDebug);
   ("api.BlockListCount", no_args RBlockListCount);
   ("api.BlockListAdd", read_args "BlockListAddReq" BlockListAddReq_fields (mkBlockListAddReq []) RBlockListAdd);
   ("api.BlockListDelete", read_args "BlockListDeleteReq" BlockListDeleteReq_fields (mkBlockListDeleteReq "") RBlockListDelete);
   ("api.BlockListList", no_args RBlockListList);
   ("api.GetBlockingStatus", no_args RGetBlockingStatus);
   ("api.PauseBlocking", read_args "PauseBlockingReq" PauseBlockingReq_fields (mkPauseBlockingReq 0) RPauseBlocking);
   ("api.ResumeBlocking", no_args RResumeBlocking);
   ("api.GetChanges", no_args RGetChanges);
   ("api.GetMergedConfig", no_args RGetMergedConfig)].

Definition lookup_method (name : string) : option (json → string + ApiReq) :=
  snd <$> List.find (λ m, bool_decide (m.1 = name)) service_methods.

Definition GetChangesRes_json (r : GetChangesRes) : json :=
  let strs l := JArr (List.map JStr l) in
  JObj [("blocks", strs (ch_Blocks r)); ("block_deletes", strs (ch_BlockDeletes r)); ("local_rrs", strs (ch_LocalRRs r));
        ("local_rr_ptrs", strs (ch_LocalRRPtrs r)); ("local_rr_deletes", strs (ch_LocalRRDeletes r))].

Definition BlockEntry_json (e : Trie.BlockEntry) : json :=
  JObj [("name", JStr (Trie.be_Name e)); ("block", JArr (List.map JStr (Trie.be_Block e)))].

(** A slice that is only appended to is [nil] while it is empty. *)
Definition appended (l : list json) : json := match l with [] => JNull | _ => JArr l end.

(** What a call draws from outside: readings of the clock, random identifiers, the
    order in which Go visits a map (one of the possible dumps of a block list, and
    the entries of a cache in some order), which slices of the options are [nil],
    and the channel that [make] returns. *)
Record CallEnv {L : DnsLib} {Chan : Type} := mkEnv {
  e_now1 : Time; e_now2 : Time; e_st1 : Stamp; e_st2 : Stamp; e_id : Z;
  e_dump : BlockList → list Trie.BlockEntry;
  e_dump_ok : ∀ b, BlockList.Dump b (e_dump b);
  e_items : gmap DNSCacheKey DNSCacheItem → list DNSCacheItem;
  e_items_ok : ∀ c, e_items c ≡ₚ (map_to_list c).*2;
  e_clk : nat → Time; e_nils : string → bool; e_chan : Chan;
}.
Arguments CallEnv {L} Chan.

(** ** The methods over JSON *)
Section service.
Context {U : GoUnicode} {L : DnsLib} {R Chan : Type}.
(** The decimal text of a duration in seconds, as encoding/json prints the float
    and as ["%.1f"] does. *)
Context (json_seconds fmt_1f : Duration → string).

(** [DNSCacheItem.String]; a message without a question panics. *)
Definition Item_String (now : Time) (it : DNSCacheItem) : res string :=
  match Questions (Message it) with
  | [] => Panic
  | q :: _ =>
      let key := "<" +:+ q_Name q +:+ " " +:+ TypeToString (Qtype q) +:+ ">" in
      Ok (if Permanent it then key +:+ " permanent" else key +:+ " " +:+ fmt_1f (Sub (Expires it) now) +:+ "s")
  end.

(** [DNSCache.Debug] with the entries in the order of the visit, each with its own
    reading of the clock. *)
Fixpoint Debug (now : nat → Time) (items : list DNSCacheItem) : res (list string) :=
  match items with
  | [] => Ok []
  | it :: items =>
      a ← Item_String (now 0) it;
      rest ← Debug (λ n, now (S n)) items; Ok (a :: rest)
  end.

Definition Status_json (r : BlockingStatusRes) : json :=
  JObj [("paused", JBool (Paused r)); ("remaining_seconds", JNum (json_seconds (RemainingSeconds r)))].

(** An [Empty] result, unless there is an error. *)
Definition empty_or (err : error) : string + json :=
  match err with Some e => inl e | None => inr (JObj []) end.

Definition CacheDebug (now : nat → Time) (items : list DNSCacheItem) : res json :=
  l ← Debug now items; Ok (JObj [("entries", appended (List.map JStr l))]).

(** One call: the error or the result as JSON, and the new state. *)
Definition run (e : CallEnv Chan) (q : ApiReq) (s : ApiService R Chan) : res ((string + json) * ApiService R Chan) :=
  match q with
  | RConfig => uc ← Api.Config s; Ok (inr (UserConfig_json (e_nils e) uc), s)
  | RCacheAdd r => '(err, s) ← CacheAdd (e_st1 e) (e_st2 e) s (ca_RR r) (ca_Permanent r) (ca_Ptr r); Ok (empty_or err, s)
  | RCacheDelete r => '(err, s) ← CacheDelete (e_id e) (e_now1 e) (e_now2 e) s (cd_Name r) (cd_Qtype r) (cd_Ptr r);
                      Ok (empty_or err, s)
  | RCacheDebug => v ← CacheDebug (e_clk e) (e_items e (c_Cache (config s))); Ok (inr v, s)
  | RBlockListCount => Ok (inr (JObj [("count", JNum (fmt_int (Z.of_nat (BlockListCount s))))]), s)
  | RBlockListAdd r => let '(err, s) := BlockListAdd s (ba_Entries r) in Ok (empty_or err, s)
  | RBlockListDelete r =>
      let '(err, found, s) := BlockListDelete s (bd_Name r) in
      Ok (match err with Some m => inl m | None => inr (JObj [("found", JBool found)]) end, s)
  | RBlockListList => Ok (inr (JObj [("entries", appended (List.map BlockEntry_json (e_dump e (c_BlockList (config s)))))]), s)
  | RGetBlockingStatus => Ok (inr (Status_json (GetBlockingStatus (e_now1 e) s)), s)
  | RPauseBlocking r =>
      let '(st, s) := PauseBlocking (e_now1 e) (e_now2 e) s (pb_Seconds r) in Ok (inr (Status_json st), s)
  | RResumeBlocking => let '(st, s) := ResumeBlocking (e_now1 e) s in Ok (inr (Status_json st), s)
  | RGetChanges => Ok (inr (GetChangesRes_json (GetChanges s)), s)
  | RGetMergedConfig => t ← GetMergedConfig_text (e_nils e) s; Ok (inr (JObj [("config", JStr t)]), s)
  end.
End service.

(** ** The libraries *)

(** A result that [json.Marshal] prints without loss. *)
Definition encodable (r : string + json) : Prop :=
  match r with
  | inl msg => valid_utf8 msg = true
  | inr v => wf_json v = true ∧ (N.of_nat (depth v) < maxDepth)%N
  end.

(** The error object of the JSON-RPC codec and its replies. *)
Definition rpc_error_object (code : Z) (msg : string) : json :=
  JObj [("code", JNum (fmt_int code)); ("message", JStr msg); ("data", JNull)].
Definition E_SERVER : Z := -32000.
Definition rpc_reply (id : Z) (r : string + json) : json :=
  match r with
  | inr v => result_reply id v
  | inl msg => JObj [("jsonrpc", JStr "2.0"); ("error", rpc_error_object E_SERVER msg); ("id", JNum (fmt_int id))]
  end.

(** gorilla/rpc with the json2 codec: serving one request with the registered
    methods ([lookup]) on a state. *)
Class RpcServer := {
  rpc_ServeHTTP {S Q : Type} (lookup : string → option (json → string + Q))
    (call : Q → S → res ((string + json) * S)) (meth ctype body : string) (s : S) : res (HttpResp * S);
}.

Class RpcLaws (RS : RpcServer) := {
  (** A request that names a method and has parameters for it is a call. *)
  rpc_call {S Q} (lookup : string → option (json → string + Q)) call body (s s' : S) id m p rd q r :
    parse body = Some (JsonRpcReq_json (mkReq "2.0" id m p)) → is_int id →
    lookup m = Some rd → rd p = inr q → call q s = Ok (r, s') → encodable r →
    ∃ text, rpc_ServeHTTP lookup call "POST" "application/json" body s = Ok (mkHttpResp 200 "200 OK" (inr text), s')
            ∧ parse text = Some (rpc_reply id r);
  (** Only POST. *)
  rpc_not_post {S Q} (lookup : string → option (json → string + Q)) call meth ctype body (s : S) :
    meth ≠ "POST" → ∃ resp, rpc_ServeHTTP lookup call meth ctype body s = Ok (resp, s) ∧ StatusCode resp = 405%Z;
}.

(** gorilla/mux: a route is a path or a prefix. *)
Inductive Route := Path (p : string) | PathPrefix (p : string).

Definition route_matches (path : string) (r : Route) : bool :=
  match r with Path p => bool_decide (path = p) | PathPrefix p => HasPrefix path p end.

(** A path that [path.Clean] leaves alone, but for a final slash. *)
Definition clean_path (path : string) : bool :=
  match Split path "/" with
  | "" :: segs => forallb (λ s, negb (bool_decide (s = "" ∨ s = "." ∨ s = ".."))) (removelast segs)
                  && negb (bool_decide (last segs = Some "." ∨ last segs = Some ".." ∨ last segs = None))
  | _ => false
  end.

Class Mux := { mux_Match {H : Type} (routes : list (Route * H)) (path : string) : option H }.

(** The first route added that matches; nothing if none does. *)
Class MuxLaws (M : Mux) := {
  mux_first {H : Type} (routes : list (Route * H)) path :
    clean_path path = true → mux_Match routes path = snd <$> List.find (λ r, route_matches path r.1) routes;
}.

(** ** api/api.go *)

Inductive Listener := UnixListener (path : string) | TcpListener (addr : string).

(** What the goroutine that waits for a signal does with it. *)
Inductive SignalAction :=
  | LogPrint (msg : string) | Remove (path : string) | SignalReset | Kill (sig : Z).

Definition remove_socket (bindAddress : string) (sig : Z) (sig_name : string) : list SignalAction :=
  [LogPrint ("Signal: " +:+ sig_name); LogPrint "Removing API socket"; Remove bindAddress; SignalReset; Kill sig].

(** The handlers of the routes. *)
Inductive Handler :=
  | HPing | HRedirect (location : string) (code : Z) | HApi | HLog | HStatic | HTest (strip : string).

Definition api_routes : list (Route * Handler) :=
  [(Path "/ping", HPing);
   (Path "/", HRedirect "/static/index.html" 302);
   (Path "/api", HApi);
   (Path "/log", HLog);
   (PathPrefix "/static/", HStatic);
   (PathPrefix "/test/", HTest "/test/")].

Record ApiRequest := mkApiRequest {
  ar_Method : string; ar_Path : string; ar_ContentType : string; ar_Body : string; ar_RemoteAddr : string;
}.

(** The answer to a request: a response, or what the other handlers do. *)
Inductive ApiReply :=
  | Reply (resp : HttpResp)
  | Redirect (location : string) (code : Z)
  | LogEvents
  | FileOf (tree path : string)
  | NotFound.

Inductive ApiStart := ApiFatal (msg : string) | ApiServing (l : Listener) (started : string).

Section http.
Context {U : GoUnicode} {L : DnsLib} {R Chan : Type} {RS : RpcServer} {M : Mux}.
Context (json_seconds fmt_1f : Duration → string).
(** [net.ListenUnix] and [net.Listen]. *)
Context (ListenUnix Listen : string → error).

(** The listener or the error, and whether the socket is removed on a signal;
    the first byte of an empty address is out of range. *)
Definition bindListener (bindAddress : string) : res ((string + Listener) * bool) :=
  match bindAddress with
  | "" => Panic
  | String c _ =>
      if bool_decide (c = "/"%char)
      then Ok (match ListenUnix bindAddress with Some e => inl e | None => inr (UnixListener bindAddress) end, true)
      else Ok (match Listen bindAddress with Some e => inl e | None => inr (TcpListener bindAddress) end, false)
  end.

(** The start of the goroutine, up to [http.Serve]. *)
Definition MakeApiHandler (c : ProxyConfig R Chan) : res ApiStart :=
  '(l, _) ← bindListener (c_ApiBind c);
  Ok (match l with
      | inl err => ApiFatal ("API listener could not bind [" +:+ c_ApiBind c +:+ "]: " +:+ err)
      | inr l => ApiServing l ("Starting API Listener: " +:+ c_ApiBind c)
      end).

(** The hook that the log handler registers on the shared [StatsHandler]; the
    stream that follows is in LogStream.v. *)
Definition add_log_hook (s : ApiService R Chan) (addr : string) (ch : Chan) : ApiService R Chan :=
  mkApi (set_StatsHandler (config s) (MakeLogChannel (c_StatsHandler (config s)) addr ch)) (changelog s).

(** One request through the router. *)
Definition api_serve (e : CallEnv Chan) (req : ApiRequest) (s : ApiService R Chan) : res (ApiReply * ApiService R Chan) :=
  match mux_Match api_routes (ar_Path req) with
  | None => Ok (NotFound, s)
  | Some HPing => Ok (Reply (mkHttpResp 200 "200 OK" (inr "PONG")), s)
  | Some (HRedirect location code) => Ok (Redirect location code, s)
  | Some HApi =>
      '(resp, s) ← rpc_ServeHTTP lookup_method (run json_seconds fmt_1f e) (ar_Method req) (ar_ContentType req) (ar_Body req) s;
      Ok (Reply resp, s)
  | Some HLog => Ok (LogEvents, add_log_hook s (ar_RemoteAddr req) (e_chan e))
  | Some HStatic => Ok (FileOf "static" (ar_Path req), s)
  | Some (HTest strip) => Ok (FileOf "./api/static" (str_drop (String.length strip) (ar_Path req)), s)
  end.
End http.

(** ** Calls over the wire *)

(** The request's strings are UTF-8 and its number an [int]. *)
Definition req_ok (q : ApiReq) : Prop :=
  wf_json (req_params q) = true ∧ match q with RPauseBlocking r => is_int (pb_Seconds r) | _ => True end.

Lemma req_depth q : depth (req_params q) <= 2.
Proof. destruct q; simpl; rewrite ?depth_strs; lia. Qed.

(** What a client encodes is what the method receives. *)
Lemma read_req q :
  req_ok q → ∃ rd, lookup_method (req_method q) = Some rd ∧ rd (req_params q) = inr q.
Proof.
  intros [_ Hi]. destruct q as [|[]|[]| | |[es]|[]| | |[n]| | |]; eexists; (split; [reflexivity|]); try reflexivity;
    unfold read_args; simpl.
  - by rewrite decode_strs_JStr.
  - simpl in Hi. by rewrite Atoi_fmt_int.
Qed.

Lemma req_wf id q : req_ok q → wf_json (JsonRpcReq_json (mkReq "2.0" id (req_method q) (req_params q))) = true.
Proof.
  intros [Hw _]. cbn [JsonRpcReq_json rq_JsonRpc rq_Id rq_Method rq_Params wf_json forallb fst snd].
  rewrite Hw, fmt_int_number, !andb_true_r. by destruct q.
Qed.

Lemma request_parses id q :
  req_ok q → parse (Marshal (JsonRpcReq_json (mkReq "2.0" id (req_method q) (req_params q))))
             = Some (JsonRpcReq_json (mkReq "2.0" id (req_method q) (req_params q))).
Proof.
  intros Hq. apply parse_reply; [by apply req_wf|]. pose proof (req_depth q). simpl depth. unfold maxDepth. lia.
Qed.

(** What the client makes of the server's reply. *)
Lemma read_rpc_reply {T} syntax (decode_T : json → string + T) id r text :
  is_int id → parse text = Some (rpc_reply id r) →
  read_response syntax decode_T id text
  = match r with inr v => decode_T v | inl msg => inl (rpc_error_text (mkRpcError E_SERVER msg "")) end.
Proof.
  intros Hi Hp. unfold read_response, Unmarshal_struct. rewrite Hp. destruct r as [msg|v]; simpl.
  - rewrite Atoi_fmt_int by done. simpl. by rewrite Z.eqb_refl.
  - rewrite Atoi_fmt_int by done. simpl. by rewrite Z.eqb_refl.
Qed.

Section wire.
Context {U : GoUnicode} {L : DnsLib} {R Chan : Type} {RS : RpcServer} {RL : RpcLaws RS} {M : Mux} {ML : MuxLaws M}.
Context (json_seconds fmt_1f : Duration → string) (e : CallEnv Chan) (addr : string).
Implicit Types s : ApiService R Chan.

(** A client's request as it arrives. *)
Definition post (body : string) : ApiRequest := mkApiRequest "POST" "/api" "application/json" body addr.

(** The exchange as [client.Do] sees it; a panic of a method closes the connection. *)
Definition api_Do (s : ApiService R Chan) (_ body : string) : string + HttpResp :=
  match api_serve json_seconds fmt_1f e (post body) s with
  | Ok (Reply resp, _) => inr resp
  | _ => inl "EOF"
  end.

Lemma api_serve_post body s :
  api_serve json_seconds fmt_1f e (post body) s
  = ('(resp, s) ← rpc_ServeHTTP lookup_method (run json_seconds fmt_1f e) "POST" "application/json" body s; Ok (Reply resp, s)).
Proof. unfold api_serve. rewrite mux_first by reflexivity. reflexivity. Qed.

Lemma JsonRpcRequest_answered {T} syntax (decode_T : json → string + T) id endpoint method p s s' text :
  api_serve json_seconds fmt_1f e (post (Marshal (JsonRpcReq_json (mkReq "2.0" id method p)))) s
    = Ok (Reply (mkHttpResp 200 "200 OK" (inr text)), s') →
  JsonRpcRequest (λ _, None) (api_Do s) syntax decode_T id endpoint method (inr p) = (read_response syntax decode_T id text, false).
Proof. intros E. unfold JsonRpcRequest, JsonRpcEncoder, api_Do. by rewrite E. Qed.

(** C15: a call of a method through the client, the HTTP server, the router and the
    JSON-RPC server runs the method's operation, once, on the decoded argument:
    the service ends in the operation's state, and the client gets its result, or
    its error with the code of a server error. *)
Theorem rpc_call_runs_the_operation {T} (syntax : string → string) (decode_T : json → string + T)
    (id : Z) (endpoint : string) (q : ApiReq) (r : string + json) (s s' : ApiService R Chan) :
  is_int id → req_ok q → run json_seconds fmt_1f e q s = Ok (r, s') → encodable r →
  (∃ resp, api_serve json_seconds fmt_1f e
             (post (Marshal (JsonRpcReq_json (mkReq "2.0" id (req_method q) (req_params q))))) s = Ok (Reply resp, s'))
  ∧ JsonRpcRequest (λ _, None) (api_Do s) syntax decode_T id endpoint (req_method q) (inr (req_params q))
    = (match r with inr v => decode_T v | inl msg => inl (rpc_error_text (mkRpcError E_SERVER msg "")) end, false).
Proof.
  intros Hid Hq Hr He. destruct (read_req q Hq) as (rd & Hl & Hrd).
  destruct (rpc_call lookup_method (run json_seconds fmt_1f e) _ s s' id _ _ rd q r (request_parses id q Hq) Hid Hl Hrd Hr He)
    as (text & E & Ht).
  assert (Ea : api_serve json_seconds fmt_1f e (post (Marshal (JsonRpcReq_json (mkReq "2.0" id (req_method q) (req_params q))))) s
               = Ok (Reply (mkHttpResp 200 "200 OK" (inr text)), s')).
  { rewrite api_serve_post, E. reflexivity. }
  split; [by eexists|]. rewrite (JsonRpcRequest_answered _ _ _ _ _ _ _ _ _ Ea). by rewrite (read_rpc_reply _ _ _ r).
Qed.

Lemma static_not_test path : HasPrefix path "/static/" = true → HasPrefix path "/test/" = false.
Proof.
  unfold HasPrefix. destruct path as [|a path]; [done|]. cbn [String.prefix].
  destruct (ascii_dec "/" a); [|done]. destruct path as [|b path]; [done|]. cbn [String.prefix].
  destruct (ascii_dec "s" b) as [<-|]; done.
Qed.

(** The reply is known: compare it with the table of routes. *)
Local Ltac routed :=
  simpl; eexists; split; [reflexivity|]; split_and!; intros; try split; intros; destruct_and?; simplify_eq/=; eauto;
  try (split; [tauto|]); try done; try tauto; try congruence.

(** What a request other than a POST to /api does, for a path that needs no
    cleaning: /log registers a hook and becomes an event stream, and no other one
    changes the state; the root redirects to the dashboard, /static/ and /test/ are
    files (of the embedded tree, and of a directory with the prefix removed), and
    everything else is not found. *)
Theorem other_requests_add_only_hooks (req : ApiRequest) (s : ApiService R Chan) :
  clean_path (ar_Path req) = true → (ar_Path req = "/api" → ar_Method req ≠ "POST") →
  ∃ reply, api_serve json_seconds fmt_1f e req s
      = Ok (reply, if bool_decide (ar_Path req = "/log") then add_log_hook s (ar_RemoteAddr req) (e_chan e) else s)
    ∧ (ar_Path req = "/api" → ∃ resp, reply = Reply resp ∧ StatusCode resp = 405%Z)
    ∧ (reply = LogEvents ↔ ar_Path req = "/log")
    ∧ (∀ location code, reply = Redirect location code ↔ ar_Path req = "/" ∧ location = "/static/index.html" ∧ code = 302%Z)
    ∧ (∀ path, reply = FileOf "static" path ↔ HasPrefix (ar_Path req) "/static/" = true ∧ path = ar_Path req)
    ∧ (∀ path, reply = FileOf "./api/static" path ↔ HasPrefix (ar_Path req) "/test/" = true ∧ path = str_drop 6 (ar_Path req))
    ∧ (reply = NotFound ↔
         ¬ (ar_Path req = "/ping" ∨ ar_Path req = "/" ∨ ar_Path req = "/api" ∨ ar_Path req = "/log")
         ∧ HasPrefix (ar_Path req) "/static/" = false ∧ HasPrefix (ar_Path req) "/test/" = false).
Proof.
  intros Hc Hm. unfold api_serve. rewrite mux_first by done. unfold api_routes. cbn [List.find route_matches fst snd].
  destruct req as [meth path ctype body remote]. simpl in *.
  case_bool_decide as E1; [subst; routed|]. case_bool_decide as E2; [subst; routed|].
  case_bool_decide as E3.
  { subst. destruct (rpc_not_post lookup_method (run json_seconds fmt_1f e) meth ctype body s (Hm eq_refl)) as (resp & E & H405).
    simpl. rewrite E. routed. }
  case_bool_decide as E4; [subst; routed|].
  destruct (HasPrefix path "/static/") eqn:E5.
  { apply static_not_test in E5 as E6. routed. }
  destruct (HasPrefix path "/test/") eqn:E6; [routed|routed].
Qed.
End wire.

(** ** A JSON-RPC server and a router that behave as described *)
Definition sample_reply (id : string) (member : string * json) : HttpResp :=
  mkHttpResp 200 "200 OK" (inr (Marshal (JObj [("jsonrpc", JStr "2.0"); member; ("id", JNum id)]))).

#[export] Instance sample_rpc : RpcServer :=
  {| rpc_ServeHTTP S Q lookup call meth ctype body s :=
       if bool_decide (meth ≠ "POST") then Ok (mkHttpResp 405 "405 Method Not Allowed" (inr ""), s)
       else match parse body with
            | Some (JObj [_; (_, JNum id); (_, JStr m); (_, p)]) =>
                match lookup m with
                | None => Ok (sample_reply id ("error", rpc_error_object E_SERVER "no method"), s)
                | Some rd =>
                    match rd p with
                    | inl err => Ok (sample_reply id ("error", JObj [("code", JNum (fmt_int E_SERVER)); ("message", JStr err); ("data", p)]), s)
                    | inr q =>
                        '(r, s) ← call q s;
                        Ok (sample_reply id (match r with
                                             | inl msg => ("error", rpc_error_object E_SERVER msg)
                                             | inr v => ("result", v)
                                             end), s)
                    end
                end
            | _ => Ok (mkHttpResp 400 "400 Bad Request" (inr ""), s)
            end |}.

#[export] Instance sample_rpc_laws : RpcLaws sample_rpc.
Proof.
  split.
  - intros S Q lookup call body s s' id m p rd q r Hp Hid Hl Hrd Hc He. simpl.
    rewrite Hp. simpl. rewrite Hl, Hrd, Hc. simpl.
    eexists. split; [reflexivity|]. destruct r as [msg|v]; apply parse_reply; simpl in *.
    + by rewrite He, fmt_int_number.
    + unfold maxDepth. lia.
    + destruct He as [-> _]. by rewrite fmt_int_number.
    + lia.
  - intros S Q lookup call meth ctype body s Hm. simpl. rewrite bool_decide_eq_true_2 by done. by eexists.
Qed.

#[export] Instance sample_mux : Mux :=
  {| mux_Match H routes path := snd <$> List.find (λ r, route_matches path r.1) routes |}.
#[export] Instance sample_mux_laws : MuxLaws sample_mux.
Proof. split. done. Qed.

Definition sample_env : CallEnv nat :=
  mkEnv _ _ 1000 1001 (mkStamp 1 5 5) (mkStamp 2 5 5) 3
    (λ b, Trie.Dump (Root b) []) (λ b, Trie.Dumps_Dump (Root b) [])
    (λ c, (map_to_list c).*2) (λ c, Permutation_refl _) (λ _, 1000%Z) (λ f, bool_decide (f = "doh")) 4.
Definition sample_seconds (d : Duration) : string := fmt_int (Z.quot d Second).

Lemma rpc_call_runs_the_operation_witness :
  let s' := (BlockListAdd sample_api ["ads.example.net"; "x.example.org:AAAA"]).2 in
  (∃ resp, api_serve sample_seconds sample_seconds sample_env
     (post "192.0.2.7:5000" (Marshal (JsonRpcReq_json (mkReq "2.0" 7 "api.BlockListAdd"
        (JObj [("entries", JArr [JStr "ads.example.net"; JStr "x.example.org:AAAA"])]))))) sample_api = Ok (Reply resp, s'))
  ∧ JsonRpcRequest (λ _, None) (api_Do sample_seconds sample_seconds sample_env "192.0.2.7:5000" sample_api) (λ _, "syntax")
      (λ v, inr v) 7 "http://127.0.0.1:8553/api" "api.BlockListAdd"
      (inr (JObj [("entries", JArr [JStr "ads.example.net"; JStr "x.example.org:AAAA"])])) = (inr (JObj []), false)
  ∧ BlockList.Match (c_BlockList (config s')) "www.ads.example.net." TypeA = true.
Proof.
  destruct (rpc_call_runs_the_operation sample_seconds sample_seconds sample_env "192.0.2.7:5000" (λ _, "syntax") (λ v, inr v) 7
    "http://127.0.0.1:8553/api" (RBlockListAdd (mkBlockListAddReq ["ads.example.net"; "x.example.org:AAAA"])) (inr (JObj []))
    sample_api (BlockListAdd sample_api ["ads.example.net"; "x.example.org:AAAA"]).2) as [H1 H2].
  - unfold is_int. lia.
  - split; [reflexivity|exact I].
  - vm_compute. reflexivity.
  - split; [reflexivity|vm_compute; reflexivity].
  - split; [exact H1|]. split; [exact H2|vm_compute; reflexivity].
Defined.
