(* ===== verification/LogEvents.v ===== *)
(** * The log stream on the wire (statshandler/stats.go, api/log.go)

    A log entry is sent as JSON ([ConnectionLog.MarshalJSON]), one server-sent
    event per entry.  An event ends at an empty line, so a line break inside an
    entry would cut it; this file shows that JSON text has none, and that what a
    client reads are the entries, whatever names clients ask for. *)

From S2P Require Import Prelude GoStrings GoNet GoTime Json JsonData CircularBuffer Stats.
Set Default Goal Selector "!".
Local Open Scope string_scope.

(** ** Printed JSON has no control characters *)
Definition printable (c : ascii) : bool := (32 <=? byte_of c)%N.
Definition one_line (s : string) : bool := str_forallb printable s.

Lemma one_line_app s t : one_line (s +:+ t) = one_line s && one_line t.
Proof. apply str_forallb_app. Qed.

Lemma escape_byte_printable a : isASCIIbyte a = true → one_line (escape_byte a) = true.
Proof. by destruct a as [[] [] [] [] [] [] [] []]. Qed.

Lemma high_printable a : (128 <= byte_of a)%N → printable a = true.
Proof. unfold printable. rewrite N.leb_le. lia. Qed.

Lemma cont_printable c : cont c = true → printable c = true.
Proof. unfold cont. rewrite in_range_true. intros. apply high_printable. lia. Qed.

Lemma in_range_printable lo hi c : (128 <= lo)%N → in_range lo hi c = true → printable c = true.
Proof. intros Hl. rewrite in_range_true. intros. apply high_printable. lia. Qed.

Lemma escape_one_line s : valid_utf8 s = true → one_line (escape s) = true.
Proof.
  revert s. apply valid_utf8_ind; [done|..].
  - intros a s Ha IH. cbn [escape]. rewrite Ha, one_line_app, IH, andb_true_r. by apply escape_byte_printable.
  - intros a b s H IH. pose proof (rune2_high _ _ H) as Ha. cbn [escape].
    rewrite (proj2 (not_ASCII a)), H, one_line_app, IH by lia. unfold rune2 in H. apply andb_true_iff in H as [_ Hb].
    cbn. by rewrite high_printable, cont_printable by (done || lia).
  - intros a b c s H IH. pose proof (rune3_high _ _ _ H) as Ha. cbn [escape].
    rewrite (proj2 (not_ASCII a)), rune2_false, H, one_line_app, IH, andb_true_r by lia.
    unfold escape3. case_bool_decide as E; [by destruct E as (_ & _ & [-> | ->])|].
    unfold rune3 in H. apply andb_true_iff in H as [Hb Hc].
    assert (printable b = true).
    { repeat case_match; [|..|apply andb_true_iff in Hb as [_ Hb]; by apply cont_printable];
        (eapply in_range_printable; [|exact Hb]; lia). }
    cbn. rewrite high_printable, (cont_printable c), H by (done || lia). done.
  - intros a b c d s H IH. pose proof (rune4_high _ _ _ _ H) as Ha. cbn [escape].
    rewrite (proj2 (not_ASCII a)), rune2_false, rune3_false, H, one_line_app, IH, andb_true_r by lia.
    unfold rune4 in H. apply andb_true_iff in H as [H Hd]. apply andb_true_iff in H as [Hb Hc].
    assert (printable b = true).
    { repeat case_match; [|..|apply andb_true_iff in Hb as [_ Hb]; by apply cont_printable];
        (eapply in_range_printable; [|exact Hb]; lia). }
    cbn. rewrite high_printable, (cont_printable c), (cont_printable d), H by (done || lia). done.
Qed.

Lemma span_digits s a r : span isDigitByte s = (a, r) → one_line a = true.
Proof.
  revert a r. induction s as [|c s IH]; intros a r; simpl; [by intros [= <- <-]|].
  destruct (isDigitByte c) eqn:Ec; [|by intros [= <- <-]]. destruct (span isDigitByte s) as [a' b] eqn:E.
  intros [= <- <-]. cbn. unfold one_line in IH. rewrite (IH _ _ eq_refl), andb_true_r.
  unfold isDigitByte in Ec. apply andb_true_iff in Ec as [Ec%N.leb_le _]. unfold printable. apply N.leb_le. lia.
Qed.

Lemma digits1_one_line s a r : digits1 s = Some (a, r) → one_line a = true.
Proof. unfold digits1. destruct (span isDigitByte s) as [[|c d] r'] eqn:E; [done|]. intros [= <- <-]. by eapply span_digits. Qed.

Lemma lex_number_one_line s a r : lex_number s = Some (a, r) → one_line a = true.
Proof.
  unfold lex_number. set (m := match s with "" => _ | String c s' => _ end). 
  assert (Hm : one_line m.1 = true) by (unfold m; repeat case_match; done). destruct m as [m s1]. simpl in Hm.
  destruct (lex_int s1) as [[i s2]|] eqn:Ei; [|done]. simpl. destruct (lex_frac s2) as [[f s3]|] eqn:Ef; [|done]. simpl.
  destruct (lex_exp s3) as [[x s4]|] eqn:Ex; [|done]. simpl. intros [= <- <-]. rewrite !one_line_app, Hm.
  assert (one_line i = true) as ->.
  { destruct s1 as [|c s1]; [done|]. simpl in Ei. case_bool_decide; [by injection Ei as <- <-|by eapply digits1_one_line]. }
  assert (one_line f = true) as ->.
  { destruct s2 as [|c s2]; [by injection Ef as <- <-|]. simpl in Ef. case_bool_decide; [subst|by injection Ef as <- <-].
    destruct (digits1 s2) as [[d r']|] eqn:Ed; [|done]. injection Ef as <- <-. by apply digits1_one_line in Ed. }
  destruct s3 as [|c s3]; [by injection Ex as <- <-|]. simpl in Ex.
  case_bool_decide as Ec; [|by injection Ex as <- <-]. destruct (lex_sign s3) as [sg s5] eqn:Es.
  destruct (digits1 s5) as [[d r']|] eqn:Ed; [|done]. injection Ex as <- <-. apply digits1_one_line in Ed.
  assert (Hs : one_line sg = true).
  { destruct s3 as [|c' s3]; simpl in Es; [by injection Es as <- <-|].
    case_bool_decide as E'; [|by injection Es as <- <-]. injection Es as <- <-. by destruct E' as [-> | ->]. }
  pose proof (one_line_app sg d) as E. rewrite Hs, Ed in E. unfold one_line in *. cbn. rewrite E. by destruct Ec as [-> | ->].
Qed.

Lemma one_line_Join l sep :
  one_line sep = true → Forall (λ s, one_line s = true) l → one_line (Join l sep) = true.
Proof. apply str_forallb_Join. Qed.

Lemma print_str_one_line s : valid_utf8 s = true → one_line (print_str s) = true.
Proof.
  intros H%escape_one_line. unfold print_str. pose proof (one_line_app (escape s) (String DQ "")) as E.
  rewrite H in E. exact E.
Qed.

(** A value prints on one line. *)
Lemma Marshal_one_line v : wf_json v = true → one_line (Marshal v) = true.
Proof.
  unfold Marshal. generalize 0 as d. induction v as [|b|l|s|l IH|m IH] using json_ind; intros d Hv.
  - done.
  - by destruct b.
  - simpl in *. unfold is_number in Hv. apply bool_decide_eq_true in Hv. by eapply lex_number_one_line.
  - by apply print_str_one_line.
  - destruct l as [|v l]; [done|]. cbn [print]. rewrite !one_line_app.
    simpl in Hv. rewrite one_line_Join; [done|done|]. rewrite List.Forall_forall in IH. apply List.Forall_forall.
    intros s (w & <- & Hw)%List.in_map_iff. apply IH; [done|]. change (forallb wf_json (v :: l) = true) in Hv.
    rewrite forallb_forall in Hv. by apply Hv.
  - destruct m as [|kv m]; [done|]. cbn [print]. rewrite !one_line_app.
    rewrite one_line_Join; [done|done|]. rewrite List.Forall_forall in IH. apply List.Forall_forall.
    intros s (w & <- & Hw)%List.in_map_iff. cbn [wf_json] in Hv. rewrite forallb_forall in Hv.
    specialize (Hv _ Hw). apply andb_true_iff in Hv as [Hk Hv]. by rewrite !one_line_app, print_str_one_line, IH.
Qed.

(** ** Entries and events *)
Section events.
(** [time.Format(time.RFC3339)], and the text of the query time in seconds as a
    [float32]. *)
Context (rfc3339 : Time → string) (json_seconds32 : Duration → string).

(** [ConnectionLog.MarshalJSON] *)
Definition ConnectionLog_json (c : ConnectionLog) : json :=
  JObj [("timestamp", JStr (rfc3339 (Timestamp c)));
        ("client", JStr (Client c));
        ("qname", JStr (Qname c));
        ("qtype", JStr (log_Qtype c));
        ("rcode", JNum (fmt_int (log_Rcode c)));
        ("querytime", JNum (json_seconds32 (QueryTime c)));
        ("acl", JBool (log_Acl c));
        ("blocked", JBool (Blocked c));
        ("cached", JBool (Cached c));
        ("error", JBool (Error c))].

Definition LF : ascii := "010".

(** What the hook sends and what the stream writes for it. *)
Definition hook_text (c : ConnectionLog) : string := Marshal (ConnectionLog_json c).
Definition sse_event (m : string) : string := "data: " +:+ m +:+ String LF (String LF "").

(** A stream's body. *)
Definition stream_text (items : list ConnectionLog) : string :=
  foldr (λ c rest, sse_event (hook_text c) +:+ rest) "" items.
End events.

(** The reader of server-sent events, on lines: data fields are collected until an
    empty line, other lines are skipped, an unfinished event is dropped. *)
Fixpoint sse_read (lines : list string) (buf : option string) : list string :=
  match lines with
  | [] => []
  | line :: lines =>
      if bool_decide (line = "") then
        match buf with Some d => d :: sse_read lines None | None => sse_read lines None end
      else if HasPrefix line "data: " then
        let d := str_drop 6 line in
        sse_read lines (Some (match buf with None => d | Some b => b +:+ String LF d end))
      else sse_read lines buf
  end.

Lemma one_line_no_LF s : one_line s = true → str_mem LF s = false.
Proof. intros H. by eapply str_forallb_mem. Qed.

Lemma sse_read_event m rest :
  one_line m = true → sse_read (Split (sse_event m +:+ rest) LF) None = m :: sse_read (Split rest LF) None.
Proof.
  intros Hm. assert (E : sse_event m +:+ rest = ("data: " +:+ m) +:+ String LF (String LF rest)).
  { unfold sse_event. by rewrite !str_app_assoc. }
  rewrite E, Split_app by (rewrite str_mem_app, (one_line_no_LF m) by done; done).
  replace (Split (String LF rest) LF) with ("" :: Split rest LF) by reflexivity.
  cbn [sse_read]. rewrite bool_decide_eq_false_2 by done. cbn. by destruct m.
Qed.

(** ** Properties *)

(** C23: a client of the log stream that reads the events of a stream's body gets
    one event per entry, in order, each the JSON of its entry, however odd the
    names in it; nothing a DNS client sends can forge or split an event.  This
    asks for UTF-8 text in the entries. *)
Theorem log_stream_events_are_entries (rfc3339 : Time → string) (json_seconds32 : Duration → string)
    (items : list ConnectionLog) :
  (∀ c, c ∈ items → wf_json (ConnectionLog_json rfc3339 json_seconds32 c) = true) →
  parse <$> sse_read (Split (stream_text rfc3339 json_seconds32 items) LF) None
  = (λ c, Some (ConnectionLog_json rfc3339 json_seconds32 c)) <$> items.
Proof.
  induction items as [|c items IH]; intros H; [done|]. cbn [stream_text foldr].
  pose proof (H c ltac:(by left)) as Hc. rewrite sse_read_event by (by apply Marshal_one_line). rewrite !fmap_cons.
  f_equal; [|apply IH; intros; apply H; by right]. apply parse_print; [apply compact_ok|done|].
  unfold maxDepth. simpl. lia.
Qed.

Definition odd_entry : ConnectionLog :=
  mkLog 0 "192.0.2.7:53" ("a" +:+ String LF (String LF ("data: {}" +:+ String LF (String LF "."))) ) "A" 0 1500 true false true false.

(** A name with line breaks and a forged event in it. *)
Lemma log_stream_events_are_entries_witness :
  sse_read (Split (stream_text (λ _, "2024-05-01T00:00:00Z") (λ _, "0.0000015") [odd_entry; odd_entry]) LF) None
  = [hook_text (λ _, "2024-05-01T00:00:00Z") (λ _, "0.0000015") odd_entry;
     hook_text (λ _, "2024-05-01T00:00:00Z") (λ _, "0.0000015") odd_entry]
  ∧ parse <$> sse_read (Split (stream_text (λ _, "2024-05-01T00:00:00Z") (λ _, "0.0000015") [odd_entry; odd_entry]) LF) None
    = (λ c, Some (ConnectionLog_json (λ _, "2024-05-01T00:00:00Z") (λ _, "0.0000015") c)) <$> [odd_entry; odd_entry].
Proof.
  split; [vm_compute; reflexivity|].
  apply (log_stream_events_are_entries (λ _, "2024-05-01T00:00:00Z") (λ _, "0.0000015") [odd_entry; odd_entry]).
  intros c Hc. assert (c = odd_entry) as ->.
  { apply elem_of_cons in Hc as [->|Hc]; [reflexivity|]. apply list_elem_of_singleton in Hc. exact Hc. }
  vm_compute. reflexivity.
Defined.
