(* ===== verification/AddrText.v ===== *)
(** * Addresses and networks as text (net/netip as used by server/util.go)

    [AclToString] prints the access list for the log.  Reading a printed address
    gives the address back, and reading a printed network gives a network that
    holds the same addresses: the log shows the list that is in force. *)

From S2P Require Import Prelude GoStrings GoNet GoTime Dns BlockList Cache CircularBuffer Stats.
From S2P Require Import Resolver Config Proxy ProxySpec Samples Acl.
Set Default Goal Selector "!".
Local Open Scope string_scope.

(** ** Groups of hexadecimal digits *)

Lemma fmt_x_digit d : (0 ≤ d < 16)%Z → ∃ c, fmt_x d = String c "" ∧ hex_digit c = Some d.
Proof.
  intros Hd. assert (H : Forall (λ d, match fmt_x d with String c "" => hex_digit c = Some d | _ => False end) (seqZ 0 16)).
  { repeat (apply Forall_cons; split; [reflexivity|]). by apply Forall_nil. }
  rewrite Forall_forall in H. specialize (H d ltac:(apply elem_of_seqZ; lia)).
  destruct (fmt_x d) as [|c [|? ?]]; [done| |done]. by exists c.
Qed.

(** [rest] does not start with a hexadecimal digit. *)
Definition no_hex (rest : string) : Prop := match rest with "" => True | String c _ => hex_digit c = None end.

Lemma hex_run_stop rest v n : no_hex rest → hex_run rest v n = (v, n, rest).
Proof. destruct rest as [|c rest]; simpl; [done|]. by intros ->. Qed.

(** The digit [k] of a group. *)
Lemma nibble g k : (0 ≤ k)%Z → Z.land (Z.shiftr g (4 * k)) 15 = ((g / 16 ^ k) `mod` 16)%Z.
Proof.
  intros Hk. rewrite Z.shiftr_div_pow2 by lia. change 15%Z with (Z.ones 4). rewrite Z.land_ones by lia.
  rewrite Z.pow_mul_r by lia. reflexivity.
Qed.

Lemma triple_eq {A B C} (a a' : A) (b b' : B) (c : C) : a = a' → b = b' → (a, b, c) = (a', b', c).
Proof. congruence. Qed.

(** A printed group reads back: at most four digits, and what follows is left. *)
Lemma hex_run_group g rest :
  (0 ≤ g < 65536)%Z → no_hex rest →
  ∃ c t n, fmt_hex16 g = String c t ∧ is_Some (hex_digit c)
    ∧ hex_run (fmt_hex16 g +:+ rest) 0 0 = (g, n, rest) ∧ (1 ≤ n ≤ 4)%nat.
Proof.
  intros Hg Hr. unfold fmt_hex16. cbv zeta.
  assert (Hd : ∀ k, (0 ≤ k)%Z → ∃ c, fmt_x (Z.land (Z.shiftr g (4 * k)) 15) = String c ""
                   ∧ hex_digit c = Some ((g / 16 ^ k) `mod` 16)%Z).
  { intros k Hk. rewrite nibble by done. apply fmt_x_digit. apply Z.mod_pos_bound. lia. }
  destruct (Hd 0%Z) as (c0 & E0 & H0); [lia|]. destruct (Hd 1%Z) as (c1 & E1 & H1); [lia|].
  destruct (Hd 2%Z) as (c2 & E2 & H2); [lia|]. destruct (Hd 3%Z) as (c3 & E3 & H3); [lia|].
  rewrite E0, E1, E2, E3. change (16 ^ 0)%Z with 1%Z in H0. change (16 ^ 1)%Z with 16%Z in H1.
  change (16 ^ 2)%Z with 256%Z in H2. change (16 ^ 3)%Z with 4096%Z in H3. rewrite Z.div_1_r in H0.
  destruct (Z.ltb_spec g 16); [|destruct (Z.ltb_spec g 256); [|destruct (Z.ltb_spec g 4096)]];
    cbn [String.append]; eexists _, _, _; (split; [reflexivity|]); (split; [by eexists|]);
    cbn [hex_run]; rewrite ?H0, ?H1, ?H2, ?H3, hex_run_stop by done;
    (split; [apply triple_eq; [Z.to_euclidean_division_equations; lia|reflexivity]|lia]).
Qed.

(** ** Lists of groups *)
Definition group (g : Z) : Prop := (0 ≤ g < 65536)%Z.
Definition groups_text (gs : list Z) : string := Join (fmt_hex16 <$> gs) ":".
Definition group_pair (g : Z) : list Z := [Z.shiftr g 8; Z.land g 255]%Z.
Definition groups_bytes (gs : list Z) : list Z := concat (group_pair <$> gs).

Lemma length_groups_bytes gs : length (groups_bytes gs) = (2 * length gs)%nat.
Proof. unfold groups_bytes. induction gs as [|g gs IH]; [done|]. rewrite fmap_cons. cbn [concat]. rewrite length_app, IH. simpl. lia. Qed.

Lemma groups_bytes_cons g gs : groups_bytes (g :: gs) = (group_pair g ++ groups_bytes gs)%list.
Proof. done. Qed.

Lemma groups_text_cons g g' gs : groups_text (g :: g' :: gs) = fmt_hex16 g +:+ String ":" (groups_text (g' :: gs)).
Proof. done. Qed.

(** A list of groups starts with a digit. *)
Lemma groups_text_head g gs : group g → ∃ c t, groups_text (g :: gs) = String c t ∧ is_Some (hex_digit c).
Proof.
  intros Hg. destruct (hex_run_group g "" Hg I) as (c & t & n & E & Hc & _). 
  unfold groups_text. rewrite fmap_cons, E. destruct (fmt_hex16 <$> gs); simpl; eexists _, _; (split; [reflexivity|done]).
Qed.

Lemma hex_not_special c : is_Some (hex_digit c) → c ≠ "."%char ∧ c ≠ ":"%char ∧ c ≠ "%"%char ∧ c ≠ "/"%char.
Proof. intros [d Hd]. split_and!; intros ->; by vm_compute in Hd. Qed.

Lemma group_bounds n : (1 ≤ n ≤ 4)%nat → (4 <? n)%nat || (n =? 0)%nat = false.
Proof. intros H. apply orb_false_iff. split; [apply Nat.ltb_ge; lia|apply Nat.eqb_neq; lia]. Qed.

(** One step of the loop at a printed group. *)
Lemma ipv6_groups_last fuel g ip ell :
  group g → ipv6_groups (S fuel) (fmt_hex16 g) ip ell = Some ((ip ++ group_pair g)%list, ell, "").
Proof.
  intros Hg. destruct (hex_run_group g "" Hg I) as (c & t & n & _ & _ & E & Hn). rewrite str_app_nil_r in E.
  cbn [ipv6_groups]. rewrite E, (group_bounds n Hn). done.
Qed.

Lemma ipv6_groups_step fuel g rest ip ell :
  group g → rest ≠ "" → HasPrefix rest ":" = false →
  ipv6_groups (S fuel) (fmt_hex16 g +:+ String ":" rest) ip ell = ipv6_groups fuel rest (ip ++ group_pair g)%list ell.
Proof.
  intros Hg Hr Hp. destruct (hex_run_group g (String ":" rest) Hg eq_refl) as (c & t & n & _ & _ & E & Hn).
  cbn [ipv6_groups]. rewrite E, (group_bounds n Hn). change (HasPrefix (String ":" rest) ".") with false. cbn iota.
  rewrite (bool_decide_eq_true_2 (":"%char = ":"%char)), (bool_decide_eq_false_2 (rest = "")) by done. cbn [negb orb].
  by rewrite Hp.
Qed.

Lemma ipv6_groups_ellipsis fuel g rest ip :
  group g →
  ipv6_groups (S fuel) (fmt_hex16 g +:+ String ":" (String ":" rest)) ip None
  = let ip := (ip ++ group_pair g)%list in
    if bool_decide (rest = "") then Some (ip, Some (length ip), "") else ipv6_groups fuel rest ip (Some (length ip)).
Proof.
  intros Hg. destruct (hex_run_group g (String ":" (String ":" rest)) Hg eq_refl) as (c & t & n & _ & _ & E & Hn).
  cbn [ipv6_groups]. rewrite E, (group_bounds n Hn). by destruct rest.
Qed.

Lemma head_not_colon g gs : group g → groups_text (g :: gs) ≠ "" ∧ HasPrefix (groups_text (g :: gs)) ":" = false.
Proof.
  intros Hg. destruct (groups_text_head g gs Hg) as (c & t & -> & Hc%hex_not_special). split; [done|].
  unfold HasPrefix. cbn [String.prefix]. destruct (ascii_dec ":" c); [|done]. destruct Hc as (_ & Hc & _). congruence.
Qed.

(** The loop on a whole list, and on two lists around "::". *)
Lemma ipv6_groups_list gs : ∀ fuel ip ell,
  gs ≠ [] → Forall group gs → (length gs ≤ fuel)%nat →
  ipv6_groups fuel (groups_text gs) ip ell = Some ((ip ++ groups_bytes gs)%list, ell, "").
Proof.
  induction gs as [|g gs IH]; intros fuel ip ell Hne Hg Hf; [done|]. apply Forall_cons in Hg as [Hg Hgs].
  destruct fuel as [|fuel]; simpl in Hf; [lia|]. destruct gs as [|g' gs].
  - unfold groups_text, groups_bytes. cbn [fmap list_fmap concat Join]. by rewrite app_nil_r, ipv6_groups_last.
  - apply Forall_cons in Hgs as Hg'. destruct Hg' as [Hg' _]. destruct (head_not_colon g' gs Hg') as [H1 H2].
    rewrite groups_text_cons, ipv6_groups_step by done. rewrite IH by (done || simpl in *; lia).
    by rewrite (groups_bytes_cons g), app_assoc.
Qed.

Lemma ipv6_groups_two a : ∀ b fuel ip,
  a ≠ [] → Forall group a → Forall group b → (length a + length b ≤ fuel)%nat →
  ipv6_groups fuel (groups_text a +:+ "::" +:+ groups_text b) ip None
  = Some ((ip ++ groups_bytes (a ++ b))%list, Some (length ip + 2 * length a)%nat, "").
Proof.
  induction a as [|g a IH]; intros b fuel ip Hne Ha Hb Hf; [done|]. apply Forall_cons in Ha as [Hg Ha].
  destruct fuel as [|fuel]; simpl in Hf; [lia|]. destruct a as [|g' a].
  - change (groups_text [g]) with (fmt_hex16 g). cbn [String.append]. rewrite ipv6_groups_ellipsis by done.
    cbv zeta. rewrite length_app. simpl length. destruct b as [|h b].
    + change (groups_text []) with "". rewrite bool_decide_eq_true_2 by done. done.
    + apply Forall_cons in Hb as Hh. destruct Hh as [Hh _]. destruct (head_not_colon h b Hh) as [H1 _].
      rewrite bool_decide_eq_false_2 by done. rewrite ipv6_groups_list by (done || simpl in *; lia).
      cbn [app]. by rewrite (groups_bytes_cons g), app_assoc.
  - apply Forall_cons in Ha as Hg'. destruct Hg' as [Hg' _].
    rewrite groups_text_cons. 
    replace ((fmt_hex16 g +:+ String ":" (groups_text (g' :: a))) +:+ "::" +:+ groups_text b)
      with (fmt_hex16 g +:+ String ":" (groups_text (g' :: a) +:+ "::" +:+ groups_text b)).
    2:{ by rewrite str_app_assoc. }
    destruct (groups_text_head g' a Hg') as (c & t & E & Hc%hex_not_special).
    rewrite ipv6_groups_step; [|done|by rewrite E|].
    + rewrite IH by (done || simpl in *; lia). 
      change ((g :: g' :: a) ++ b)%list with (g :: ((g' :: a) ++ b))%list.
      rewrite (groups_bytes_cons g), app_assoc, length_app. simpl length. do 3 f_equal. f_equal. lia.
    + rewrite E. unfold HasPrefix. cbn [String.append String.prefix]. destruct (ascii_dec ":" c); [|done]. destruct Hc as (_ & Hc & _). congruence.
Qed.

(** ** Characters of a printed address *)
Definition hex_char (c : ascii) : bool := match hex_digit c with Some _ => true | None => false end.

Lemma fmt_x_hex d : str_forallb hex_char (fmt_x d) = true.
Proof. unfold fmt_x. by repeat case_match. Qed.

Lemma fmt_hex16_hex g : str_forallb hex_char (fmt_hex16 g) = true.
Proof. unfold fmt_hex16. cbv zeta. repeat case_match; by rewrite ?str_forallb_app, !fmt_x_hex. Qed.

Definition addr_char (c : ascii) : bool := hex_char c || bool_decide (c = ":"%char).

Lemma groups_text_chars gs : str_forallb addr_char (groups_text gs) = true.
Proof.
  apply str_forallb_Join; [done|]. apply Forall_fmap, Forall_true. intros g. simpl. pose proof (fmt_hex16_hex g) as H.
  induction (fmt_hex16 g) as [|c s IH]; [done|]. simpl in *. apply andb_true_iff in H as [Hc Hs].
  unfold addr_char at 1. by rewrite Hc, IH.
Qed.

Lemma cut_nosep s c : str_mem c s = false → cut s c = None.
Proof. induction s as [|a s IH]; [done|]. simpl. intros [Ha Hs]%orb_false_iff. by rewrite Ha, IH. Qed.

Lemma cut_app s t c : str_mem c s = false → cut (s +:+ String c t) c = Some (s, t).
Proof.
  induction s as [|a s IH]; simpl; [by rewrite bool_decide_eq_true_2|]. intros [Ha Hs]%orb_false_iff. by rewrite Ha, IH.
Qed.

Lemma ParseAddr_kind_hex w c r :
  str_forallb hex_char w = true → c = "."%char ∨ c = ":"%char → ParseAddr_kind (w +:+ String c r) = Some c.
Proof.
  intros Hw Hc. induction w as [|a w IH]; simpl in *.
  - by destruct Hc as [-> | ->].
  - apply andb_true_iff in Hw as [Ha Hw]. unfold hex_char in Ha.
    destruct (hex_digit a) as [d|] eqn:E; [|done]. destruct (hex_not_special a ltac:(by eexists)) as (? & ? & ? & _).
    rewrite !bool_decide_eq_false_2 by done. by apply IH.
Qed.

(** ** The longest run of zero groups *)
Lemma zero_run_spec gs : gs = (replicate (zero_run gs) 0%Z ++ drop (zero_run gs) gs)%list.
Proof. induction gs as [|g gs IH]; [done|]. simpl. destruct g; simpl; [by f_equal|done|done]. Qed.

Lemma longest_zero_run_spec gs i l :
  longest_zero_run gs = Some (i, l) →
  (2 ≤ l)%nat ∧ (i + l ≤ length gs)%nat ∧ gs = (take i gs ++ replicate l 0%Z ++ drop (i + l) gs)%list.
Proof.
  unfold longest_zero_run. intros H.
  assert (Hinv : ∀ ks best, (∀ i l, best = Some (i, l) → (2 ≤ l)%nat ∧ zero_run (drop i gs) = l) →
    ∀ i l, foldl (λ best i, let l := zero_run (drop i gs) in
      if Nat.leb 2 l && Nat.ltb (match best with Some (_, b) => b | None => 0%nat end) l then Some (i, l) else best) best ks
      = Some (i, l) → (2 ≤ l)%nat ∧ zero_run (drop i gs) = l).
  { induction ks as [|k ks IH]; intros best Hb i' l'; [apply Hb|]. cbn [foldl]. apply IH. intros i2 l2. cbv zeta.
    destruct (Nat.leb_spec 2 (zero_run (drop k gs))); simpl; [|apply Hb].
    destruct (_ <? _)%nat; [|apply Hb]. by intros [= <- <-]. }
  destruct (Hinv _ None ltac:(intros ??; done) _ _ H) as [Hl Hz]. clear Hinv H.
  pose proof (zero_run_spec (drop i gs)) as E. rewrite Hz, drop_drop in E.
  assert (Hlen : (i + l ≤ length gs)%nat).
  { apply (f_equal length) in E. rewrite length_app, length_replicate, !length_drop in E. lia. }
  split_and!; [done|done|]. rewrite <-E. by rewrite take_drop.
Qed.

(** ** Bytes and groups *)
Lemma group_pair_make a b : (0 ≤ a < 256)%Z → (0 ≤ b < 256)%Z → group_pair (256 * a + b) = [a; b].
Proof.
  intros Ha Hb. unfold group_pair. rewrite Z.shiftr_div_pow2 by lia. change 255%Z with (Z.ones 8). rewrite Z.land_ones by lia.
  change (2 ^ 8)%Z with 256%Z. f_equal; [|f_equal]; Z.to_euclidean_division_equations; lia.
Qed.

Lemma groups16_spec n ip :
  length ip = (2 * n)%nat → bytes_ok ip →
  groups_bytes (groups16 ip) = ip ∧ length (groups16 ip) = n ∧ Forall group (groups16 ip).
Proof.
  revert ip. induction n as [|n IH]; intros ip Hl Hb; [by destruct ip|].
  destruct ip as [|a [|b ip]]; simpl in Hl; [lia|lia|]. apply Forall_cons in Hb as [Ha Hb]. apply Forall_cons in Hb as [Hb' Hb].
  destruct (IH ip ltac:(lia) Hb) as (E & El & Hg). cbn [groups16]. rewrite groups_bytes_cons, group_pair_make, E by done.
  split_and!; [done|simpl; lia|]. apply Forall_cons. split; [unfold group; lia|done].
Qed.

Lemma groups_bytes_app a b : groups_bytes (a ++ b) = (groups_bytes a ++ groups_bytes b)%list.
Proof. unfold groups_bytes. by rewrite fmap_app, concat_app. Qed.

Lemma groups_bytes_zero l : groups_bytes (replicate l 0%Z) = replicate (2 * l) 0%Z.
Proof.
  induction l as [|l IH]; [done|]. cbn [replicate]. rewrite groups_bytes_cons, IH.
  replace (2 * S l)%nat with (S (S (2 * l))) by lia. done.
Qed.

(** ** Reading back an IPv6 address *)
#[local] Arguments ipv6_groups : simpl never.
#[local] Arguments groups_text : simpl never.
#[local] Arguments groups_bytes : simpl never.

(** [parseIPv6] without a zone, after a leading "::" has been taken off. *)
Definition parse_body (ell : option nat) (a : string) : option (list Z * string) :=
  if bool_decide (ell = Some 0%nat) && bool_decide (a = "") then Some (replicate 16 0%Z, "")
  else
    '(ip, ell, r) ← ipv6_groups 8 a [] ell;
    if negb (bool_decide (r = "")) then None
    else if Nat.ltb (length ip) 16 then
      match ell with
      | None => None
      | Some e => Some ((take e ip ++ replicate (16 - length ip) 0%Z ++ drop e ip)%list, "")
      end
    else if bool_decide (is_Some ell) then None else Some (ip, "").

Lemma parseIPv6_plain s : cut s "%" = None → HasPrefix s "::" = false → parseIPv6 s = parse_body None s.
Proof. intros Hc Hp. unfold parseIPv6. by rewrite Hc, Hp. Qed.

Lemma parseIPv6_dots t :
  cut (String ":" (String ":" t)) "%" = None → parseIPv6 (String ":" (String ":" t)) = parse_body (Some 0%nat) t.
Proof. intros Hc. unfold parseIPv6. rewrite Hc. by destruct t. Qed.

Section ipv6.
Context (ip : list Z) (Hl : length ip = 16%nat) (Hb : bytes_ok ip).

Lemma plain_text gs :
  gs ≠ [] → Forall group gs → HasPrefix (groups_text gs) "::" = false ∧ cut (groups_text gs) "%" = None.
Proof.
  intros Hne Hg. split; [|apply cut_nosep; eapply (str_forallb_mem addr_char); [apply groups_text_chars|done]].
  destruct gs as [|g gs]; [done|]. apply Forall_cons in Hg as [Hg _].
  destruct (groups_text_head g gs Hg) as (c & t & -> & Hc%hex_not_special).
  unfold HasPrefix. cbn [String.prefix]. destruct (ascii_dec ":" c); [|done]. destruct Hc as (_ & Hc & _). congruence.
Qed.

Lemma parse_no_ellipsis : parseIPv6 (groups_text (groups16 ip)) = Some (ip, "").
Proof.
  destruct (groups16_spec 8 ip Hl Hb) as (E & El & Hg). assert (Hne : groups16 ip ≠ []) by (intros E0; by rewrite E0 in El).
  destruct (plain_text _ Hne Hg) as [Hp Hc]. rewrite parseIPv6_plain by done. unfold parse_body. simpl.
  rewrite ipv6_groups_list by (done || rewrite El; lia). simpl. rewrite E, Hl. simpl. done.
Qed.

Lemma ellipsis_no_percent a b : cut (groups_text a +:+ "::" +:+ groups_text b) "%" = None.
Proof.
  apply cut_nosep. eapply (str_forallb_mem addr_char); [|done].
  rewrite !str_forallb_app, !groups_text_chars. done.
Qed.

Lemma parse_ellipsis i l :
  longest_zero_run (groups16 ip) = Some (i, l) →
  parseIPv6 (groups_text (take i (groups16 ip)) +:+ "::" +:+ groups_text (drop (i + l) (groups16 ip))) = Some (ip, "").
Proof.
  intros H. destruct (longest_zero_run_spec _ _ _ H) as (H2 & Hil & Egs).
  destruct (groups16_spec 8 ip Hl Hb) as (E & El & Hg). set (gs := groups16 ip) in *. rewrite El in Hil.
  set (a := take i gs) in *. set (b := drop (i + l) gs) in *.
  assert (Ha : Forall group a) by (by apply Forall_take). assert (Hgb : Forall group b) by (by apply Forall_drop).
  assert (La : length a = i) by (unfold a; rewrite length_take; lia).
  assert (Lb : length b = (8 - (i + l))%nat) by (unfold b; rewrite length_drop; lia).
  assert (Eip : ip = (groups_bytes a ++ replicate (2 * l) 0%Z ++ groups_bytes b)%list).
  { rewrite <-E, Egs at 1. by rewrite !groups_bytes_app, groups_bytes_zero. }
  assert (Hfin : ∀ e, e = (2 * i)%nat →
    (take e (groups_bytes (a ++ b)) ++ replicate (16 - length (groups_bytes (a ++ b))) 0%Z ++ drop e (groups_bytes (a ++ b)))%list = ip
    ∧ (length (groups_bytes (a ++ b)) <? 16)%nat = true).
  { intros e ->. rewrite groups_bytes_app. pose proof (length_groups_bytes a). pose proof (length_groups_bytes b).
    rewrite take_app_length', drop_app_length', length_app by lia.
    replace (16 - _)%nat with (2 * l)%nat by lia. split; [done|apply Nat.ltb_lt; lia]. }
  pose proof (ellipsis_no_percent a b) as Hc. clearbody a b. destruct a as [|g a].
  - simpl in La. subst i. change (groups_text [] +:+ "::" +:+ groups_text b) with (String ":" (String ":" (groups_text b))) in *.
    rewrite parseIPv6_dots by done. unfold parse_body. destruct b as [|h b].
    + simpl in Lb. replace l with 8%nat in Eip by lia. rewrite Eip. reflexivity.
    + destruct (head_not_colon h b) as [Hne _]; [by apply Forall_cons in Hgb as [? _]|].
      rewrite (bool_decide_eq_false_2 (groups_text (h :: b) = "")), andb_false_r by done.
      rewrite ipv6_groups_list by (done || lia). destruct (Hfin 0%nat) as [Hf1 Hf2]; [lia|].
      change ([] ++ h :: b)%list with (h :: b) in *. cbn [mbind option_bind].
      change (@nil Z ++ groups_bytes (h :: b))%list with (groups_bytes (h :: b)). rewrite Hf2, Hf1. done.
  - destruct (groups_text_head g a) as (c & t & Et & Hs%hex_not_special); [by apply Forall_cons in Ha as [? _]|].
    assert (Hp : HasPrefix (groups_text (g :: a) +:+ "::" +:+ groups_text b) "::" = false).
    { rewrite Et. unfold HasPrefix. cbn [String.append String.prefix]. destruct (ascii_dec ":" c); [|done].
      destruct Hs as (_ & Hs & _). congruence. }
    rewrite parseIPv6_plain by done. unfold parse_body. rewrite (bool_decide_eq_false_2 (None = Some 0%nat)) by done.
    cbn [andb]. rewrite ipv6_groups_two by (done || lia).
    destruct (Hfin (length (@nil Z) + 2 * length (g :: a))%nat) as [Hf1 Hf2]; [simpl in *; lia|].
    cbn [mbind option_bind]. change (@nil Z ++ groups_bytes ((g :: a) ++ b))%list with (groups_bytes ((g :: a) ++ b)).
    rewrite Hf2, Hf1. done.
Qed.
End ipv6.

Lemma kind_groups g a rest :
  ParseAddr_kind (groups_text (g :: a) +:+ String ":" rest) = Some ":"%char.
Proof.
  destruct a as [|g' a].
  - apply ParseAddr_kind_hex; [apply fmt_hex16_hex|by right].
  - rewrite groups_text_cons, str_app_assoc. apply ParseAddr_kind_hex; [apply fmt_hex16_hex|by right].
Qed.

(** ** IPv4 *)
Lemma byte_text n : (0 ≤ n < 256)%Z → ipv4_field (fmt_d n) = Some n ∧ str_forallb hex_char (fmt_d n) = true.
Proof.
  intros Hn. assert (H : Forall (λ n, ipv4_field (fmt_d n) = Some n ∧ str_forallb hex_char (fmt_d n) = true) (seqZ 0 256)).
  { apply (bool_decide_unpack _). vm_compute. exact I. }
  rewrite Forall_forall in H. apply H, elem_of_seqZ. lia.
Qed.

Lemma parseIPv4_String q :
  length q = 4%nat → bytes_ok q → netip_ParseAddr (Join (fmt_d <$> q) ".") = Some (q, "").
Proof.
  destruct q as [|a [|b [|c [|d [|? ?]]]]]; intros Hl Hb; simpl in Hl; try lia.
  assert (Hx : ∀ x, x ∈ [a; b; c; d] → ipv4_field (fmt_d x) = Some x ∧ str_forallb hex_char (fmt_d x) = true).
  { intros x Hx. apply byte_text. unfold bytes_ok in Hb. rewrite Forall_forall in Hb. by apply Hb. }
  assert (Ek : ParseAddr_kind (Join (fmt_d <$> [a; b; c; d]) ".") = Some "."%char).
  { cbn [fmap list_fmap Join]. apply (ParseAddr_kind_hex (fmt_d a) "."); [apply Hx; by left|by left]. }
  unfold netip_ParseAddr. rewrite Ek. unfold parseIPv4.
  rewrite Split_Join by (first [done|apply Forall_fmap, Forall_forall; intros x Hx0; eapply (str_forallb_mem hex_char);
    [by apply Hx|done]]).
  cbn [fmap list_fmap].
  rewrite (proj1 (Hx a ltac:(set_solver))), (proj1 (Hx b ltac:(set_solver))), (proj1 (Hx c ltac:(set_solver))),
    (proj1 (Hx d ltac:(set_solver))). done.
Qed.

Lemma canon_16 ip : length ip = 16%nat → is_nil (To4 ip) = true → canon ip = ip.
Proof. intros _ H. unfold canon. by rewrite H. Qed.

(** A printed address reads back as the address, the short form for IPv4. *)
Lemma ParseAddr_String ip :
  bytes_ok ip → length ip = 4%nat ∨ length ip = 16%nat → netip_ParseAddr (IP_String ip) = Some (canon ip, "").
Proof.
  intros Hb Hl. unfold IP_String, canon. destruct (is_nil (To4 ip)) eqn:Hn; cbn [negb].
  - destruct Hl as [Hl|Hl]; [by destruct (canon_4 ip Hl) as (_ & ? & _); congruence|].
    rewrite bool_decide_eq_true_2 by done.
    destruct (groups16_spec 8 ip Hl Hb) as (_ & El & Hg). unfold netip_ParseAddr.
    destruct (longest_zero_run (groups16 ip)) as [[i l]|] eqn:E.
    + pose proof (parse_ellipsis ip Hl Hb i l E) as Hp. unfold groups_text in Hp.
      set (s := Join _ ":" +:+ "::" +:+ Join _ ":") in *.
      assert (Hk : ParseAddr_kind s = Some ":"%char).
      { unfold s. destruct (take i (groups16 ip)) as [|g a]; [done|]. apply (kind_groups g a). }
      by rewrite Hk.
    + pose proof (parse_no_ellipsis ip Hl Hb) as Hp. unfold groups_text in Hp.
      assert (Hk : ParseAddr_kind (Join (fmt_hex16 <$> groups16 ip) ":") = Some ":"%char).
      { destruct (groups16 ip) as [|g [|g' gs]]; [done|done|]. apply (ParseAddr_kind_hex (fmt_hex16 g) ":"); [apply fmt_hex16_hex|by right]. }
      by rewrite Hk.
  - apply parseIPv4_String; [|by apply bytes_ok_To4].
    destruct Hl as [Hl|Hl]; [by destruct (canon_4 ip Hl) as (_ & _ & ->)|].
    rewrite To4_16 in * by done. case_bool_decide; [rewrite length_drop; lia|done].
Qed.

(** ** Networks *)

(** [simpleMaskLength]: the number of leading ones, -1 if there are others. *)
Definition simpleMaskLength (m : list Z) : Z :=
  match List.find (λ k, bool_decide (mask_bytes (length m) k = m)) (seqZ 0 (8 * Z.of_nat (length m) + 1)) with
  | Some k => k
  | None => (-1)%Z
  end.

(** [IPMask.String] *)
Definition Mask_String (m : list Z) : string :=
  if is_nil m then "<nil>" else Join ((λ b, fmt_x (b / 16) +:+ fmt_x (b `mod` 16)%Z) <$> m) "".

(** [IPNet.String] *)
Definition IPNet_String (n : IPNet) : string :=
  let '(nn, m) := networkNumberAndMask n in
  if is_nil nn || is_nil m then "<nil>"
  else
    let l := simpleMaskLength m in
    if (l =? -1)%Z then IP_String nn +:+ "/" +:+ Mask_String m else IP_String nn +:+ "/" +:+ fmt_d l.

(** server/util.go *)
Fixpoint AclToString (acl : list IPNet) : list string :=
  match acl with [] => [] | v :: acl => IPNet_String v :: AclToString acl end.

Lemma shiftr_255_inj n n' : (0 ≤ n < 8)%Z → (0 ≤ n' < 8)%Z → Z.shiftr 255 n = Z.shiftr 255 n' → n = n'.
Proof.
  intros Hn Hn'. assert (H : ∀ k, (0 ≤ k < 8 → k = 0 ∨ k = 1 ∨ k = 2 ∨ k = 3 ∨ k = 4 ∨ k = 5 ∨ k = 6 ∨ k = 7)%Z) by lia.
  pose proof (H n Hn) as H1. pose proof (H n' Hn') as H2.
  destruct H1 as [-> |[-> |[-> |[-> |[-> |[-> |[-> | ->]]]]]]];
    destruct H2 as [-> |[-> |[-> |[-> |[-> |[-> |[-> | ->]]]]]]]; by vm_compute.
Qed.

Lemma mask_bytes_inj k : ∀ n n',
  (0 ≤ n ≤ 8 * Z.of_nat k)%Z → (0 ≤ n' ≤ 8 * Z.of_nat k)%Z → mask_bytes k n = mask_bytes k n' → n = n'.
Proof.
  assert (H0 : ∀ m, (0 ≤ m < 8)%Z → Z.shiftr 255 m ≠ 0%Z).
  { intros m Hm. rewrite Z.shiftr_div_pow2 by lia. pose proof (Z.pow_le_mono_r 2 m 7 ltac:(lia) ltac:(lia)).
    pose proof (Z.pow_pos_nonneg 2 m ltac:(lia) ltac:(lia)). change (2 ^ 7)%Z with 128%Z in *.
    intros E. apply Z.div_small_iff in E; lia. }
  induction k as [|k IH]; intros n n' Hn Hn'; [lia|]. cbn [mask_bytes].
  destruct (Z.leb_spec 8 n) as [H8|H8], (Z.leb_spec 8 n') as [H8'|H8']; intros [= E].
  - apply IH in E; lia.
  - by destruct (H0 n' ltac:(lia)); lia.
  - by destruct (H0 n ltac:(lia)); lia.
  - apply shiftr_255_inj; [lia|lia|]. lia.
Qed.

Lemma simpleMaskLength_bytes k n : (0 ≤ n ≤ 8 * Z.of_nat k)%Z → simpleMaskLength (mask_bytes k n) = n.
Proof.
  intros Hn. unfold simpleMaskLength. rewrite length_mask_bytes. destruct (List.find _ _) as [j|] eqn:E.
  - apply List.find_some in E as [Hj Ej]. apply bool_decide_eq_true in Ej. apply list_elem_of_In, elem_of_seqZ in Hj.
    apply (mask_bytes_inj k) in Ej; lia.
  - eapply List.find_none in E; [|apply list_elem_of_In, (elem_of_seqZ _ _ n); lia].
    apply bool_decide_eq_false in E. done.
Qed.

Lemma bits_text n : (0 ≤ n ≤ 128)%Z →
  dec_go (fmt_d n) 0 = n ∧ str_forallb isDigitByte (fmt_d n) = true ∧ fmt_d n ≠ "".
Proof.
  intros Hn. assert (H : Forall (λ n, dec_go (fmt_d n) 0 = n ∧ str_forallb isDigitByte (fmt_d n) = true ∧ fmt_d n ≠ "") (seqZ 0 129)).
  { apply (bool_decide_unpack _). vm_compute. exact I. }
  rewrite Forall_forall in H. apply H, elem_of_seqZ. lia.
Qed.

Lemma IP_String_no_slash ip :
  bytes_ok ip → length ip = 4%nat ∨ length ip = 16%nat → str_mem "/" (IP_String ip) = false.
Proof.
  intros Hb Hl. set (p := λ c, addr_char c || bool_decide (c = "."%char)). apply (str_forallb_mem p); [|done].
  assert (Hp : ∀ s, str_forallb addr_char s = true → str_forallb p s = true).
  { induction s as [|c s IH]; [done|]. simpl. intros [Hc Hs]%andb_true_iff. unfold p at 1. by rewrite Hc, IH. }
  unfold IP_String. destruct (is_nil (To4 ip)) eqn:Hn; cbn [negb].
  - rewrite bool_decide_eq_true_2; [|destruct Hl as [Hl|Hl]; [by destruct (canon_4 ip Hl) as (_ & ? & _); congruence|done]].
    destruct (longest_zero_run _) as [[i l]|]; [|apply Hp, groups_text_chars].
    rewrite !str_forallb_app. apply andb_true_iff. split; [apply Hp, groups_text_chars|]. apply andb_true_iff.
    split; [done|apply Hp, groups_text_chars].
  - apply str_forallb_Join; [done|]. apply Forall_fmap. eapply Forall_impl; [exact (bytes_ok_To4 ip Hb)|]. intros x Hx. simpl.
    destruct (byte_text x Hx) as [_ Hh]. revert Hh. clear. induction (fmt_d x) as [|c s IH]; [done|]. simpl.
    intros [Hc Hs]%andb_true_iff. unfold p at 1, addr_char at 1. by rewrite Hc, IH.
Qed.

(** Reading a printed network. *)
Lemma ParseCIDR_String ip n :
  bytes_ok ip → length ip = 4%nat ∨ length ip = 16%nat → (0 ≤ n ≤ 8 * Z.of_nat (length ip))%Z →
  let '(net, k) := effective ip n in
  let w := zip_with Z.land net (mask_bytes (length net) k) in
  ParseCIDR (IPNet_String (cidr_net ip n)) = Some (To16 w, cidr_net w k)
  ∧ bytes_ok w ∧ length w = length net ∧ effective w k = (w, k).
Proof.
  intros Hb Hl Hn. pose proof (effective_ok ip n Hb Hl Hn) as He. pose proof (network_cidr ip n Hb Hl Hn) as Hnet.
  unfold IPNet_String. rewrite Hnet. destruct (effective ip n) as [net k]. destruct He as (Hbn & Hk & Hcase). cbv zeta.
  set (m := mask_bytes (length net) k). set (w := zip_with Z.land net m).
  assert (Hw : length w = length net) by (unfold w, m; rewrite length_zip_with, length_mask_bytes; lia).
  assert (Hbw : bytes_ok w).
  { unfold w, bytes_ok. apply Forall_forall. intros x Hx. apply elem_of_lookup_zip_with in Hx as (i & a & b & -> & Ha & _).
    unfold bytes_ok in Hbn. rewrite Forall_lookup in Hbn. specialize (Hbn i a Ha). simpl in Hbn.
    assert (a = Z.land a 255) as Ea by (symmetry; apply land_255; lia).
    assert (Z.land a b = Z.land (Z.land a b) 255) as E.
    { rewrite <-Z.land_assoc, (Z.land_comm b), Z.land_assoc, <-Ea. done. }
    rewrite E. change 255%Z with (Z.ones 8). rewrite Z.land_ones by lia. apply Z.mod_pos_bound. lia. }
  assert (Hlw : length w = 4%nat ∨ length w = 16%nat) by (rewrite Hw; tauto).
  assert (Hcanon : canon w = w ∧ effective w k = (w, k)).
  { unfold effective. destruct Hcase as [Hc|[Hc Hp]]; rewrite Hw, Hc.
    - split; [|done]. by destruct (canon_4 w ltac:(lia)) as (? & _).
    - unfold canon. rewrite (To4_16 w) by lia. unfold w, m in *. rewrite Hc in *.
      rewrite bool_decide_eq_false_2 by done. done. }
  destruct Hcanon as [Hcanon Heff].
  assert (Hnil : is_nil w || is_nil m = false).
  { unfold is_nil. rewrite !bool_decide_eq_false_2; [done|intros E|intros E].
    - apply (f_equal length) in E. unfold m in E. rewrite length_mask_bytes in E. simpl in E. lia.
    - rewrite E in Hlw. simpl in Hlw. lia. }
  rewrite Hnil. assert (Hs : simpleMaskLength m = k) by (by apply simpleMaskLength_bytes). rewrite Hs.
  destruct (Z.eqb_spec k (-1)); [lia|]. destruct (bits_text k) as (Ed & Hdig & Hne); [lia|].
  split_and!; [|done|done|done]. unfold ParseCIDR. simpl.
  rewrite cut_app by (by apply IP_String_no_slash). simpl. rewrite ParseAddr_String, Hcanon by done.
  rewrite Ed, Hdig, bool_decide_eq_false_2 by done. simpl. destruct (Z.ltb_spec (8 * Z.of_nat (length w)) k); [lia|]. done.
Qed.

Lemma same_prefix_masked net k c :
  bytes_ok net → bytes_ok c → (0 ≤ k ≤ 8 * Z.of_nat (length net))%Z →
  bytes_ok (zip_with Z.land net (mask_bytes (length net) k)) →
  same_prefix (zip_with Z.land net (mask_bytes (length net) k)) k c = same_prefix net k c.
Proof.
  intros Hn Hc Hk Hw. unfold same_prefix. rewrite length_zip_with, length_mask_bytes, Nat.min_id.
  destruct (bool_decide_reflect (length c = length net)) as [Hl|]; [|done]. simpl.
  rewrite <-!(masked_eq_prefix (length net)); try done; [|by rewrite length_zip_with, length_mask_bytes, Nat.min_id].
  by rewrite masked_eq_masked by (by rewrite length_mask_bytes).
Qed.

(** A printed network holds the addresses of the network. *)
Lemma printed_network spec ip n :
  ParseCIDR spec = Some (ip, n) →
  ∃ ip' n', ParseCIDR (IPNet_String n) = Some (ip', n') ∧ ∀ c, bytes_ok (canon c) → Contains n' c = Contains n c.
Proof.
  unfold ParseCIDR at 1. destruct (cut spec "/") as [[addr mask]|]; [|done]. simpl.
  destruct (netip_ParseAddr addr) as [[a z]|] eqn:Ea; [|done]. destruct z; [|done]. simpl.
  destruct (_ || _) eqn:Em; [done|]. intros [= <- <-]. apply netip_ParseAddr_ok in Ea as [Hb Hl].
  apply orb_false_iff in Em as [Em Hbits%Z.ltb_ge]. apply orb_false_iff in Em as [_ Em%negb_false_iff].
  pose proof (dec_go_nonneg mask 0 Em ltac:(lia)) as Hnn. set (k0 := dec_go mask 0) in *.
  change (mkIPNet _ _) with (cidr_net a k0).
  pose proof (ParseCIDR_String a k0 Hb Hl (conj Hnn Hbits)) as HS.
  pose proof (effective_ok a k0 Hb Hl (conj Hnn Hbits)) as He.
  pose proof (λ c, Contains_cidr a k0 c Hb Hl (conj Hnn Hbits)) as HC.
  destruct (effective a k0) as [net k]. destruct HS as (HP & Hbw & Hlw & Heff). destruct He as (Hbn & Hk & Hcase).
  eexists _, _. split; [exact HP|]. intros c Hc. rewrite HC by done.
  rewrite Contains_cidr; [|done|rewrite Hlw; tauto|by rewrite Hlw|done]. rewrite Heff. by apply same_prefix_masked.
Qed.

Lemma printed_acl specs nets :
  Forall2 (λ v n, ∃ ip, ParseCIDR v = Some (ip, n)) specs nets →
  ∃ nets', Forall2 (λ v n, ∃ ip, ParseCIDR v = Some (ip, n)) (AclToString nets) nets'
    ∧ ∀ c, bytes_ok (canon c) → checkAcl_loop nets' c = checkAcl_loop nets c.
Proof.
  induction 1 as [|v n specs nets (ip & Hv) _ (nets' & IH & Hc)]; [by exists []|].
  destruct (printed_network v ip n Hv) as (ip' & n' & Hp & Hn). exists (n' :: nets'). split.
  - simpl. apply List.Forall2_cons; [by exists ip'|done].
  - intros c Hb. simpl. by rewrite Hn, Hc.
Qed.

Lemma To16_16 ip : length ip = 16%nat → To16 ip = ip.
Proof. intros H. unfold To16. by rewrite H. Qed.

(** ** Properties *)

(** C26: the access list that the server prints when it starts is a list of
    networks that can be configured as they are, one for each entry, and that
    admits the same clients; this rests on every printed IPv4 and IPv6 address
    reading back as itself. *)
Theorem AclToString_reads_back (specs : list string) (nets : list IPNet) :
  Forall2 (λ v n, ∃ ip, ParseCIDR v = Some (ip, n)) specs nets →
  (∃ nets', Forall2 (λ v n, ∃ ip, ParseCIDR v = Some (ip, n)) (AclToString nets) nets'
     ∧ length nets' = length nets ∧ ∀ host, checkAcl nets' (ParseIP host) = checkAcl nets (ParseIP host))
  ∧ ∀ host, ParseIP host ≠ [] → ParseIP (IP_String (ParseIP host)) = ParseIP host.
Proof.
  intros H. split.
  - destruct (printed_acl specs nets H) as (nets' & HP & HC). exists nets'.
    assert (Hlen : length nets' = length nets).
    { apply Forall2_length in HP. rewrite <-HP. clear. induction nets as [|n nets IH]; [done|]. simpl. by rewrite IH. }
    split_and!; [done|done|]. intros host. unfold checkAcl. rewrite Hlen.
    case_bool_decide; [done|]. apply HC, canon_bytes_ok, ParseIP_bytes_ok.
  - intros host Hne. pose proof (ParseIP_bytes_ok host) as Hb.
    assert (E0 : ∃ ip, netip_ParseAddr host = Some (ip, "") ∧ ParseIP host = To16 ip).
    { unfold ParseIP in Hne |- *. destruct (netip_ParseAddr host) as [[ip [|? ?]]|]; [by eexists|done|done]. }
    destruct E0 as (ip & E & E'). rewrite E' in Hb |- *. unfold ParseIP. clear E' Hne.
    apply netip_ParseAddr_ok in E as [Hip Hl].
    assert (H16 : length (To16 ip) = 16%nat) by (unfold To16; destruct Hl as [Hl|Hl]; rewrite Hl; simpl; rewrite ?Hl; done).
    rewrite ParseAddr_String by (done || by right). unfold canon.
    destruct (is_nil (To4 (To16 ip))) eqn:En.
    + by apply To16_16.
    + rewrite To4_16 in En |- * by done. case_bool_decide as Em; [|done].
      set (x := To16 ip) in *. clearbody x. unfold To16.
      rewrite bool_decide_eq_true_2 by (rewrite length_drop; lia). by rewrite <-Em, take_drop.
Qed.

Lemma AclToString_reads_back_witness :
  AclToString (c_Acl (cfg acl_st)) = ["192.0.2.0/24"; "198.51.100.0/24"; "2001:db8::/32"]
  ∧ ∃ nets', Forall2 (λ v n, ∃ ip, ParseCIDR v = Some (ip, n)) ["192.0.2.0/24"; "198.51.100.0/24"; "2001:db8::/32"] nets'
      ∧ ∀ host, checkAcl nets' (ParseIP host) = checkAcl (c_Acl (cfg acl_st)) (ParseIP host).
Proof.
  assert (Ht : AclToString (c_Acl (cfg acl_st)) = ["192.0.2.0/24"; "198.51.100.0/24"; "2001:db8::/32"]) by (vm_compute; reflexivity).
  split; [exact Ht|]. destruct (AclToString_reads_back acl_specs (c_Acl (cfg acl_st))) as [(nets' & HP & _ & HC) _].
  - repeat (apply Forall2_cons; split; [eexists; vm_compute; reflexivity|]). by apply Forall2_nil.
  - rewrite Ht in HP. exists nets'. split; [exact HP|exact HC].
Defined.
