(* ===== verification/Startup.v ===== *)
(** * Starting the server (server/server.go [StartServer], cmd/dinosaur/main.go)

    What [StartServer] does, in order: the handler is registered, the listeners,
    the flush and refresh loops, the API and the DoH server are started, the
    configuration is logged, and the caller is told that the server is ready. *)

From S2P Require Import Prelude GoStrings GoNet GoTime Dns Samples BlockList Cache CircularBuffer Stats.
From S2P Require Import Resolver Logger Config Util Proxy ProxySpec ConfigLoad Api Server Options.
From S2P Require Import Json JsonData JsonRpc Acl AddrText ApiHttp.
Set Default Goal Selector "!".
Local Open Scope string_scope.

Inductive StartAction :=
  | LogDebug (text : string)
  | HandleFunc (pattern : string)
  | GoListen (srv : DnsServer)
  | GoFlush (interval : Duration)
  | GoRefresh (interval : Duration)
  | GoApi
  | GoDoh
  | LogLine (text : string)
  | Sleep (d : Duration)
  | SendReady
  | WaitDone.

Section start.
Context {R US Chan : Type} {RI : Resolver R US}.

(** [nils]: the tags of the [nil] slices of the options; the text of a [nil]
    configuration is null. *)
Definition start_parts (nils : string → bool) (c : ProxyConfig R Chan) : list StartAction :=
  let json_config := MarshalIndent (match c_UserConfig c with Some uc => UserConfig_json nils uc | None => JNull end) in
  ([LogDebug (json_config +:+ NL); HandleFunc "."]
   ++ (GoListen <$> listeners (c_ListenAddr c))
   ++ [GoFlush (c_CacheFlush c)]
   ++ (if c_Refresh c then [GoRefresh (c_RefreshInterval c)] else [])
   ++ (if c_Api c then [GoApi] else [])
   ++ (if bool_decide (0 < length (c_DohBind c))%nat then [GoDoh] else [])
   ++ [LogLine ("Started server: " +:+ Join (c_ListenAddr c) " ");
       LogLine ("Upstream: " +:+ Join (Resolver_String <$> c_Upstream c) " ");
       LogLine ("Blocklist: " +:+ fmt_int (Z.of_nat (BlockList.Count (c_BlockList c))) +:+ " entries");
       LogLine ("ACL: " +:+ Join (AclToString (c_Acl c)) " ");
       Sleep (Second / 10)%Z])%list.

Definition StartServer (nils : string → bool) (c : ProxyConfig R Chan) : list StartAction :=
  (start_parts nils c ++ [SendReady; WaitDone])%list.
End start.

(** ** Which parts are started *)
Section parts.
Context {R US Chan : Type} {RI : Resolver R US}.
Context (nils : string → bool) (c : ProxyConfig R Chan).
Notation acts := (StartServer (US := US) nils c).

(** Membership in the sequence of a start. *)
Lemma elem_of_if {A} (x : A) (b : bool) (l : list A) : x ∈ (if b then l else []) ↔ b = true ∧ x ∈ l.
Proof. destruct b; [tauto|]. rewrite elem_of_nil. naive_solver. Qed.

Ltac in_start :=
  unfold StartServer, start_parts; cbv zeta;
  repeat match goal with
         | |- context [LogLine ?t] => first [is_var t; fail 1|generalize t; intros ?]
         | |- context [LogDebug ?t] => first [is_var t; fail 1|generalize t; intros ?]
         end;
  rewrite !elem_of_app, ?list_elem_of_fmap, ?elem_of_if, ?elem_of_cons, ?elem_of_nil, ?bool_decide_eq_true;
  naive_solver.

Lemma start_listen srv : GoListen srv ∈ acts ↔ srv ∈ listeners (c_ListenAddr c).
Proof. in_start. Qed.

Lemma start_refresh d : GoRefresh d ∈ acts ↔ c_Refresh c = true ∧ d = c_RefreshInterval c.
Proof. in_start. Qed.

Lemma start_api : GoApi ∈ acts ↔ c_Api c = true.
Proof. in_start. Qed.

Lemma start_doh : GoDoh ∈ acts ↔ (0 < length (c_DohBind c))%nat.
Proof. in_start. Qed.

Lemma start_acl : LogLine ("ACL: " +:+ Join (AclToString (c_Acl c)) " ") ∈ acts.
Proof. in_start. Qed.

(** Each part is started once, and the listeners in the order of the addresses. *)
Definition part (a : StartAction) : list StartAction :=
  match a with GoListen _ | GoFlush _ | GoRefresh _ | GoApi | GoDoh => [a] | _ => [] end.
Lemma start_each_once :
  mbind part acts
  = ((GoListen <$> listeners (c_ListenAddr c)) ++ [GoFlush (c_CacheFlush c)]
     ++ (if c_Refresh c then [GoRefresh (c_RefreshInterval c)] else []) ++ (if c_Api c then [GoApi] else [])
     ++ (if c_DohBind c then [] else [GoDoh]))%list.
Proof.
  assert (Hl : ∀ l, mbind part (GoListen <$> l) = GoListen <$> l) by (induction l; by f_equal/=).
  unfold StartServer, start_parts. cbv zeta. rewrite !bind_app, Hl. simpl. rewrite app_nil_r. do 2 f_equal.
  destruct (c_Refresh c), (c_Api c), (c_DohBind c); reflexivity.
Qed.

Lemma start_ready : SendReady ∉ start_parts (US := US) nils c.
Proof. in_start. Qed.
End parts.

Section properties.
Context {U : GoUnicode} {L : DnsLib} {HL : DnsLaws L} {O : Os} {Chan : Type}.
Context (Unmarshal : string → UserConfig → string + UserConfig).
Context (ZoneParser : Reader → list RR * option string).
Context (ParseDuration : string → string + Duration) (Duration_String : Duration → string).
Context (stamp : nat → Stamp).
Context {US : Type} {RI : Resolver AnyResolver US}.

Lemma listeners_elem srv addrs :
  srv ∈ listeners addrs ↔ ∃ a, a ∈ addrs ∧
    (srv = mkDnsServer a (listen_nets a).1 4096 ∨ srv = mkDnsServer a (listen_nets a).2 0).
Proof.
  induction addrs as [|a addrs IH]; simpl; [set_solver|]. destruct (listen_nets a) as [u t] eqn:E.
  rewrite !elem_of_cons, IH. split.
  - intros [->|[->|(b & Hb & H)]]; [exists a|exists a|exists b]; rewrite ?E; set_solver.
  - intros (b & [->|Hb]%elem_of_cons & H); [rewrite E in H; simpl in H; tauto|]. right. right. by exists b.
Qed.

(** The server that is started, when the options hold no empty address and no
    block-delete of the root: for every configured address a UDP and a TCP
    listener, of one address family for the all-zero addresses, after the handler
    is registered; the refresh loop, the API and the DoH server exactly when they
    are configured; a refresh at most once a second that cannot panic, and a start
    of the API that cannot; an access list in the log that reads back as the one in
    force; and the ready message last, before the server waits. *)
Theorem start_runs_configured_parts (nils : string → bool) (ListenUnix Listen : string → error)
    (f : Flags) (uc0 : UserConfig) (c : ProxyConfig AnyResolver Chan) :
  (∀ s r, NewRR s = inr (Some r) → rr_ok r) → (∀ fl, Forall rr_ok (ZoneParser fl).1) →
  (∀ n, (st_now (stamp n) ≤ st_now' (stamp n))%Z) →
  helpFlag f = false → read_config Unmarshal f NewUserConfig = inr uc0 →
  (∀ v, v ∈ (u_Listen uc0 ++ listenFlag f)%list → v ≠ "") → (∀ v, v ∈ (u_Doh uc0 ++ dohFlag f)%list → v ≠ "") →
  (∀ v, v ∈ (u_BlockDelete uc0 ++ blockDeleteFlag f)%list → v ≠ "" ∧ v ≠ ".") →
  main_config Unmarshal ZoneParser ParseDuration Duration_String stamp f = Ok (inr c) →
  let acts := StartServer (US := US) nils c in
  (∃ first rest, acts = (first :: HandleFunc "." :: rest)%list ∧ ∀ srv, GoListen srv ≠ first)
  ∧ (∀ srv, GoListen srv ∈ acts ↔ ∃ a, a ∈ c_ListenAddr c ∧
       (srv = mkDnsServer a (listen_nets a).1 4096 ∨ srv = mkDnsServer a (listen_nets a).2 0))
  ∧ (∀ d, GoRefresh d ∈ acts ↔ c_Refresh c = true ∧ d = c_RefreshInterval c)
  ∧ (Second ≤ c_RefreshInterval c)%Z ∧ refresh_turn c ≠ Panic
  ∧ (GoApi ∈ acts ↔ c_Api c = true) ∧ MakeApiHandler ListenUnix Listen c ≠ Panic
  ∧ (GoDoh ∈ acts ↔ c_DohBind c ≠ [])
  ∧ (∃ nets', LogLine ("ACL: " +:+ Join (AclToString (c_Acl c)) " ") ∈ acts
       ∧ Forall2 (λ v n, ∃ ip, ParseCIDR v = Some (ip, n)) (AclToString (c_Acl c)) nets'
       ∧ ∀ host, checkAcl_loop nets' (ParseIP host) = checkAcl_loop (c_Acl c) (ParseIP host))
  ∧ (∃ front, acts = (front ++ [SendReady; WaitDone])%list ∧ SendReady ∉ front).
Proof.
  intros Hnew Hzone Hstamp Hh Hr Hl Hdoh Hd Hm acts.
  destruct (main_config_spec (Chan := Chan) Unmarshal ZoneParser ParseDuration Duration_String stamp f uc0 Hnew Hzone Hstamp Hh Hr Hl Hdoh Hd)
    as (r & E & H). rewrite Hm in E. injection E as <-. destruct H as (nets & Hi & Ha & Hu).
  split_and!.
  - eexists _, _. split; [reflexivity|]. by intros srv.
  - intros srv. unfold acts. by rewrite start_listen, listeners_elem.
  - intros d. apply start_refresh.
  - apply Hi.
  - unfold refresh_turn, refresh_blocklist. rewrite Hu.
    destruct (UpdateBlockList_spec (apply_flags f uc0) BlockList.New reach_New Hd) as ([e|] & b & -> & _); done.
  - apply start_api.
  - unfold MakeApiHandler, bindListener. pose proof (ok_api _ _ _ Hi) as Hb. apply bool_decide_eq_false in Hb.
    destruct (c_ApiBind c) as [|ch addr]; [done|]. by case_bool_decide.
  - unfold acts. rewrite start_doh. destruct (c_DohBind c); simpl; split; [lia|done|done|lia].
  - rewrite <-(ok_acl _ _ _ Hi) in Ha. destruct (printed_acl _ _ Ha) as (nets' & HP & HC). exists nets'.
    split_and!; [apply start_acl|done|]. intros host. apply HC, canon_bytes_ok, ParseIP_bytes_ok.
  - exists (start_parts (US := US) nils c). split; [done|apply start_ready].
Qed.
End properties.

(** A start with the API and an access list; the file is the one of [sample_json]. *)
Definition start_flags : Flags :=
  mkFlags false "list.txt" false "" true "" "" "" "/q" false "" true false false ""
    ["0.0.0.0:53"] ["192.0.2.53"] ["ads.example.com"] [] [] [] [] [] [] [] ["10.0.0.0/8"; "::ffff:192.0.2.0/120"] [].

(** Upstreams that never answer, with their own names. *)
Definition offline_resolver : Resolver AnyResolver nat :=
  {| Resolve _ _ u := (inl "offline", S u);
     Resolver_String r := match r with RUdp r => udp_Upstream r | RDot r => dot_upstream r | RDoh r => doh_Upstream r end |}.

Lemma start_runs_configured_parts_witness :
  ∃ c : ProxyConfig AnyResolver nat,
    main_config sample_json (λ _, ([], None)) (λ _, inl "") (λ _, "") sample_stamp start_flags = Ok (inr c)
    ∧ GoApi ∈ StartServer (RI := offline_resolver) (λ f, bool_decide (f = "doh")) c
    ∧ GoListen (mkDnsServer "0.0.0.0:53" "udp4" 4096)
        ∈ StartServer (RI := offline_resolver) (λ f, bool_decide (f = "doh")) c
    ∧ AclToString (c_Acl c) = ["10.0.0.0/8"; "192.0.2.0/24"].
Proof.
  assert (H : ∃ c : ProxyConfig AnyResolver nat,
    main_config sample_json (λ _, ([], None)) (λ _, inl "") (λ _, "") sample_stamp start_flags = Ok (inr c)
    ∧ c_Api c = true ∧ c_ListenAddr c = ["0.0.0.0:53"] ∧ AclToString (c_Acl c) = ["10.0.0.0/8"; "192.0.2.0/24"]).
  { eexists. split; [vm_compute; reflexivity|]. vm_compute. split; [reflexivity|split; reflexivity]. }
  destruct H as (c & E & Hapi & Hl & Hacl).
  destruct (start_runs_configured_parts (RI := offline_resolver) sample_json (λ _, ([], None)) (λ _, inl "") (λ _, "") sample_stamp
    (λ f, bool_decide (f = "doh")) (λ _, None) (λ _, None) start_flags
    (mkUserConfig [] [] [] ["bad.example.org"] [] [] [] [] [] [] [] false "" false "" [] "" "" "/p" false ""
         false false false "nobody") c) as (_ & Hlisten & _ & _ & _ & Ha & _).
  - exact sample_NewRR_Ttl.
  - intros fl. constructor.
  - intros n. simpl. lia.
  - reflexivity.
  - reflexivity.
  - simpl. intros v ->%list_elem_of_singleton. discriminate.
  - simpl. intros v Hv%elem_of_nil. destruct Hv.
  - simpl. intros v Hv%elem_of_nil. destruct Hv.
  - exact E.
  - exists c. split; [exact E|]. split; [apply Ha, Hapi|]. split; [|exact Hacl]. apply Hlisten. exists "0.0.0.0:53".
    rewrite Hl. split; [left|left; reflexivity].
Defined.
