(* ===== verification/PoolCmd.v ===== *)
(** * The pool experiment (cmd/pool/main.go)

    [dotQuery] sends a query over a connection of a [sync.Pool] whose [New] dials.
    [Get] takes any pooled item or makes one, as the runtime likes; [choose] is that
    choice.  The loop is given fuel: [None] is a query that is still running. *)

From S2P Require Import Prelude GoStrings GoNet GoTime Dns.
Set Default Goal Selector "!".
Local Open Scope string_scope.

Section pool.
Context {W Conn Err : Type}.
(** [Client.Dial], [Client.ExchangeWithConn], [Conn.Close], [errors.Is(err, net.ErrClosed)]. *)
Context (Dial : W → (Err + Conn) * W) (ExchangeWithConn : Msg → Conn → W → (Err + Msg * Duration) * W).
Context (conn_Close : Conn → W → W) (is_ErrClosed : Err → bool).

(** Either the connection or the error of the dial. *)
Definition DnsConnPool : Type := Err + Conn.

Context (choose : W → list DnsConnPool → option nat).

Record PoolSt := mkPoolSt { items : list DnsConnPool; world : W }.

Definition New (s : PoolSt) : DnsConnPool * PoolSt :=
  let '(p, w) := Dial (world s) in (p, mkPoolSt (items s) w).

Definition pool_Get (s : PoolSt) : DnsConnPool * PoolSt :=
  match choose (world s) (items s) with
  | None => New s
  | Some i => match items s !! i with
              | Some p => (p, mkPoolSt (delete i (items s)) (world s))
              | None => New s
              end
  end.

Definition pool_Put (p : DnsConnPool) (s : PoolSt) : PoolSt := mkPoolSt (p :: items s) (world s).

Definition retryLimit : nat := 3.

(** The loop after [retries] closed connections; [last] are the named results. *)
Fixpoint dotQuery_loop (fuel retries : nat) (q : Msg) (last : option (Err + Msg * Duration)) (s : PoolSt)
    : option (option (Err + Msg * Duration) * PoolSt) :=
  if Nat.ltb retries retryLimit then
    match fuel with
    | O => None
    | S fuel =>
        let '(c, s) := pool_Get s in
        match c with
        | inl _ => dotQuery_loop fuel retries q last s
        | inr conn =>
            let '(r, w) := ExchangeWithConn q conn (world s) in
            let s := mkPoolSt (items s) w in
            match r with
            | inr _ => Some (Some r, pool_Put c s)
            | inl err => if is_ErrClosed err then dotQuery_loop fuel (S retries) q (Some r) s else Some (Some r, s)
            end
        end
    end
  else Some (last, s).

Definition dotQuery (fuel : nat) (q : Msg) (s : PoolSt) : option (option (Err + Msg * Duration) * PoolSt) :=
  dotQuery_loop fuel 0 q None s.

(** The deliberate close of the rounds 0 and 3; closing a [nil] connection panics. *)
Definition close_one (s : PoolSt) : res PoolSt :=
  let '(c, s) := pool_Get s in
  match c with
  | inl _ => Panic
  | inr conn => Ok (pool_Put c (mkPoolSt (items s) (conn_Close conn (world s))))
  end.

(** The five rounds: the results that are printed. *)
Fixpoint main_loop (fuel : nat) (rounds : list nat) (q : Msg) (s : PoolSt)
    : res (option (list (nat * option (Err + Msg * Duration)) * PoolSt)) :=
  match rounds with
  | [] => Ok (Some ([], s))
  | i :: rounds =>
      s ← (if bool_decide (i = 3 ∨ i = 0) then close_one s else Ok s);
      match dotQuery fuel q s with
      | None => Ok None
      | Some (r, s) =>
          rest ← main_loop fuel rounds q s;
          Ok (match rest with Some (out, s) => Some ((i, r) :: out, s) | None => None end)
      end
  end.
Definition pool_main (fuel : nat) (q : Msg) (s : PoolSt) := main_loop fuel (seq 0 5) q s.

(** ** Termination *)

Definition pooled_ok (s : PoolSt) : Prop := Forall (λ p, ∃ c, p = inr c) (items s).

(** While dialling succeeds a query ends after at most three connections. *)
Theorem dotQuery_returns (q : Msg) (s : PoolSt) :
  (∀ w, ∃ c, (Dial w).1 = inr c) → pooled_ok s →
  ∃ r s', dotQuery 3 q s = Some (Some r, s') ∧ pooled_ok s'.
Proof.
  intros Hd. assert (Hget : ∀ s, pooled_ok s → ∃ c s', pool_Get s = (inr c, s') ∧ pooled_ok s').
  { intros s0 Hs. unfold pool_Get, New. destruct (Hd (world s0)) as [c Ec]. destruct (Dial (world s0)) as [p w]. simpl in Ec. subst p.
    destruct (choose _ _) as [i|]; [destruct (items s0 !! i) as [p|] eqn:Ei|]; [|by eauto|by eauto].
    unfold pooled_ok in Hs. pose proof (Forall_lookup_1 _ _ _ _ Hs Ei) as [c' ->]. eexists _, _. split; [done|].
    by apply Forall_delete. }
  assert (Hloop : ∀ n last s, pooled_ok s → (n ≤ 3)%nat → (n = 0%nat → is_Some last) →
    ∃ r s', dotQuery_loop n (3 - n)%nat q last s = Some (Some r, s') ∧ pooled_ok s').
  { induction n as [|n IH]; intros last s0 Hs Hn Hlast.
    { destruct (Hlast eq_refl) as [r ->]. by exists r, s0. }
    cbn [dotQuery_loop]. destruct (Nat.ltb_spec (3 - S n)%nat retryLimit); [|unfold retryLimit in *; lia].
    destruct (Hget s0 Hs) as (c & s1 & -> & Hs1). destruct (ExchangeWithConn q c (world s1)) as [[err|m] w].
    - destruct (is_ErrClosed err); [|by eauto]. replace (S (3 - S n))%nat with (3 - n)%nat by lia. apply IH; [done|lia|by eauto].
    - eexists _, _. split; [done|]. apply Forall_cons. split; [by eauto|done]. }
  intros Hs. apply (Hloop 3%nat None); [done|lia|done].
Qed.

(** While dialling fails a query never ends: the failed attempts are not counted. *)
Theorem dotQuery_spins (q : Msg) (fuel : nat) (w : W) :
  (∀ w, ∃ e, (Dial w).1 = inl e) → dotQuery fuel q (mkPoolSt [] w) = None.
Proof.
  intros Hd. unfold dotQuery. revert w. induction fuel as [|fuel IH]; intros w; [done|]. cbn [dotQuery_loop].
  change (Nat.ltb 0 retryLimit) with true. cbn iota. unfold pool_Get, New. simpl.
  destruct (Hd w) as [e Ee]. destruct (Dial w) as [p w']. simpl in Ee. subst p.
  destruct (choose w []); simpl; apply IH.
Qed.
End pool.
