(* ===== verification/TestUtil.v ===== *)
(** * The test helpers (util/testutil.go)

    The checks that the test suite applies to responses.  A check passes, records an
    error ([t.Error]) or stops the test ([t.Fatal]). *)

From S2P Require Import Prelude GoStrings GoNet GoTime Dns Samples BlockList Cache Acl AddrText.
Set Default Goal Selector "!".
Local Open Scope string_scope.

Inductive Verdict := Pass | TError (msg : string) | TFatal (msg : string).

Section helpers.
Context {L : DnsLib}.
(** [i] is the random identifier that [SetQuestion] draws; an unknown type is the
    zero value of the map. *)
Definition CreateQuery (i : Z) (qname qtype : string) : Msg :=
  SetQuestion i new_Msg (Fqdn qname) (StringToType0 qtype).

(** The loop over the answer. *)
Fixpoint CheckResponse_loop (answer : list RR) (expected : string) : Verdict :=
  match answer with
  | [] => TError ("Response not found:  " +:+ expected)
  | a :: answer =>
      let found := match a with
                   | RR_A _ ip | RR_AAAA _ ip => Some (bool_decide (IP_String ip = expected))
                   | RR_PTR _ ptr => Some (bool_decide (ptr = expected))
                   | RR_other _ _ => None
                   end in
      match found with
      | Some true => Pass
      | Some false => CheckResponse_loop answer expected
      | None => Pass
      end
  end.

Definition CheckResponse (msg : option Msg) (expected : string) : Verdict :=
  match msg with
  | None => TFatal "Invalid DNS Response (Nil)"
  | Some msg =>
      match Answer msg with
      | [] => if (Rcode msg =? RcodeServerFailure)%Z then TFatal "Upstream error (SRVFAIL) - check network?"
              else TFatal "Invalid DNS Response - No Answer RRs"
      | _ => CheckResponse_loop (Answer msg) expected
      end
  end.

(** The texts of the last cases name the question and the code. *)
Definition CheckResponseEmpty (msg : option Msg) (describe : Msg → string) : Verdict :=
  match msg with
  | None => TFatal "Invalid DNS Response (Nil)"
  | Some msg =>
      if (Rcode msg =? RcodeSuccess)%Z then
        if negb (bool_decide (length (Answer msg) = 0%nat)) then TFatal "Expected no answer records" else Pass
      else if (Rcode msg =? RcodeServerFailure)%Z then TFatal "Upstream error (SRVFAIL) - check network?"
      else TFatal ("Invalid response" +:+ describe msg)
  end.

Definition CheckResponseNxdomain (msg : option Msg) (describe : Msg → string) : Verdict :=
  match msg with
  | None => TFatal "Invalid DNS Response (Nil)"
  | Some msg =>
      if (Rcode msg =? RcodeNameError)%Z then Pass
      else if (Rcode msg =? RcodeServerFailure)%Z then TFatal "Upstream error (SRVFAIL) - check network?"
      else TFatal ("Invalid Rcode (expected NXDOMAIN)" +:+ describe msg)
  end.

(** The address check passes for the expected address, but also for any response
    in which a record of another type (an alias, say) comes before. *)
Definition proves_answer (expected : string) (rr : RR) : Prop :=
  match rr with
  | RR_A _ ip | RR_AAAA _ ip => IP_String ip = expected
  | RR_PTR _ ptr => ptr = expected
  | RR_other _ _ => True
  end.

Theorem CheckResponse_passes_iff (msg : option Msg) (expected : string) :
  CheckResponse msg expected = Pass ↔ ∃ m, msg = Some m ∧ Exists (proves_answer expected) (Answer m).
Proof.
  destruct msg as [m|]; simpl; [|split; [done|by intros (? & ? & _)]]. split.
  - intros H. exists m. split; [done|]. revert H. destruct (Answer m) as [|a l]; [by case_match|].
    generalize (a :: l) as an. induction an as [|rr an IH]; simpl; [done|].
    destruct rr as [h ip|h ip|h p|h d]; simpl; try case_bool_decide; intros Hp; first [by left|right; by apply IH].
  - intros (m' & [= <-] & H). destruct (Answer m) as [|a l]; [by apply Exists_nil in H|].
    induction H as [rr an H|rr an _ IH]; [|destruct rr; simpl; try case_bool_decide; done].
    destruct rr; simpl in *; rewrite ?bool_decide_eq_true_2 by done; done.
Qed.
End helpers.

(** Two addresses print the same only if they are the same, so an address check that
    passes on an address record proves the address. *)
Theorem IP_String_inj ip ip' :
  bytes_ok ip → bytes_ok ip' → length ip = 4%nat ∨ length ip = 16%nat → length ip' = 4%nat ∨ length ip' = 16%nat →
  IP_String ip = IP_String ip' → canon ip = canon ip'.
Proof.
  intros Hb Hb' Hl Hl' E. pose proof (ParseAddr_String ip Hb Hl) as H1. pose proof (ParseAddr_String ip' Hb' Hl') as H2.
  rewrite E in H1. congruence.
Qed.
